(* ===== verification/_CoqProject ===== *)
-Q . S2P
Prelude.v
Mapping.v
Xattr.v
ConfigData.v
Config.v
Libc.v
Sys.v
Ffi.v
Openat2.v
Node.v
Tree.v
Wrappers.v
DataSource.v
Whiteout.v
Layer.v
Copyup.v
CopyData.v
Ends.v
Overlay.v
EndsInner.v
Merge.v
LoadDir.v
MemLayer.v
Agree.v
Ops.v
OpsTree.v
OpsFile.v
Requests.v
Locks.v
Replies.v
Limits.v
Flags.v
Divergences.v
Handles.v
Threads.v
Listing.v
Overrides.v
Provenance.v
SafeCopy.v
CopyWhole.v
SafeInner.v
SafeTree.v
SafeOps.v
Session.v
Interleave.v
EndsOps.v
Main.v
Readonly.v
Disk.v
Effects.v
Visible.v
CopyDisk.v
CopyDirs.v
Removal.v
Creating.v
CreatingDirs.v
TwoNames.v
Linking.v
Branch.v
Renaming.v
DiskKernel.v
DiskRuns.v
