(* ===== verification/Prelude.v ===== *)
(** * fuse-overlayfs: a verification library

    ** The program

    fuse-overlayfs (src/src/, Rust) is an overlay file system in user space.  A
    mount has an optional upper layer, which is writable, and any number of
    lower ones, which are not.  [main] (main.rs) parses the command line
    (config.rs, mapping.rs), opens the layers (layer.rs, direct.rs) and the
    work directory and hands the state of overlay.rs to the fuser crate, which
    calls one method of [impl Filesystem] per request of the kernel.  A request
    works on a tree of nodes (node.rs), which is filled from the layers on
    demand: by listing a directory in every layer ([load_dir_impl]) or by
    asking every layer for one name ([do_lazy_lookup]).  Whiteouts and opaque
    directories (whiteout.rs) hide what is below.  Before anything is changed
    the file is copied to the upper layer (copyup.rs).  Attributes pass through
    the name filters of xattr.rs.  Layers are reached through the trait of
    datasource.rs, implemented by direct.rs over the confined opens of
    sys/openat2.rs; every kernel call is a wrapper of sys/.

    ** How it is modelled

    Code without effects is a Rocq function; bytes and strings are lists of
    [ascii], integers are [Z] with the wrap-around written out where the code
    can reach it ([wrap_u32], [wrap_i64], ...).  Code with effects is a
    [prog] of Sys.v: a tree of the calls it makes, for every answer, with the
    Rust panic and a loop that does not end as outcomes; [SM S A] threads the
    mutable state [S].  A theorem about a program therefore quantifies over
    every behaviour of the kernel, or over those a policy or a hypothesis
    names.  [FsResult] is [Ok] or an errno.

    ** The files

    Foundations:
    - Prelude: notation, tactics, the [ovl] hint database, lemmas on lists,
      byte strings, numbers printed and parsed, machine integers.
    - Libc: the vocabulary of the libc crate.
    - Sys: calls, programs, [SM], weakest preconditions [sm_wp] over a policy,
      [sm_always] (what holds of every outcome), [exec] and [run].

    Components, each with its own theorems where nothing else is needed:
    - Mapping (mapping.rs), Xattr (xattr.rs), ConfigData and Config (config.rs).
    - Ffi and Wrappers (sys/fs.rs, io.rs, dir.rs, handle.rs, statx.rs, xattr.rs
      and [FsError::last] of error.rs): the C library and the wrappers over it.
    - Openat2 (sys/openat2.rs): the confined opens.
    - Node (node.rs): arena, paths, inode table.
    - DataSource (datasource.rs, direct.rs), Whiteout (whiteout.rs), Layer
      (layer.rs), Copyup (copyup.rs).
    - Overlay (overlay.rs, the inner state and its methods), Ops, OpsTree and
      OpsFile ([impl Filesystem], one definition per request), Requests (the
      requests as data, [serve] and [session]).
    - Locks: the lock operations of the handlers, the guards kept over nested
      ones included, and that threads which run them never deadlock.
    - Main (main.rs, sys/process.rs): everything up to the FUSE session.

    Specifications and their proofs:
    - Provenance, SafeCopy, SafeInner, SafeTree, SafeOps, Session: the policy
      [SAFE] and, layer by layer of the program, that it is kept.  Its
      parameter [epoch] says whether the kernel's times are in the range of the
      attributes; if they need not be, a panic is allowed.  Readonly has the
      stricter policy [FROZEN], for mounts without an upper layer: no call that
      changes anything.
    - Merge, LoadDir, Agree: what lookup and listing show, as functions of what
      the layers answer, and that they agree.  MemLayer has layers in memory
      for the concrete runs, Divergences the runs that depart from the rules.
    - CopyData: copying a file ends and copies; CopyWhole: a copied file is put
      in place whole.  Tree, Ends, EndsInner, EndsOps:
      the policy [LIVE] and, program by program, that the requests end and keep
      the tree of nodes without a cycle and the inode table in order.
    - Threads, Interleave: the tables of open files lock by lock, and the
      requests split at their locks and run by any number of threads.
    - Handles, Listing, Overrides, Flags, Replies, Limits: open files and
      passthrough backings, paged directory reads, override attributes, open
      flags, the kinds of replies, and where a handler panics.
    - Disk: the directories of the layers and the policy [DISK], what the calls
      do to them; Visible: what an overlay of such layers shows, as the
      reference the changing requests are measured by.  Effects, CopyDisk,
      CopyDirs, Removal, Creating, CreatingDirs, Linking, Renaming: what
      whiteouts, the copy-up of a file and of the directories above it, unlink
      and rmdir, mknod, symlink, create and mkdir, link, and rename do to the
      disk, at every call and at the end.  TwoNames: what link and rename share;
      Branch: the nodes above a node, and what a lookup leaves of them.
      DiskKernel: an executable kernel that keeps [DISK]; DiskRuns: sessions on
      it.

    ** What the theorems show

    - Safety: whatever the kernel answers, a session makes changing calls only
      on descriptors of the upper layer and the work directory, or on one name
      there that is not followed; four calls that start there may follow a link
      ([fchmodat], [truncate], [lsetxattr], [lremovexattr]); every open is
      confined to its layer; and nothing panics if the kernel's times are in
      range ([session_changes_upper_only], [serve_changes_upper_only]).  The
      state [main] hands over is one such a session starts from, if an upper
      directory comes with a work directory ([main_mounts]); without an upper
      layer no changing call is made and every change is refused
      ([readonly_without_upper]).
    - Threads: the same holds in any order of the sections between the locks
      ([interleaved_changes_upper_only]), the locks never deadlock
      ([locks_never_deadlock]), and races of opens and releases for a handle or
      a backing end and leave the tables as requests served one by one would,
      those of creates with counts that may be too low ([threads_handles],
      [threads_end]).  The sections in sequence are the handlers
      ([solo_is_serve], of the model alone).
    - Merging: [do_lazy_lookup_merges] and [load_dir_merges] relate the two
      searches to the entry the overlay rules prescribe,
      [lookup_agrees_with_listing] to each other; [lazy_lookup_ignores_opaque]
      is the case where the lookup departs from the rules.
    - The disk: under [DISK], whatever fails or interrupts them, a removal takes
      one name out of the upper layer and shows nothing there, or what is below
      if the code makes no whiteout ([removal_is_seen]); a copy-up of a file, at
      any depth, changes nothing that is seen ([copyup_is_unseen]), and the copy
      is whole ([copied_file_is_whole]); a new object is there whole or not at
      all ([creation_is_seen]); and a file has the old name or the new one
      ([rename_is_seen]), or both ([link_is_seen]).  Each states what a whiteout
      file that could not be removed, or one removed too early, lets be seen.
      The names that are next in the work directory are taken to be free.  The directory of the name may be of any layer, at any
      depth; the child of a removal is cached.  The new directory of a link or a
      rename is on the upper layer or is that of the file.  A rename of a
      directory and an exchange are covered by the theorems on safety only.
      [hide_needs_rename_whiteout] is the removal that fails for want of a
      whiteout.  The runs of DiskRuns show on one disk each what the theorems
      leave open: names that were removed before ([recreated_names_resurface]),
      a file system without RENAME_WHITEOUT ([removal_needs_rename_whiteout]),
      names in the work directory that are not free
      ([stale_work_file_is_published]).
    - Tables: inode numbers are unique, stable and freed exactly when the
      kernel has forgotten them; handles are distinct, and a passthrough
      backing is held as long as it is used.
    - Termination: [session_ends] (whole sessions, against a kernel with
      finitely many files and bytes), [copy_data_copies], [register_total],
      [compute_path_correct], [readdir_complete].  A rename is not covered by
      [session_ends]: where the kernel lets a directory move below itself, the
      parent links have a cycle and the walk up does not end.
    - Wrappers: each makes the one C call it stands for and gives its answer or
      its errno ([wrapper_reports]); so running a program over the wrappers of
      sys/ is running it over the calls of Sys.v ([lower_refines]).
    - Parsers and printers: round trips of options, lowerdir lists, mapping
      tables, attribute names and override values, with the side conditions
      the code needs.
    - Where the code departs from what it means to do, the departure is a
      theorem ([find_mapping_wraps_to_root], [lazy_lookup_ignores_opaque],
      [write_reuses_lower_backing], [hide_needs_rename_whiteout], ...).

    ** Fuel

    [compute_path] and the recursion of copyup.rs on parent links have one unit
    per node of the arena, which every tree needs at most; the collision loop of
    [register] has two more than the numbers in use.  The scanners of Config
    are structural on their input.  The loops of [copy_data] wait for the
    kernel: their fuel is the argument [copy_fuel], any number, and
    [copy_data_copies] says how much is enough.  In Wrappers a directory stream
    has the fuel [dir_fuel], and the C library of the refinement ends its
    streams within it.

    ** Parameters

    - The kernel, the C library and the fuser crate: their answers are
      arbitrary, or constrained by a policy.
    - [F64]: the operations on [f64] the option [timeout] needs.
    - [DevT]: makedev, major and minor of the device numbers.
    - [HashOrder]: the order a hash set is iterated in.
    - The reading of files under /proc (mapping.rs) and [str::trim].

    ** Not modelled

    - Of the threads: the fairness of the locks, the memory order of the
      atomics, and the worker loop of the fuser crate.  In Interleave a section is
      one step, those under the shared lock too, which change nothing but a
      counter; Locks has the locks alone, without what the sections do; the
      merging, listing and termination theorems are about requests served one
      after the other.
    - On the disk: the bytes of files (CopyData and CopyWhole have those of a
      copy); the rename of a directory, the exchange of two names, and a
      new directory of a link or a rename that has to be copied up itself; and
      that the nodes a session has cached are those of the disk, which the
      theorems about the disk assume of the nodes they use.
    - What the kernel itself does with the backing of a passthrough open: its
      reads and writes are no calls of the program.
    - Closing of descriptors and freeing of memory ([Drop]), except where a
      wrapper closes on an error path.
    - Logging, the debug output, the thread of the SIGUSR1 report (its text is
      modelled), [fuser::Session] and the environment variables.
    - The tests of the sources. *)

From stdpp Require Export base tactics list gmap strings fin_maps numbers sorting.
From Stdlib Require Export ZArith Lia Ascii.

#[global] Set Default Proof Using "Type".

(** ** Tactics and hint databases *)

(** [ovl] collects the rewriting and resolution lemmas the components share. *)
Create HintDb ovl discriminated.
#[global] Hint Constants Transparent : ovl.

(** Case analysis on every [match] and [if] of the goal, cleaning up. *)
Ltac split_match :=
  repeat (case_match; simplify_eq/=; try done).

(** Turn boolean integer tests of the context into propositions. *)
Ltac zbool :=
  repeat match goal with
  | H : (_ <=? _)%Z = true |- _ => apply Z.leb_le in H
  | H : (_ <=? _)%Z = false |- _ => apply Z.leb_gt in H
  | H : (_ <? _)%Z = true |- _ => apply Z.ltb_lt in H
  | H : (_ <? _)%Z = false |- _ => apply Z.ltb_ge in H
  | H : (_ =? _)%Z = true |- _ => apply Z.eqb_eq in H
  | H : (_ =? _)%Z = false |- _ => apply Z.eqb_neq in H
  | H : andb _ _ = true |- _ => apply andb_true_iff in H as [? ?]
  | H : orb _ _ = false |- _ => apply orb_false_iff in H as [? ?]
  | H : negb _ = true |- _ => apply negb_true_iff in H
  | H : negb _ = false |- _ => apply negb_false_iff in H
  end.

(** ** Byte strings

    A Rust [Vec<u8>], [&[u8]] or [&str] is the list of its bytes. *)
Abbreviation bytes := (list ascii).

(** A byte-string literal, [b"..."] in the source. *)
Definition bs (s : string) : bytes := String.list_ascii_of_string s.
Arguments bs s%_string.

Declare Scope ovl_scope.
Delimit Scope ovl_scope with ovl.

Definition NUL : ascii := Ascii.zero.
Definition SLASH : ascii := "/"%char.
Definition COLON : ascii := ":"%char.
Definition COMMA : ascii := ",".
Definition BACKSLASH : ascii := "\".
Definition QUOTE : ascii := Ascii.ascii_of_nat 34.

(** [s.starts_with(p)] *)
Fixpoint starts_with (p s : bytes) : bool :=
  match p, s with
  | [], _ => true
  | _, [] => false
  | a :: p', c :: s' => bool_decide (a = c) && starts_with p' s'
  end.

(** [s.strip_prefix(p)] *)
Definition strip_prefix (p s : bytes) : option bytes :=
  if starts_with p s then Some (drop (length p) s) else None.

(** [s.split(c)]: the pieces between the separators, always at least one. *)
Fixpoint split_on (c : ascii) (s : bytes) : list bytes :=
  match s with
  | [] => [[]]
  | x :: s' =>
      if bool_decide (x = c) then [] :: split_on c s'
      else match split_on c s' with
           | [] => [[x]]
           | p :: ps => (x :: p) :: ps
           end
  end.

(** [s.split_once(c)] *)
Fixpoint split_once (c : ascii) (s : bytes) : option (bytes * bytes) :=
  match s with
  | [] => None
  | x :: s' =>
      if bool_decide (x = c) then Some ([], s')
      else match split_once c s' with
           | None => None
           | Some (l, r) => Some (x :: l, r)
           end
  end.

(** [s.splitn(n, c)] for [n >= 1]: at most [n] pieces, the last one unsplit. *)
Fixpoint splitn_on (n : nat) (c : ascii) (s : bytes) : list bytes :=
  match n with
  | O => []
  | S O => [s]
  | S n' =>
      match split_once c s with
      | None => [s]
      | Some (l, r) => l :: splitn_on n' c r
      end
  end.

(** [s.iter().rposition(|b| b == c)] cut there: what is before and after the
    last separator. *)
Fixpoint rsplit_once (c : ascii) (s : bytes) : option (bytes * bytes) :=
  match s with
  | [] => None
  | x :: s' =>
      match rsplit_once c s' with
      | Some (l, r) => Some (x :: l, r)
      | None => if bool_decide (x = c) then Some ([], s') else None
      end
  end.

(** Joining pieces with a separator. *)
Fixpoint join (c : ascii) (ps : list bytes) : bytes :=
  match ps with
  | [] => []
  | [p] => p
  | p :: ps' => p ++ c :: join c ps'
  end.

(** ** Machine integers *)
Section ints.
Local Open Scope Z_scope.

Definition u32_max : Z := 2 ^ 32 - 1.
Definition u64_max : Z := 2 ^ 64 - 1.
Definition wrap_u32 (z : Z) : Z := z mod 2 ^ 32.
Definition wrap_u64 (z : Z) : Z := z mod 2 ^ 64.
(** Two's complement reading of the low 64 bits, [z as i64]. *)
Definition wrap_i64 (z : Z) : Z :=
  let m := z mod 2 ^ 64 in if m <? 2 ^ 63 then m else m - 2 ^ 64.

Definition is_u32 (z : Z) : Prop := 0 <= z < 2 ^ 32.
Definition is_u64 (z : Z) : Prop := 0 <= z < 2 ^ 64.
Definition is_i64 (z : Z) : Prop := - 2 ^ 63 <= z < 2 ^ 63.

#[export] Instance is_u32_dec z : Decision (is_u32 z).
Proof. unfold is_u32. apply _. Defined.
#[export] Instance is_u64_dec z : Decision (is_u64 z).
Proof. unfold is_u64. apply _. Defined.

Lemma wrap_u32_id z : is_u32 z → wrap_u32 z = z.
Proof. apply Z.mod_small. Qed.
Lemma wrap_u64_id z : is_u64 z → wrap_u64 z = z.
Proof. apply Z.mod_small. Qed.
Lemma wrap_u32_range z : is_u32 (wrap_u32 z).
Proof. apply Z.mod_pos_bound. lia. Qed.
Lemma wrap_u64_range z : is_u64 (wrap_u64 z).
Proof. apply Z.mod_pos_bound. lia. Qed.
Lemma wrap_i64_range z : is_i64 (wrap_i64 z).
Proof.
  unfold is_i64, wrap_i64. pose proof (Z.mod_pos_bound z (2 ^ 64) ltac:(lia)).
  cbv zeta. case_match; zbool; lia.
Qed.
Lemma wrap_i64_id z : is_i64 z → wrap_i64 z = z.
Proof.
  unfold is_i64, wrap_i64. intros [H1 H2]. cbv zeta.
  destruct (decide (0 <= z)) as [Hz|Hz].
  - rewrite Z.mod_small by lia. case_match; zbool; lia.
  - assert (z mod 2 ^ 64 = z + 2 ^ 64) as ->.
    { rewrite <-(Z.mod_add z 1) by lia. apply Z.mod_small. lia. }
    case_match; zbool; lia.
Qed.
End ints.
#[export] Hint Resolve wrap_u32_range wrap_u64_range wrap_i64_range : ovl.

(** ** Decimal and octal numerals

    [str::parse] and [from_str_radix] of the integer types, and the
    [Display] and octal formatting that produce them. *)
Section numerals.
Local Open Scope Z_scope.

(** [char::to_digit(radix)] for [radix <= 10]. *)
Definition to_digit (r : Z) (c : ascii) : option Z :=
  let d := Z.of_N (N_of_ascii c) - 48 in
  if (0 <=? d) && (d <? r) then Some d else None.

Definition digit_char (d : Z) : ascii := ascii_of_N (Z.to_N (d + 48)).

(** The digit loop: checked multiplication, then checked addition (or
    subtraction for a negative number), within [lo, hi]. *)
Fixpoint parse_digits (r lo hi : Z) (neg : bool) (acc : Z) (s : bytes) : option Z :=
  match s with
  | [] => Some acc
  | c :: s' =>
      match to_digit r c with
      | None => None
      | Some d =>
          let acc' := if neg then acc * r - d else acc * r + d in
          if (lo <=? acc') && (acc' <=? hi) then parse_digits r lo hi neg acc' s'
          else None
      end
  end.

(** [from_str_radix] of an integer type with range [lo, hi]. *)
Definition from_str_radix (r lo hi : Z) (s : bytes) : option Z :=
  match s with
  | [] => None
  | c :: s' =>
      match s' with
      | [] =>
          if bool_decide (c = "+"%char) || bool_decide (c = "-"%char) then None
          else parse_digits r lo hi false 0 s
      | _ :: _ =>
          if bool_decide (c = "+"%char) then parse_digits r lo hi false 0 s'
          else if bool_decide (c = "-"%char) && (lo <? 0)
          then parse_digits r lo hi true 0 s'
          else parse_digits r lo hi false 0 s
      end
  end.

Definition parse_u32 : bytes → option Z := from_str_radix 10 0 (2 ^ 32 - 1).
Definition parse_u32_oct : bytes → option Z := from_str_radix 8 0 (2 ^ 32 - 1).
Definition parse_i32 : bytes → option Z := from_str_radix 10 (- 2 ^ 31) (2 ^ 31 - 1).

Fixpoint digits_rev (fuel : nat) (r n : Z) : list Z :=
  match fuel with
  | O => []
  | S f => if n <? r then [n] else n mod r :: digits_rev f r (n / r)
  end.

(** [format!("{}", n)] at radix 10 and [format!("{:o}", n)] at radix 8. *)
Definition print_radix (r n : Z) : bytes :=
  digit_char <$> reverse (digits_rev (S (Z.to_nat (Z.log2 n))) r n).
Definition print_dec : Z → bytes := print_radix 10.
Definition print_oct : Z → bytes := print_radix 8.
End numerals.
Arguments parse_u32 : simpl never.
Arguments parse_u32_oct : simpl never.
Arguments parse_i32 : simpl never.
Arguments print_radix : simpl never.
Arguments print_dec : simpl never.
Arguments print_oct : simpl never.
Arguments wrap_u32 : simpl never.
Arguments wrap_u64 : simpl never.
Arguments wrap_i64 : simpl never.

(** ** Lemmas on byte strings *)
Section bytes_lemmas.
Implicit Types (c : ascii) (s p t : bytes).

Lemma starts_with_spec p s : starts_with p s = true ↔ ∃ t, s = p ++ t.
Proof.
  revert s. induction p as [|a p IH]; intros s; simpl.
  - naive_solver.
  - destruct s as [|x s]; [naive_solver|].
    rewrite andb_true_iff, bool_decide_eq_true, IH. naive_solver.
Qed.

Lemma starts_with_app p t : starts_with p (p ++ t) = true.
Proof. apply starts_with_spec. eauto. Qed.

Lemma starts_with_trans p q s :
  starts_with p q = true → starts_with q s = true → starts_with p s = true.
Proof.
  rewrite !starts_with_spec. intros [t ->] [u ->]. exists (t ++ u).
  by rewrite app_assoc.
Qed.

(** Two prefixes of the same string are comparable. *)
Lemma starts_with_total p q s :
  starts_with p s = true → starts_with q s = true → (length p ≤ length q)%nat →
  starts_with p q = true.
Proof.
  revert p q. induction s as [|x s IH]; intros [|a p] [|a' q]; simpl; try done; try lia.
  rewrite !andb_true_iff, !bool_decide_eq_true. intros [-> ?] [-> ?] ?.
  split; [done|]. apply IH; [done..|lia].
Qed.

Lemma strip_prefix_app p t : strip_prefix p (p ++ t) = Some t.
Proof. unfold strip_prefix. by rewrite starts_with_app, drop_app_length. Qed.

Lemma strip_prefix_Some p s t : strip_prefix p s = Some t ↔ s = p ++ t.
Proof.
  unfold strip_prefix. split.
  - case_match eqn:Hs; [|done]. apply starts_with_spec in Hs as [u ->].
    rewrite drop_app_length. by intros [= ->].
  - intros ->. apply strip_prefix_app.
Qed.

Lemma split_on_nonempty c s : split_on c s ≠ [].
Proof. destruct s; simpl; [done|]. repeat case_match; done. Qed.

Lemma split_on_app c p s :
  c ∉ p → split_on c (p ++ c :: s) = p :: split_on c s.
Proof.
  induction p as [|x p IH]; simpl; intros Hp.
  - by rewrite bool_decide_eq_true_2.
  - rewrite not_elem_of_cons in Hp. destruct Hp as [Hx Hp].
    rewrite bool_decide_eq_false_2 by done. by rewrite IH.
Qed.

Lemma split_on_none c s : c ∉ s → split_on c s = [s].
Proof.
  induction s as [|x s IH]; simpl; intros Hs; [done|].
  rewrite not_elem_of_cons in Hs. destruct Hs as [Hx Hs].
  rewrite bool_decide_eq_false_2 by done. by rewrite IH.
Qed.

Lemma split_on_join c ps :
  ps ≠ [] → Forall (λ p, c ∉ p) ps → split_on c (join c ps) = ps.
Proof.
  intros Hne Hps. induction Hps as [|p ps Hp Hps IH]; [done|].
  destruct ps as [|q ps]; [by apply split_on_none|].
  change (join c (p :: q :: ps)) with (p ++ c :: join c (q :: ps)).
  rewrite split_on_app by done. f_equal. by apply IH.
Qed.

Lemma join_split_on c s : join c (split_on c s) = s.
Proof.
  induction s as [|x s IH]; simpl; [done|].
  pose proof (split_on_nonempty c s). case_bool_decide as Hx.
  - subst. destruct (split_on c s); simpl in *; [done|]. by rewrite IH.
  - destruct (split_on c s) as [|p [|q ps]]; simpl in *; [done|by subst..].
Qed.

Lemma split_on_pieces c s : Forall (λ p, c ∉ p) (split_on c s).
Proof.
  induction s as [|x s IH]; simpl.
  - repeat constructor. apply not_elem_of_nil.
  - case_bool_decide as Hx; [constructor; [apply not_elem_of_nil|done]|].
    destruct IH as [|p ps Hp Hps]; repeat constructor; try done.
    + apply not_elem_of_cons. split; [done|apply not_elem_of_nil].
    + by apply not_elem_of_cons.
Qed.
Lemma split_on_app_any c s t : split_on c (s ++ c :: t) = split_on c s ++ split_on c t.
Proof.
  rewrite <-(join_split_on c s) at 1. pose proof (split_on_pieces c s) as Hp.
  pose proof (split_on_nonempty c s) as Hne. revert Hne.
  induction Hp as [|p ps Hp Hps IH]; intros Hne; [done|].
  destruct ps as [|q ps]; [by apply split_on_app|].
  change (join c (p :: q :: ps)) with (p ++ c :: join c (q :: ps)).
  rewrite <-app_assoc, <-app_comm_cons, split_on_app by done. by rewrite IH.
Qed.

Lemma split_once_app c p s : c ∉ p → split_once c (p ++ c :: s) = Some (p, s).
Proof.
  induction p as [|x p IH]; simpl; intros Hp; [by rewrite bool_decide_eq_true_2|].
  rewrite not_elem_of_cons in Hp. destruct Hp as [Hx Hp].
  rewrite bool_decide_eq_false_2 by done. by rewrite IH.
Qed.

Lemma split_once_Some c s l r :
  split_once c s = Some (l, r) ↔ s = l ++ c :: r ∧ c ∉ l.
Proof.
  split; [|intros [-> ?]; by apply split_once_app].
  revert l. induction s as [|x s IH]; intros l; simpl; [done|].
  case_bool_decide as Hx.
  - intros [= <- <-]. subst. split; [done|apply not_elem_of_nil].
  - destruct (split_once c s) as [[l' r']|]; [|done]. intros [= <- ->].
    destruct (IH l' eq_refl) as [-> ?]. split; [done|]. by apply not_elem_of_cons.
Qed.

Lemma split_once_None c s : split_once c s = None ↔ c ∉ s.
Proof.
  induction s as [|x s IH]; simpl.
  - split; [intros; apply not_elem_of_nil|done].
  - rewrite not_elem_of_cons. case_bool_decide; [naive_solver|].
    destruct (split_once c s) as [[]|]; naive_solver.
Qed.

Lemma splitn_on_app n c p s :
  c ∉ p → splitn_on (S (S n)) c (p ++ c :: s) = p :: splitn_on (S n) c s.
Proof. intros Hp. simpl. by rewrite split_once_app. Qed.

Lemma splitn_on_none n c s : c ∉ s → splitn_on (S n) c s = [s].
Proof.
  intros Hs. destruct n as [|n]; [done|]. simpl.
  by rewrite (proj2 (split_once_None c s) Hs).
Qed.

Lemma rsplit_once_None c s : rsplit_once c s = None ↔ c ∉ s.
Proof.
  induction s as [|x s IH]; simpl.
  - split; [intros; apply not_elem_of_nil|done].
  - rewrite not_elem_of_cons. destruct (rsplit_once c s) as [[]|].
    + naive_solver.
    + case_bool_decide; naive_solver.
Qed.

Lemma rsplit_once_app c l r : c ∉ r → rsplit_once c (l ++ c :: r) = Some (l, r).
Proof.
  intros Hr. induction l as [|x l IH]; simpl.
  - rewrite (proj2 (rsplit_once_None c r) Hr). by rewrite bool_decide_eq_true_2.
  - by rewrite IH.
Qed.

Lemma rsplit_once_Some c s l r :
  rsplit_once c s = Some (l, r) ↔ s = l ++ c :: r ∧ c ∉ r.
Proof.
  split; [|intros [-> ?]; by apply rsplit_once_app].
  revert l. induction s as [|x s IH]; intros l; simpl; [done|].
  destruct (rsplit_once c s) as [[l' r']|] eqn:E.
  - intros [= <- ->]. destruct (IH l' eq_refl) as [-> ?]. done.
  - case_bool_decide; [|done]. intros [= <- <-]. subst.
    by apply rsplit_once_None in E.
Qed.
End bytes_lemmas.

(** ** Numerals round trip *)
Section numeral_lemmas.
Local Open Scope Z_scope.
Context (r : Z) (Hr : 2 <= r <= 10).

Definition digits_value (ds : list Z) : Z := foldr (λ d acc, d + r * acc) 0 ds.

Lemma digits_value_nonneg ds :
  Forall (λ d, 0 <= d < r) ds → 0 <= digits_value ds.
Proof using Hr. induction 1; simpl; nia. Qed.

Lemma to_digit_char d : 0 <= d < r → to_digit r (digit_char d) = Some d.
Proof using Hr.
  intros Hd. unfold to_digit, digit_char.
  rewrite N_ascii_embedding by lia.
  replace (Z.of_N (Z.to_N (d + 48)) - 48) with d by lia.
  by rewrite (proj2 (Z.leb_le _ _)), (proj2 (Z.ltb_lt _ _)) by lia.
Qed.

Lemma digits_rev_spec fuel n :
  0 <= n < 2 ^ Z.of_nat fuel → (0 < fuel)%nat →
  Forall (λ d, 0 <= d < r) (digits_rev fuel r n) ∧
  digits_rev fuel r n ≠ [] ∧ digits_value (digits_rev fuel r n) = n.
Proof using Hr.
  revert n. induction fuel as [|f IH]; [lia|]. intros n Hn _. cbn [digits_rev].
  destruct (n <? r) eqn:E; zbool.
  - split_and!; [repeat constructor; lia|done|cbn; lia].
  - rewrite Nat2Z.inj_succ, Z.pow_succ_r in Hn by lia.
    pose proof (Z.div_mod n r ltac:(lia)). pose proof (Z.mod_pos_bound n r ltac:(lia)).
    assert (0 <= n / r) by (apply Z.div_pos; lia).
    assert (0 <= n / r < 2 ^ Z.of_nat f) by (split; [done|nia]).
    assert (0 < f)%nat by (destruct f; [simpl in *; nia|lia]).
    destruct (IH (n / r)) as (Hd & _ & Hv); [done..|].
    split_and!; [by constructor|done|]. cbn. fold (digits_value (digits_rev f r (n / r))).
    rewrite Hv. lia.
Qed.

Lemma parse_digits_app lo hi acc s t :
  parse_digits r lo hi false acc (s ++ t) =
  parse_digits r lo hi false acc s ≫= λ a, parse_digits r lo hi false a t.
Proof.
  revert acc. induction s as [|c s IH]; intros acc; simpl; [done|].
  destruct (to_digit r c); [|done]. case_match; [|done]. apply IH.
Qed.

Lemma parse_digits_rev lo hi ds :
  lo <= 0 → Forall (λ d, 0 <= d < r) ds → digits_value ds <= hi →
  parse_digits r lo hi false 0 (digit_char <$> reverse ds) = Some (digits_value ds).
Proof using Hr.
  intros Hlo. induction 1 as [|d ds Hd Hds IH]; intros Hhi; [done|].
  change (digits_value (d :: ds)) with (d + r * digits_value ds) in *. pose proof (digits_value_nonneg ds Hds).
  rewrite reverse_cons, fmap_app, parse_digits_app, IH by nia. simpl.
  rewrite to_digit_char by done.
  rewrite (proj2 (Z.leb_le _ _)), (proj2 (Z.leb_le _ _)) by nia. simpl. f_equal. nia.
Qed.

Lemma from_str_radix_print lo hi n :
  lo <= 0 → 0 <= n <= hi → from_str_radix r lo hi (print_radix r n) = Some n.
Proof using Hr.
  intros Hlo Hn. unfold print_radix.
  pose proof (Z.log2_nonneg n).
  assert (0 <= n < 2 ^ Z.of_nat (S (Z.to_nat (Z.log2 n)))).
  { split; [lia|]. rewrite Nat2Z.inj_succ, Z2Nat.id by done.
    destruct (decide (n = 0)) as [->|]; [done|]. apply Z.log2_spec. lia. }
  destruct (digits_rev_spec (S (Z.to_nat (Z.log2 n))) n) as (H1 & H2 & H3); [done|lia|].
  revert H1 H2 H3. generalize (digits_rev (S (Z.to_nat (Z.log2 n))) r n). intros ds H1 H2 H3.
  pose proof (parse_digits_rev lo hi ds Hlo H1 ltac:(lia)) as Hp. rewrite H3 in Hp.
  destruct (digit_char <$> reverse ds) as [|c s] eqn:E.
  { apply (f_equal length) in E. rewrite length_fmap, length_reverse in E. by destruct ds. }
  assert (∃ d, 0 <= d < r ∧ c = digit_char d) as (d & Hd & ->).
  { assert (c ∈ digit_char <$> reverse ds) as Hc by (rewrite E; left).
    apply list_elem_of_fmap in Hc as (d & -> & Hd). exists d. split; [|done].
    rewrite Forall_forall in H1. apply H1. by apply elem_of_reverse. }
  assert (digit_char d ≠ "+"%char ∧ digit_char d ≠ "-"%char) as [Hc1 Hc2].
  { split; intros Hc; apply (f_equal (to_digit r)) in Hc;
      rewrite to_digit_char in Hc by done; unfold to_digit in Hc; simpl in Hc; done. }
  unfold from_str_radix. rewrite !bool_decide_eq_false_2 by done. by destruct s.
Qed.

(** A numeral is never empty and only has digit characters. *)
Lemma print_radix_chars n c : 0 <= n → c ∈ print_radix r n → is_Some (to_digit r c).
Proof using Hr.
  intros Hn. unfold print_radix. intros (d & -> & Hd)%list_elem_of_fmap.
  rewrite to_digit_char; [done|]. rewrite elem_of_reverse in Hd. revert Hd.
  pose proof (Z.log2_nonneg n).
  assert (0 <= n < 2 ^ Z.of_nat (S (Z.to_nat (Z.log2 n)))).
  { split; [lia|]. rewrite Nat2Z.inj_succ, Z2Nat.id by done.
    destruct (decide (n = 0)) as [->|]; [done|]. apply Z.log2_spec. lia. }
  destruct (digits_rev_spec (S (Z.to_nat (Z.log2 n))) n) as (H1 & _); [done|lia|].
  rewrite Forall_forall in H1. intros Hd. by apply H1.
Qed.

Lemma print_radix_no_char n c :
  0 <= n → to_digit r c = None → c ∉ print_radix r n.
Proof using Hr. intros Hn Hc Hin. by apply print_radix_chars in Hin as [? ?]; [simplify_eq|]. Qed.
End numeral_lemmas.

Lemma parse_print_u32 n : is_u32 n → parse_u32 (print_dec n) = Some n.
Proof. intros []. apply from_str_radix_print; lia. Qed.
Lemma parse_print_u32_oct n : is_u32 n → parse_u32_oct (print_oct n) = Some n.
Proof. intros []. apply from_str_radix_print; lia. Qed.
Lemma print_dec_inj n m : (0 <= n)%Z → (0 <= m)%Z → print_dec n = print_dec m → n = m.
Proof.
  intros Hn Hm Heq.
  assert (from_str_radix 10 0 (Z.max n m) (print_dec n) = Some n) by
    (apply from_str_radix_print; lia).
  assert (from_str_radix 10 0 (Z.max n m) (print_dec m) = Some m) by
    (apply from_str_radix_print; lia).
  congruence.
Qed.
Lemma print_dec_nonempty n : (0 <= n)%Z → print_dec n ≠ [].
Proof.
  intros Hn Heq. assert (from_str_radix 10 0 n (print_dec n) = Some n) as H by
    (apply from_str_radix_print; lia).
  by rewrite Heq in H.
Qed.
Lemma parse_digits_range r lo hi neg acc s n :
  (lo <= acc <= hi)%Z → parse_digits r lo hi neg acc s = Some n → (lo <= n <= hi)%Z.
Proof.
  revert acc. induction s as [|c s IH]; intros acc Hacc; simpl; [by intros [= <-]|].
  destruct (to_digit r c) as [d|]; [|done]. cbv zeta. case_match eqn:E; [|done].
  apply IH. zbool. lia.
Qed.
Lemma from_str_radix_range r lo hi s n :
  (lo <= 0 <= hi)%Z → from_str_radix r lo hi s = Some n → (lo <= n <= hi)%Z.
Proof.
  intros H0. unfold from_str_radix. repeat case_match; try done; by apply parse_digits_range.
Qed.
Lemma parse_u32_range s n : parse_u32 s = Some n → is_u32 n.
Proof. intros H%from_str_radix_range; unfold is_u32; lia. Qed.
Lemma parse_u32_oct_range s n : parse_u32_oct s = Some n → is_u32 n.
Proof. intros H%from_str_radix_range; unfold is_u32; lia. Qed.
#[export] Hint Resolve parse_u32_range parse_u32_oct_range : ovl.

(** [o.is_some()] *)
Definition is_Some_b {A} (o : option A) : bool :=
  match o with Some _ => true | None => false end.

(** ** Results

    [Result<A, E>]; the [?] operator is the bind [let? x := m in k]. *)
Inductive result (E A : Type) : Type :=
| Ok (a : A)
| Err (e : E).
Arguments Ok {E A} a.
Arguments Err {E A} e.

#[export] Instance result_eq_dec `{EqDecision E, EqDecision A} : EqDecision (result E A).
Proof. solve_decision. Defined.

Definition result_bind {E A B} (m : result E A) (k : A → result E B) : result E B :=
  match m with Ok a => k a | Err e => Err e end.

Notation "'let?' x := m 'in' k" := (result_bind m (λ x, k))
  (at level 10, x pattern, m at level 100, k at level 200) : ovl_scope.

Definition is_ok {E A} (m : result E A) : bool :=
  match m with Ok _ => true | Err _ => false end.

(** [o.ok_or(e)] *)
Definition ok_or {E A} (e : E) (o : option A) : result E A :=
  match o with Some a => Ok a | None => Err e end.

Lemma result_bind_Ok {E A B} (m : result E A) (k : A → result E B) r :
  result_bind m k = Ok r ↔ ∃ a, m = Ok a ∧ k a = Ok r.
Proof. destruct m; simpl; naive_solver. Qed.
Lemma result_bind_Err {E A B} (m : result E A) (k : A → result E B) e :
  result_bind m k = Err e ↔ m = Err e ∨ ∃ a, m = Ok a ∧ k a = Err e.
Proof. destruct m; simpl; naive_solver. Qed.
Lemma ok_or_Ok {E A} (e : E) (o : option A) a : ok_or e o = Ok a ↔ o = Some a.
Proof. destruct o; simpl; naive_solver. Qed.
Lemma ok_or_Err {E A} (e e' : E) (o : option A) : ok_or e o = Err e' ↔ o = None ∧ e' = e.
Proof. destruct o; simpl; naive_solver. Qed.

(** [mapM] in the result monad, the [collect] of an iterator of results. *)
Fixpoint result_mapM {E A B} (f : A → result E B) (l : list A) : result E (list B) :=
  match l with
  | [] => Ok []
  | x :: l' => result_bind (f x) (λ y, result_bind (result_mapM f l') (λ ys, Ok (y :: ys)))
  end.

(** ** UTF-8

    [std::str::from_utf8] succeeds exactly on these byte strings. *)
Section utf8.
Definition in_range (lo hi : nat) (c : ascii) : bool :=
  (lo <=? nat_of_ascii c)%nat && (nat_of_ascii c <=? hi)%nat.

(** The bounds a leading byte puts on the second byte, and the number of
    plain continuation bytes (0x80..0xBF) after it. *)
Definition utf8_lead (c : ascii) : option (nat * nat * nat) :=
  if in_range 194 223 c then Some (128, 191, 0)%nat
  else if in_range 224 224 c then Some (160, 191, 1)%nat
  else if in_range 237 237 c then Some (128, 159, 1)%nat
  else if in_range 225 239 c then Some (128, 191, 1)%nat
  else if in_range 240 240 c then Some (144, 191, 2)%nat
  else if in_range 241 243 c then Some (128, 191, 2)%nat
  else if in_range 244 244 c then Some (128, 143, 2)%nat
  else None.

(** [pending] is what is left of the sequence being read. *)
Fixpoint utf8_run (pending : option (nat * nat * nat)) (s : bytes) : bool :=
  match pending, s with
  | None, [] => true
  | Some _, [] => false
  | None, c :: s' =>
      if in_range 0 127 c then utf8_run None s'
      else match utf8_lead c with
           | Some p => utf8_run (Some p) s'
           | None => false
           end
  | Some (lo, hi, n), c :: s' =>
      in_range lo hi c &&
      utf8_run (match n with O => None | S n' => Some (128, 191, n')%nat end) s'
  end.

Definition valid_utf8 (s : bytes) : bool := utf8_run None s.

Lemma utf8_run_app p s t :
  utf8_run p s = true → utf8_run None t = true → utf8_run p (s ++ t) = true.
Proof.
  revert p. induction s as [|c s IH]; intros [[[lo hi] n]|]; simpl; try done; intros Hs Ht.
  - apply andb_true_iff in Hs as [-> Hs]. by apply IH.
  - destruct (in_range 0 127 c); [by apply IH|]. destruct (utf8_lead c); [by apply IH|done].
Qed.

Lemma valid_utf8_app s t :
  valid_utf8 s = true → valid_utf8 t = true → valid_utf8 (s ++ t) = true.
Proof. apply utf8_run_app. Qed.

(** After a valid prefix the scan is back between characters. *)
Lemma utf8_run_app_inv p s t :
  utf8_run p s = true → utf8_run p (s ++ t) = utf8_run None t.
Proof.
  revert p. induction s as [|c s IH]; intros [[[lo hi] n]|]; simpl; try done; intros Hs.
  - apply andb_true_iff in Hs as [-> Hs]. by rewrite IH.
  - destruct (in_range 0 127 c); [by apply IH|]. destruct (utf8_lead c); [by apply IH|done].
Qed.

Lemma valid_utf8_app_inv s t :
  valid_utf8 s = true → valid_utf8 (s ++ t) = valid_utf8 t.
Proof. apply utf8_run_app_inv. Qed.
End utf8.

(** ** Lists *)
Lemma filter_all {A} (P : A → Prop) `{∀ x, Decision (P x)} l : Forall P l → filter P l = l.
Proof.
  induction 1 as [|x l Hx Hl IH]; [done|]. rewrite filter_cons, decide_True by done. by f_equal.
Qed.
