(* ===== verification/Mapping.v ===== *)
(** * UID/GID mapping (src/src/mapping.rs)

    The translation tables between host and container identifiers: their
    textual form ([parse_mappings]) and the lookup ([find_mapping]).  Theorems:
    round trip with the printed form, first-match semantics of the lookup, the
    two directions inverting each other on disjoint tables, and what the
    unchecked [u32] addition of the lookup can do. *)

From S2P Require Import Prelude.
Open Scope ovl_scope.
Local Open Scope Z_scope.

(** A single mapping entry: maps [host..host+len) <-> [to..to+len). *)
Record IdMapping := { m_host : Z; m_to : Z; m_len : Z }.

#[export] Instance IdMapping_eq_dec : EqDecision IdMapping.
Proof. solve_decision. Defined.

Record OverflowIds := { o_uid : Z; o_gid : Z }.

Section read.
(** [fs::read_to_string] and [str::trim], the reading of /proc. *)
Context (read_to_string : bytes → option bytes) (trim : bytes → bytes).

Definition read_proc_id (path : bytes) : option Z :=
  s ← read_to_string path; parse_u32 (trim s).

Definition OverflowIds_read : OverflowIds :=
  {| o_uid := default 65534 (read_proc_id (bs "/proc/sys/kernel/overflowuid"));
     o_gid := default 65534 (read_proc_id (bs "/proc/sys/kernel/overflowgid")) |}.
End read.

(** [parts.chunks(3)], the length being a multiple of three. *)
Fixpoint parse_chunks (msg : bytes) (parts : list bytes) : result bytes (list IdMapping) :=
  match parts with
  | h :: t :: l :: rest =>
      let? h := ok_or msg (parse_u32 h) in
      let? t := ok_or msg (parse_u32 t) in
      let? l := ok_or msg (parse_u32 l) in
      let? ms := parse_chunks msg rest in
      Ok ({| m_host := h; m_to := t; m_len := l |} :: ms)
  | _ => Ok []
  end.

(** Parse a mapping string like "0:1000:1:1:1001:1": colon-separated triples
    host:to:len, empty pieces ignored. *)
Definition parse_mappings (s : bytes) : result bytes (list IdMapping) :=
  let parts := filter (λ p, p ≠ []) (split_on COLON s) in
  let msg := bs "invalid mapping specified: " ++ s in
  if (length parts mod 3 =? 0)%nat then parse_chunks msg parts else Err msg.

(** The scan of the table; [u32] additions wrap. *)
Fixpoint scan_mappings (id : Z) (mappings : list IdMapping) (direct : bool)
    (overflow_id : Z) : Z :=
  match mappings with
  | [] => overflow_id
  | m :: ms =>
      if direct then
        if (m_host m <=? id) && (id - m_host m <? m_len m)
        then wrap_u32 (m_to m + (id - m_host m))
        else scan_mappings id ms direct overflow_id
      else
        if (m_to m <=? id) && (id - m_to m <? m_len m)
        then wrap_u32 (m_host m + (id - m_to m))
        else scan_mappings id ms direct overflow_id
  end.

(** [direct=true]: host to container (reading from disk);
    [direct=false]: container to host (writing to disk). *)
Definition find_mapping (id : Z) (mappings : list IdMapping) (direct squash_to_root : bool)
    (squash_to_id : option Z) (overflow_id : Z) : Z :=
  match direct, squash_to_id, squash_to_root with
  | true, Some squash_id, _ => squash_id
  | true, None, true => 0
  | _, _, _ =>
      match mappings with
      | [] => id
      | _ => scan_mappings id mappings direct overflow_id
      end
  end.

(** ** Specification *)

(** The printed form of a table, the argument of uidmapping= and gidmapping=. *)
Definition print_mapping (m : IdMapping) : list bytes :=
  [print_dec (m_host m); print_dec (m_to m); print_dec (m_len m)].
Definition print_mappings (ms : list IdMapping) : bytes :=
  join COLON (ms ≫= print_mapping).

Definition wf_mapping (m : IdMapping) : Prop :=
  is_u32 (m_host m) ∧ is_u32 (m_to m) ∧ is_u32 (m_len m).

(** The start of the range an entry translates from, and the one it
    translates to, in each direction. *)
Definition src_base (direct : bool) (m : IdMapping) : Z := if direct then m_host m else m_to m.
Definition dst_base (direct : bool) (m : IdMapping) : Z := if direct then m_to m else m_host m.

Definition covers (direct : bool) (m : IdMapping) (id : Z) : Prop :=
  src_base direct m <= id < src_base direct m + m_len m.

#[export] Instance covers_dec direct m id : Decision (covers direct m id).
Proof. unfold covers. apply _. Defined.

(** The entry the table applies to [id]: the first that covers it. *)
Definition first_cover (direct : bool) (ms : list IdMapping) (id : Z) : option IdMapping :=
  head (filter (λ m, covers direct m id) ms).

(** A table neither range of which runs past [u32::MAX]. *)
Definition no_wrap (m : IdMapping) : Prop :=
  m_host m + m_len m <= 2 ^ 32 ∧ m_to m + m_len m <= 2 ^ 32.

Definition disjoint_ranges (direct : bool) (ms : list IdMapping) : Prop :=
  ∀ i j m n id, ms !! i = Some m → ms !! j = Some n →
    covers direct m id → covers direct n id → i = j.

(** ** Lemmas *)

Lemma scan_mappings_spec id ms direct ov :
  scan_mappings id ms direct ov =
  match first_cover direct ms id with
  | Some m => wrap_u32 (dst_base direct m + (id - src_base direct m))
  | None => ov
  end.
Proof.
  unfold first_cover. induction ms as [|m ms IH]; [done|].
  rewrite filter_cons. cbn [scan_mappings]. destruct direct; cbn [src_base dst_base].
  all: case_decide as Hc; unfold covers in Hc; cbn in Hc.
  all: destruct (_ <=? id) eqn:E1; destruct (_ <? _) eqn:E2; zbool; cbn; try lia; done.
Qed.

Lemma first_cover_Some direct ms id m :
  first_cover direct ms id = Some m → m ∈ ms ∧ covers direct m id.
Proof.
  unfold first_cover. intros H. assert (m ∈ filter (λ m, covers direct m id) ms) as Hin.
  { destruct (filter _ ms); simplify_eq/=. left. }
  apply list_elem_of_filter in Hin. tauto.
Qed.

Lemma first_cover_is_Some direct ms id m :
  m ∈ ms → covers direct m id → is_Some (first_cover direct ms id).
Proof.
  intros Hm Hc. unfold first_cover.
  assert (m ∈ filter (λ m, covers direct m id) ms) as Hin by by apply list_elem_of_filter.
  destruct (filter _ ms); [by apply not_elem_of_nil in Hin|eauto].
Qed.

Lemma parse_chunks_print msg ms :
  Forall wf_mapping ms → parse_chunks msg (ms ≫= print_mapping) = Ok ms.
Proof.
  induction 1 as [|[h t l] ms (Hh & Ht & Hl) Hms IH]; [done|]. cbn in *.
  rewrite !parse_print_u32 by done. simpl. change (mbind print_mapping ms) with (ms ≫= print_mapping).
  by rewrite IH.
Qed.

Lemma print_mapping_pieces ms :
  Forall wf_mapping ms → Forall (λ p, p ≠ [] ∧ COLON ∉ p) (ms ≫= print_mapping).
Proof.
  induction 1 as [|[h t l] ms (Hh & Ht & Hl) Hms IH]; [constructor|].
  assert (∀ n, is_u32 n → print_dec n ≠ [] ∧ COLON ∉ print_dec n) as Hp.
  { intros n [Hn _]. split; [by apply print_dec_nonempty|].
    apply print_radix_no_char; [lia|done|done]. }
  cbn. repeat (constructor; [by apply Hp|]). exact IH.
Qed.

Lemma length_print_mappings ms : length (ms ≫= print_mapping) = (length ms * 3)%nat.
Proof. induction ms as [|m ms IH]; [done|]. cbn in *. rewrite <-IH. reflexivity. Qed.

Lemma parse_print_mappings_aux (ms : list IdMapping) (Hms : Forall wf_mapping ms) :
  parse_mappings (print_mappings ms) = Ok ms.
Proof.
  pose proof (print_mapping_pieces ms Hms) as Hp. unfold parse_mappings, print_mappings.
  assert (filter (λ p, p ≠ []) (split_on COLON (join COLON (ms ≫= print_mapping)))
          = ms ≫= print_mapping) as ->.
  { destruct (decide (ms ≫= print_mapping = [])) as [->|Hne]; [done|].
    rewrite split_on_join; [|done|].
    - apply filter_all. eapply Forall_impl; [exact Hp|naive_solver].
    - eapply Forall_impl; [exact Hp|naive_solver]. }
  rewrite length_print_mappings, Nat.Div0.mod_mul. simpl. by apply parse_chunks_print.
Qed.

(** ** Properties *)

(** C40. Printing a table in the [host:to:len] syntax of the command line and
    parsing it back gives the same table. *)
Theorem parse_print_mappings (ms : list IdMapping) (Hms : Forall wf_mapping ms) :
  parse_mappings (print_mappings ms) = Ok ms.
Proof. by apply parse_print_mappings_aux. Qed.

Lemma parse_print_mappings_witness :
  let ms := [{| m_host := 0; m_to := 1000; m_len := 1 |}; {| m_host := 1; m_to := 1001; m_len := 65535 |}] in
  print_mappings ms = bs "0:1000:1:1:1001:65535" ∧ parse_mappings (print_mappings ms) = Ok ms.
Proof.
  split; [reflexivity|]. apply parse_print_mappings.
  repeat constructor; cbn; lia.
Defined.

(** Without squashing, a lookup translates by the first entry whose range
    covers the identifier, by the offset within that range, and falls back to
    the overflow identifier; the squash options decide the direct lookup
    alone, the identifier taking precedence over root, and an empty table is
    the identity. *)
Lemma find_mapping_spec (id : Z) (ms : list IdMapping) (direct root : bool)
    (sq : option Z) (ov : Z) :
  find_mapping id ms direct root sq ov =
    if direct && is_Some_b sq then default 0 sq
    else if direct && root then 0
    else if bool_decide (ms = []) then id
    else match first_cover direct ms id with
         | Some m => wrap_u32 (dst_base direct m + (id - src_base direct m))
         | None => ov
         end.
Proof.
  unfold find_mapping. destruct direct, sq, root; cbn [andb is_Some_b default]; try done.
  all: destruct ms; [done|]; rewrite bool_decide_eq_false_2 by done; apply scan_mappings_spec.
Qed.

(** C29. Without squashing, the two directions of a lookup undo each other.  On a
    table of entries that do not run past [u32::MAX], whose ranges do not overlap
    on the side a lookup translates to, an identifier that some entry covers is
    translated back to itself by the lookup of the other direction: host to
    container and back, and container to host and back. *)
Theorem find_mapping_inverse (direct : bool) (ms : list IdMapping) (id ov ov' : Z) (m : IdMapping)
    (Hwf : Forall wf_mapping ms) (Hnw : Forall no_wrap ms)
    (Hdisj : disjoint_ranges (negb direct) ms)
    (Hm : m ∈ ms) (Hc : covers direct m id) :
  find_mapping (find_mapping id ms direct false None ov) ms (negb direct) false None ov' = id.
Proof.
  rewrite !find_mapping_spec, !andb_false_r. cbn [is_Some_b default].
  assert (ms ≠ []) by (intros ->; by apply not_elem_of_nil in Hm).
  rewrite bool_decide_eq_false_2 by done.
  destruct (first_cover_is_Some direct ms id m Hm Hc) as [m1 Hm1]. rewrite Hm1.
  apply first_cover_Some in Hm1 as [Hin1 Hc1].
  rewrite Forall_forall in Hwf, Hnw.
  destruct (Hwf m1 Hin1) as (? & ? & ?), (Hnw m1 Hin1).
  assert (wrap_u32 (dst_base direct m1 + (id - src_base direct m1)) =
          dst_base direct m1 + (id - src_base direct m1)) as ->.
  { apply wrap_u32_id. unfold is_u32, covers, dst_base, src_base in *. destruct direct; lia. }
  set (id' := dst_base direct m1 + (id - src_base direct m1)).
  assert (covers (negb direct) m1 id') as Hc1'.
  { unfold covers, id', dst_base, src_base in *. destruct direct; cbn; lia. }
  destruct (first_cover_is_Some _ ms id' m1 Hin1 Hc1') as [m2 Hm2]. rewrite Hm2.
  apply first_cover_Some in Hm2 as [Hin2 Hc2].
  assert (m2 = m1) as ->.
  { apply list_elem_of_lookup in Hin1 as [i Hi]. apply list_elem_of_lookup in Hin2 as [j Hj].
    assert (j = i) as -> by by eapply (Hdisj j i). congruence. }
  transitivity (wrap_u32 id).
  { f_equal. unfold id', dst_base, src_base. destruct direct; cbn; lia. }
  apply wrap_u32_id. unfold is_u32, covers, src_base in *. destruct direct; lia.
Qed.

Lemma find_mapping_inverse_witness :
  let ms := [{| m_host := 1000; m_to := 0; m_len := 1 |}; {| m_host := 5000; m_to := 1; m_len := 100 |}] in
  find_mapping 5007 ms true false None 65534 = 8 ∧
  find_mapping (find_mapping 5007 ms true false None 65534) ms false false None 65534 = 5007.
Proof.
  cbv zeta. split; [reflexivity|].
  apply (find_mapping_inverse true _ 5007 65534 65534 {| m_host := 5000; m_to := 1; m_len := 100 |}).
  - repeat constructor; cbn; lia.
  - repeat constructor; cbn; lia.
  - intros i j m n id. destruct i as [|[|]], j as [|[|]]; cbn; intros; simplify_eq; try done;
      unfold covers in *; cbn in *; lia.
  - right. left.
  - unfold covers. cbn. lia.
Defined.

(** C30. An entry whose target range runs past [u32::MAX] is accepted by the
    parser, and the unchecked addition of the lookup sends one of the
    identifiers it covers to 0, the root identifier. *)
Theorem find_mapping_wraps_to_root (m : IdMapping) (ov : Z)
    (Hwf : wf_mapping m) (Hhost : m_host m + m_len m <= 2 ^ 32) (Hov : 2 ^ 32 < m_to m + m_len m) :
  let id := m_host m + (2 ^ 32 - m_to m) in
  parse_mappings (print_mappings [m]) = Ok [m] ∧
  is_u32 id ∧ covers true m id ∧
  find_mapping id [m] true false None ov = 0.
Proof.
  cbv zeta. pose proof Hwf as (Hh & Ht & Hl). unfold is_u32 in *.
  split; [by apply (parse_print_mappings_aux [m]), Forall_singleton|].
  split; [lia|]. split; [unfold covers; cbn; lia|].
  rewrite find_mapping_spec. cbn [andb is_Some_b default].
  rewrite bool_decide_eq_false_2 by done. unfold first_cover.
  rewrite filter_cons, decide_True by (unfold covers; cbn; lia). cbn.
  replace (m_to m + (m_host m + (2 ^ 32 - m_to m) - m_host m)) with (0 + 1 * 2 ^ 32) by lia.
  unfold wrap_u32. by rewrite Z.mod_add by lia.
Qed.

Lemma find_mapping_wraps_to_root_witness :
  find_mapping 1 [{| m_host := 0; m_to := 4294967295; m_len := 2 |}] true false None 65534 = 0.
Proof.
  apply (find_mapping_wraps_to_root {| m_host := 0; m_to := 4294967295; m_len := 2 |} 65534).
  - repeat constructor; cbn; lia.
  - cbn. lia.
  - reflexivity.
Defined.
