(* ===== verification/Xattr.v ===== *)
(** * Extended-attribute names (src/src/xattr.rs)

    Which attribute names a user of the mount sees, and how the hidden ones
    are stored: the filters [can_access_xattr], [is_encoded_xattr_name],
    [decode_xattr_name], [encode_xattr_name] and the list filter
    [filter_xattr_list].  Theorems: storing never produces an internal name,
    the encoding round trip and its exact failure, and the list filter as a
    map over the names of the list. *)

From S2P Require Import Prelude.

(** Stat override mode (datasource.rs). *)
Inductive StatOverrideMode := ModeNone | ModeUser | ModePrivileged | ModeContainers.

#[export] Instance StatOverrideMode_eq_dec : EqDecision StatOverrideMode.
Proof. solve_decision. Defined.

Definition XATTR_PREFIX : bytes := bs "user.fuseoverlayfs.".
Definition OPAQUE_XATTR : bytes := bs "user.fuseoverlayfs.opaque".
Definition XATTR_CONTAINERS_OVERRIDE_PREFIX : bytes := bs "user.containers.override_".
Definition UNPRIVILEGED_XATTR_PREFIX : bytes := bs "user.overlay.".
Definition UNPRIVILEGED_OPAQUE_XATTR : bytes := bs "user.overlay.opaque".
Definition PRIVILEGED_XATTR_PREFIX : bytes := bs "trusted.overlay.".
Definition PRIVILEGED_OPAQUE_XATTR : bytes := bs "trusted.overlay.opaque".
Definition XATTR_SECURITY_PREFIX : bytes := bs "security.".
Definition OPAQUE_WHITEOUT : bytes := bs ".wh..wh..opq".

(** Check if a user can access (see) this xattr name. *)
Definition can_access_xattr (name : bytes) (mode : StatOverrideMode) : bool :=
  if starts_with XATTR_PREFIX name then false
  else if starts_with PRIVILEGED_XATTR_PREFIX name then false
  else if starts_with UNPRIVILEGED_XATTR_PREFIX name then false
  else if bool_decide (mode = ModeContainers) && starts_with XATTR_SECURITY_PREFIX name then false
  else true.

(** Check if an xattr name is encoded with the containers override prefix. *)
Definition is_encoded_xattr_name (name : bytes) (mode : StatOverrideMode) : bool :=
  if negb (starts_with XATTR_CONTAINERS_OVERRIDE_PREFIX name) then false
  else
    let inner := drop (length XATTR_CONTAINERS_OVERRIDE_PREFIX) name in
    negb (can_access_xattr inner mode).

Definition decode_xattr_name (name : bytes) (mode : StatOverrideMode) : option bytes :=
  if is_encoded_xattr_name name mode
  then Some (drop (length XATTR_CONTAINERS_OVERRIDE_PREFIX) name)
  else if can_access_xattr name mode then Some name
  else None.

Definition encode_xattr_name (name : bytes) (mode : StatOverrideMode) : option bytes :=
  if can_access_xattr name mode then Some name
  else if bool_decide (mode ≠ ModeContainers) then None
  else if (255 <? length name + length XATTR_CONTAINERS_OVERRIDE_PREFIX)%nat then None
  else Some (XATTR_CONTAINERS_OVERRIDE_PREFIX ++ name).

(** One name of the list: what the filter appends for it. *)
Definition filter_xattr_name (mode : StatOverrideMode) (name : bytes) : bytes :=
  if bool_decide (name = []) then []
  else if negb (valid_utf8 name) then []
  else match decode_xattr_name name mode with
       | Some decoded => decoded ++ [NUL]
       | None => []
       end.

(** Filter an xattr list buffer (NUL-separated names). *)
Definition filter_xattr_list (buf : bytes) (mode : StatOverrideMode) : bytes :=
  split_on NUL buf ≫= filter_xattr_name mode.

(** ** Lemmas *)

Section lemmas.
Implicit Types (n e d : bytes) (mode : StatOverrideMode).

(** The four hidden prefixes, as a specification of [can_access_xattr]. *)
Definition internal_prefixes mode : list bytes :=
  [XATTR_PREFIX; PRIVILEGED_XATTR_PREFIX; UNPRIVILEGED_XATTR_PREFIX] ++
  (if decide (mode = ModeContainers) then [XATTR_SECURITY_PREFIX] else []).

Lemma can_access_xattr_spec n mode :
  can_access_xattr n mode = true ↔
  ∀ p, p ∈ internal_prefixes mode → starts_with p n = false.
Proof.
  unfold can_access_xattr, internal_prefixes. split.
  - intros H p Hp. rewrite elem_of_app, !elem_of_cons in Hp.
    destruct (starts_with XATTR_PREFIX n) eqn:E1; [done|].
    destruct (starts_with PRIVILEGED_XATTR_PREFIX n) eqn:E2; [done|].
    destruct (starts_with UNPRIVILEGED_XATTR_PREFIX n) eqn:E3; [done|].
    destruct Hp as [[->|[->|[->|Hp]]]|Hp]; try done; [by apply not_elem_of_nil in Hp|].
    destruct (decide (mode = ModeContainers)) as [->|]; [|by apply not_elem_of_nil in Hp].
    apply list_elem_of_singleton in Hp as ->.
    rewrite bool_decide_eq_true_2 in H by done. by destruct (starts_with XATTR_SECURITY_PREFIX n).
  - intros H.
    assert (∀ p, p ∈ [XATTR_PREFIX; PRIVILEGED_XATTR_PREFIX; UNPRIVILEGED_XATTR_PREFIX] →
                 starts_with p n = false) as H'.
    { intros p Hp. apply H. apply elem_of_app. by left. }
    rewrite !H' by (repeat (apply elem_of_cons; (left; reflexivity) || right)).
    destruct (bool_decide _) eqn:Hm; [|done]. apply bool_decide_eq_true in Hm.
    rewrite (H XATTR_SECURITY_PREFIX); [done|].
    apply elem_of_app. right. rewrite decide_True by done. by left.
Qed.

(** The override prefix itself is never hidden. *)
Lemma override_prefix_accessible n mode :
  can_access_xattr (XATTR_CONTAINERS_OVERRIDE_PREFIX ++ n) mode = true.
Proof. by destruct mode. Qed.

Lemma is_encoded_app n mode :
  is_encoded_xattr_name (XATTR_CONTAINERS_OVERRIDE_PREFIX ++ n) mode =
  negb (can_access_xattr n mode).
Proof.
  unfold is_encoded_xattr_name. rewrite starts_with_app. cbn [negb].
  by rewrite drop_app_length.
Qed.

Lemma is_encoded_spec n mode :
  is_encoded_xattr_name n mode = true ↔
  ∃ d, n = XATTR_CONTAINERS_OVERRIDE_PREFIX ++ d ∧ can_access_xattr d mode = false.
Proof.
  split.
  - intros H. unfold is_encoded_xattr_name in H. case_match eqn:Hs; [done|].
    zbool. apply starts_with_spec in Hs as [d ->]. rewrite drop_app_length in H.
    zbool. eauto.
  - intros (d & -> & Hd). by rewrite is_encoded_app, Hd.
Qed.

Lemma decode_override n mode :
  decode_xattr_name (XATTR_CONTAINERS_OVERRIDE_PREFIX ++ n) mode =
  Some (if can_access_xattr n mode then XATTR_CONTAINERS_OVERRIDE_PREFIX ++ n else n).
Proof.
  unfold decode_xattr_name. rewrite is_encoded_app, override_prefix_accessible.
  destruct (can_access_xattr n mode); cbn [negb]; [done|]. by rewrite drop_app_length.
Qed.

Lemma encode_cases n e mode :
  encode_xattr_name n mode = Some e ↔
  (can_access_xattr n mode = true ∧ e = n) ∨
  (can_access_xattr n mode = false ∧ mode = ModeContainers ∧
   (length n + length XATTR_CONTAINERS_OVERRIDE_PREFIX ≤ 255)%nat ∧
   e = XATTR_CONTAINERS_OVERRIDE_PREFIX ++ n).
Proof.
  unfold encode_xattr_name. destruct (can_access_xattr n mode).
  { split; [intros [= <-]; by left|]. by intros [[_ ->]|[? _]]. }
  case_bool_decide as Hm; [naive_solver|].
  destruct (Nat.ltb_spec 255 (length n + length XATTR_CONTAINERS_OVERRIDE_PREFIX)) as [Hl|Hl].
  - split; [done|]. intros [[? _]|(_ & _ & Hl' & _)]; [done|lia].
  - split; [intros [= <-]; right; done|]. by intros [[? _]|(_ & _ & _ & ->)].
Qed.
End lemmas.

(** ** Properties *)

(** C31. A user cannot store an attribute under a hidden prefix.  Whatever name is
    passed to setxattr or removexattr, the encoded name that reaches the upper
    layer starts with none of the prefixes hidden in the mode, so it is not one
    of the three opaque marks nor [user.fuseoverlayfs.override_stat]; it fits the
    255 bytes of a name unless it was passed through unchanged.  The attribute
    [user.containers.override_stat], which setattr keeps the owner and mode in,
    is not under a hidden prefix: it can be stored, by its own name and by no
    other; and [security.fuseoverlayfs.override_stat] is under one in the
    containers mode only. *)
Theorem encode_never_internal (name e : bytes) (mode : StatOverrideMode)
    (He : encode_xattr_name name mode = Some e) :
  (∀ p, p ∈ internal_prefixes mode → starts_with p e = false) ∧
  (e ∉ [OPAQUE_XATTR; UNPRIVILEGED_OPAQUE_XATTR; PRIVILEGED_OPAQUE_XATTR; bs "user.fuseoverlayfs.override_stat"]) ∧
  (e = name ∨ (length e ≤ 255)%nat) ∧
  (e = bs "user.containers.override_stat" → name = e).
Proof.
  assert (can_access_xattr e mode = true) as Hacc.
  { apply encode_cases in He as [[Hc ->]|(_ & _ & _ & ->)]; [done|apply override_prefix_accessible]. }
  split_and!.
  - by apply can_access_xattr_spec.
  - intros Hin. repeat (apply elem_of_cons in Hin as [->|Hin]; [by destruct mode|]). by apply elem_of_nil in Hin.
  - apply encode_cases in He as [[_ ->]|(_ & _ & Hl & ->)]; [by left|right]. rewrite length_app. lia.
  - apply encode_cases in He as [[_ ->]|(Hc & -> & _ & ->)]; [done|].
    change (bs "user.containers.override_stat") with (XATTR_CONTAINERS_OVERRIDE_PREFIX ++ bs "stat").
    intros ->%app_inv_head. done.
Qed.

Lemma encode_never_internal_witness :
  let e := bs "user.containers.override_trusted.overlay.opaque" in
  encode_xattr_name (bs "trusted.overlay.opaque") ModeContainers = Some e ∧
  (∀ p, p ∈ internal_prefixes ModeContainers → starts_with p e = false) ∧
  (e ∉ [OPAQUE_XATTR; UNPRIVILEGED_OPAQUE_XATTR; PRIVILEGED_OPAQUE_XATTR; bs "user.fuseoverlayfs.override_stat"]) ∧
  (e = bs "trusted.overlay.opaque" ∨ (length e ≤ 255)%nat) ∧
  (e = bs "user.containers.override_stat" → bs "trusted.overlay.opaque" = e).
Proof.
  cbv zeta. split; [reflexivity|].
  apply (encode_never_internal (bs "trusted.overlay.opaque")). reflexivity.
Defined.

(** C32. What is stored under an encoded name is listed back under the name
    the user chose, exactly when that name is not itself of the encoded form;
    for a name of the encoded form the listing strips the prefix instead. *)
Theorem decode_encode (name e : bytes) (mode : StatOverrideMode)
    (He : encode_xattr_name name mode = Some e) :
  decode_xattr_name e mode =
    Some (if is_encoded_xattr_name name mode
          then drop (length XATTR_CONTAINERS_OVERRIDE_PREFIX) name else name).
Proof.
  apply encode_cases in He as [[Hc ->]|(Hc & _ & _ & ->)].
  - unfold decode_xattr_name. destruct (is_encoded_xattr_name name mode); [done|]. by rewrite Hc.
  - rewrite decode_override, Hc. destruct (is_encoded_xattr_name name mode) eqn:Henc; [|done].
    apply is_encoded_spec in Henc as (d & -> & _). by rewrite override_prefix_accessible in Hc.
Qed.

Lemma decode_encode_witness :
  encode_xattr_name (bs "security.selinux") ModeContainers =
    Some (bs "user.containers.override_security.selinux") ∧
  decode_xattr_name (bs "user.containers.override_security.selinux") ModeContainers =
    Some (bs "security.selinux").
Proof. split; [reflexivity|]. apply (decode_encode (bs "security.selinux")). reflexivity. Defined.

(** Outside the containers mode an encoded name stored in a layer shows
    an internal name in the listing that no lookup can read: the listing
    decodes it, and getxattr, which encodes the listed name, refuses it. *)
Theorem listed_but_unreadable (d : bytes) (mode : StatOverrideMode)
    (Hmode : mode ≠ ModeContainers) (Hd : can_access_xattr d mode = false) :
  encode_xattr_name (XATTR_CONTAINERS_OVERRIDE_PREFIX ++ d) mode =
    Some (XATTR_CONTAINERS_OVERRIDE_PREFIX ++ d) ∧
  decode_xattr_name (XATTR_CONTAINERS_OVERRIDE_PREFIX ++ d) mode = Some d ∧
  encode_xattr_name d mode = None.
Proof.
  split_and!.
  - apply encode_cases. left. split; [apply override_prefix_accessible|done].
  - by rewrite decode_override, Hd.
  - unfold encode_xattr_name. by rewrite Hd, bool_decide_eq_true_2.
Qed.

Lemma listed_but_unreadable_witness :
  decode_xattr_name (bs "user.containers.override_user.overlay.opaque") ModeNone =
    Some (bs "user.overlay.opaque").
Proof.
  apply (listed_but_unreadable (bs "user.overlay.opaque") ModeNone); [done|reflexivity].
Defined.

(** The list filter is the map of the name filter over the names of the
    NUL-terminated list: it keeps their order, drops the internal ones and
    those that are not UTF-8, and writes every kept name NUL-terminated. *)
Theorem filter_xattr_list_spec (names : list bytes) (mode : StatOverrideMode)
    (Hnames : Forall (λ n, n ≠ [] ∧ NUL ∉ n) names) :
  filter_xattr_list (names ≫= λ n, n ++ [NUL]) mode =
  omap (λ n, decode_xattr_name n mode) (filter (λ n, valid_utf8 n = true) names)
    ≫= λ d, d ++ [NUL].
Proof.
  unfold filter_xattr_list.
  assert (split_on NUL (names ≫= λ n, n ++ [NUL]) = names ++ [[]]) as ->.
  { induction Hnames as [|n names [_ Hn] _ IH]; [done|]. cbn [mbind list_bind].
    change (mbind (λ n, n ++ [NUL]) names) with (names ≫= λ n, n ++ [NUL]).
    rewrite <-app_assoc. cbn [app]. by rewrite split_on_app, IH. }
  rewrite bind_app. cbn. rewrite !app_nil_r.
  induction Hnames as [|n names [Hne _] _ IH]; [done|]. cbn [mbind list_bind].
  rewrite filter_cons. change (mbind (filter_xattr_name mode) names)
    with (names ≫= filter_xattr_name mode). rewrite IH. unfold filter_xattr_name.
  rewrite bool_decide_eq_false_2 by done.
  destruct (valid_utf8 n); cbn [negb]; [rewrite decide_True by done|by rewrite decide_False].
  cbn. by destruct (decode_xattr_name n mode).
Qed.

Lemma filter_xattr_list_spec_witness :
  let names := [bs "user.myattr"; bs "user.fuseoverlayfs.origin"; bs "trusted.overlay.opaque";
                bs "user.other"] in
  filter_xattr_list (names ≫= λ n, n ++ [NUL]) ModeNone =
  [bs "user.myattr"; bs "user.other"] ≫= λ d, d ++ [NUL].
Proof.
  cbv zeta. refine (eq_trans (filter_xattr_list_spec _ ModeNone _) _); [|reflexivity].
  apply (bool_decide_unpack _). vm_compute. exact I.
Defined.
