(* ===== verification/ConfigData.v ===== *)
(** * The configuration record (src/src/config.rs)

    [OverlayConfig] with one setter per field the parser assigns, and the
    operations of [f64] the code uses. *)

From S2P Require Import Prelude Mapping.
Local Open Scope Z_scope.

(** [f64], as far as the code uses it: its parser, the default timeout, the
    test [> 0.0], and [Duration::from_secs_f64] in nanoseconds, which panics
    ([None]) on a negative, infinite or NaN number. *)
Class F64 := {
  f64 : Type;
  f64_parse : bytes → option f64;
  f64_1e9 : f64;
  f64_positive : f64 → bool;
  f64_duration : f64 → option Z
}.

Section config.
Context `{F64}.

Record OverlayConfig := {
cfg_lowerdir : option bytes;
cfg_upperdir : option bytes;
cfg_workdir : option bytes;
cfg_mountpoint : option bytes;
cfg_redirect_dir : option bytes;
cfg_context : option bytes;
cfg_plugins : option bytes;
cfg_uid_str : option bytes;
cfg_gid_str : option bytes;
cfg_uid_mappings : list IdMapping;
cfg_gid_mappings : list IdMapping;
cfg_timeout : f64;
cfg_xattr_permissions : Z;
cfg_nfs_filehandles : Z;
cfg_threaded : bool;
cfg_fsync : bool;
cfg_fast_ino_check : bool;
cfg_writeback : bool;
cfg_disable_xattrs : bool;
cfg_squash_to_uid : option Z;
cfg_squash_to_gid : option Z;
cfg_debug : bool;
cfg_foreground : bool;
cfg_squash_to_root : bool;
cfg_ino_t_32 : bool;
cfg_static_nlink : bool;
cfg_volatile_mode : bool;
cfg_noacl : bool;
cfg_fuse_options : list bytes;
cfg_euid : Z
}.

Definition set_cfg_lowerdir  (v : option bytes) (s : OverlayConfig) : OverlayConfig :=
{| cfg_lowerdir := v; cfg_upperdir := cfg_upperdir s; cfg_workdir := cfg_workdir s;
   cfg_mountpoint := cfg_mountpoint s; cfg_redirect_dir := cfg_redirect_dir s; cfg_context :=
   cfg_context s; cfg_plugins := cfg_plugins s; cfg_uid_str := cfg_uid_str s; cfg_gid_str :=
   cfg_gid_str s; cfg_uid_mappings := cfg_uid_mappings s; cfg_gid_mappings := cfg_gid_mappings
   s; cfg_timeout := cfg_timeout s; cfg_xattr_permissions := cfg_xattr_permissions s;
   cfg_nfs_filehandles := cfg_nfs_filehandles s; cfg_threaded := cfg_threaded s; cfg_fsync :=
   cfg_fsync s; cfg_fast_ino_check := cfg_fast_ino_check s; cfg_writeback := cfg_writeback s;
   cfg_disable_xattrs := cfg_disable_xattrs s; cfg_squash_to_uid := cfg_squash_to_uid s;
   cfg_squash_to_gid := cfg_squash_to_gid s; cfg_debug := cfg_debug s; cfg_foreground :=
   cfg_foreground s; cfg_squash_to_root := cfg_squash_to_root s; cfg_ino_t_32 := cfg_ino_t_32
   s; cfg_static_nlink := cfg_static_nlink s; cfg_volatile_mode := cfg_volatile_mode s;
   cfg_noacl := cfg_noacl s; cfg_fuse_options := cfg_fuse_options s; cfg_euid := cfg_euid s
   |}.
Definition set_cfg_upperdir  (v : option bytes) (s : OverlayConfig) : OverlayConfig :=
{| cfg_lowerdir := cfg_lowerdir s; cfg_upperdir := v; cfg_workdir := cfg_workdir s;
   cfg_mountpoint := cfg_mountpoint s; cfg_redirect_dir := cfg_redirect_dir s; cfg_context :=
   cfg_context s; cfg_plugins := cfg_plugins s; cfg_uid_str := cfg_uid_str s; cfg_gid_str :=
   cfg_gid_str s; cfg_uid_mappings := cfg_uid_mappings s; cfg_gid_mappings := cfg_gid_mappings
   s; cfg_timeout := cfg_timeout s; cfg_xattr_permissions := cfg_xattr_permissions s;
   cfg_nfs_filehandles := cfg_nfs_filehandles s; cfg_threaded := cfg_threaded s; cfg_fsync :=
   cfg_fsync s; cfg_fast_ino_check := cfg_fast_ino_check s; cfg_writeback := cfg_writeback s;
   cfg_disable_xattrs := cfg_disable_xattrs s; cfg_squash_to_uid := cfg_squash_to_uid s;
   cfg_squash_to_gid := cfg_squash_to_gid s; cfg_debug := cfg_debug s; cfg_foreground :=
   cfg_foreground s; cfg_squash_to_root := cfg_squash_to_root s; cfg_ino_t_32 := cfg_ino_t_32
   s; cfg_static_nlink := cfg_static_nlink s; cfg_volatile_mode := cfg_volatile_mode s;
   cfg_noacl := cfg_noacl s; cfg_fuse_options := cfg_fuse_options s; cfg_euid := cfg_euid s
   |}.
Definition set_cfg_workdir  (v : option bytes) (s : OverlayConfig) : OverlayConfig :=
{| cfg_lowerdir := cfg_lowerdir s; cfg_upperdir := cfg_upperdir s; cfg_workdir := v;
   cfg_mountpoint := cfg_mountpoint s; cfg_redirect_dir := cfg_redirect_dir s; cfg_context :=
   cfg_context s; cfg_plugins := cfg_plugins s; cfg_uid_str := cfg_uid_str s; cfg_gid_str :=
   cfg_gid_str s; cfg_uid_mappings := cfg_uid_mappings s; cfg_gid_mappings := cfg_gid_mappings
   s; cfg_timeout := cfg_timeout s; cfg_xattr_permissions := cfg_xattr_permissions s;
   cfg_nfs_filehandles := cfg_nfs_filehandles s; cfg_threaded := cfg_threaded s; cfg_fsync :=
   cfg_fsync s; cfg_fast_ino_check := cfg_fast_ino_check s; cfg_writeback := cfg_writeback s;
   cfg_disable_xattrs := cfg_disable_xattrs s; cfg_squash_to_uid := cfg_squash_to_uid s;
   cfg_squash_to_gid := cfg_squash_to_gid s; cfg_debug := cfg_debug s; cfg_foreground :=
   cfg_foreground s; cfg_squash_to_root := cfg_squash_to_root s; cfg_ino_t_32 := cfg_ino_t_32
   s; cfg_static_nlink := cfg_static_nlink s; cfg_volatile_mode := cfg_volatile_mode s;
   cfg_noacl := cfg_noacl s; cfg_fuse_options := cfg_fuse_options s; cfg_euid := cfg_euid s
   |}.
Definition set_cfg_mountpoint  (v : option bytes) (s : OverlayConfig) : OverlayConfig :=
{| cfg_lowerdir := cfg_lowerdir s; cfg_upperdir := cfg_upperdir s; cfg_workdir := cfg_workdir
   s; cfg_mountpoint := v; cfg_redirect_dir := cfg_redirect_dir s; cfg_context := cfg_context
   s; cfg_plugins := cfg_plugins s; cfg_uid_str := cfg_uid_str s; cfg_gid_str := cfg_gid_str
   s; cfg_uid_mappings := cfg_uid_mappings s; cfg_gid_mappings := cfg_gid_mappings s;
   cfg_timeout := cfg_timeout s; cfg_xattr_permissions := cfg_xattr_permissions s;
   cfg_nfs_filehandles := cfg_nfs_filehandles s; cfg_threaded := cfg_threaded s; cfg_fsync :=
   cfg_fsync s; cfg_fast_ino_check := cfg_fast_ino_check s; cfg_writeback := cfg_writeback s;
   cfg_disable_xattrs := cfg_disable_xattrs s; cfg_squash_to_uid := cfg_squash_to_uid s;
   cfg_squash_to_gid := cfg_squash_to_gid s; cfg_debug := cfg_debug s; cfg_foreground :=
   cfg_foreground s; cfg_squash_to_root := cfg_squash_to_root s; cfg_ino_t_32 := cfg_ino_t_32
   s; cfg_static_nlink := cfg_static_nlink s; cfg_volatile_mode := cfg_volatile_mode s;
   cfg_noacl := cfg_noacl s; cfg_fuse_options := cfg_fuse_options s; cfg_euid := cfg_euid s
   |}.
Definition set_cfg_redirect_dir  (v : option bytes) (s : OverlayConfig) : OverlayConfig :=
{| cfg_lowerdir := cfg_lowerdir s; cfg_upperdir := cfg_upperdir s; cfg_workdir := cfg_workdir
   s; cfg_mountpoint := cfg_mountpoint s; cfg_redirect_dir := v; cfg_context := cfg_context s;
   cfg_plugins := cfg_plugins s; cfg_uid_str := cfg_uid_str s; cfg_gid_str := cfg_gid_str s;
   cfg_uid_mappings := cfg_uid_mappings s; cfg_gid_mappings := cfg_gid_mappings s; cfg_timeout
   := cfg_timeout s; cfg_xattr_permissions := cfg_xattr_permissions s; cfg_nfs_filehandles :=
   cfg_nfs_filehandles s; cfg_threaded := cfg_threaded s; cfg_fsync := cfg_fsync s;
   cfg_fast_ino_check := cfg_fast_ino_check s; cfg_writeback := cfg_writeback s;
   cfg_disable_xattrs := cfg_disable_xattrs s; cfg_squash_to_uid := cfg_squash_to_uid s;
   cfg_squash_to_gid := cfg_squash_to_gid s; cfg_debug := cfg_debug s; cfg_foreground :=
   cfg_foreground s; cfg_squash_to_root := cfg_squash_to_root s; cfg_ino_t_32 := cfg_ino_t_32
   s; cfg_static_nlink := cfg_static_nlink s; cfg_volatile_mode := cfg_volatile_mode s;
   cfg_noacl := cfg_noacl s; cfg_fuse_options := cfg_fuse_options s; cfg_euid := cfg_euid s
   |}.
Definition set_cfg_context  (v : option bytes) (s : OverlayConfig) : OverlayConfig :=
{| cfg_lowerdir := cfg_lowerdir s; cfg_upperdir := cfg_upperdir s; cfg_workdir := cfg_workdir
   s; cfg_mountpoint := cfg_mountpoint s; cfg_redirect_dir := cfg_redirect_dir s; cfg_context
   := v; cfg_plugins := cfg_plugins s; cfg_uid_str := cfg_uid_str s; cfg_gid_str :=
   cfg_gid_str s; cfg_uid_mappings := cfg_uid_mappings s; cfg_gid_mappings := cfg_gid_mappings
   s; cfg_timeout := cfg_timeout s; cfg_xattr_permissions := cfg_xattr_permissions s;
   cfg_nfs_filehandles := cfg_nfs_filehandles s; cfg_threaded := cfg_threaded s; cfg_fsync :=
   cfg_fsync s; cfg_fast_ino_check := cfg_fast_ino_check s; cfg_writeback := cfg_writeback s;
   cfg_disable_xattrs := cfg_disable_xattrs s; cfg_squash_to_uid := cfg_squash_to_uid s;
   cfg_squash_to_gid := cfg_squash_to_gid s; cfg_debug := cfg_debug s; cfg_foreground :=
   cfg_foreground s; cfg_squash_to_root := cfg_squash_to_root s; cfg_ino_t_32 := cfg_ino_t_32
   s; cfg_static_nlink := cfg_static_nlink s; cfg_volatile_mode := cfg_volatile_mode s;
   cfg_noacl := cfg_noacl s; cfg_fuse_options := cfg_fuse_options s; cfg_euid := cfg_euid s
   |}.
Definition set_cfg_plugins  (v : option bytes) (s : OverlayConfig) : OverlayConfig :=
{| cfg_lowerdir := cfg_lowerdir s; cfg_upperdir := cfg_upperdir s; cfg_workdir := cfg_workdir
   s; cfg_mountpoint := cfg_mountpoint s; cfg_redirect_dir := cfg_redirect_dir s; cfg_context
   := cfg_context s; cfg_plugins := v; cfg_uid_str := cfg_uid_str s; cfg_gid_str :=
   cfg_gid_str s; cfg_uid_mappings := cfg_uid_mappings s; cfg_gid_mappings := cfg_gid_mappings
   s; cfg_timeout := cfg_timeout s; cfg_xattr_permissions := cfg_xattr_permissions s;
   cfg_nfs_filehandles := cfg_nfs_filehandles s; cfg_threaded := cfg_threaded s; cfg_fsync :=
   cfg_fsync s; cfg_fast_ino_check := cfg_fast_ino_check s; cfg_writeback := cfg_writeback s;
   cfg_disable_xattrs := cfg_disable_xattrs s; cfg_squash_to_uid := cfg_squash_to_uid s;
   cfg_squash_to_gid := cfg_squash_to_gid s; cfg_debug := cfg_debug s; cfg_foreground :=
   cfg_foreground s; cfg_squash_to_root := cfg_squash_to_root s; cfg_ino_t_32 := cfg_ino_t_32
   s; cfg_static_nlink := cfg_static_nlink s; cfg_volatile_mode := cfg_volatile_mode s;
   cfg_noacl := cfg_noacl s; cfg_fuse_options := cfg_fuse_options s; cfg_euid := cfg_euid s
   |}.
Definition set_cfg_uid_str  (v : option bytes) (s : OverlayConfig) : OverlayConfig :=
{| cfg_lowerdir := cfg_lowerdir s; cfg_upperdir := cfg_upperdir s; cfg_workdir := cfg_workdir
   s; cfg_mountpoint := cfg_mountpoint s; cfg_redirect_dir := cfg_redirect_dir s; cfg_context
   := cfg_context s; cfg_plugins := cfg_plugins s; cfg_uid_str := v; cfg_gid_str :=
   cfg_gid_str s; cfg_uid_mappings := cfg_uid_mappings s; cfg_gid_mappings := cfg_gid_mappings
   s; cfg_timeout := cfg_timeout s; cfg_xattr_permissions := cfg_xattr_permissions s;
   cfg_nfs_filehandles := cfg_nfs_filehandles s; cfg_threaded := cfg_threaded s; cfg_fsync :=
   cfg_fsync s; cfg_fast_ino_check := cfg_fast_ino_check s; cfg_writeback := cfg_writeback s;
   cfg_disable_xattrs := cfg_disable_xattrs s; cfg_squash_to_uid := cfg_squash_to_uid s;
   cfg_squash_to_gid := cfg_squash_to_gid s; cfg_debug := cfg_debug s; cfg_foreground :=
   cfg_foreground s; cfg_squash_to_root := cfg_squash_to_root s; cfg_ino_t_32 := cfg_ino_t_32
   s; cfg_static_nlink := cfg_static_nlink s; cfg_volatile_mode := cfg_volatile_mode s;
   cfg_noacl := cfg_noacl s; cfg_fuse_options := cfg_fuse_options s; cfg_euid := cfg_euid s
   |}.
Definition set_cfg_gid_str  (v : option bytes) (s : OverlayConfig) : OverlayConfig :=
{| cfg_lowerdir := cfg_lowerdir s; cfg_upperdir := cfg_upperdir s; cfg_workdir := cfg_workdir
   s; cfg_mountpoint := cfg_mountpoint s; cfg_redirect_dir := cfg_redirect_dir s; cfg_context
   := cfg_context s; cfg_plugins := cfg_plugins s; cfg_uid_str := cfg_uid_str s; cfg_gid_str
   := v; cfg_uid_mappings := cfg_uid_mappings s; cfg_gid_mappings := cfg_gid_mappings s;
   cfg_timeout := cfg_timeout s; cfg_xattr_permissions := cfg_xattr_permissions s;
   cfg_nfs_filehandles := cfg_nfs_filehandles s; cfg_threaded := cfg_threaded s; cfg_fsync :=
   cfg_fsync s; cfg_fast_ino_check := cfg_fast_ino_check s; cfg_writeback := cfg_writeback s;
   cfg_disable_xattrs := cfg_disable_xattrs s; cfg_squash_to_uid := cfg_squash_to_uid s;
   cfg_squash_to_gid := cfg_squash_to_gid s; cfg_debug := cfg_debug s; cfg_foreground :=
   cfg_foreground s; cfg_squash_to_root := cfg_squash_to_root s; cfg_ino_t_32 := cfg_ino_t_32
   s; cfg_static_nlink := cfg_static_nlink s; cfg_volatile_mode := cfg_volatile_mode s;
   cfg_noacl := cfg_noacl s; cfg_fuse_options := cfg_fuse_options s; cfg_euid := cfg_euid s
   |}.
Definition set_cfg_uid_mappings  (v : list IdMapping) (s : OverlayConfig) : OverlayConfig :=
{| cfg_lowerdir := cfg_lowerdir s; cfg_upperdir := cfg_upperdir s; cfg_workdir := cfg_workdir
   s; cfg_mountpoint := cfg_mountpoint s; cfg_redirect_dir := cfg_redirect_dir s; cfg_context
   := cfg_context s; cfg_plugins := cfg_plugins s; cfg_uid_str := cfg_uid_str s; cfg_gid_str
   := cfg_gid_str s; cfg_uid_mappings := v; cfg_gid_mappings := cfg_gid_mappings s;
   cfg_timeout := cfg_timeout s; cfg_xattr_permissions := cfg_xattr_permissions s;
   cfg_nfs_filehandles := cfg_nfs_filehandles s; cfg_threaded := cfg_threaded s; cfg_fsync :=
   cfg_fsync s; cfg_fast_ino_check := cfg_fast_ino_check s; cfg_writeback := cfg_writeback s;
   cfg_disable_xattrs := cfg_disable_xattrs s; cfg_squash_to_uid := cfg_squash_to_uid s;
   cfg_squash_to_gid := cfg_squash_to_gid s; cfg_debug := cfg_debug s; cfg_foreground :=
   cfg_foreground s; cfg_squash_to_root := cfg_squash_to_root s; cfg_ino_t_32 := cfg_ino_t_32
   s; cfg_static_nlink := cfg_static_nlink s; cfg_volatile_mode := cfg_volatile_mode s;
   cfg_noacl := cfg_noacl s; cfg_fuse_options := cfg_fuse_options s; cfg_euid := cfg_euid s
   |}.
Definition set_cfg_gid_mappings  (v : list IdMapping) (s : OverlayConfig) : OverlayConfig :=
{| cfg_lowerdir := cfg_lowerdir s; cfg_upperdir := cfg_upperdir s; cfg_workdir := cfg_workdir
   s; cfg_mountpoint := cfg_mountpoint s; cfg_redirect_dir := cfg_redirect_dir s; cfg_context
   := cfg_context s; cfg_plugins := cfg_plugins s; cfg_uid_str := cfg_uid_str s; cfg_gid_str
   := cfg_gid_str s; cfg_uid_mappings := cfg_uid_mappings s; cfg_gid_mappings := v;
   cfg_timeout := cfg_timeout s; cfg_xattr_permissions := cfg_xattr_permissions s;
   cfg_nfs_filehandles := cfg_nfs_filehandles s; cfg_threaded := cfg_threaded s; cfg_fsync :=
   cfg_fsync s; cfg_fast_ino_check := cfg_fast_ino_check s; cfg_writeback := cfg_writeback s;
   cfg_disable_xattrs := cfg_disable_xattrs s; cfg_squash_to_uid := cfg_squash_to_uid s;
   cfg_squash_to_gid := cfg_squash_to_gid s; cfg_debug := cfg_debug s; cfg_foreground :=
   cfg_foreground s; cfg_squash_to_root := cfg_squash_to_root s; cfg_ino_t_32 := cfg_ino_t_32
   s; cfg_static_nlink := cfg_static_nlink s; cfg_volatile_mode := cfg_volatile_mode s;
   cfg_noacl := cfg_noacl s; cfg_fuse_options := cfg_fuse_options s; cfg_euid := cfg_euid s
   |}.
Definition set_cfg_timeout  (v : f64) (s : OverlayConfig) : OverlayConfig :=
{| cfg_lowerdir := cfg_lowerdir s; cfg_upperdir := cfg_upperdir s; cfg_workdir := cfg_workdir
   s; cfg_mountpoint := cfg_mountpoint s; cfg_redirect_dir := cfg_redirect_dir s; cfg_context
   := cfg_context s; cfg_plugins := cfg_plugins s; cfg_uid_str := cfg_uid_str s; cfg_gid_str
   := cfg_gid_str s; cfg_uid_mappings := cfg_uid_mappings s; cfg_gid_mappings :=
   cfg_gid_mappings s; cfg_timeout := v; cfg_xattr_permissions := cfg_xattr_permissions s;
   cfg_nfs_filehandles := cfg_nfs_filehandles s; cfg_threaded := cfg_threaded s; cfg_fsync :=
   cfg_fsync s; cfg_fast_ino_check := cfg_fast_ino_check s; cfg_writeback := cfg_writeback s;
   cfg_disable_xattrs := cfg_disable_xattrs s; cfg_squash_to_uid := cfg_squash_to_uid s;
   cfg_squash_to_gid := cfg_squash_to_gid s; cfg_debug := cfg_debug s; cfg_foreground :=
   cfg_foreground s; cfg_squash_to_root := cfg_squash_to_root s; cfg_ino_t_32 := cfg_ino_t_32
   s; cfg_static_nlink := cfg_static_nlink s; cfg_volatile_mode := cfg_volatile_mode s;
   cfg_noacl := cfg_noacl s; cfg_fuse_options := cfg_fuse_options s; cfg_euid := cfg_euid s
   |}.
Definition set_cfg_xattr_permissions  (v : Z) (s : OverlayConfig) : OverlayConfig :=
{| cfg_lowerdir := cfg_lowerdir s; cfg_upperdir := cfg_upperdir s; cfg_workdir := cfg_workdir
   s; cfg_mountpoint := cfg_mountpoint s; cfg_redirect_dir := cfg_redirect_dir s; cfg_context
   := cfg_context s; cfg_plugins := cfg_plugins s; cfg_uid_str := cfg_uid_str s; cfg_gid_str
   := cfg_gid_str s; cfg_uid_mappings := cfg_uid_mappings s; cfg_gid_mappings :=
   cfg_gid_mappings s; cfg_timeout := cfg_timeout s; cfg_xattr_permissions := v;
   cfg_nfs_filehandles := cfg_nfs_filehandles s; cfg_threaded := cfg_threaded s; cfg_fsync :=
   cfg_fsync s; cfg_fast_ino_check := cfg_fast_ino_check s; cfg_writeback := cfg_writeback s;
   cfg_disable_xattrs := cfg_disable_xattrs s; cfg_squash_to_uid := cfg_squash_to_uid s;
   cfg_squash_to_gid := cfg_squash_to_gid s; cfg_debug := cfg_debug s; cfg_foreground :=
   cfg_foreground s; cfg_squash_to_root := cfg_squash_to_root s; cfg_ino_t_32 := cfg_ino_t_32
   s; cfg_static_nlink := cfg_static_nlink s; cfg_volatile_mode := cfg_volatile_mode s;
   cfg_noacl := cfg_noacl s; cfg_fuse_options := cfg_fuse_options s; cfg_euid := cfg_euid s
   |}.
Definition set_cfg_nfs_filehandles  (v : Z) (s : OverlayConfig) : OverlayConfig :=
{| cfg_lowerdir := cfg_lowerdir s; cfg_upperdir := cfg_upperdir s; cfg_workdir := cfg_workdir
   s; cfg_mountpoint := cfg_mountpoint s; cfg_redirect_dir := cfg_redirect_dir s; cfg_context
   := cfg_context s; cfg_plugins := cfg_plugins s; cfg_uid_str := cfg_uid_str s; cfg_gid_str
   := cfg_gid_str s; cfg_uid_mappings := cfg_uid_mappings s; cfg_gid_mappings :=
   cfg_gid_mappings s; cfg_timeout := cfg_timeout s; cfg_xattr_permissions :=
   cfg_xattr_permissions s; cfg_nfs_filehandles := v; cfg_threaded := cfg_threaded s;
   cfg_fsync := cfg_fsync s; cfg_fast_ino_check := cfg_fast_ino_check s; cfg_writeback :=
   cfg_writeback s; cfg_disable_xattrs := cfg_disable_xattrs s; cfg_squash_to_uid :=
   cfg_squash_to_uid s; cfg_squash_to_gid := cfg_squash_to_gid s; cfg_debug := cfg_debug s;
   cfg_foreground := cfg_foreground s; cfg_squash_to_root := cfg_squash_to_root s;
   cfg_ino_t_32 := cfg_ino_t_32 s; cfg_static_nlink := cfg_static_nlink s; cfg_volatile_mode
   := cfg_volatile_mode s; cfg_noacl := cfg_noacl s; cfg_fuse_options := cfg_fuse_options s;
   cfg_euid := cfg_euid s |}.
Definition set_cfg_threaded  (v : bool) (s : OverlayConfig) : OverlayConfig :=
{| cfg_lowerdir := cfg_lowerdir s; cfg_upperdir := cfg_upperdir s; cfg_workdir := cfg_workdir
   s; cfg_mountpoint := cfg_mountpoint s; cfg_redirect_dir := cfg_redirect_dir s; cfg_context
   := cfg_context s; cfg_plugins := cfg_plugins s; cfg_uid_str := cfg_uid_str s; cfg_gid_str
   := cfg_gid_str s; cfg_uid_mappings := cfg_uid_mappings s; cfg_gid_mappings :=
   cfg_gid_mappings s; cfg_timeout := cfg_timeout s; cfg_xattr_permissions :=
   cfg_xattr_permissions s; cfg_nfs_filehandles := cfg_nfs_filehandles s; cfg_threaded := v;
   cfg_fsync := cfg_fsync s; cfg_fast_ino_check := cfg_fast_ino_check s; cfg_writeback :=
   cfg_writeback s; cfg_disable_xattrs := cfg_disable_xattrs s; cfg_squash_to_uid :=
   cfg_squash_to_uid s; cfg_squash_to_gid := cfg_squash_to_gid s; cfg_debug := cfg_debug s;
   cfg_foreground := cfg_foreground s; cfg_squash_to_root := cfg_squash_to_root s;
   cfg_ino_t_32 := cfg_ino_t_32 s; cfg_static_nlink := cfg_static_nlink s; cfg_volatile_mode
   := cfg_volatile_mode s; cfg_noacl := cfg_noacl s; cfg_fuse_options := cfg_fuse_options s;
   cfg_euid := cfg_euid s |}.
Definition set_cfg_fsync  (v : bool) (s : OverlayConfig) : OverlayConfig :=
{| cfg_lowerdir := cfg_lowerdir s; cfg_upperdir := cfg_upperdir s; cfg_workdir := cfg_workdir
   s; cfg_mountpoint := cfg_mountpoint s; cfg_redirect_dir := cfg_redirect_dir s; cfg_context
   := cfg_context s; cfg_plugins := cfg_plugins s; cfg_uid_str := cfg_uid_str s; cfg_gid_str
   := cfg_gid_str s; cfg_uid_mappings := cfg_uid_mappings s; cfg_gid_mappings :=
   cfg_gid_mappings s; cfg_timeout := cfg_timeout s; cfg_xattr_permissions :=
   cfg_xattr_permissions s; cfg_nfs_filehandles := cfg_nfs_filehandles s; cfg_threaded :=
   cfg_threaded s; cfg_fsync := v; cfg_fast_ino_check := cfg_fast_ino_check s; cfg_writeback
   := cfg_writeback s; cfg_disable_xattrs := cfg_disable_xattrs s; cfg_squash_to_uid :=
   cfg_squash_to_uid s; cfg_squash_to_gid := cfg_squash_to_gid s; cfg_debug := cfg_debug s;
   cfg_foreground := cfg_foreground s; cfg_squash_to_root := cfg_squash_to_root s;
   cfg_ino_t_32 := cfg_ino_t_32 s; cfg_static_nlink := cfg_static_nlink s; cfg_volatile_mode
   := cfg_volatile_mode s; cfg_noacl := cfg_noacl s; cfg_fuse_options := cfg_fuse_options s;
   cfg_euid := cfg_euid s |}.
Definition set_cfg_fast_ino_check  (v : bool) (s : OverlayConfig) : OverlayConfig :=
{| cfg_lowerdir := cfg_lowerdir s; cfg_upperdir := cfg_upperdir s; cfg_workdir := cfg_workdir
   s; cfg_mountpoint := cfg_mountpoint s; cfg_redirect_dir := cfg_redirect_dir s; cfg_context
   := cfg_context s; cfg_plugins := cfg_plugins s; cfg_uid_str := cfg_uid_str s; cfg_gid_str
   := cfg_gid_str s; cfg_uid_mappings := cfg_uid_mappings s; cfg_gid_mappings :=
   cfg_gid_mappings s; cfg_timeout := cfg_timeout s; cfg_xattr_permissions :=
   cfg_xattr_permissions s; cfg_nfs_filehandles := cfg_nfs_filehandles s; cfg_threaded :=
   cfg_threaded s; cfg_fsync := cfg_fsync s; cfg_fast_ino_check := v; cfg_writeback :=
   cfg_writeback s; cfg_disable_xattrs := cfg_disable_xattrs s; cfg_squash_to_uid :=
   cfg_squash_to_uid s; cfg_squash_to_gid := cfg_squash_to_gid s; cfg_debug := cfg_debug s;
   cfg_foreground := cfg_foreground s; cfg_squash_to_root := cfg_squash_to_root s;
   cfg_ino_t_32 := cfg_ino_t_32 s; cfg_static_nlink := cfg_static_nlink s; cfg_volatile_mode
   := cfg_volatile_mode s; cfg_noacl := cfg_noacl s; cfg_fuse_options := cfg_fuse_options s;
   cfg_euid := cfg_euid s |}.
Definition set_cfg_writeback  (v : bool) (s : OverlayConfig) : OverlayConfig :=
{| cfg_lowerdir := cfg_lowerdir s; cfg_upperdir := cfg_upperdir s; cfg_workdir := cfg_workdir
   s; cfg_mountpoint := cfg_mountpoint s; cfg_redirect_dir := cfg_redirect_dir s; cfg_context
   := cfg_context s; cfg_plugins := cfg_plugins s; cfg_uid_str := cfg_uid_str s; cfg_gid_str
   := cfg_gid_str s; cfg_uid_mappings := cfg_uid_mappings s; cfg_gid_mappings :=
   cfg_gid_mappings s; cfg_timeout := cfg_timeout s; cfg_xattr_permissions :=
   cfg_xattr_permissions s; cfg_nfs_filehandles := cfg_nfs_filehandles s; cfg_threaded :=
   cfg_threaded s; cfg_fsync := cfg_fsync s; cfg_fast_ino_check := cfg_fast_ino_check s;
   cfg_writeback := v; cfg_disable_xattrs := cfg_disable_xattrs s; cfg_squash_to_uid :=
   cfg_squash_to_uid s; cfg_squash_to_gid := cfg_squash_to_gid s; cfg_debug := cfg_debug s;
   cfg_foreground := cfg_foreground s; cfg_squash_to_root := cfg_squash_to_root s;
   cfg_ino_t_32 := cfg_ino_t_32 s; cfg_static_nlink := cfg_static_nlink s; cfg_volatile_mode
   := cfg_volatile_mode s; cfg_noacl := cfg_noacl s; cfg_fuse_options := cfg_fuse_options s;
   cfg_euid := cfg_euid s |}.
Definition set_cfg_disable_xattrs  (v : bool) (s : OverlayConfig) : OverlayConfig :=
{| cfg_lowerdir := cfg_lowerdir s; cfg_upperdir := cfg_upperdir s; cfg_workdir := cfg_workdir
   s; cfg_mountpoint := cfg_mountpoint s; cfg_redirect_dir := cfg_redirect_dir s; cfg_context
   := cfg_context s; cfg_plugins := cfg_plugins s; cfg_uid_str := cfg_uid_str s; cfg_gid_str
   := cfg_gid_str s; cfg_uid_mappings := cfg_uid_mappings s; cfg_gid_mappings :=
   cfg_gid_mappings s; cfg_timeout := cfg_timeout s; cfg_xattr_permissions :=
   cfg_xattr_permissions s; cfg_nfs_filehandles := cfg_nfs_filehandles s; cfg_threaded :=
   cfg_threaded s; cfg_fsync := cfg_fsync s; cfg_fast_ino_check := cfg_fast_ino_check s;
   cfg_writeback := cfg_writeback s; cfg_disable_xattrs := v; cfg_squash_to_uid :=
   cfg_squash_to_uid s; cfg_squash_to_gid := cfg_squash_to_gid s; cfg_debug := cfg_debug s;
   cfg_foreground := cfg_foreground s; cfg_squash_to_root := cfg_squash_to_root s;
   cfg_ino_t_32 := cfg_ino_t_32 s; cfg_static_nlink := cfg_static_nlink s; cfg_volatile_mode
   := cfg_volatile_mode s; cfg_noacl := cfg_noacl s; cfg_fuse_options := cfg_fuse_options s;
   cfg_euid := cfg_euid s |}.
Definition set_cfg_squash_to_uid  (v : option Z) (s : OverlayConfig) : OverlayConfig :=
{| cfg_lowerdir := cfg_lowerdir s; cfg_upperdir := cfg_upperdir s; cfg_workdir := cfg_workdir
   s; cfg_mountpoint := cfg_mountpoint s; cfg_redirect_dir := cfg_redirect_dir s; cfg_context
   := cfg_context s; cfg_plugins := cfg_plugins s; cfg_uid_str := cfg_uid_str s; cfg_gid_str
   := cfg_gid_str s; cfg_uid_mappings := cfg_uid_mappings s; cfg_gid_mappings :=
   cfg_gid_mappings s; cfg_timeout := cfg_timeout s; cfg_xattr_permissions :=
   cfg_xattr_permissions s; cfg_nfs_filehandles := cfg_nfs_filehandles s; cfg_threaded :=
   cfg_threaded s; cfg_fsync := cfg_fsync s; cfg_fast_ino_check := cfg_fast_ino_check s;
   cfg_writeback := cfg_writeback s; cfg_disable_xattrs := cfg_disable_xattrs s;
   cfg_squash_to_uid := v; cfg_squash_to_gid := cfg_squash_to_gid s; cfg_debug := cfg_debug s;
   cfg_foreground := cfg_foreground s; cfg_squash_to_root := cfg_squash_to_root s;
   cfg_ino_t_32 := cfg_ino_t_32 s; cfg_static_nlink := cfg_static_nlink s; cfg_volatile_mode
   := cfg_volatile_mode s; cfg_noacl := cfg_noacl s; cfg_fuse_options := cfg_fuse_options s;
   cfg_euid := cfg_euid s |}.
Definition set_cfg_squash_to_gid  (v : option Z) (s : OverlayConfig) : OverlayConfig :=
{| cfg_lowerdir := cfg_lowerdir s; cfg_upperdir := cfg_upperdir s; cfg_workdir := cfg_workdir
   s; cfg_mountpoint := cfg_mountpoint s; cfg_redirect_dir := cfg_redirect_dir s; cfg_context
   := cfg_context s; cfg_plugins := cfg_plugins s; cfg_uid_str := cfg_uid_str s; cfg_gid_str
   := cfg_gid_str s; cfg_uid_mappings := cfg_uid_mappings s; cfg_gid_mappings :=
   cfg_gid_mappings s; cfg_timeout := cfg_timeout s; cfg_xattr_permissions :=
   cfg_xattr_permissions s; cfg_nfs_filehandles := cfg_nfs_filehandles s; cfg_threaded :=
   cfg_threaded s; cfg_fsync := cfg_fsync s; cfg_fast_ino_check := cfg_fast_ino_check s;
   cfg_writeback := cfg_writeback s; cfg_disable_xattrs := cfg_disable_xattrs s;
   cfg_squash_to_uid := cfg_squash_to_uid s; cfg_squash_to_gid := v; cfg_debug := cfg_debug s;
   cfg_foreground := cfg_foreground s; cfg_squash_to_root := cfg_squash_to_root s;
   cfg_ino_t_32 := cfg_ino_t_32 s; cfg_static_nlink := cfg_static_nlink s; cfg_volatile_mode
   := cfg_volatile_mode s; cfg_noacl := cfg_noacl s; cfg_fuse_options := cfg_fuse_options s;
   cfg_euid := cfg_euid s |}.
Definition set_cfg_debug  (v : bool) (s : OverlayConfig) : OverlayConfig :=
{| cfg_lowerdir := cfg_lowerdir s; cfg_upperdir := cfg_upperdir s; cfg_workdir := cfg_workdir
   s; cfg_mountpoint := cfg_mountpoint s; cfg_redirect_dir := cfg_redirect_dir s; cfg_context
   := cfg_context s; cfg_plugins := cfg_plugins s; cfg_uid_str := cfg_uid_str s; cfg_gid_str
   := cfg_gid_str s; cfg_uid_mappings := cfg_uid_mappings s; cfg_gid_mappings :=
   cfg_gid_mappings s; cfg_timeout := cfg_timeout s; cfg_xattr_permissions :=
   cfg_xattr_permissions s; cfg_nfs_filehandles := cfg_nfs_filehandles s; cfg_threaded :=
   cfg_threaded s; cfg_fsync := cfg_fsync s; cfg_fast_ino_check := cfg_fast_ino_check s;
   cfg_writeback := cfg_writeback s; cfg_disable_xattrs := cfg_disable_xattrs s;
   cfg_squash_to_uid := cfg_squash_to_uid s; cfg_squash_to_gid := cfg_squash_to_gid s;
   cfg_debug := v; cfg_foreground := cfg_foreground s; cfg_squash_to_root :=
   cfg_squash_to_root s; cfg_ino_t_32 := cfg_ino_t_32 s; cfg_static_nlink := cfg_static_nlink
   s; cfg_volatile_mode := cfg_volatile_mode s; cfg_noacl := cfg_noacl s; cfg_fuse_options :=
   cfg_fuse_options s; cfg_euid := cfg_euid s |}.
Definition set_cfg_foreground  (v : bool) (s : OverlayConfig) : OverlayConfig :=
{| cfg_lowerdir := cfg_lowerdir s; cfg_upperdir := cfg_upperdir s; cfg_workdir := cfg_workdir
   s; cfg_mountpoint := cfg_mountpoint s; cfg_redirect_dir := cfg_redirect_dir s; cfg_context
   := cfg_context s; cfg_plugins := cfg_plugins s; cfg_uid_str := cfg_uid_str s; cfg_gid_str
   := cfg_gid_str s; cfg_uid_mappings := cfg_uid_mappings s; cfg_gid_mappings :=
   cfg_gid_mappings s; cfg_timeout := cfg_timeout s; cfg_xattr_permissions :=
   cfg_xattr_permissions s; cfg_nfs_filehandles := cfg_nfs_filehandles s; cfg_threaded :=
   cfg_threaded s; cfg_fsync := cfg_fsync s; cfg_fast_ino_check := cfg_fast_ino_check s;
   cfg_writeback := cfg_writeback s; cfg_disable_xattrs := cfg_disable_xattrs s;
   cfg_squash_to_uid := cfg_squash_to_uid s; cfg_squash_to_gid := cfg_squash_to_gid s;
   cfg_debug := cfg_debug s; cfg_foreground := v; cfg_squash_to_root := cfg_squash_to_root s;
   cfg_ino_t_32 := cfg_ino_t_32 s; cfg_static_nlink := cfg_static_nlink s; cfg_volatile_mode
   := cfg_volatile_mode s; cfg_noacl := cfg_noacl s; cfg_fuse_options := cfg_fuse_options s;
   cfg_euid := cfg_euid s |}.
Definition set_cfg_squash_to_root  (v : bool) (s : OverlayConfig) : OverlayConfig :=
{| cfg_lowerdir := cfg_lowerdir s; cfg_upperdir := cfg_upperdir s; cfg_workdir := cfg_workdir
   s; cfg_mountpoint := cfg_mountpoint s; cfg_redirect_dir := cfg_redirect_dir s; cfg_context
   := cfg_context s; cfg_plugins := cfg_plugins s; cfg_uid_str := cfg_uid_str s; cfg_gid_str
   := cfg_gid_str s; cfg_uid_mappings := cfg_uid_mappings s; cfg_gid_mappings :=
   cfg_gid_mappings s; cfg_timeout := cfg_timeout s; cfg_xattr_permissions :=
   cfg_xattr_permissions s; cfg_nfs_filehandles := cfg_nfs_filehandles s; cfg_threaded :=
   cfg_threaded s; cfg_fsync := cfg_fsync s; cfg_fast_ino_check := cfg_fast_ino_check s;
   cfg_writeback := cfg_writeback s; cfg_disable_xattrs := cfg_disable_xattrs s;
   cfg_squash_to_uid := cfg_squash_to_uid s; cfg_squash_to_gid := cfg_squash_to_gid s;
   cfg_debug := cfg_debug s; cfg_foreground := cfg_foreground s; cfg_squash_to_root := v;
   cfg_ino_t_32 := cfg_ino_t_32 s; cfg_static_nlink := cfg_static_nlink s; cfg_volatile_mode
   := cfg_volatile_mode s; cfg_noacl := cfg_noacl s; cfg_fuse_options := cfg_fuse_options s;
   cfg_euid := cfg_euid s |}.
Definition set_cfg_ino_t_32  (v : bool) (s : OverlayConfig) : OverlayConfig :=
{| cfg_lowerdir := cfg_lowerdir s; cfg_upperdir := cfg_upperdir s; cfg_workdir := cfg_workdir
   s; cfg_mountpoint := cfg_mountpoint s; cfg_redirect_dir := cfg_redirect_dir s; cfg_context
   := cfg_context s; cfg_plugins := cfg_plugins s; cfg_uid_str := cfg_uid_str s; cfg_gid_str
   := cfg_gid_str s; cfg_uid_mappings := cfg_uid_mappings s; cfg_gid_mappings :=
   cfg_gid_mappings s; cfg_timeout := cfg_timeout s; cfg_xattr_permissions :=
   cfg_xattr_permissions s; cfg_nfs_filehandles := cfg_nfs_filehandles s; cfg_threaded :=
   cfg_threaded s; cfg_fsync := cfg_fsync s; cfg_fast_ino_check := cfg_fast_ino_check s;
   cfg_writeback := cfg_writeback s; cfg_disable_xattrs := cfg_disable_xattrs s;
   cfg_squash_to_uid := cfg_squash_to_uid s; cfg_squash_to_gid := cfg_squash_to_gid s;
   cfg_debug := cfg_debug s; cfg_foreground := cfg_foreground s; cfg_squash_to_root :=
   cfg_squash_to_root s; cfg_ino_t_32 := v; cfg_static_nlink := cfg_static_nlink s;
   cfg_volatile_mode := cfg_volatile_mode s; cfg_noacl := cfg_noacl s; cfg_fuse_options :=
   cfg_fuse_options s; cfg_euid := cfg_euid s |}.
Definition set_cfg_static_nlink  (v : bool) (s : OverlayConfig) : OverlayConfig :=
{| cfg_lowerdir := cfg_lowerdir s; cfg_upperdir := cfg_upperdir s; cfg_workdir := cfg_workdir
   s; cfg_mountpoint := cfg_mountpoint s; cfg_redirect_dir := cfg_redirect_dir s; cfg_context
   := cfg_context s; cfg_plugins := cfg_plugins s; cfg_uid_str := cfg_uid_str s; cfg_gid_str
   := cfg_gid_str s; cfg_uid_mappings := cfg_uid_mappings s; cfg_gid_mappings :=
   cfg_gid_mappings s; cfg_timeout := cfg_timeout s; cfg_xattr_permissions :=
   cfg_xattr_permissions s; cfg_nfs_filehandles := cfg_nfs_filehandles s; cfg_threaded :=
   cfg_threaded s; cfg_fsync := cfg_fsync s; cfg_fast_ino_check := cfg_fast_ino_check s;
   cfg_writeback := cfg_writeback s; cfg_disable_xattrs := cfg_disable_xattrs s;
   cfg_squash_to_uid := cfg_squash_to_uid s; cfg_squash_to_gid := cfg_squash_to_gid s;
   cfg_debug := cfg_debug s; cfg_foreground := cfg_foreground s; cfg_squash_to_root :=
   cfg_squash_to_root s; cfg_ino_t_32 := cfg_ino_t_32 s; cfg_static_nlink := v;
   cfg_volatile_mode := cfg_volatile_mode s; cfg_noacl := cfg_noacl s; cfg_fuse_options :=
   cfg_fuse_options s; cfg_euid := cfg_euid s |}.
Definition set_cfg_volatile_mode  (v : bool) (s : OverlayConfig) : OverlayConfig :=
{| cfg_lowerdir := cfg_lowerdir s; cfg_upperdir := cfg_upperdir s; cfg_workdir := cfg_workdir
   s; cfg_mountpoint := cfg_mountpoint s; cfg_redirect_dir := cfg_redirect_dir s; cfg_context
   := cfg_context s; cfg_plugins := cfg_plugins s; cfg_uid_str := cfg_uid_str s; cfg_gid_str
   := cfg_gid_str s; cfg_uid_mappings := cfg_uid_mappings s; cfg_gid_mappings :=
   cfg_gid_mappings s; cfg_timeout := cfg_timeout s; cfg_xattr_permissions :=
   cfg_xattr_permissions s; cfg_nfs_filehandles := cfg_nfs_filehandles s; cfg_threaded :=
   cfg_threaded s; cfg_fsync := cfg_fsync s; cfg_fast_ino_check := cfg_fast_ino_check s;
   cfg_writeback := cfg_writeback s; cfg_disable_xattrs := cfg_disable_xattrs s;
   cfg_squash_to_uid := cfg_squash_to_uid s; cfg_squash_to_gid := cfg_squash_to_gid s;
   cfg_debug := cfg_debug s; cfg_foreground := cfg_foreground s; cfg_squash_to_root :=
   cfg_squash_to_root s; cfg_ino_t_32 := cfg_ino_t_32 s; cfg_static_nlink := cfg_static_nlink
   s; cfg_volatile_mode := v; cfg_noacl := cfg_noacl s; cfg_fuse_options := cfg_fuse_options
   s; cfg_euid := cfg_euid s |}.
Definition set_cfg_noacl  (v : bool) (s : OverlayConfig) : OverlayConfig :=
{| cfg_lowerdir := cfg_lowerdir s; cfg_upperdir := cfg_upperdir s; cfg_workdir := cfg_workdir
   s; cfg_mountpoint := cfg_mountpoint s; cfg_redirect_dir := cfg_redirect_dir s; cfg_context
   := cfg_context s; cfg_plugins := cfg_plugins s; cfg_uid_str := cfg_uid_str s; cfg_gid_str
   := cfg_gid_str s; cfg_uid_mappings := cfg_uid_mappings s; cfg_gid_mappings :=
   cfg_gid_mappings s; cfg_timeout := cfg_timeout s; cfg_xattr_permissions :=
   cfg_xattr_permissions s; cfg_nfs_filehandles := cfg_nfs_filehandles s; cfg_threaded :=
   cfg_threaded s; cfg_fsync := cfg_fsync s; cfg_fast_ino_check := cfg_fast_ino_check s;
   cfg_writeback := cfg_writeback s; cfg_disable_xattrs := cfg_disable_xattrs s;
   cfg_squash_to_uid := cfg_squash_to_uid s; cfg_squash_to_gid := cfg_squash_to_gid s;
   cfg_debug := cfg_debug s; cfg_foreground := cfg_foreground s; cfg_squash_to_root :=
   cfg_squash_to_root s; cfg_ino_t_32 := cfg_ino_t_32 s; cfg_static_nlink := cfg_static_nlink
   s; cfg_volatile_mode := cfg_volatile_mode s; cfg_noacl := v; cfg_fuse_options :=
   cfg_fuse_options s; cfg_euid := cfg_euid s |}.
Definition set_cfg_fuse_options  (v : list bytes) (s : OverlayConfig) : OverlayConfig :=
{| cfg_lowerdir := cfg_lowerdir s; cfg_upperdir := cfg_upperdir s; cfg_workdir := cfg_workdir
   s; cfg_mountpoint := cfg_mountpoint s; cfg_redirect_dir := cfg_redirect_dir s; cfg_context
   := cfg_context s; cfg_plugins := cfg_plugins s; cfg_uid_str := cfg_uid_str s; cfg_gid_str
   := cfg_gid_str s; cfg_uid_mappings := cfg_uid_mappings s; cfg_gid_mappings :=
   cfg_gid_mappings s; cfg_timeout := cfg_timeout s; cfg_xattr_permissions :=
   cfg_xattr_permissions s; cfg_nfs_filehandles := cfg_nfs_filehandles s; cfg_threaded :=
   cfg_threaded s; cfg_fsync := cfg_fsync s; cfg_fast_ino_check := cfg_fast_ino_check s;
   cfg_writeback := cfg_writeback s; cfg_disable_xattrs := cfg_disable_xattrs s;
   cfg_squash_to_uid := cfg_squash_to_uid s; cfg_squash_to_gid := cfg_squash_to_gid s;
   cfg_debug := cfg_debug s; cfg_foreground := cfg_foreground s; cfg_squash_to_root :=
   cfg_squash_to_root s; cfg_ino_t_32 := cfg_ino_t_32 s; cfg_static_nlink := cfg_static_nlink
   s; cfg_volatile_mode := cfg_volatile_mode s; cfg_noacl := cfg_noacl s; cfg_fuse_options :=
   v; cfg_euid := cfg_euid s |}.

End config.
Arguments OverlayConfig {_}.

(** An instance with integers for the float values, to evaluate the parser. *)
Definition F64_Z : F64 := {|
  f64 := Z;
  f64_parse := parse_i32;
  f64_1e9 := 1000000000;
  f64_positive := λ z, 0 <? z;
  f64_duration := λ z, if z <? 0 then None else Some (z * 10 ^ 9)
|}.
