(* ===== verification/Config.v ===== *)
(** * Command-line options (src/src/config.rs)

    The parser of the argument vector and of the [-o] option strings:
    [parse_args], [parse_option_string], [split_options], [unescape_path],
    [parse_single_option], [parse_lowerdir], [parse_plugin_path].  Strings are
    byte strings: every character the parsers look at is ASCII, and no byte of
    a multi-byte UTF-8 character is, so scanning bytes and scanning characters
    cut at the same places.  Messages printed with [eprintln!] are not
    modelled; [process::exit] is an outcome.

    Theorems: splitting, unescaping and the lowerdir syntax against their
    printers, the whole path of an upperdir through the parser, what can reach
    the mount options, and the invariants of a parsed configuration. *)

From S2P Require Import Prelude Mapping ConfigData.
Open Scope ovl_scope.
Local Open Scope Z_scope.

Section config.
Context `{F64}.

(** [geteuid()] is the argument. *)
Definition OverlayConfig_default (euid : Z) : OverlayConfig := {|
cfg_lowerdir := None; cfg_upperdir := None; cfg_workdir := None; cfg_mountpoint := None;
cfg_redirect_dir := None; cfg_context := None; cfg_plugins := None;
cfg_uid_str := None; cfg_gid_str := None; cfg_uid_mappings := []; cfg_gid_mappings := [];
cfg_timeout := f64_1e9; cfg_xattr_permissions := 0; cfg_nfs_filehandles := 0;
cfg_threaded := false; cfg_fsync := true; cfg_fast_ino_check := false; cfg_writeback := true;
cfg_disable_xattrs := false; cfg_squash_to_uid := None; cfg_squash_to_gid := None;
cfg_debug := false; cfg_foreground := false; cfg_squash_to_root := false;
cfg_ino_t_32 := false; cfg_static_nlink := false; cfg_volatile_mode := false;
cfg_noacl := false; cfg_fuse_options := []; cfg_euid := euid
|}.

(** FUSE mount options that are passed through to the kernel. *)
Definition FUSE_PASSTHROUGH_OPTS : list bytes :=
[bs "allow_root"; bs "default_permissions"; bs "allow_other"; bs "suid"; bs "nosuid";
 bs "dev"; bs "nodev"; bs "exec"; bs "noexec"; bs "atime"; bs "noatime"; bs "diratime";
 bs "nodiratime"; bs "splice_write"; bs "splice_read"; bs "splice_move"; bs "kernel_cache";
 bs "max_write"; bs "ro"; bs "rw"].

(** [config.fuse_options.push(opt)] *)
Definition push_option (opt : bytes) (c : OverlayConfig) : OverlayConfig :=
set_cfg_fuse_options (cfg_fuse_options c ++ [opt]) c.

(** Split option string on commas, respecting backslash escaping and quoted
  strings; the escapes and quotes are kept. *)
Fixpoint split_options_go (s current : bytes) (in_quotes : bool) : list bytes :=
match s with
| [] => if bool_decide (current = []) then [] else [current]
| c :: s' =>
    if bool_decide (c = BACKSLASH) then
      match s' with
      | next :: s'' => split_options_go s'' (current ++ [c; next]) in_quotes
      | [] => split_options_go s' current in_quotes
      end
    else if bool_decide (c = QUOTE) then
      split_options_go s' (current ++ [c]) (negb in_quotes)
    else if bool_decide (c = COMMA) && negb in_quotes then
      if bool_decide (current = []) then split_options_go s' [] in_quotes
      else current :: split_options_go s' [] in_quotes
    else split_options_go s' (current ++ [c]) in_quotes
end.
Definition split_options (s : bytes) : list bytes := split_options_go s [] false.

(** Unescape backslash sequences in path values. *)
Fixpoint unescape_path (s : bytes) : bytes :=
match s with
| [] => []
| c :: s' =>
    if bool_decide (c = BACKSLASH) then
      match s' with
      | next :: s'' => next :: unescape_path s''
      | [] => [c]
      end
    else c :: unescape_path s'
end.

(** [value.parse::<i32>().map_err(..)? != 0] *)
Definition parse_flag (what value : bytes) : result bytes bool :=
let? n := ok_or (what ++ value) (parse_i32 value) in Ok (negb (n =? 0)).

(** Parse a single key=value or key option. *)
Definition parse_single_option (opt : bytes) (c : OverlayConfig) : result bytes OverlayConfig :=
match split_once "="%char opt with
| Some (key, value) =>
    if bool_decide (key = bs "lowerdir") then Ok (set_cfg_lowerdir (Some value) c)
    else if bool_decide (key = bs "upperdir") then
      Ok (set_cfg_upperdir (Some (unescape_path value)) c)
    else if bool_decide (key = bs "workdir") then
      Ok (set_cfg_workdir (Some (unescape_path value)) c)
    else if bool_decide (key = bs "redirect_dir") then Ok (set_cfg_redirect_dir (Some value) c)
    else if bool_decide (key = bs "context") then Ok (set_cfg_context (Some value) c)
    else if bool_decide (key = bs "uidmapping") then Ok (set_cfg_uid_str (Some value) c)
    else if bool_decide (key = bs "gidmapping") then Ok (set_cfg_gid_str (Some value) c)
    else if bool_decide (key = bs "timeout") then
      let? t := ok_or (bs "invalid timeout value: " ++ value) (f64_parse value) in
      Ok (set_cfg_timeout t c)
    else if bool_decide (key = bs "threaded") then
      let? v := parse_flag (bs "invalid threaded value: ") value in Ok (set_cfg_threaded v c)
    else if bool_decide (key = bs "fsync") || bool_decide (key = bs "sync") then
      let? v := parse_flag (bs "invalid fsync value: ") value in Ok (set_cfg_fsync v c)
    else if bool_decide (key = bs "fast_ino") || bool_decide (key = bs "fast_ino_check") then
      let? v := parse_flag (bs "invalid fast_ino value: ") value in
      Ok (set_cfg_fast_ino_check v c)
    else if bool_decide (key = bs "writeback") then
      let? v := parse_flag (bs "invalid writeback value: ") value in Ok (set_cfg_writeback v c)
    else if bool_decide (key = bs "noxattrs") then
      let? v := parse_flag (bs "invalid noxattrs value: ") value in
      Ok (set_cfg_disable_xattrs v c)
    else if bool_decide (key = bs "plugins") then Ok (set_cfg_plugins (Some value) c)
    else if bool_decide (key = bs "xattr_permissions") then
      let? v := ok_or (bs "invalid xattr_permissions value: " ++ value) (parse_i32 value) in
      Ok (set_cfg_xattr_permissions v c)
    else if bool_decide (key = bs "squash_to_uid") then
      let? v := ok_or (bs "invalid squash_to_uid value: " ++ value) (parse_u32 value) in
      Ok (set_cfg_squash_to_uid (Some v) c)
    else if bool_decide (key = bs "squash_to_gid") then
      let? v := ok_or (bs "invalid squash_to_gid value: " ++ value) (parse_u32 value) in
      Ok (set_cfg_squash_to_gid (Some v) c)
    else if bool_decide (key = bs "xino") then
      if bool_decide (value = bs "off") then Ok (set_cfg_nfs_filehandles 0 c)
      else if bool_decide (value = bs "auto") then Ok (set_cfg_nfs_filehandles 1 c)
      else if bool_decide (value = bs "on") then Ok (set_cfg_nfs_filehandles 2 c)
      else Err (bs "invalid xino value: " ++ value)
    else if bool_decide (key ∈ FUSE_PASSTHROUGH_OPTS) then Ok (push_option opt c)
    else Ok c
| None =>
    if bool_decide (opt = bs "debug") then
      Ok (push_option (bs "debug") (set_cfg_foreground true (set_cfg_debug true c)))
    else if bool_decide (opt = bs "squash_to_root") then Ok (set_cfg_squash_to_root true c)
    else if bool_decide (opt = bs "ino32_t") then Ok (set_cfg_ino_t_32 true c)
    else if bool_decide (opt = bs "static_nlink") then Ok (set_cfg_static_nlink true c)
    else if bool_decide (opt = bs "volatile") then Ok (set_cfg_volatile_mode true c)
    else if bool_decide (opt = bs "noacl") then Ok (set_cfg_noacl true c)
    else if bool_decide (opt ∈ FUSE_PASSTHROUGH_OPTS) then Ok (push_option opt c)
    else Ok c
end.

Fixpoint parse_options (opts : list bytes) (c : OverlayConfig) : result bytes OverlayConfig :=
match opts with
| [] => Ok c
| o :: opts' => let? c' := parse_single_option o c in parse_options opts' c'
end.

(** Parse a comma-separated option string. *)
Definition parse_option_string (opts : bytes) (c : OverlayConfig) : result bytes OverlayConfig :=
parse_options (split_options opts) c.

(** What a call of [parse_args] does: return, or end the process after
  printing the help or the version. *)
Inductive args_outcome :=
| Parsed (r : result bytes OverlayConfig)
| Exits (code : Z).

(** The defaults injected for the effective user. *)
Definition default_fuse_options (euid : Z) : list bytes :=
if euid =? 0
then [bs "default_permissions"; bs "allow_other"; bs "suid"; bs "noatime"]
else [bs "default_permissions"; bs "noatime"].

(** After the loop: parse the mappings, apply volatile. *)
Definition finish_config (c : OverlayConfig) : result bytes OverlayConfig :=
let? c := match cfg_uid_str c with
          | Some s => let? ms := parse_mappings s in Ok (set_cfg_uid_mappings ms c)
          | None => Ok c
          end in
let? c := match cfg_gid_str c with
          | Some s => let? ms := parse_mappings s in Ok (set_cfg_gid_mappings ms c)
          | None => Ok c
          end in
Ok (if cfg_volatile_mode c then set_cfg_fsync false c else c).

(** The [while i < args.len()] loop, on the arguments left. *)
Fixpoint parse_args_loop (args : list bytes) (c : OverlayConfig) : args_outcome :=
match args with
| [] => Parsed (finish_config c)
| arg :: rest =>
    if bool_decide (arg = bs "-f") then
      parse_args_loop rest
        (push_option (bs "fsname=fuse-overlayfs") (set_cfg_foreground true c))
    else if bool_decide (arg = bs "-d") || bool_decide (arg = bs "--debug") then
      parse_args_loop rest
        (push_option (bs "debug") (set_cfg_foreground true (set_cfg_debug true c)))
    else if bool_decide (arg = bs "--help") || bool_decide (arg = bs "-h") then Exits 0
    else if bool_decide (arg = bs "--version") || bool_decide (arg = bs "-V") then Exits 0
    else if bool_decide (arg = bs "-o") then
      match rest with
      | [] => Parsed (Err (bs "missing argument for -o"))
      | opts :: rest' =>
          match parse_option_string opts c with
          | Err e => Parsed (Err e)
          | Ok c' => parse_args_loop rest' c'
          end
      end
    else match strip_prefix (bs "-o") arg with
    | Some opts =>
        match parse_option_string opts c with
        | Err e => Parsed (Err e)
        | Ok c' => parse_args_loop rest c'
        end
    | None =>
        if starts_with (bs "-") arg then parse_args_loop rest c
        else parse_args_loop rest (set_cfg_mountpoint (Some arg) c)
    end
end.

(** [args] with [argv[0]] in front; [euid] is [geteuid()]. *)
Definition parse_args (euid : Z) (args : list bytes) : args_outcome :=
parse_args_loop (drop 1 args)
  (set_cfg_fuse_options (default_fuse_options euid) (OverlayConfig_default euid)).

End config.

(** Split lowerdir string on colons, a backslash before a colon escaping it. *)
Fixpoint parse_lowerdir_go (s current : bytes) : list bytes :=
  match s with
  | [] => if bool_decide (current = []) then [] else [current]
  | c :: s' =>
      if bool_decide (c = BACKSLASH) then
        match s' with
        | next :: s'' =>
            if bool_decide (next = COLON) then parse_lowerdir_go s'' (current ++ [COLON])
            else parse_lowerdir_go s' (current ++ [c])
        | [] => parse_lowerdir_go s' (current ++ [c])
        end
      else if bool_decide (c = COLON) then
        if bool_decide (current = []) then parse_lowerdir_go s' []
        else current :: parse_lowerdir_go s' []
      else parse_lowerdir_go s' (current ++ [c])
  end.
Definition parse_lowerdir (lowerdir : bytes) : list bytes := parse_lowerdir_go lowerdir [].

(** [s.find("//")] cut there. *)
Fixpoint split_double_slash (s : bytes) : option (bytes * bytes) :=
  match s with
  | [] => None
  | c :: s' =>
      if starts_with (bs "//") s then Some ([], drop 2 s)
      else match split_double_slash s' with
           | Some (l, r) => Some (c :: l, r)
           | None => None
           end
  end.

(** Check if a lowerdir path uses the plugin syntax: //plugin_name/data/path *)
Definition parse_plugin_path (path : bytes) : option (bytes * bytes) :=
  if negb (starts_with (bs "//") path) then None
  else
    let rest := drop 2 path in
    match split_double_slash rest with
    | Some (plugin_opaque, data_path) => Some (plugin_opaque, data_path)
    | None => Some (rest, [])
    end.

(** ** Escaping *)

(** An argument of lowerdir=: colons escaped. *)
Definition escape_colons (d : bytes) : bytes :=
  d ≫= λ c, if bool_decide (c = COLON) then [BACKSLASH; c] else [c].

(** An option value: the characters [split_options] treats specially escaped. *)
Definition escape_option (p : bytes) : bytes :=
  p ≫= λ c, if bool_decide (c ∈ [BACKSLASH; QUOTE; COMMA]) then [BACKSLASH; c] else [c].

(** The mount options a command line may set. *)
Definition allowed_option (o : bytes) : Prop :=
  o ∈ FUSE_PASSTHROUGH_OPTS ∨ o ∈ [bs "debug"; bs "fsname=fuse-overlayfs"] ∨
  ∃ k v, o = k ++ "="%char :: v ∧ k ∈ FUSE_PASSTHROUGH_OPTS.

Lemma escape_option_cons c p :
  escape_option (c :: p) =
  (if bool_decide (c ∈ [BACKSLASH; QUOTE; COMMA]) then [BACKSLASH; c] else [c]) ++ escape_option p.
Proof. reflexivity. Qed.

Lemma escape_colons_cons c p :
  escape_colons (c :: p) =
  (if bool_decide (c = COLON) then [BACKSLASH; c] else [c]) ++ escape_colons p.
Proof. reflexivity. Qed.

Lemma unescape_escape_option p : unescape_path (escape_option p) = p.
Proof.
  induction p as [|c p IH]; [done|]. rewrite escape_option_cons.
  case_bool_decide as Hc; cbn.
  - by rewrite IH.
  - rewrite bool_decide_eq_false_2; [by rewrite IH|]. intros ->. apply Hc. left.
Qed.

Lemma split_options_go_escape p s cur :
  split_options_go (escape_option p ++ s) cur false =
  split_options_go s (cur ++ escape_option p) false.
Proof.
  revert cur. induction p as [|c p IH]; intros cur; [by rewrite app_nil_r|].
  rewrite !escape_option_cons. case_bool_decide as Hc; cbn [app split_options_go].
  - rewrite bool_decide_eq_true_2 by done. rewrite IH. by rewrite <-app_assoc.
  - rewrite !elem_of_cons in Hc. rewrite !bool_decide_eq_false_2 by naive_solver. cbn [andb].
    rewrite IH. by rewrite <-app_assoc.
Qed.

Lemma escape_option_nil p : escape_option p = [] → p = [].
Proof. destruct p; [done|]. rewrite escape_option_cons. by case_bool_decide. Qed.

Lemma parse_lowerdir_go_escape d s cur :
  last d ≠ Some BACKSLASH →
  parse_lowerdir_go (escape_colons d ++ s) cur = parse_lowerdir_go s (cur ++ d).
Proof.
  revert cur. induction d as [|c d IH]; intros cur Hlast; [by rewrite app_nil_r|].
  rewrite escape_colons_cons. case_bool_decide as Hc; cbn [app parse_lowerdir_go].
  - subst. cbn. rewrite IH by (by destruct d). by rewrite <-app_assoc.
  - assert (parse_lowerdir_go (escape_colons d ++ s) (cur ++ [c]) =
            parse_lowerdir_go s (cur ++ c :: d)) as Hd.
    { destruct d as [|c' d']; [done|]. rewrite IH by done. by rewrite <-app_assoc. }
    case_bool_decide as Hb; [|by rewrite bool_decide_eq_false_2].
    subst c. destruct d as [|c' d']; [done|]. rewrite escape_colons_cons in Hd |- *.
    case_bool_decide as Hc'; cbn [app] in Hd |- *; [|by rewrite bool_decide_eq_false_2].
    exact Hd.
Qed.

Lemma parse_lowerdir_go_plain s cur :
  COLON ∉ s → parse_lowerdir_go s cur = if bool_decide (cur ++ s = []) then [] else [cur ++ s].
Proof.
  revert cur. induction s as [|c s IH]; intros cur; cbn [parse_lowerdir_go].
  { intros _. by rewrite app_nil_r. }
  rewrite not_elem_of_cons. intros [Hc Hs].
  assert (parse_lowerdir_go s (cur ++ [c]) =
          if bool_decide (cur ++ c :: s = []) then [] else [cur ++ c :: s]) as E.
  { rewrite IH by done. by rewrite <-app_assoc. }
  rewrite (bool_decide_eq_false_2 (c = COLON)) by congruence.
  destruct (bool_decide (c = BACKSLASH)); [|exact E].
  destruct s as [|c' s']; [exact E|]. rewrite (bool_decide_eq_false_2 (c' = COLON)); [exact E|].
  rewrite not_elem_of_cons in Hs. naive_solver.
Qed.

Section properties.
Context `{F64}.

Lemma split_options_go_join opts cur :
Forall (λ o, o ≠ []) opts → opts ≠ [] →
split_options_go (join COMMA (escape_option <$> opts)) cur false =
match opts with
| [] => []
| o :: rest => (cur ++ escape_option o) :: (escape_option <$> rest)
end.
Proof.
intros Hopts Hne. revert cur. induction Hopts as [|o opts Ho Hopts IH]; [done|]. intros cur.
assert (∀ cur, cur ++ escape_option o ≠ []) as Hnn.
{ intros cur' Hn. apply app_eq_nil in Hn as [_ Hn]. by apply escape_option_nil in Hn. }
destruct opts as [|o' opts].
- cbn [fmap list_fmap join]. rewrite <-(app_nil_r (escape_option o)) at 1.
  rewrite split_options_go_escape. cbn. by rewrite bool_decide_eq_false_2.
- change (join COMMA (escape_option <$> o :: o' :: opts))
    with (escape_option o ++ COMMA :: join COMMA (escape_option <$> o' :: opts)).
  rewrite split_options_go_escape. cbn [split_options_go].
  rewrite (bool_decide_eq_false_2 (cur ++ _ = [])) by done. cbn. f_equal.
  by rewrite IH.
Qed.

Lemma parse_options_app os1 os2 c :
parse_options (os1 ++ os2) c = result_bind (parse_options os1 c) (parse_options os2).
Proof.
revert c. induction os1 as [|o os1 IH]; intros c; cbn; [done|].
destruct (parse_single_option o c); cbn; [apply IH|done].
Qed.

(** One option changes the mount options by at most one allowed entry. *)
Lemma parse_single_option_fuse o c c' :
parse_single_option o c = Ok c' →
Forall allowed_option (cfg_fuse_options c) → Forall allowed_option (cfg_fuse_options c').
Proof.
intros Ho Hc. unfold parse_single_option in Ho.
destruct (split_once "="%char o) as [[k v]|] eqn:Hs.
- apply split_once_Some in Hs as [Hs _].
  repeat (case_bool_decide; cbn [orb] in Ho;
    [try (apply result_bind_Ok in Ho as (? & _ & Ho)); by simplify_eq/=|]).
  case_bool_decide.
  { repeat case_bool_decide; by simplify_eq/=. }
  case_bool_decide; simplify_eq/=; [|done].
  apply Forall_app. split; [done|]. apply Forall_singleton. right. right. eauto.
- case_bool_decide.
  { simplify_eq/=. apply Forall_app. split; [done|]. apply Forall_singleton.
    right. left. left. }
  repeat (case_bool_decide; [first [by simplify_eq/= | simplify_eq/=; apply Forall_app;
    (split; [done|]); apply Forall_singleton; by left]|]).
  by simplify_eq.
Qed.

Lemma parse_options_inv (P : OverlayConfig → Prop) os c c' :
(∀ o c c', parse_single_option o c = Ok c' → P c → P c') →
parse_options os c = Ok c' → P c → P c'.
Proof.
intros HP. revert c. induction os as [|o os IH]; intros c; cbn; [by intros [= <-]|].
intros (c1 & H1 & H2)%result_bind_Ok ?. eauto.
Qed.

(** Rule of the argument loop: what every option preserves holds of the
  configuration the post-processing starts from. *)
Lemma parse_args_loop_inv (P : OverlayConfig → Prop) :
(∀ o c c', parse_single_option o c = Ok c' → P c → P c') →
(∀ c, P c → P (push_option (bs "fsname=fuse-overlayfs") (set_cfg_foreground true c))) →
(∀ c, P c → P (push_option (bs "debug") (set_cfg_foreground true (set_cfg_debug true c)))) →
(∀ m c, P c → P (set_cfg_mountpoint m c)) →
∀ n args c c', (length args ≤ n)%nat → P c → parse_args_loop args c = Parsed (Ok c') →
∃ c0, P c0 ∧ finish_config c0 = Ok c'.
Proof.
intros Hopt Hf Hd Hm. induction n as [|n IH]; intros args c c' Hlen Hc;
  (destruct args as [|arg rest]; cbn [parse_args_loop length] in *;
    [intros [= ?]; by eauto|]); [lia|].
destruct (bool_decide (arg = bs "-f")); [apply IH; [lia|by apply Hf]|].
destruct (bool_decide (arg = bs "-d") || _); [apply IH; [lia|by apply Hd]|].
destruct (bool_decide (arg = bs "--help") || _); [done|].
destruct (bool_decide (arg = bs "--version") || _); [done|].
destruct (bool_decide (arg = bs "-o")).
- destruct rest as [|opts rest]; [done|].
  destruct (parse_option_string opts c) as [c1|] eqn:E; [|done].
  apply IH; [cbn in *; lia|]. by eapply parse_options_inv.
- destruct (strip_prefix (bs "-o") arg) as [opts|].
  + destruct (parse_option_string opts c) as [c1|] eqn:E; [|done].
    apply IH; [lia|]. by eapply parse_options_inv.
  + case_match; apply IH; auto; lia.
Qed.

Lemma default_options_allowed euid : Forall allowed_option (default_fuse_options euid).
Proof.
apply (Forall_impl (λ o, o ∈ FUSE_PASSTHROUGH_OPTS)); [|by left].
unfold default_fuse_options.
destruct (euid =? 0); apply (bool_decide_unpack _); vm_compute; exact I.
Qed.

Lemma finish_config_spec c c' :
finish_config c = Ok c' →
cfg_fuse_options c' = cfg_fuse_options c ∧ cfg_uid_str c' = cfg_uid_str c ∧
cfg_gid_str c' = cfg_gid_str c ∧ cfg_volatile_mode c' = cfg_volatile_mode c ∧
(cfg_volatile_mode c = true → cfg_fsync c' = false) ∧
(∀ s, cfg_uid_str c = Some s → parse_mappings s = Ok (cfg_uid_mappings c')) ∧
(∀ s, cfg_gid_str c = Some s → parse_mappings s = Ok (cfg_gid_mappings c')).
Proof.
unfold finish_config. intros (c1 & H1 & (c2 & H2 & H3)%result_bind_Ok)%result_bind_Ok.
injection H3 as <-.
destruct (cfg_uid_str c) as [su|] eqn:Eu;
  [apply result_bind_Ok in H1 as (mu & Hmu & [= <-])|injection H1 as <-]; cbn in H2;
(destruct (cfg_gid_str c) as [sg|] eqn:Eg;
  [apply result_bind_Ok in H2 as (mg & Hmg & [= <-])|injection H2 as <-]); cbn;
(destruct (cfg_volatile_mode c) eqn:Ev; cbn; naive_solver).
Qed.

(** ** Properties *)

(** C27. Any list of lower directories with non-empty names that do not end in
  a backslash is expressible: escaping the colons and joining with colons
  gives a lowerdir= value that parses back to the list. *)
Theorem parse_lowerdir_join (dirs : list bytes)
  (Hdirs : Forall (λ d, d ≠ [] ∧ last d ≠ Some BACKSLASH) dirs) :
parse_lowerdir (join COLON (escape_colons <$> dirs)) = dirs.
Proof.
unfold parse_lowerdir. induction Hdirs as [|d dirs [Hne Hl] Hdirs IH]; [done|].
destruct dirs as [|d' dirs].
- cbn [fmap list_fmap join]. rewrite <-(app_nil_r (escape_colons d)).
  rewrite parse_lowerdir_go_escape by done. cbn. by rewrite bool_decide_eq_false_2.
- change (join COLON (escape_colons <$> d :: d' :: dirs))
    with (escape_colons d ++ COLON :: join COLON (escape_colons <$> d' :: dirs)).
  rewrite parse_lowerdir_go_escape by done. cbn [app parse_lowerdir_go].
  rewrite (bool_decide_eq_false_2 (d = [])) by done. cbn. by f_equal.
Qed.

(** Escaped options joined by commas are split back at exactly those
  commas, whatever bytes they contain. *)
Theorem split_options_join (opts : list bytes) (Hopts : Forall (λ o, o ≠ []) opts) :
split_options (join COMMA (escape_option <$> opts)) = escape_option <$> opts.
Proof.
destruct (decide (opts = [])) as [->|Hne]; [done|]. unfold split_options.
rewrite split_options_go_join by done. by destruct opts.
Qed.

(** Every path is expressible as an upper or work directory: an escaped
  value comes out of the option parser as the path itself.  For a lower
  directory the escapes that protect a comma, a quote or a backslash stay
  in the directory that is opened. *)
Theorem directory_options (p : bytes) (c : OverlayConfig)
  (Hp : p ≠ []) (Hcolon : COLON ∉ p) :
parse_option_string (bs "upperdir=" ++ escape_option p) c = Ok (set_cfg_upperdir (Some p) c) ∧
parse_option_string (bs "workdir=" ++ escape_option p) c = Ok (set_cfg_workdir (Some p) c) ∧
parse_option_string (bs "lowerdir=" ++ escape_option p) c =
  Ok (set_cfg_lowerdir (Some (escape_option p)) c) ∧
parse_lowerdir (escape_option p) = [escape_option p].
Proof.
assert (∀ k, escape_option k = k → k ≠ [] → ∀ c,
  parse_option_string (k ++ escape_option p) c =
  result_bind (parse_single_option (k ++ escape_option p) c) Ok) as Hsplit.
{ intros k Hk Hkne c0. unfold parse_option_string.
  assert (k ++ escape_option p = join COMMA (escape_option <$> [k ++ p])) as E.
  { cbn. unfold escape_option at 2. rewrite bind_app. by fold (escape_option k) (escape_option p);
      rewrite Hk. }
  rewrite E at 1. unfold split_options.
  rewrite split_options_go_join; [|apply Forall_singleton; by destruct k|done].
  cbn [fmap list_fmap app parse_options]. cbn in E. by rewrite E. }
split_and!.
- rewrite Hsplit by done. unfold parse_single_option.
  change (split_once "="%char (bs "upperdir=" ++ escape_option p))
    with (Some (bs "upperdir", escape_option p)).
  cbn. by rewrite unescape_escape_option.
- rewrite Hsplit by done. unfold parse_single_option.
  change (split_once "="%char (bs "workdir=" ++ escape_option p))
    with (Some (bs "workdir", escape_option p)).
  cbn. by rewrite unescape_escape_option.
- rewrite Hsplit by done. unfold parse_single_option.
  change (split_once "="%char (bs "lowerdir=" ++ escape_option p))
    with (Some (bs "lowerdir", escape_option p)). done.
- unfold parse_lowerdir. rewrite parse_lowerdir_go_plain.
  + cbn [app]. rewrite bool_decide_eq_false_2; [done|]. by intros ?%escape_option_nil.
  + intros (x & Hx & Hin)%list_elem_of_bind. case_bool_decide.
    * rewrite !elem_of_cons, elem_of_nil in Hx. naive_solver.
    * apply list_elem_of_singleton in Hx. by subst.
Qed.

(** C28. Only known options reach the kernel mount: every mount option of a
  parsed configuration is a passthrough option, with or without a value, or
  one of the two entries the flags add. *)
Theorem parse_args_mount_options (euid : Z) (args : list bytes) (c : OverlayConfig)
  (Hc : parse_args euid args = Parsed (Ok c)) :
Forall allowed_option (cfg_fuse_options c).
Proof.
unfold parse_args in Hc.
eapply (parse_args_loop_inv (λ c, Forall allowed_option (cfg_fuse_options c))) in Hc
  as (c0 & Hc0 & (-> & _)%finish_config_spec); [done|..].
- intros o c1 c2. apply parse_single_option_fuse.
- intros c1 Hc1. apply Forall_app. split; [done|]. apply Forall_singleton.
  right. left. right. left.
- intros c1 Hc1. apply Forall_app. split; [done|]. apply Forall_singleton.
  right. left. left.
- done.
- done.
- apply default_options_allowed.
Qed.

(** A parsed configuration is consistent: the mapping tables are what
  their option strings parse to, and a volatile mount never syncs, in
  whatever order the options came. *)
Theorem parse_args_consistent (euid : Z) (args : list bytes) (c : OverlayConfig)
  (Hc : parse_args euid args = Parsed (Ok c)) :
(∀ s, cfg_uid_str c = Some s → parse_mappings s = Ok (cfg_uid_mappings c)) ∧
(∀ s, cfg_gid_str c = Some s → parse_mappings s = Ok (cfg_gid_mappings c)) ∧
(cfg_volatile_mode c = true → cfg_fsync c = false).
Proof.
unfold parse_args in Hc.
eapply (parse_args_loop_inv (λ _, True)) in Hc as (c0 & _ & H0); [|done..].
destruct (finish_config_spec _ _ H0) as (_ & -> & -> & -> & Hv & Hu & Hg).
split_and!; [apply Hu|apply Hg|apply Hv].
Qed.
End properties.

Lemma parse_lowerdir_join_witness :
  join COLON (escape_colons <$> [bs "/a:b"; bs "/c"]) = bs "/a\:b:/c" ∧
  parse_lowerdir (join COLON (escape_colons <$> [bs "/a:b"; bs "/c"])) = [bs "/a:b"; bs "/c"].
Proof.
  split; [reflexivity|]. apply parse_lowerdir_join. apply (bool_decide_unpack _). exact I.
Defined.

Lemma split_options_join_witness :
  split_options (join COMMA (escape_option <$> [bs "upperdir=/a,b"; bs "ro"])) =
  [bs "upperdir=/a\,b"; bs "ro"].
Proof. apply split_options_join. apply (bool_decide_unpack _). exact I. Defined.

Lemma directory_options_witness :
  let c := @OverlayConfig_default F64_Z 0 in
  escape_option (bs "/a,b") = bs "/a\,b" ∧
  parse_option_string (bs "upperdir=/a\,b") c = Ok (set_cfg_upperdir (Some (bs "/a,b")) c) ∧
  parse_lowerdir (bs "/a\,b") = [bs "/a\,b"].
Proof.
  cbv zeta. split; [reflexivity|].
  pose proof (@directory_options F64_Z (bs "/a,b") (@OverlayConfig_default F64_Z 0)
    ltac:(done) ltac:(apply (bool_decide_unpack _); exact I)) as (H1 & _ & _ & H2).
  split; [exact H1|exact H2].
Defined.

(** The command line of the two witnesses below, and what it parses to. *)
Definition example_args : list bytes :=
  [bs "fuse-overlayfs"; bs "-f"; bs "-o"; bs "volatile,lowerdir=/l,uidmapping=0:10:100,ro";
   bs "-omax_write=4096,fsync=1"; bs "/mnt"].
Definition example_config : OverlayConfig :=
  match @parse_args F64_Z 1000 example_args with
  | Parsed (Ok c) => c
  | _ => @OverlayConfig_default F64_Z 0
  end.

Lemma parse_args_mount_options_witness :
  cfg_fuse_options example_config =
    [bs "default_permissions"; bs "noatime"; bs "fsname=fuse-overlayfs"; bs "ro";
     bs "max_write=4096"] ∧
  Forall allowed_option (cfg_fuse_options example_config).
Proof.
  split; [vm_compute; reflexivity|].
  apply (@parse_args_mount_options F64_Z 1000 example_args). vm_compute. reflexivity.
Defined.

Lemma parse_args_consistent_witness :
  cfg_volatile_mode example_config = true ∧ cfg_fsync example_config = false.
Proof.
  split; [vm_compute; reflexivity|].
  apply (@parse_args_consistent F64_Z 1000 example_args example_config); vm_compute; reflexivity.
Defined.
