(* ===== verification/Libc.v ===== *)
(** * The libc vocabulary

    The errno values, mode bits, open flags and the [stat] structure the
    sources name through the libc crate (x86_64 Linux values, the documented
    ABI), and the class [DevT] of the device-number operations. *)

From S2P Require Import Prelude.
Local Open Scope Z_scope.

(** A raw file descriptor.  A value stands for one open file description:
    the numbers the system gives out are never given out twice, so a
    descriptor that was closed is not confused with a later one. *)
Abbreviation RawFd := Z.

(** [FsResult<T>]; an [FsError] is its errno value. *)
Abbreviation FsResult := (result Z).

Definition EPERM : Z := 1.
Definition ENOENT : Z := 2.
Definition EINTR : Z := 4.
Definition EIO : Z := 5.
Definition EBADF : Z := 9.
Definition ENOMEM : Z := 12.
Definition EACCES : Z := 13.
Definition EEXIST : Z := 17.
Definition EXDEV : Z := 18.
Definition ENOTDIR : Z := 20.
Definition EINVAL : Z := 22.
Definition EROFS : Z := 30.
Definition ERANGE : Z := 34.
Definition ENAMETOOLONG : Z := 36.
Definition ENOSYS : Z := 38.
Definition ENOTEMPTY : Z := 39.
Definition ENODATA : Z := 61.
Definition ENOTSUP : Z := 95.

Definition S_IFMT : Z := 0xf000.
Definition S_IFSOCK : Z := 0xc000.
Definition S_IFLNK : Z := 0xa000.
Definition S_IFREG : Z := 0x8000.
Definition S_IFBLK : Z := 0x6000.
Definition S_IFDIR : Z := 0x4000.
Definition S_IFCHR : Z := 0x2000.
Definition S_IFIFO : Z := 0x1000.
(** Permission masks, octal in the sources: 0o7777, 0o755, 0o700, 0o200. *)
Definition PERM_MASK : Z := 4095.
Definition MODE_755 : Z := 493.
Definition MODE_700 : Z := 448.
Definition MODE_200 : Z := 128.

Definition O_RDONLY : Z := 0.
Definition O_WRONLY : Z := 1.
Definition O_RDWR : Z := 2.
Definition O_ACCMODE : Z := 3.
Definition O_CREAT : Z := 0x40.
Definition O_EXCL : Z := 0x80.
Definition O_NOCTTY : Z := 0x100.
Definition O_TRUNC : Z := 0x200.
Definition O_APPEND : Z := 0x400.
Definition O_NONBLOCK : Z := 0x800.
Definition O_DSYNC : Z := 0x1000.
Definition O_DIRECT : Z := 0x4000.
Definition O_LARGEFILE : Z := 0.
Definition O_DIRECTORY : Z := 0x10000.
Definition O_NOFOLLOW : Z := 0x20000.
Definition O_NOATIME : Z := 0x40000.
Definition O_CLOEXEC : Z := 0x80000.
Definition O_SYNC : Z := 0x101000.
Definition O_PATH : Z := 0x200000.
Definition O_TMPFILE : Z := 0x410000.

Definition AT_SYMLINK_NOFOLLOW : Z := 0x100.
Definition AT_REMOVEDIR : Z := 0x200.
Definition AT_EACCESS : Z := 0x200.
Definition AT_EMPTY_PATH : Z := 0x1000.
Definition AT_STATX_DONT_SYNC : Z := 0x4000.
Definition F_OK : Z := 0.

Definition STATX_TYPE : Z := 0x1.
Definition STATX_MODE : Z := 0x2.
Definition STATX_INO : Z := 0x100.
Definition STATX_BASIC_STATS : Z := 0x7ff.

Definition DT_UNKNOWN : Z := 0.
Definition DT_CHR : Z := 2.
Definition DT_DIR : Z := 4.

Definition RENAME_NOREPLACE : Z := 1.
Definition RENAME_EXCHANGE : Z := 2.
Definition RENAME_WHITEOUT : Z := 4.

(** [libc::makedev], [libc::major] and [libc::minor], with what the code
    relies on: a device number gives its parts back. *)
Class DevT := {
  makedev : Z → Z → Z;
  major : Z → Z;
  minor : Z → Z;
  major_makedev M m : is_u32 M → is_u32 m → major (makedev M m) = M;
  minor_makedev M m : is_u32 M → is_u32 m → minor (makedev M m) = m
}.

(** [libc::stat] *)
Record stat := {
  st_dev : Z; st_ino : Z; st_mode : Z; st_nlink : Z; st_uid : Z; st_gid : Z; st_rdev : Z;
  st_size : Z; st_blksize : Z; st_blocks : Z;
  st_atime : Z; st_atime_nsec : Z; st_mtime : Z; st_mtime_nsec : Z; st_ctime : Z; st_ctime_nsec : Z
}.

#[export] Instance stat_eq_dec : EqDecision stat.
Proof. solve_decision. Defined.

Definition zeroed_stat : stat := {|
  st_dev := 0; st_ino := 0; st_mode := 0; st_nlink := 0; st_uid := 0; st_gid := 0; st_rdev := 0;
  st_size := 0; st_blksize := 0; st_blocks := 0; st_atime := 0; st_atime_nsec := 0;
  st_mtime := 0; st_mtime_nsec := 0; st_ctime := 0; st_ctime_nsec := 0
|}.

(** [mode & libc::S_IFMT] *)
Definition file_type (mode : Z) : Z := Z.land mode S_IFMT.

Definition set_st_ino (v : Z) (s : stat) : stat :=
  {| st_dev := st_dev s; st_ino := v; st_mode := st_mode s; st_nlink := st_nlink s; st_uid :=
     st_uid s; st_gid := st_gid s; st_rdev := st_rdev s; st_size := st_size s; st_blksize :=
     st_blksize s; st_blocks := st_blocks s; st_atime := st_atime s; st_atime_nsec :=
     st_atime_nsec s; st_mtime := st_mtime s; st_mtime_nsec := st_mtime_nsec s; st_ctime :=
     st_ctime s; st_ctime_nsec := st_ctime_nsec s |}.
Definition set_st_mode (v : Z) (s : stat) : stat :=
  {| st_dev := st_dev s; st_ino := st_ino s; st_mode := v; st_nlink := st_nlink s; st_uid :=
     st_uid s; st_gid := st_gid s; st_rdev := st_rdev s; st_size := st_size s; st_blksize :=
     st_blksize s; st_blocks := st_blocks s; st_atime := st_atime s; st_atime_nsec :=
     st_atime_nsec s; st_mtime := st_mtime s; st_mtime_nsec := st_mtime_nsec s; st_ctime :=
     st_ctime s; st_ctime_nsec := st_ctime_nsec s |}.
Definition set_st_nlink (v : Z) (s : stat) : stat :=
  {| st_dev := st_dev s; st_ino := st_ino s; st_mode := st_mode s; st_nlink := v; st_uid :=
     st_uid s; st_gid := st_gid s; st_rdev := st_rdev s; st_size := st_size s; st_blksize :=
     st_blksize s; st_blocks := st_blocks s; st_atime := st_atime s; st_atime_nsec :=
     st_atime_nsec s; st_mtime := st_mtime s; st_mtime_nsec := st_mtime_nsec s; st_ctime :=
     st_ctime s; st_ctime_nsec := st_ctime_nsec s |}.
Definition set_st_uid (v : Z) (s : stat) : stat :=
  {| st_dev := st_dev s; st_ino := st_ino s; st_mode := st_mode s; st_nlink := st_nlink s;
     st_uid := v; st_gid := st_gid s; st_rdev := st_rdev s; st_size := st_size s; st_blksize :=
     st_blksize s; st_blocks := st_blocks s; st_atime := st_atime s; st_atime_nsec :=
     st_atime_nsec s; st_mtime := st_mtime s; st_mtime_nsec := st_mtime_nsec s; st_ctime :=
     st_ctime s; st_ctime_nsec := st_ctime_nsec s |}.
Definition set_st_gid (v : Z) (s : stat) : stat :=
  {| st_dev := st_dev s; st_ino := st_ino s; st_mode := st_mode s; st_nlink := st_nlink s;
     st_uid := st_uid s; st_gid := v; st_rdev := st_rdev s; st_size := st_size s; st_blksize :=
     st_blksize s; st_blocks := st_blocks s; st_atime := st_atime s; st_atime_nsec :=
     st_atime_nsec s; st_mtime := st_mtime s; st_mtime_nsec := st_mtime_nsec s; st_ctime :=
     st_ctime s; st_ctime_nsec := st_ctime_nsec s |}.
Definition set_st_rdev (v : Z) (s : stat) : stat :=
  {| st_dev := st_dev s; st_ino := st_ino s; st_mode := st_mode s; st_nlink := st_nlink s;
     st_uid := st_uid s; st_gid := st_gid s; st_rdev := v; st_size := st_size s; st_blksize :=
     st_blksize s; st_blocks := st_blocks s; st_atime := st_atime s; st_atime_nsec :=
     st_atime_nsec s; st_mtime := st_mtime s; st_mtime_nsec := st_mtime_nsec s; st_ctime :=
     st_ctime s; st_ctime_nsec := st_ctime_nsec s |}.

(** A raw directory entry, what [readdir] gives. *)
Record RawDirEntry := { rde_name : bytes; rde_ino : Z; rde_dtype : Z }.

(** [libc::timespec] *)
Record timespec := { tv_sec : Z; tv_nsec : Z }.
Definition UTIME_NOW : Z := 0x3fffffff.
Definition UTIME_OMIT : Z := 0x3ffffffe.

(** The fields of [libc::statvfs] the sources read. *)
Record statvfs := {
  f_bsize : Z; f_frsize : Z; f_blocks : Z; f_bfree : Z; f_bavail : Z; f_files : Z; f_ffree : Z;
  f_namemax : Z
}.

(** An instance to evaluate with: the two halves of a 64-bit word. *)
Definition DevT_halves : DevT.
Proof.
  refine {| makedev M m := M * 2 ^ 32 + m; major d := d / 2 ^ 32; minor d := d mod 2 ^ 32 |}.
  - intros M m HM Hm. unfold is_u32 in *. rewrite Z.div_add_l by lia.
    rewrite (Z.div_small m) by lia. lia.
  - intros M m HM Hm. unfold is_u32 in *. rewrite Z.add_comm, Z.mod_add by lia.
    by apply Z.mod_small.
Defined.
