(* ===== verification/Sys.v ===== *)
(** * System calls and effectful programs

    The wrappers of src/src/sys/ call the kernel through libc.  The kernel is
    not modelled: a call is a constructor of [sys], its answer any value of
    [resp], and a program of the file system is a value of [prog], the tree of
    the calls it makes for each answer.  A theorem about a [prog] therefore
    holds for every behaviour of the kernel, or for those a hypothesis names.

    - [prog], with the Rust panic ([Panic]) and a loop that runs out of the
      model's fuel ([NoFuel]) as outcomes;
    - [SM S A], programs over a mutable Rust state [S];
    - [wp], weakest preconditions over a [policy]: what calls are allowed, and
      what is known of their answers, in a ghost state;
    - [exec], the run against a fixed answer function, and [run], the run
      against a stateful kernel. *)

From S2P Require Import Prelude Libc.

(** ** The calls

    One constructor per wrapper of sys/fs.rs, sys/io.rs, sys/xattr.rs,
    sys/handle.rs and sys/dir.rs the modelled code uses, one per call of
    sys/openat2.rs, and two requests to the fuser crate; the answer is the
    wrapper's [FsResult].  An attribute value or a file chunk is the bytes
    the call left in the buffer.  [ReadDir] and [ReadDirDup] stand for a
    [DirStream] ([from_fd] and [from_raw_fd]): opening it and the entries its
    iterator gives until it ends. *)
Inductive sys :=
| Fstat (fd : RawFd)
| Fstatat (dirfd : RawFd) (path : bytes) (flags : Z)
| Statx (dirfd : RawFd) (path : bytes) (flags mask : Z)
| Fstatvfs (fd : RawFd)
| Fchown (fd : RawFd) (uid gid : Z)
| Fchownat (dirfd : RawFd) (path : bytes) (uid gid flags : Z)
| Fchmod (fd : RawFd) (mode : Z)
| Fchmodat (dirfd : RawFd) (path : bytes) (mode flags : Z)
| Futimens (fd : RawFd) (times : timespec * timespec)
| Utimensat (dirfd : RawFd) (path : bytes) (times : timespec * timespec) (flags : Z)
| Mkdirat (dirfd : RawFd) (path : bytes) (mode : Z)
| Mknodat (dirfd : RawFd) (path : bytes) (mode dev : Z)
| Unlinkat (dirfd : RawFd) (path : bytes) (flags : Z)
| Linkat (olddirfd : RawFd) (oldpath : bytes) (newdirfd : RawFd) (newpath : bytes) (flags : Z)
| Symlinkat (target : bytes) (dirfd : RawFd) (linkpath : bytes)
| Readlinkat (dirfd : RawFd) (path : bytes)
| Renameat (olddirfd : RawFd) (oldpath : bytes) (newdirfd : RawFd) (newpath : bytes)
| Renameat2 (olddirfd : RawFd) (oldpath : bytes) (newdirfd : RawFd) (newpath : bytes) (flags : Z)
| Truncate (path : bytes) (length : Z)
| Ftruncate (fd : RawFd) (length : Z)
| Realpath (path : bytes)
| Openat2 (dirfd : RawFd) (path : bytes) (flags mode resolve : Z)
| OpenPath (path : bytes) (flags mode : Z)
| Faccessat (dirfd : RawFd) (path : bytes) (mode flags : Z)
| ReadDir (fd : RawFd)
| ReadDirDup (fd : RawFd)
| Fgetxattr (fd : RawFd) (name : bytes) (size : Z)
| Lgetxattr (path name : bytes) (size : Z)
| Fsetxattr (fd : RawFd) (name value : bytes) (flags : Z)
| Lsetxattr (path name value : bytes) (flags : Z)
| Llistxattr (path : bytes) (size : Z)
| Flistxattr (fd : RawFd) (size : Z)
| Lremovexattr (path name : bytes)
| NameToHandleAt (dirfd : RawFd) (path : bytes) (flags : Z)
| Read (fd : RawFd) (count : Z)
| Write (fd : RawFd) (data : bytes)
| Sendfile (out_fd in_fd : RawFd) (count : Z)
| Ficlone (dest_fd src_fd : RawFd)
| Pread (fd : RawFd) (count offset : Z)
| Pwrite (fd : RawFd) (data : bytes) (offset : Z)
| Fallocate (fd : RawFd) (mode offset len : Z)
| Lseek (fd : RawFd) (offset whence : Z)
| CopyFileRange (fd_in : RawFd) (off_in : Z) (fd_out : RawFd) (off_out len : Z)
| Fsync (fd : RawFd)
| Fdatasync (fd : RawFd)
| IoctlLong (fd : RawFd) (cmd val : Z)
(* of the fuser crate: a backing file for passthrough, a cache invalidation *)
| OpenBacking (fd : RawFd)
| InvalInode (ino : Z).

Definition resp (s : sys) : Type :=
  match s with
  | Fstat _ | Fstatat _ _ _ | Statx _ _ _ _ => FsResult stat
  | Fstatvfs _ => FsResult statvfs
  | Readlinkat _ _ | Realpath _ => FsResult bytes
  | Openat2 _ _ _ _ _ | OpenPath _ _ _ => FsResult RawFd
  | ReadDir _ | ReadDirDup _ => FsResult (list RawDirEntry)
  | Fgetxattr _ _ _ | Lgetxattr _ _ _ | Llistxattr _ _ | Flistxattr _ _ => FsResult bytes
  | NameToHandleAt _ _ _ => FsResult bytes
  | Read _ _ | Pread _ _ _ => FsResult bytes
  | Write _ _ | Sendfile _ _ _ | Pwrite _ _ _ | Lseek _ _ _ | CopyFileRange _ _ _ _ _ => FsResult Z
  | IoctlLong _ _ _ | OpenBacking _ => FsResult Z
  | _ => FsResult unit
  end.

(** ** Programs *)
Inductive prog (A : Type) : Type :=
| Ret (a : A)
| Panic
| NoFuel
| Call (s : sys) (k : resp s → prog A).
Arguments Ret {A} a.
Arguments Panic {A}.
Arguments NoFuel {A}.
Arguments Call {A} s k.

Fixpoint bind {A B} (p : prog A) (f : A → prog B) : prog B :=
  match p with
  | Ret a => f a
  | Panic => Panic
  | NoFuel => NoFuel
  | Call s k => Call s (λ r, bind (k r) f)
  end.

(** Programs with a mutable state. *)
Definition SM (S A : Type) : Type := S → prog (A * S).

Section sm.
Context {S : Type}.
Definition sm_ret {A} (a : A) : SM S A := λ s, Ret (a, s).
Definition sm_bind {A B} (m : SM S A) (k : A → SM S B) : SM S B :=
  λ s, bind (m s) (λ '(a, s'), k a s').
(** [let x = m?; k] *)
Definition sm_try {A B} (m : SM S (FsResult A)) (k : A → SM S (FsResult B)) : SM S (FsResult B) :=
  sm_bind m (λ r, match r with Ok a => k a | Err e => sm_ret (Err e) end).
Definition sm_get : SM S S := λ s, Ret (s, s).
Definition sm_gets {A} (f : S → A) : SM S A := λ s, Ret (f s, s).
Definition sm_modify (f : S → S) : SM S unit := λ s, Ret (tt, f s).
Definition sm_panic {A} : SM S A := λ _, Panic.
Definition sm_nofuel {A} : SM S A := λ _, NoFuel.
(** A system call. *)
Definition sm_call (c : sys) : SM S (resp c) := λ s, Call c (λ r, Ret (r, s)).
(** A value of the model that a diverging loop leaves undefined. *)
Definition sm_fuel {A} (o : option A) : SM S A :=
  match o with Some a => sm_ret a | None => sm_nofuel end.
(** A value whose absence is a panic ([unwrap], [expect], checked arithmetic). *)
Definition sm_expect {A} (o : option A) : SM S A :=
  match o with Some a => sm_ret a | None => sm_panic end.
(** Indexing a vector, a panic out of bounds. *)
Definition sm_index {A} (l : list A) (i : nat) : SM S A :=
  match l !! i with Some a => sm_ret a | None => sm_panic end.
End sm.

(** A program without a state of its own, run in any state. *)
Definition stateless {S A} (m : SM unit A) : SM S A :=
  λ s, bind (m tt) (λ '(a, _), Ret (a, s)).

(** Run a program over a part of the state. *)
Definition zoom {S T A} (get : S → T) (put : T → S → S) (m : SM T A) : SM S A :=
  λ s, bind (m (get s)) (λ '(a, t), Ret (a, put t s)).

Notation "'let!' x := m 'in' k" := (sm_bind m (λ x, k))
  (at level 10, x pattern, m at level 100, k at level 200) : ovl_scope.
Notation "'try!' x := m 'in' k" := (sm_try m (λ x, k))
  (at level 10, x pattern, m at level 100, k at level 200) : ovl_scope.
Notation "m ;;; k" := (sm_bind m (λ _, k))
  (at level 100, k at level 200, right associativity) : ovl_scope.

Open Scope ovl_scope.

(** [crate::error::cstr] and [cstr_bytes]: a C string has no interior NUL. *)
Definition cstr_bytes (s : bytes) : FsResult bytes :=
  if bool_decide (NUL ∈ s) then Err EINVAL else Ok s.

(** ** Weakest preconditions

    A policy says, in a ghost state, which calls are allowed ([pol_pre]) and
    what an answer tells ([pol_post], a relation to the next ghost state).
    [pol_diverge] is what is required where a loop runs out of fuel: [True]
    for a safety property, [False] for a termination one; [pol_panic] is what
    is required where the program panics: [False] where it never may. *)
Record policy := {
  ghost : Type;
  pol_pre : ghost → sys → Prop;
  pol_post : ghost → ∀ s, resp s → ghost → Prop;
  pol_diverge : Prop;
  pol_panic : Prop
}.

Fixpoint wp (P : policy) {A} (p : prog A) (g : ghost P) (Q : A → ghost P → Prop) : Prop :=
  match p with
  | Ret a => Q a g
  | Panic => pol_panic P
  | NoFuel => pol_diverge P
  | Call s k => pol_pre P g s ∧ ∀ r g', pol_post P g s r g' → wp P (k r) g' Q
  end.

Section wp_rules.
Context (P : policy).

Lemma wp_mono {A} (p : prog A) g (Q Q' : A → ghost P → Prop) :
  wp P p g Q → (∀ a g', Q a g' → Q' a g') → wp P p g Q'.
Proof.
  intros Hp HQ. revert g Hp. induction p as [a| | |s k IH]; intros g; cbn; [auto..|].
  intros [Hpre Hk]. split; [done|]. intros r g' Hr. eauto.
Qed.

Lemma wp_bind {A B} (p : prog A) (f : A → prog B) g Q :
  wp P p g (λ a g', wp P (f a) g' Q) → wp P (bind p f) g Q.
Proof.
  revert g. induction p as [a| | |s k IH]; intros g; cbn; try done.
  intros [Hpre Hk]. split; [done|]. intros r g' Hr. apply IH. eauto.
Qed.

(** Both postconditions of two proofs about the same run. *)
Lemma wp_conj {A} (p : prog A) g (Q1 Q2 : A → ghost P → Prop) :
  wp P p g Q1 → wp P p g Q2 → wp P p g (λ a g', Q1 a g' ∧ Q2 a g').
Proof.
  revert g. induction p as [a| | |s k IH]; intros g; cbn; try done.
  intros [Hpre Hk1] [_ Hk2]. split; [done|]. intros r g' Hr. apply IH; eauto.
Qed.
End wp_rules.

(** Hoare triples of stateful programs, with the ghost state. *)
Definition sm_wp (P : policy) {S A} (m : SM S A) (s : S) (g : ghost P)
    (Q : A → S → ghost P → Prop) : Prop :=
  wp P (m s) g (λ '(a, s') g', Q a s' g').

Section sm_rules.
Context (P : policy) {S : Type}.
Implicit Types (s : S).

Lemma sm_wp_ret {A} (a : A) (s : S) g Q : Q a s g → sm_wp P (sm_ret a) s g Q.
Proof. done. Qed.
Lemma sm_wp_bind {A B} (m : SM S A) (k : A → SM S B) s g Q :
  sm_wp P m s g (λ a s' g', sm_wp P (k a) s' g' Q) → sm_wp P (sm_bind m k) s g Q.
Proof.
  intros H. apply wp_bind. eapply wp_mono; [exact H|]. by intros [a s'] g'.
Qed.
Lemma sm_wp_try {A B} (m : SM S (FsResult A)) (k : A → SM S (FsResult B)) s g Q :
  sm_wp P m s g (λ r s' g', match r with
                            | Ok a => sm_wp P (k a) s' g' Q
                            | Err e => Q (Err e) s' g'
                            end) →
  sm_wp P (sm_try m k) s g Q.
Proof.
  intros H. apply sm_wp_bind. eapply wp_mono; [exact H|]. by intros [[a|e] s'] g'.
Qed.
Lemma sm_wp_mono {A} (m : SM S A) s g (Q Q' : A → S → ghost P → Prop) :
  sm_wp P m s g Q → (∀ a s' g', Q a s' g' → Q' a s' g') → sm_wp P m s g Q'.
Proof. intros H HQ. eapply wp_mono; [exact H|]. intros [a s'] g'. apply HQ. Qed.
Lemma sm_wp_get s g (Q : S → S → ghost P → Prop) : Q s s g → sm_wp P sm_get s g Q.
Proof. done. Qed.
Lemma sm_wp_gets {A} (f : S → A) s g Q : Q (f s) s g → sm_wp P (sm_gets f) s g Q.
Proof. done. Qed.
Lemma sm_wp_modify (f : S → S) s g (Q : unit → S → ghost P → Prop) :
  Q tt (f s) g → sm_wp P (sm_modify f) s g Q.
Proof. done. Qed.
Lemma sm_wp_call (c : sys) s g (Q : resp c → S → ghost P → Prop) :
  pol_pre P g c → (∀ r g', pol_post P g c r g' → Q r s g') → sm_wp P (sm_call c) s g Q.
Proof. by split. Qed.
Lemma sm_wp_fuel {A} (o : option A) s g Q :
  (o = None → pol_diverge P) → (∀ a, o = Some a → Q a s g) → sm_wp P (sm_fuel o) s g Q.
Proof. destruct o; cbn; auto. Qed.
Lemma sm_wp_expect {A} (o : option A) s g Q :
  (∃ a, o = Some a ∧ Q a s g) → sm_wp P (sm_expect o) s g Q.
Proof. by intros (a & -> & ?). Qed.
Lemma sm_wp_expect_or {A} (o : option A) s g Q :
  (o = None → pol_panic P) → (∀ a, o = Some a → Q a s g) → sm_wp P (sm_expect o) s g Q.
Proof. destruct o; cbn; auto. Qed.
Lemma sm_wp_index {A} (l : list A) i s g Q :
  (∃ a, l !! i = Some a ∧ Q a s g) → sm_wp P (sm_index l i) s g Q.
Proof. unfold sm_index. by intros (a & -> & ?). Qed.
Lemma sm_wp_stateless {A} (m : SM unit A) s g Q :
  sm_wp P m tt g (λ a _ g', Q a s g') → sm_wp P (stateless m) s g Q.
Proof. intros H. apply wp_bind. eapply wp_mono; [exact H|]. by intros [a []] g'. Qed.
Lemma sm_wp_zoom {T A} (get : S → T) (put : T → S → S) (m : SM T A) s g Q :
  sm_wp P m (get s) g (λ a t g', Q a (put t s) g') → sm_wp P (zoom get put m) s g Q.
Proof. intros H. apply wp_bind. eapply wp_mono; [exact H|]. by intros [a t] g'. Qed.
End sm_rules.

(** ** Every outcome

    [always p Q]: whatever the kernel answers, what [p] returns satisfies [Q].
    Unlike [wp] it says nothing of a panic, so it is what holds of a program by
    its shape alone. *)
Fixpoint always {A} (p : prog A) (Q : A → Prop) : Prop :=
  match p with
  | Ret a => Q a
  | Panic | NoFuel => True
  | Call s k => ∀ r, always (k r) Q
  end.

Lemma always_mono {A} (p : prog A) (Q Q' : A → Prop) : always p Q → (∀ a, Q a → Q' a) → always p Q'.
Proof. intros Hp HQ. induction p as [a| | |s k IH]; cbn in *; auto. Qed.
Lemma always_bind {A B} (p : prog A) (f : A → prog B) (Q : B → Prop) :
  always p (λ a, always (f a) Q) → always (bind p f) Q.
Proof. intros Hp. induction p as [a| | |s k IH]; cbn in *; auto. Qed.

(** The same for a program over a state. *)
Definition sm_always {S A} (m : SM S A) (s : S) (Q : A → S → Prop) : Prop :=
  always (m s) (λ '(a, s'), Q a s').

Section always_rules.
Context {S : Type}.
Implicit Types (s : S).

Lemma sm_always_ret {A} (a : A) s (Q : A → S → Prop) : Q a s → sm_always (sm_ret a) s Q.
Proof using. done. Qed.
Lemma sm_always_bind {A B} (m : SM S A) (k : A → SM S B) s Q :
  sm_always m s (λ a s', sm_always (k a) s' Q) → sm_always (sm_bind m k) s Q.
Proof using. intros H. apply always_bind. eapply always_mono; [exact H|]. by intros [a s']. Qed.
Lemma sm_always_mono {A} (m : SM S A) s (Q Q' : A → S → Prop) :
  sm_always m s Q → (∀ a s', Q a s' → Q' a s') → sm_always m s Q'.
Proof using. intros H HQ. eapply always_mono; [exact H|]. intros [a s']. apply HQ. Qed.
Lemma sm_always_zoom {T A} (get : S → T) (put : T → S → S) (m : SM T A) s Q :
  sm_always m (get s) (λ a t, Q a (put t s)) → sm_always (zoom get put m) s Q.
Proof using. intros H. apply always_bind. eapply always_mono; [exact H|]. by intros [a t]. Qed.
Lemma sm_always_true {A} (m : SM S A) s (Q : A → S → Prop) : (∀ a s', Q a s') → sm_always m s Q.
Proof using.
  intros HQ. unfold sm_always. induction (m s) as [[a s']| | |c k IH]; cbn; auto.
Qed.
End always_rules.

(** ** Runs *)

(** Against a fixed answer to every call: the kernel while nothing changes. *)
Fixpoint exec (o : ∀ s, resp s) {A} (p : prog A) : option A :=
  match p with
  | Ret a => Some a
  | Call s k => exec o (k (o s))
  | Panic | NoFuel => None
  end.

(** Against a kernel with a state. *)
Fixpoint run {W} (K : ∀ s, W → resp s * W) {A} (p : prog A) (w : W) : option (A * W) :=
  match p with
  | Ret a => Some (a, w)
  | Call s k => let '(r, w') := K s w in run K (k r) w'
  | Panic | NoFuel => None
  end.

Lemma exec_bind o {A B} (p : prog A) (f : A → prog B) :
  exec o (bind p f) = exec o p ≫= λ a, exec o (f a).
Proof. induction p as [a| | |s k IH]; cbn; [done..|]. apply IH. Qed.

Lemma run_bind {W} (K : ∀ s, W → resp s * W) {A B} (p : prog A) (f : A → prog B) w :
  run K (bind p f) w = run K p w ≫= λ '(a, w'), run K (f a) w'.
Proof. revert w. induction p as [a| | |s k IH]; intros w; cbn; [done..|]. destruct (K s w). apply IH. Qed.

Lemma exec_sm_bind o {S A B} (m : SM S A) (k : A → SM S B) s :
  exec o (sm_bind m k s) = exec o (m s) ≫= λ '(a, s'), exec o (k a s').
Proof.
  unfold sm_bind. rewrite exec_bind. destruct (exec o (m s)) as [[a s']|]; done.
Qed.

(** A proof under a policy applies to the run of every kernel whose answers
    the policy allows: the postcondition of what is returned, and a panic or a
    loop only where the policy has it. *)
Lemma wp_run (P : policy) {W} (K : ∀ s, W → resp s * W) (I : ghost P → W → Prop)
    {A} (p : prog A) g w Q :
  (∀ g s w, I g w → pol_pre P g s →
     ∃ g', pol_post P g s (K s w).1 g' ∧ I g' (K s w).2) →
  I g w → wp P p g Q →
  match run K p w with
  | Some (a, w') => ∃ g', Q a g' ∧ I g' w'
  | None => pol_diverge P ∨ pol_panic P
  end.
Proof.
  intros HK. revert g w. induction p as [a| | |s k IH]; intros g w HI; cbn; auto.
  - intros HQ. eauto.
  - intros [Hpre Hk]. destruct (HK g s w HI Hpre) as (g' & Hpost & HI').
    destruct (K s w) as [r w']. cbn in *. apply (IH r g'); auto.
Qed.

(** What holds of every outcome holds of the run of any kernel. *)
Lemma always_run {W} (K : ∀ s, W → resp s * W) {A} (p : prog A) Q w a w' :
  always p Q → run K p w = Some (a, w') → Q a.
Proof.
  revert w. induction p as [a0| | |s k IH]; intros w; cbn; try done.
  - by intros HQ [= <- <-].
  - intros Hk. destruct (K s w) as [r w1]. by apply IH.
Qed.
