(* ===== verification/Ffi.v ===== *)
(** * The C library

    The calls the wrappers of src/src/sys/ make, with what they return in C:
    a number or a pointer, the memory they fill and, when they set it, the
    thread's [errno].  The C library is not modelled: [answer] is whatever it
    gives.  A wrapper is a program of type [FM], which keeps [errno] between
    its calls; [FsError_last] reads it. *)

From S2P Require Import Prelude Libc.
Local Open Scope Z_scope.

(** ** What the calls fill *)

(** [libc::statx], the fields the sources read. *)
Record statx_timestamp := { stx_sec : Z; stx_nsec : Z }.
Record statx := {
  stx_blksize : Z; stx_nlink : Z; stx_uid : Z; stx_gid : Z; stx_mode : Z; stx_ino : Z;
  stx_size : Z; stx_blocks : Z; stx_atime : statx_timestamp; stx_ctime : statx_timestamp;
  stx_mtime : statx_timestamp; stx_rdev_major : Z; stx_rdev_minor : Z; stx_dev_major : Z;
  stx_dev_minor : Z
}.

(** [libc::dirent]; the name is the whole array. *)
Record dirent := { d_ino : Z; d_type : Z; d_name : bytes }.

(** The C string at the start of some memory. *)
Fixpoint CStr_from_ptr (s : bytes) : bytes :=
  match s with
  | [] => []
  | c :: s' => if bool_decide (c = NUL) then [] else c :: CStr_from_ptr s'
  end.

Inductive ffi :=
| c_fstat (fd : Z)
| c_fstatat (dirfd : Z) (path : bytes) (flags : Z)
| c_fstatvfs (fd : Z)
| c_statfs (path : bytes)
| c_statvfs (path : bytes)
| c_statx (dirfd : Z) (path : bytes) (flags mask : Z)
| c_fchown (fd uid gid : Z)
| c_fchownat (dirfd : Z) (path : bytes) (uid gid flags : Z)
| c_fchmod (fd mode : Z)
| c_fchmodat (dirfd : Z) (path : bytes) (mode flags : Z)
| c_futimens (fd : Z) (times : timespec * timespec)
| c_utimensat (dirfd : Z) (path : bytes) (times : timespec * timespec) (flags : Z)
| c_mkdirat (dirfd : Z) (path : bytes) (mode : Z)
| c_mknodat (dirfd : Z) (path : bytes) (mode dev : Z)
| c_unlinkat (dirfd : Z) (path : bytes) (flags : Z)
| c_linkat (olddirfd : Z) (oldpath : bytes) (newdirfd : Z) (newpath : bytes) (flags : Z)
| c_symlinkat (target : bytes) (dirfd : Z) (linkpath : bytes)
| c_readlinkat (dirfd : Z) (path : bytes) (bufsiz : Z)
| c_renameat (olddirfd : Z) (oldpath : bytes) (newdirfd : Z) (newpath : bytes)
| c_renameat2 (olddirfd : Z) (oldpath : bytes) (newdirfd : Z) (newpath : bytes) (flags : Z)
| c_fallocate (fd mode offset len : Z)
| c_truncate (path : bytes) (length : Z)
| c_realpath (path : bytes)
| c_openat2 (dirfd : Z) (path : bytes) (flags mode resolve : Z)
| c_open (path : bytes) (flags mode : Z)
| c_faccessat (dirfd : Z) (path : bytes) (mode flags : Z)
| c_pread (fd count offset : Z)
| c_pwrite (fd : Z) (data : bytes) (offset : Z)
| c_read (fd count : Z)
| c_write (fd : Z) (data : bytes)
| c_sendfile (out_fd in_fd count : Z)
| c_copy_file_range (fd_in off_in fd_out off_out len : Z)
| c_fsync (fd : Z)
| c_fdatasync (fd : Z)
| c_ftruncate (fd length : Z)
| c_lseek (fd offset whence : Z)
| c_ioctl_fd (fd cmd arg : Z)
| c_ioctl_long (fd cmd val : Z)
| c_fgetxattr (fd : Z) (name : bytes) (size : Z)
| c_lgetxattr (path name : bytes) (size : Z)
| c_fsetxattr (fd : Z) (name value : bytes) (flags : Z)
| c_lsetxattr (path name value : bytes) (flags : Z)
| c_llistxattr (path : bytes) (size : Z)
| c_flistxattr (fd size : Z)
| c_lremovexattr (path name : bytes)
| c_name_to_handle_at (dirfd : Z) (path : bytes) (handle_bytes flags : Z)
| c_fdopendir (fd : Z)
| c_readdir (dir : Z)
| c_closedir (dir : Z)
| c_dup (fd : Z)
| c_close (fd : Z)
(* of the fuser crate *)
| c_open_backing (fd : Z)
| c_inval_inode (ino : Z).

(** The memory the call fills: a buffer is given as it is after the call. *)
Definition out (c : ffi) : Type :=
  match c with
  | c_fstat _ | c_fstatat _ _ _ => stat
  | c_fstatvfs _ => statvfs
  | c_statfs _ | c_statvfs _ => Z
  | c_statx _ _ _ _ => statx
  | c_readlinkat _ _ _ | c_realpath _ | c_pread _ _ _ | c_read _ _ | c_fgetxattr _ _ _ | c_lgetxattr _ _ _
  | c_llistxattr _ _ | c_flistxattr _ _ => bytes
  | c_name_to_handle_at _ _ _ _ => Z * bytes
  | c_copy_file_range _ _ _ _ _ => Z * Z
  | c_ioctl_long _ _ _ => Z
  | c_readdir _ => dirent
  | _ => unit
  end.

(** [a_errno] is [None] when the call leaves [errno] alone. *)
Record answer (c : ffi) := { a_ret : Z; a_errno : option Z; a_out : out c }.
Arguments a_ret {c} a.
Arguments a_errno {c} a.
Arguments a_out {c} a.

(** ** Programs over the C library *)
Inductive fprog (A : Type) : Type :=
| FRet (a : A)
| FPanic
| FNoFuel
| FCall (c : ffi) (k : answer c → fprog A).
Arguments FRet {A} a.
Arguments FPanic {A}.
Arguments FNoFuel {A}.
Arguments FCall {A} c k.

Fixpoint fbind {A B} (p : fprog A) (f : A → fprog B) : fprog B :=
  match p with
  | FRet a => f a
  | FPanic => FPanic
  | FNoFuel => FNoFuel
  | FCall c k => FCall c (λ a, fbind (k a) f)
  end.

(** With [errno]. *)
Definition FM (A : Type) : Type := Z → fprog (A * Z).
Definition fm_ret {A} (a : A) : FM A := λ e, FRet (a, e).
Definition fm_bind {A B} (m : FM A) (k : A → FM B) : FM B := λ e, fbind (m e) (λ '(a, e'), k a e').
Definition fm_panic {A} : FM A := λ _, FPanic.
Definition fm_nofuel {A} : FM A := λ _, FNoFuel.
Definition fm_call (c : ffi) : FM (Z * out c) :=
  λ e, FCall c (λ a, FRet ((a_ret a, a_out a), default e (a_errno a))).

(** [io::Error::last_os_error().raw_os_error()], which is always a number. *)
Definition FsError_last {A} : FM (FsResult A) := λ e, FRet (Err e, e).

Declare Scope ffi_scope.
Delimit Scope ffi_scope with ffi.
Notation "'do!' x := m 'in' k" := (fm_bind m (λ x, k))
  (at level 10, x pattern, m at level 100, k at level 200) : ffi_scope.

(** ** Runs *)

(** Against a C library and kernel with a state. *)
Fixpoint frun {W} (K : ∀ c, W → answer c * W) {A} (p : fprog A) (w : W) : option (A * W) :=
  match p with
  | FRet a => Some (a, w)
  | FCall c k => let '(a, w') := K c w in frun K (k a) w'
  | FPanic | FNoFuel => None
  end.

Lemma frun_bind {W} (K : ∀ c, W → answer c * W) {A B} (p : fprog A) (f : A → fprog B) w :
  frun K (fbind p f) w = frun K p w ≫= λ '(a, w'), frun K (f a) w'.
Proof. revert w. induction p as [a| | |c k IH]; intros w; cbn; [done..|]. destruct (K c w). apply IH. Qed.
Lemma frun_fm_bind {W} (K : ∀ c, W → answer c * W) {A B} (m : FM A) (k : A → FM B) e w :
  frun K (fm_bind m k e) w = frun K (m e) w ≫= λ '(a, e', w'), frun K (k a e') w'.
Proof. unfold fm_bind. rewrite frun_bind. by destruct (frun K (m e) w) as [[[a e'] w']|]. Qed.
