(* ===== verification/Node.v ===== *)
(** * Nodes, inodes and paths (src/src/node.rs)

    The overlay tree and its two tables: the arena of [OvlNode]s keyed by
    [NodeId], and the inode table that gives every (ino, dev) pair a FUSE
    inode number.  [compute_path] walks the parent links.

    The two static counters [STAT_NODES] and [STAT_INODES] are fields of the
    table that updates them.  The iteration order of a hash set is unspecified
    and is the class [HashOrder].  Two loops of the code can fail to end: the
    collision loop of [register] when every FUSE number is taken, and the
    parent walk on a cycle; both have fuel, run out only then (properties
    below), and give [None] there.

    Theorems: the invariant of the inode table and the freshness of the
    numbers it gives, termination of the collision loop, forget, and paths as
    a function of the tree. *)

From S2P Require Import Prelude Libc Sys.
Local Open Scope Z_scope.

(** Opaque handle for a node in the arena. *)
Abbreviation NodeId := Z.

(** Directory state for an overlay node. *)
Inductive DirState :=
| NotADir
| Dir (children : gmap bytes NodeId) (whiteouts : gset bytes) (loaded : bool).

(** Key for the inode hash table. *)
Record InodeKey := { key_ino : Z; key_dev : Z }.
#[export] Instance InodeKey_eq_dec : EqDecision InodeKey.
Proof. solve_decision. Defined.
#[export] Instance InodeKey_countable : Countable InodeKey.
Proof.
  refine (inj_countable' (λ k, (key_ino k, key_dev k)) (λ p, {| key_ino := p.1; key_dev := p.2 |}) _).
  by intros [].
Defined.

(** The order in which iterating a hash set gives its elements. *)
Class HashOrder := {
  hash_order : gset NodeId → list NodeId;
  hash_order_perm s : hash_order s ≡ₚ elements s
}.

(** FNV-1a, [hash.wrapping_mul(FNV_PRIME)] after the xor. *)
Definition FNV_OFFSET_BASIS : Z := 0xcbf29ce484222325.
Definition FNV_PRIME : Z := 0x100000001b3.
Definition fnv1a_name_hash (s : bytes) : Z :=
  foldl (λ hash byte, wrap_u64 (Z.lxor hash (Z.of_N (N_of_ascii byte)) * FNV_PRIME))
    FNV_OFFSET_BASIS s.
Definition fnv1a_name_hash_pub (s : bytes) : Z := fnv1a_name_hash s.

(** A single named entry in the overlay directory tree. *)
Record OvlNode := {
  parent : option NodeId;
  dir_state : DirState;
  layer_idx : nat;
  last_layer_idx : nat;
  tmp_ino : Z;
  tmp_dev : Z;
  name : bytes;
  hidden_path : option bytes;
  hidden_dirfd : RawFd;
  name_hash : Z;
  n_links : Z;
  node_mode : Z;
  do_unlink : bool;
  do_rmdir : bool;
  hidden : bool
}.

Definition set_parent (v : option NodeId) (s : OvlNode) : OvlNode :=
  {| parent := v; dir_state := dir_state s; layer_idx := layer_idx s; last_layer_idx :=
     last_layer_idx s; tmp_ino := tmp_ino s; tmp_dev := tmp_dev s; name := name s; hidden_path
     := hidden_path s; hidden_dirfd := hidden_dirfd s; name_hash := name_hash s; n_links :=
     n_links s; node_mode := node_mode s; do_unlink := do_unlink s; do_rmdir := do_rmdir s;
     hidden := hidden s |}.
Definition set_dir_state (v : DirState) (s : OvlNode) : OvlNode :=
  {| parent := parent s; dir_state := v; layer_idx := layer_idx s; last_layer_idx :=
     last_layer_idx s; tmp_ino := tmp_ino s; tmp_dev := tmp_dev s; name := name s; hidden_path
     := hidden_path s; hidden_dirfd := hidden_dirfd s; name_hash := name_hash s; n_links :=
     n_links s; node_mode := node_mode s; do_unlink := do_unlink s; do_rmdir := do_rmdir s;
     hidden := hidden s |}.
Definition set_layer_idx (v : nat) (s : OvlNode) : OvlNode :=
  {| parent := parent s; dir_state := dir_state s; layer_idx := v; last_layer_idx :=
     last_layer_idx s; tmp_ino := tmp_ino s; tmp_dev := tmp_dev s; name := name s; hidden_path
     := hidden_path s; hidden_dirfd := hidden_dirfd s; name_hash := name_hash s; n_links :=
     n_links s; node_mode := node_mode s; do_unlink := do_unlink s; do_rmdir := do_rmdir s;
     hidden := hidden s |}.
Definition set_last_layer_idx (v : nat) (s : OvlNode) : OvlNode :=
  {| parent := parent s; dir_state := dir_state s; layer_idx := layer_idx s; last_layer_idx :=
     v; tmp_ino := tmp_ino s; tmp_dev := tmp_dev s; name := name s; hidden_path := hidden_path
     s; hidden_dirfd := hidden_dirfd s; name_hash := name_hash s; n_links := n_links s;
     node_mode := node_mode s; do_unlink := do_unlink s; do_rmdir := do_rmdir s; hidden :=
     hidden s |}.
Definition set_tmp_ino (v : Z) (s : OvlNode) : OvlNode :=
  {| parent := parent s; dir_state := dir_state s; layer_idx := layer_idx s; last_layer_idx :=
     last_layer_idx s; tmp_ino := v; tmp_dev := tmp_dev s; name := name s; hidden_path :=
     hidden_path s; hidden_dirfd := hidden_dirfd s; name_hash := name_hash s; n_links := n_links
     s; node_mode := node_mode s; do_unlink := do_unlink s; do_rmdir := do_rmdir s; hidden :=
     hidden s |}.
Definition set_tmp_dev (v : Z) (s : OvlNode) : OvlNode :=
  {| parent := parent s; dir_state := dir_state s; layer_idx := layer_idx s; last_layer_idx :=
     last_layer_idx s; tmp_ino := tmp_ino s; tmp_dev := v; name := name s; hidden_path :=
     hidden_path s; hidden_dirfd := hidden_dirfd s; name_hash := name_hash s; n_links := n_links
     s; node_mode := node_mode s; do_unlink := do_unlink s; do_rmdir := do_rmdir s; hidden :=
     hidden s |}.
Definition set_name (v : bytes) (s : OvlNode) : OvlNode :=
  {| parent := parent s; dir_state := dir_state s; layer_idx := layer_idx s; last_layer_idx :=
     last_layer_idx s; tmp_ino := tmp_ino s; tmp_dev := tmp_dev s; name := v; hidden_path :=
     hidden_path s; hidden_dirfd := hidden_dirfd s; name_hash := name_hash s; n_links := n_links
     s; node_mode := node_mode s; do_unlink := do_unlink s; do_rmdir := do_rmdir s; hidden :=
     hidden s |}.
Definition set_hidden_path (v : option bytes) (s : OvlNode) : OvlNode :=
  {| parent := parent s; dir_state := dir_state s; layer_idx := layer_idx s; last_layer_idx :=
     last_layer_idx s; tmp_ino := tmp_ino s; tmp_dev := tmp_dev s; name := name s; hidden_path
     := v; hidden_dirfd := hidden_dirfd s; name_hash := name_hash s; n_links := n_links s;
     node_mode := node_mode s; do_unlink := do_unlink s; do_rmdir := do_rmdir s; hidden :=
     hidden s |}.
Definition set_hidden_dirfd (v : RawFd) (s : OvlNode) : OvlNode :=
  {| parent := parent s; dir_state := dir_state s; layer_idx := layer_idx s; last_layer_idx :=
     last_layer_idx s; tmp_ino := tmp_ino s; tmp_dev := tmp_dev s; name := name s; hidden_path
     := hidden_path s; hidden_dirfd := v; name_hash := name_hash s; n_links := n_links s;
     node_mode := node_mode s; do_unlink := do_unlink s; do_rmdir := do_rmdir s; hidden :=
     hidden s |}.
Definition set_name_hash (v : Z) (s : OvlNode) : OvlNode :=
  {| parent := parent s; dir_state := dir_state s; layer_idx := layer_idx s; last_layer_idx :=
     last_layer_idx s; tmp_ino := tmp_ino s; tmp_dev := tmp_dev s; name := name s; hidden_path
     := hidden_path s; hidden_dirfd := hidden_dirfd s; name_hash := v; n_links := n_links s;
     node_mode := node_mode s; do_unlink := do_unlink s; do_rmdir := do_rmdir s; hidden :=
     hidden s |}.
Definition set_node_mode (v : Z) (s : OvlNode) : OvlNode :=
  {| parent := parent s; dir_state := dir_state s; layer_idx := layer_idx s; last_layer_idx :=
     last_layer_idx s; tmp_ino := tmp_ino s; tmp_dev := tmp_dev s; name := name s; hidden_path
     := hidden_path s; hidden_dirfd := hidden_dirfd s; name_hash := name_hash s; n_links :=
     n_links s; node_mode := v; do_unlink := do_unlink s; do_rmdir := do_rmdir s; hidden :=
     hidden s |}.
Definition set_do_unlink (v : bool) (s : OvlNode) : OvlNode :=
  {| parent := parent s; dir_state := dir_state s; layer_idx := layer_idx s; last_layer_idx :=
     last_layer_idx s; tmp_ino := tmp_ino s; tmp_dev := tmp_dev s; name := name s; hidden_path
     := hidden_path s; hidden_dirfd := hidden_dirfd s; name_hash := name_hash s; n_links :=
     n_links s; node_mode := node_mode s; do_unlink := v; do_rmdir := do_rmdir s; hidden :=
     hidden s |}.
Definition set_do_rmdir (v : bool) (s : OvlNode) : OvlNode :=
  {| parent := parent s; dir_state := dir_state s; layer_idx := layer_idx s; last_layer_idx :=
     last_layer_idx s; tmp_ino := tmp_ino s; tmp_dev := tmp_dev s; name := name s; hidden_path
     := hidden_path s; hidden_dirfd := hidden_dirfd s; name_hash := name_hash s; n_links :=
     n_links s; node_mode := node_mode s; do_unlink := do_unlink s; do_rmdir := v; hidden :=
     hidden s |}.
Definition set_hidden (v : bool) (s : OvlNode) : OvlNode :=
  {| parent := parent s; dir_state := dir_state s; layer_idx := layer_idx s; last_layer_idx :=
     last_layer_idx s; tmp_ino := tmp_ino s; tmp_dev := tmp_dev s; name := name s; hidden_path
     := hidden_path s; hidden_dirfd := hidden_dirfd s; name_hash := name_hash s; n_links :=
     n_links s; node_mode := node_mode s; do_unlink := do_unlink s; do_rmdir := do_rmdir s;
     hidden := v |}.

(** [OvlNode::new] *)
Definition OvlNode_new (nm : bytes) (layer : nat) (ino dev : Z) (is_dir : bool) : OvlNode := {|
  parent := None;
  dir_state := if is_dir then Dir ∅ ∅ false else NotADir;
  layer_idx := layer;
  last_layer_idx := layer;
  tmp_ino := ino;
  tmp_dev := dev;
  name := nm;
  hidden_path := None;
  hidden_dirfd := -1;
  name_hash := fnv1a_name_hash nm;
  n_links := 0;
  node_mode := if is_dir then S_IFDIR else 0;
  do_unlink := false;
  do_rmdir := false;
  hidden := false
|}.

Definition is_dir (n : OvlNode) : bool :=
  match dir_state n with Dir _ _ _ => true | NotADir => false end.

Definition is_loaded (n : OvlNode) : bool :=
  match dir_state n with Dir _ _ true => true | _ => false end.

Definition mark_loaded (n : OvlNode) : OvlNode :=
  match dir_state n with
  | Dir ch wh _ => set_dir_state (Dir ch wh true) n
  | NotADir => n
  end.

Definition mark_unloaded (n : OvlNode) : OvlNode :=
  match dir_state n with
  | Dir ch wh _ => set_dir_state (Dir ch wh false) n
  | NotADir => n
  end.

Definition get_child (n : OvlNode) (nm : bytes) : option NodeId :=
  match dir_state n with
  | Dir ch _ _ => ch !! nm
  | NotADir => None
  end.

Definition children (n : OvlNode) : option (gmap bytes NodeId) :=
  match dir_state n with
  | Dir ch _ _ => Some ch
  | NotADir => None
  end.

(** Returns the old child, and removes any whiteout for the name. *)
Definition insert_child (nm : bytes) (child : NodeId) (n : OvlNode) : option NodeId * OvlNode :=
  match dir_state n with
  | Dir ch wh ld => (ch !! nm, set_dir_state (Dir (<[nm:=child]> ch) (wh ∖ {[nm]}) ld) n)
  | NotADir => (None, n)
  end.

Definition remove_child (nm : bytes) (n : OvlNode) : option NodeId * OvlNode :=
  match dir_state n with
  | Dir ch wh ld => (ch !! nm, set_dir_state (Dir (delete nm ch) wh ld) n)
  | NotADir => (None, n)
  end.

Definition is_whiteout (n : OvlNode) (nm : bytes) : bool :=
  match dir_state n with
  | Dir _ wh _ => bool_decide (nm ∈ wh)
  | NotADir => false
  end.

Definition insert_whiteout (nm : bytes) (n : OvlNode) : OvlNode :=
  match dir_state n with
  | Dir ch wh ld => set_dir_state (Dir ch ({[nm]} ∪ wh) ld) n
  | NotADir => n
  end.

Definition clear_children (n : OvlNode) : OvlNode :=
  match dir_state n with
  | Dir _ _ ld => set_dir_state (Dir ∅ ∅ ld) n
  | NotADir => n
  end.

(** [Drop for OvlNode]: delete a hidden file or directory from the workdir. *)
Definition drop_node {S} (n : OvlNode) : SM S unit :=
  match hidden_path n with
  | Some path =>
      match cstr_bytes path with
      | Ok c_path =>
          (if do_unlink n
           then let! _ := sm_call (Unlinkat (hidden_dirfd n) c_path 0) in sm_ret tt
           else sm_ret tt) ;;;
          (if do_rmdir n
           then let! _ := sm_call (Unlinkat (hidden_dirfd n) c_path AT_REMOVEDIR) in sm_ret tt
           else sm_ret tt)
      | Err _ => sm_ret tt
      end
  | None => sm_ret tt
  end.

(** ** The arena *)

Record NodeArena := { arena_map : gmap NodeId OvlNode; next_id : Z; STAT_NODES : Z }.

Definition NodeArena_new : NodeArena := {| arena_map := ∅; next_id := 1; STAT_NODES := 0 |}.

Definition arena_insert (node : OvlNode) (a : NodeArena) : NodeId * NodeArena :=
  let id := next_id a in
  (id, {| arena_map := <[id:=node]> (arena_map a);
          next_id := wrap_u64 (next_id a + 1);
          STAT_NODES := wrap_u64 (STAT_NODES a + 1) |}).

Definition arena_get (a : NodeArena) (id : NodeId) : option OvlNode := arena_map a !! id.

(** An update through [get_mut]: nothing when the node is missing. *)
Definition arena_alter (f : OvlNode → OvlNode) (id : NodeId) (a : NodeArena) : NodeArena :=
  {| arena_map := alter f id (arena_map a); next_id := next_id a; STAT_NODES := STAT_NODES a |}.

(** The removed node is returned; dropping it is the caller's [drop_node]. *)
Definition arena_remove (id : NodeId) (a : NodeArena) : option OvlNode * NodeArena :=
  let node := arena_map a !! id in
  (node, {| arena_map := delete id (arena_map a); next_id := next_id a;
            STAT_NODES := match node with
                          | Some _ => wrap_u64 (STAT_NODES a - 1)
                          | None => STAT_NODES a
                          end |}).

Definition contains_key (a : NodeArena) (id : NodeId) : bool :=
  bool_decide (is_Some (arena_map a !! id)).

(** ** Paths *)

(** The names from below the root down to [id]: [None] when the walk does not
    end. *)
Fixpoint path_parts (fuel : nat) (a : NodeArena) (id : NodeId) : option (list bytes) :=
  match arena_get a id with
  | None => Some []
  | Some node =>
      match parent node with
      | None => Some []
      | Some pid =>
          match fuel with
          | O => None
          | S fuel => parts ← path_parts fuel a pid; Some (parts ++ [name node])
          end
      end
  end.

(** Compute the path of a node by walking parent pointers. *)
Definition compute_path (a : NodeArena) (id : NodeId) : option bytes :=
  match arena_get a id with
  | Some node =>
      match parent node with
      | None => Some (bs ".")
      | Some _ => parts ← path_parts (size (arena_map a)) a id; Some (join SLASH parts)
      end
  | None => Some []
  end.

(** ** The inode table *)

(** A unique inode in the overlay, shared by hard links. *)
Record OvlIno := { ino_nodes : gset NodeId; lookups : Z; ino_mode : Z; fuse_ino : Z }.

Record InodeTable := {
  table : gmap InodeKey OvlIno;
  fuse_map : gmap Z InodeKey;
  same_device : bool;
  next_fallback : Z;
  STAT_INODES : Z
}.

Definition InodeTable_new : InodeTable := {|
  table := ∅; fuse_map := ∅; same_device := true; next_fallback := 2 ^ 63; STAT_INODES := 0
|}.

Definition set_same_device (same : bool) (t : InodeTable) : InodeTable := {|
  table := table t; fuse_map := fuse_map t; same_device := same;
  next_fallback := next_fallback t; STAT_INODES := STAT_INODES t
|}.

(** Compute a FUSE inode number from an (ino, dev) pair. *)
Definition compute_fuse_ino (ino dev : Z) (same_device : bool) : Z :=
  if same_device then
    if ino <=? 1 then ino + 2 else ino
  else
    let hash := Z.lxor ino (wrap_u64 (dev * 0x9e3779b97f4a7c15)) in
    let hash := wrap_u64 (hash * 0x517cc1b727220a95) in
    let hash := Z.lxor hash (Z.shiftr hash 32) in
    if hash <=? 1 then hash + 2 else hash.

Definition fuse_to_ino (t : InodeTable) (f : Z) : option OvlIno :=
  key ← fuse_map t !! f; table t !! key.

Definition get_by_key (t : InodeTable) (key : InodeKey) : option OvlIno := table t !! key.

Definition key_to_fuse_ino (t : InodeTable) (key : InodeKey) : option Z :=
  fuse_ino <$> table t !! key.

(** One advance of the fallback counter, skipping 0 and 1. *)
Definition bump_fallback (n : Z) : Z :=
  let n := wrap_u64 (n + 1) in if n <=? 1 then 2 else n.

(** The [while] loop of [register]: the number to use and the counter after. *)
Fixpoint resolve_collision (fuel : nat) (fm : gmap Z InodeKey) (f next : Z) : option (Z * Z) :=
  if bool_decide (is_Some (fm !! f)) || (f <=? 1) then
    match fuel with
    | O => None
    | S fuel => resolve_collision fuel fm next (bump_fallback next)
    end
  else Some (f, next).

(** The [for] loop of [register]: is one of the nodes a directory, or at the
    same path? *)
Fixpoint find_duplicate (a : NodeArena) (new_path : bytes) (ids : list NodeId) : option bool :=
  match ids with
  | [] => Some false
  | id :: ids' =>
      match arena_get a id with
      | None => find_duplicate a new_path ids'
      | Some node =>
          if is_dir node then Some true
          else
            p ← compute_path a id;
            if bool_decide (p = new_path) then Some true else find_duplicate a new_path ids'
      end
  end.

(** The tail of [register]: a fresh entry for [key]. *)
Definition register_fresh (id : NodeId) (key : InodeKey) (mode : Z) (t : InodeTable)
    : option (option Z * InodeTable) :=
  let f0 := compute_fuse_ino (key_ino key) (key_dev key) (same_device t) in
  '(f, next) ← resolve_collision (S (S (size (fuse_map t)))) (fuse_map t) f0 (next_fallback t);
  Some (Some f, {|
    table := <[key := {| ino_nodes := {[id]}; lookups := 0; ino_mode := mode; fuse_ino := f |}]>
               (table t);
    fuse_map := <[f := key]> (fuse_map t);
    same_device := same_device t;
    next_fallback := next;
    STAT_INODES := wrap_u64 (STAT_INODES t + 1)
  |}).

(** Replace the table entry of [key]. *)
Definition set_entry (key : InodeKey) (o : OvlIno) (t : InodeTable) : InodeTable := {|
  table := <[key := o]> (table t); fuse_map := fuse_map t; same_device := same_device t;
  next_fallback := next_fallback t; STAT_INODES := STAT_INODES t
|}.

(** Remove the table entry of [key], leaving the fuse_map one. *)
Definition remove_entry (key : InodeKey) (t : InodeTable) : InodeTable := {|
  table := delete key (table t); fuse_map := fuse_map t; same_device := same_device t;
  next_fallback := next_fallback t; STAT_INODES := wrap_u64 (STAT_INODES t - 1)
|}.

Section register.
Context `{HashOrder}.

(** Register a node under its (ino, dev) pair; the FUSE inode number. *)
Definition register (a : NodeArena) (id : NodeId) (ino dev mode : Z) (t : InodeTable)
    : option (option Z * InodeTable) :=
  let key := {| key_ino := ino; key_dev := dev |} in
  match table t !! key with
  | Some existing =>
      let live := filter (λ i, contains_key a i = true) (ino_nodes existing) in
      let pruned := {| ino_nodes := live; lookups := lookups existing;
                       ino_mode := ino_mode existing; fuse_ino := fuse_ino existing |} in
      if bool_decide (live = ∅) then
        (* All nodes are dead: the entry goes, its fuse_map tombstone stays. *)
        register_fresh id key mode (remove_entry key (set_entry key pruned t))
      else
        new_path ← compute_path a id;
        dup ← find_duplicate a new_path (hash_order live);
        if dup : bool then Some (Some (fuse_ino existing), set_entry key pruned t)
        else Some (Some (fuse_ino existing),
                   set_entry key {| ino_nodes := {[id]} ∪ live; lookups := lookups existing;
                                    ino_mode := mode; fuse_ino := fuse_ino existing |} t)
  | None => register_fresh id key mode t
  end.
End register.

Definition remove_node_id (key : InodeKey) (id : NodeId) (t : InodeTable) : InodeTable :=
  match table t !! key with
  | Some o => set_entry key {| ino_nodes := ino_nodes o ∖ {[id]}; lookups := lookups o;
                               ino_mode := ino_mode o; fuse_ino := fuse_ino o |} t
  | None => t
  end.

Definition set_lookups (n : Z) (o : OvlIno) : OvlIno :=
  {| ino_nodes := ino_nodes o; lookups := n; ino_mode := ino_mode o; fuse_ino := fuse_ino o |}.

Definition inc_lookup (key : InodeKey) (t : InodeTable) : InodeTable :=
  match table t !! key with
  | Some o => set_entry key (set_lookups (wrap_i64 (lookups o + 1)) o) t
  | None => t
  end.

(** Remove a fuse_map entry. *)
Definition remove_fuse (f : Z) (t : InodeTable) : InodeTable := {|
  table := table t; fuse_map := delete f (fuse_map t); same_device := same_device t;
  next_fallback := next_fallback t; STAT_INODES := STAT_INODES t
|}.

(** Process a FUSE forget: [INodeNo::ROOT] is 1. *)
Definition forget (f nlookup : Z) (t : InodeTable) : bool * InodeTable :=
  if (f =? 1) || (f =? 0) then (false, t)
  else
    match fuse_map t !! f with
    | None => (false, t)
    | Some key =>
        match table t !! key with
        | Some ino =>
            if negb (fuse_ino ino =? f) then (true, remove_fuse f t)
            else
              let prev := lookups ino in
              let t' := set_entry key (set_lookups (wrap_i64 (prev - wrap_i64 nlookup)) ino) t in
              if wrap_i64 (prev - wrap_i64 nlookup) <=? 0
              then (true, remove_entry key (remove_fuse f t'))
              else (true, t')
        | None => (true, remove_fuse f t)
        end
    end.

(** ** Paths are a function of the tree

    [path_of a id parts]: walking up from [id] ends, and meets [parts] from
    the top. *)
Inductive path_of (a : NodeArena) : NodeId → list bytes → Prop :=
| path_of_missing id : arena_get a id = None → path_of a id []
| path_of_root id n : arena_get a id = Some n → parent n = None → path_of a id []
| path_of_child id n pid parts :
    arena_get a id = Some n → parent n = Some pid → path_of a pid parts →
    path_of a id (parts ++ [name n]).
#[export] Hint Constructors path_of : ovl.

(** The parent links do not form a cycle: each goes down in some ranking. *)
Definition acyclic (a : NodeArena) : Prop :=
  ∃ rank : NodeId → nat, ∀ id n pid,
    arena_get a id = Some n → parent n = Some pid → (rank pid < rank id)%nat.

(** A new node is no one's parent yet. *)
Lemma acyclic_insert a n :
  acyclic a → (∀ id n', arena_get a id = Some n' → parent n' ≠ Some (next_id a)) →
  parent n ≠ Some (next_id a) → acyclic (arena_insert n a).2.
Proof.
  intros [rank Hr] Hun Hself.
  exists (λ id, if decide (id = next_id a) then S (default 0%nat (rank <$> parent n)) else rank id).
  intros id n' pid. unfold arena_get, arena_insert. simpl.
  rewrite lookup_insert_Some. intros [[<- <-]|[Hne Hn']] Hp; (destruct (decide (pid = next_id a)) as [->|]).
  - by destruct Hself.
  - rewrite decide_True by done. rewrite Hp. simpl. lia.
  - by destruct (Hun _ _ Hn').
  - rewrite decide_False by done. by eapply Hr.
Qed.

Lemma path_parts_path_of fuel a id parts :
  path_parts fuel a id = Some parts → path_of a id parts.
Proof.
  revert id parts. induction fuel as [|fuel IH]; intros id parts; simpl;
    (destruct (arena_get a id) as [n|] eqn:Hid; [|intros [= <-]; eauto with ovl]);
    (destruct (parent n) as [pid|] eqn:Hp; [|intros [= <-]; eauto with ovl]); [done|].
  destruct (path_parts fuel a pid) as [ps|] eqn:Hps; simpl; [|done].
  intros [= <-]. eauto with ovl.
Qed.

Lemma path_of_det a id ps ps' : path_of a id ps → path_of a id ps' → ps = ps'.
Proof.
  intros H. revert ps'. induction H; inversion 1; simplify_eq; auto. f_equal. auto.
Qed.

(** The nodes met so far, [seen], rank above [id]; [fuel] covers the others. *)
Lemma path_parts_enough rank a fuel id (seen : gset NodeId) :
  (∀ id n pid, arena_get a id = Some n → parent n = Some pid → (rank pid < rank id)%nat) →
  seen ⊆ dom (arena_map a) → (∀ x, x ∈ seen → (rank id < rank x)%nat) →
  (size (arena_map a) ≤ fuel + size seen)%nat → is_Some (path_parts fuel a id).
Proof.
  intros Hr. revert id seen. induction fuel as [|fuel IH]; intros id seen Hsub Hseen Hsz; simpl;
    (destruct (arena_get a id) as [n|] eqn:Hid; [|done]);
    (destruct (parent n) as [pid|] eqn:Hp; [|done]).
  all: assert (id ∉ seen) as Hnew by (intros ?%Hseen; lia).
  all: assert ({[id]} ∪ seen ⊆ dom (arena_map a)) as Hsub'
    by (apply union_subseteq; split; [|done]; by apply singleton_subseteq_l, elem_of_dom).
  all: assert (size ({[id]} ∪ seen) = S (size seen)) as Hsz'
    by (rewrite size_union, size_singleton by set_solver; lia).
  - apply subseteq_size in Hsub'. rewrite size_dom in Hsub'. lia.
  - destruct (IH pid ({[id]} ∪ seen)) as [ps ->]; [done| |lia|done].
    intros x [->%elem_of_singleton|Hx]%elem_of_union; [eauto|].
    pose proof (Hr _ _ _ Hid Hp). specialize (Hseen _ Hx). lia.
Qed.

Lemma path_parts_total a id : acyclic a → is_Some (path_parts (size (arena_map a)) a id).
Proof.
  intros [rank Hr]. apply (path_parts_enough rank _ _ _ ∅); [done|set_solver..|].
  rewrite size_empty. lia.
Qed.

Lemma path_of_parts a id ps :
  acyclic a → path_of a id ps → path_parts (size (arena_map a)) a id = Some ps.
Proof.
  intros [qs Hq]%(path_parts_total a id) Hps. rewrite Hq. f_equal.
  eapply path_of_det; [|done]. by eapply path_parts_path_of.
Qed.

Lemma compute_path_total_aux a id : acyclic a → is_Some (compute_path a id).
Proof.
  intros Ha. unfold compute_path. destruct (arena_get a id) as [n|]; [|done].
  destruct (parent n); [|done]. destruct (path_parts_total a id Ha) as [ps ->]. done.
Qed.

(** C26. [compute_path] ends on every tree (its walk visits each node at most
    once), and gives the names from below the root down to the node joined
    with slashes, ["."] for the root itself and the empty path for a node that
    is gone.  The path is the walk's, whatever the arena holds besides. *)
Theorem compute_path_correct a id :
  acyclic a →
  ∃ ps, path_of a id ps ∧
    compute_path a id =
      Some (match arena_get a id with
            | Some n => if is_Some_b (parent n) then join SLASH ps else bs "."
            | None => []
            end).
Proof.
  intros Ha. destruct (path_parts_total a id Ha) as [ps Hps].
  exists ps. split; [by eapply path_parts_path_of|]. unfold compute_path.
  destruct (arena_get a id) as [n|]; [|done]. destruct (parent n); simpl; [|done].
  by rewrite Hps.
Qed.

Definition ex_arena : NodeArena :=
  let root := OvlNode_new (bs ".") 0 1 7 true in
  let d := set_parent (Some 1) (OvlNode_new (bs "d") 1 20 7 true) in
  let f := set_parent (Some 2) (OvlNode_new (bs "f") 1 30 7 false) in
  (arena_insert f (arena_insert d (arena_insert root NodeArena_new).2).2).2.

Lemma ex_arena_acyclic : acyclic ex_arena.
Proof.
  exists (λ i, Z.to_nat i). intros id n pid Hid Hp.
  assert (id = 1 ∨ id = 2 ∨ id = 3) as [-> | [-> | ->]].
  { assert (id ∈ dom (arena_map ex_arena)) as Hd by (by apply elem_of_dom).
    change (arena_map ex_arena) with
      (<[3 := set_parent (Some 2) (OvlNode_new (bs "f") 1 30 7 false)]>
        (<[2 := set_parent (Some 1) (OvlNode_new (bs "d") 1 20 7 true)]>
          (<[1 := OvlNode_new (bs ".") 0 1 7 true]> (∅ : gmap NodeId OvlNode)))) in Hd.
    set_solver. }
  all: vm_compute in Hid; injection Hid as <-; vm_compute in Hp; simplify_eq; simpl; lia.
Qed.

Lemma compute_path_correct_witness :
  compute_path ex_arena 3 = Some (bs "d/f") ∧
  ∃ ps, path_of ex_arena 3 ps ∧ compute_path ex_arena 3 = Some (join SLASH ps).
Proof.
  split; [reflexivity|].
  destruct (compute_path_correct ex_arena 3 ex_arena_acyclic) as (ps & H1 & H2).
  exists ps. split; [exact H1|exact H2].
Defined.

(** ** The fallback counter *)

(** A number FUSE can use: neither 0 nor the root's 1. *)
Definition usable (f : Z) : Prop := 2 <= f < 2 ^ 64.

Lemma wrap_u64_succ n : 0 <= n < 2 ^ 64 →
  wrap_u64 (n + 1) = if n =? 2 ^ 64 - 1 then 0 else n + 1.
Proof.
  intros Hn. destruct (n =? 2 ^ 64 - 1) eqn:E; zbool.
  - by subst.
  - unfold wrap_u64. apply Z.mod_small. lia.
Qed.

Lemma bump_fallback_usable n : usable n → usable (bump_fallback n).
Proof.
  unfold usable, bump_fallback. intros Hn. rewrite wrap_u64_succ by lia.
  destruct (n =? 2 ^ 64 - 1) eqn:E; zbool; [simpl; lia|]. cbv zeta.
  destruct (n + 1 <=? 1) eqn:E'; zbool; lia.
Qed.

(** The counter cycles through the [2 ^ 64 - 2] usable numbers. *)
Lemma bump_fallback_mod n : usable n → bump_fallback n = 2 + (n - 2 + 1) mod (2 ^ 64 - 2).
Proof.
  unfold usable, bump_fallback. intros Hn. rewrite wrap_u64_succ by lia.
  destruct (n =? 2 ^ 64 - 1) eqn:E; zbool; [by subst|]. cbv zeta.
  rewrite Z.mod_small by lia. destruct (n + 1 <=? 1) eqn:E'; zbool; lia.
Qed.

Lemma bump_iter n k : usable n →
  Nat.iter k bump_fallback n = 2 + (n - 2 + Z.of_nat k) mod (2 ^ 64 - 2).
Proof.
  intros Hn. induction k as [|k IH].
  - change (n = 2 + (n - 2 + 0) mod (2 ^ 64 - 2)).
    unfold usable in Hn. rewrite Z.add_0_r, Z.mod_small by lia. lia.
  - change (Nat.iter (S k) bump_fallback n) with (bump_fallback (Nat.iter k bump_fallback n)).
    rewrite IH.
    pose proof (Z.mod_pos_bound (n - 2 + Z.of_nat k) (2 ^ 64 - 2) ltac:(lia)).
    rewrite bump_fallback_mod by (unfold usable; lia).
    rewrite Nat2Z.inj_succ. f_equal.
    replace (2 + (n - 2 + Z.of_nat k) mod (2 ^ 64 - 2) - 2 + 1)
      with ((n - 2 + Z.of_nat k) mod (2 ^ 64 - 2) + 1) by lia.
    rewrite Zplus_mod_idemp_l. f_equal. lia.
Qed.

Lemma bump_iter_inj n i j : usable n → Z.of_nat i < 2 ^ 64 - 2 → Z.of_nat j < 2 ^ 64 - 2 →
  Nat.iter i bump_fallback n = Nat.iter j bump_fallback n → i = j.
Proof.
  intros Hn Hi Hj. rewrite !bump_iter by done. intros Heq.
  assert ((n - 2 + Z.of_nat i) mod (2 ^ 64 - 2) = (n - 2 + Z.of_nat j) mod (2 ^ 64 - 2)) as Hm by lia.
  pose proof (Z.div_mod (n - 2 + Z.of_nat i) (2 ^ 64 - 2) ltac:(lia)).
  pose proof (Z.div_mod (n - 2 + Z.of_nat j) (2 ^ 64 - 2) ltac:(lia)).
  rewrite Hm in *. nia.
Qed.

Lemma bump_iter_usable n k : usable n → usable (Nat.iter k bump_fallback n).
Proof. intros Hn. induction k; [done|]. by apply bump_fallback_usable. Qed.

(** What the collision loop gives: a usable number no inode has. *)
Lemma resolve_collision_Some fuel fm f next f' next' :
  f < 2 ^ 64 → usable next →
  resolve_collision fuel fm f next = Some (f', next') →
  fm !! f' = None ∧ usable f' ∧ usable next' ∧ (fm !! f = None → 2 <= f → f' = f).
Proof.
  revert f next. induction fuel as [|fuel IH]; intros f next Hf Hn; simpl; case_match eqn:E; try done.
  - intros [= <- <-]. apply orb_false_iff in E as [E1 E2]. zbool.
    apply bool_decide_eq_false, eq_None_not_Some in E1. unfold usable. auto with lia.
  - intros H%IH; [|unfold usable in Hn; lia|by apply bump_fallback_usable].
    destruct H as (?&?&?&_). split_and!; try done. intros E0 H2. exfalso.
    rewrite E0 in E. rewrite bool_decide_eq_false_2 in E by (by intros []). simpl in E. zbool. lia.
  - intros [= <- <-]. apply orb_false_iff in E as [E1 E2]. zbool.
    apply bool_decide_eq_false, eq_None_not_Some in E1. unfold usable. auto with lia.
Qed.

Lemma resolve_collision_None fuel fm f next k :
  usable next → resolve_collision fuel fm f next = None → (k < fuel)%nat →
  is_Some (fm !! Nat.iter k bump_fallback next).
Proof.
  revert f next k. induction fuel as [|fuel IH]; intros f next k Hn; [lia|].
  cbn [resolve_collision]. case_match; [|done]. intros HNone Hk.
  destruct k as [|k].
  - destruct fuel; simpl in HNone; (case_match eqn:E; [|done]);
      apply orb_true_iff in E as [E|E]; zbool; try (by apply bool_decide_eq_true in E);
      unfold usable in Hn; lia.
  - rewrite Nat.iter_succ_r. apply (IH next); [by apply bump_fallback_usable|done|lia].
Qed.

(** With a free number left, the loop ends within the fuel it is given. *)
Lemma resolve_collision_ends fm f next :
  usable next → Z.of_nat (size fm) < 2 ^ 64 - 2 →
  is_Some (resolve_collision (S (S (size fm))) fm f next).
Proof.
  intros Hn Hsz. destruct (resolve_collision _ fm f next) as [r|] eqn:E; [done|exfalso].
  set (l := (λ k, Nat.iter k bump_fallback next) <$> seq 0 (S (size fm))).
  assert (NoDup l) as Hnd.
  { unfold l. apply NoDup_fmap_2_strong; [|apply NoDup_seq]. intros i j Hi Hj.
    rewrite elem_of_seq in *. apply bump_iter_inj; [done|lia..]. }
  assert ((list_to_set l : gset Z) ⊆ dom fm) as Hsub.
  { intros x Hx%elem_of_list_to_set. apply elem_of_dom.
    apply list_elem_of_fmap in Hx as (k & -> & Hk%elem_of_seq).
    eapply resolve_collision_None; [done..|lia]. }
  apply subseteq_size in Hsub. rewrite size_list_to_set, size_dom in Hsub by done.
  unfold l in Hsub. rewrite length_fmap, length_seq in Hsub. lia.
Qed.

(** ** The invariant of the inode table *)

Record wf_table (t : InodeTable) : Prop := {
  (* the two maps agree on what is in the table *)
  wf_back k o : table t !! k = Some o → fuse_map t !! fuse_ino o = Some k;
  (* no inode, live or awaiting its forget, has number 0 or 1 *)
  wf_used f k : fuse_map t !! f = Some k → usable f;
  wf_next : usable (next_fallback t);
  wf_stat : STAT_INODES t = wrap_u64 (Z.of_nat (size (table t)))
}.

Lemma wf_table_new : wf_table InodeTable_new.
Proof.
  split; simpl; [intros ??; by rewrite lookup_empty..|unfold usable; lia|].
  by rewrite map_size_empty.
Qed.

Lemma wrap_u64_add_wrap a b : wrap_u64 (wrap_u64 a + b) = wrap_u64 (a + b).
Proof. unfold wrap_u64. by rewrite Zplus_mod_idemp_l. Qed.
Lemma wrap_u64_sub_wrap a b : wrap_u64 (wrap_u64 a - b) = wrap_u64 (a - b).
Proof. unfold wrap_u64. by rewrite Zminus_mod_idemp_l. Qed.
Lemma wrap_u64_bounds z : 0 <= wrap_u64 z < 2 ^ 64.
Proof. unfold wrap_u64. apply Z.mod_pos_bound. lia. Qed.

(** An entry may be replaced by one with the same number. *)
Lemma wf_set_entry t k o o' :
  wf_table t → table t !! k = Some o → fuse_ino o' = fuse_ino o → wf_table (set_entry k o' t).
Proof.
  intros [Hb Hu Hn Hs] Ho Hf. split; simpl; [|done..|].
  - intros k' o''. destruct (decide (k = k')) as [<-|Hne].
    + rewrite lookup_insert_eq. intros [= <-]. rewrite Hf. by apply Hb.
    + rewrite lookup_insert_ne by done. apply Hb.
  - rewrite map_size_insert_Some by (by rewrite Ho). done.
Qed.

(** Removing an entry leaves its number as a tombstone. *)
Lemma wf_remove_entry t k : wf_table t → is_Some (table t !! k) → wf_table (remove_entry k t).
Proof.
  intros [Hb Hu Hn Hs] [o Ho]. split; simpl; [|done..|].
  - intros k' o' [_ ?]%lookup_delete_Some. by apply Hb.
  - rewrite Hs, wrap_u64_sub_wrap. rewrite map_size_delete_Some by done.
    f_equal. assert (size (table t) ≠ O); [|lia].
    intros He%map_size_empty_inv. by rewrite He, lookup_empty in Ho.
Qed.

(** A number no table entry has may be dropped. *)
Lemma wf_remove_fuse t f :
  wf_table t → (∀ k o, table t !! k = Some o → fuse_ino o ≠ f) → wf_table (remove_fuse f t).
Proof.
  intros [Hb Hu Hn Hs] Hf. split; simpl; [..|done|done].
  - intros k o Ho. rewrite lookup_delete_ne by (by apply not_eq_sym, Hf with k). by apply Hb.
  - intros f' k [_ ?]%lookup_delete_Some. by eapply Hu.
Qed.

(** ** What [register] gives *)

Lemma compute_fuse_ino_bound ino dev same :
  is_u64 ino → compute_fuse_ino ino dev same < 2 ^ 64.
Proof.
  unfold compute_fuse_ino, is_u64. intros Hi.
  set (h1 := Z.lxor ino _). set (h2 := wrap_u64 (h1 * _)).
  assert (0 <= h2 < 2 ^ 64) as H2 by apply wrap_u64_bounds.
  assert (Z.lxor h2 (Z.shiftr h2 32) < 2 ^ 64) as H3.
  { assert (0 <= Z.shiftr h2 32) by (apply Z.shiftr_nonneg; lia).
    assert (0 <= Z.lxor h2 (Z.shiftr h2 32)) by (apply Z.lxor_nonneg; lia).
    destruct (decide (Z.lxor h2 (Z.shiftr h2 32) = 0)) as [->|Hne]; [lia|].
    apply Z.log2_lt_pow2; [lia|].
    eapply Z.le_lt_trans; [apply Z.log2_lxor; lia|].
    assert (Z.log2 h2 < 64).
    { destruct (decide (h2 = 0)) as [->|]; [simpl; lia|]. apply Z.log2_lt_pow2; lia. }
    assert (Z.shiftr h2 32 <= h2).
    { rewrite Z.shiftr_div_pow2 by lia. apply Z.div_le_upper_bound; lia. }
    assert (Z.log2 (Z.shiftr h2 32) <= Z.log2 h2) by (apply Z.log2_le_mono; lia). lia. }
  cbv zeta. repeat case_match; zbool; lia.
Qed.

Lemma register_fresh_wf id key mode t r t' :
  wf_table t → is_u64 (key_ino key) → table t !! key = None →
  register_fresh id key mode t = Some (r, t') →
  wf_table t' ∧ ∃ f, r = Some f ∧ usable f ∧ fuse_map t !! f = None ∧
    key_to_fuse_ino t' key = Some f ∧ fuse_map t' = <[f := key]> (fuse_map t) ∧
    ∃ o, table t' = <[key := o]> (table t) ∧ fuse_ino o = f ∧ ino_nodes o = {[id]} ∧ lookups o = 0.
Proof.
  intros [Hb Hu Hn Hs] Hk Hnone. unfold register_fresh.
  destruct (resolve_collision _ _ _ _) as [[f next]|] eqn:E; simpl; [|done].
  intros [= <- <-].
  apply resolve_collision_Some in E as (Hfree & Hf & Hn' & _); [|by apply compute_fuse_ino_bound|done].
  split.
  - split; simpl; [..|done|].
    + intros k o. destruct (decide (key = k)) as [<-|Hne].
      * rewrite lookup_insert_eq. intros [= <-]. simpl. by rewrite lookup_insert_eq.
      * rewrite lookup_insert_ne by done. intros Ho%Hb.
        rewrite lookup_insert_ne; [done|]. congruence.
    + intros f' k. rewrite lookup_insert_Some. intros [[<- _]|[_ ?]]; [done|by eapply Hu].
    + rewrite map_size_insert_None by done. rewrite Hs, wrap_u64_add_wrap. f_equal. lia.
  - exists f. split_and!; try done.
    + unfold key_to_fuse_ino. simpl. by rewrite lookup_insert_eq.
    + eexists. split_and!; [done|done|done|done].
Qed.

Section register_lemmas.
Context `{HashOrder}.

Lemma find_duplicate_total a p ids : acyclic a → is_Some (find_duplicate a p ids).
Proof using.
  intros Ha. induction ids as [|id ids IH]; simpl; [done|].
  destruct (arena_get a id) as [n|]; [|done]. destruct (is_dir n); [done|].
  destruct (compute_path_total_aux a id Ha) as [q ->]. simpl. by case_bool_decide.
Qed.

(** The cases of [register]: a known inode with a live node, and the rest. *)
Lemma register_inv a id ino dev mode t r t' :
  let key := {| key_ino := ino; key_dev := dev |} in
  register a id ino dev mode t = Some (r, t') →
  (∃ o o', table t !! key = Some o ∧ fuse_ino o' = fuse_ino o ∧ lookups o' = lookups o ∧
     filter (λ i, contains_key a i = true) (ino_nodes o) ≠ ∅ ∧
     r = Some (fuse_ino o) ∧ t' = set_entry key o' t) ∨
  (∃ o o', table t !! key = Some o ∧ fuse_ino o' = fuse_ino o ∧
     filter (λ i, contains_key a i = true) (ino_nodes o) = ∅ ∧
     register_fresh id key mode (remove_entry key (set_entry key o' t)) = Some (r, t')) ∨
  (table t !! key = None ∧ register_fresh id key mode t = Some (r, t')).
Proof using.
  intros key. unfold register. fold key. destruct (table t !! key) as [o|] eqn:Ho; [|by right; right].
  case_bool_decide as Hlive.
  - intros Hr. right; left. eexists o, _. split_and!; [done| |done|exact Hr]. done.
  - destruct (compute_path a id) as [p|]; simpl; [|done].
    destruct (find_duplicate _ _ _) as [[|]|]; simpl; [..|done]; intros [= <- <-];
      left; eexists o, _; (split_and!; [done| | |done|done|done]); done.
Qed.

Lemma register_wf_aux a id ino dev mode t r t' :
  wf_table t → is_u64 ino → register a id ino dev mode t = Some (r, t') →
  wf_table t' ∧ ∃ f, r = Some f ∧ usable f ∧
    key_to_fuse_ino t' {| key_ino := ino; key_dev := dev |} = Some f.
Proof using.
  intros Hwf Hi [(o & o' & Ho & Hf & _ & _ & -> & ->)|[(o & o' & Ho & Hf & _ & Hr)|[Ho Hr]]]%register_inv.
  - split; [by eapply wf_set_entry|]. exists (fuse_ino o). split_and!; [done| |].
    + by eapply wf_used, wf_back.
    + unfold key_to_fuse_ino. simpl. rewrite lookup_insert_eq. simpl. by rewrite Hf.
  - apply register_fresh_wf in Hr as [? (f & ? & ? & _ & ? & _)]; [by eauto 10|..|done|].
    + apply wf_remove_entry; [by eapply wf_set_entry|]. simpl. by rewrite lookup_insert_eq.
    + simpl. by rewrite lookup_delete_eq.
  - apply register_fresh_wf in Hr as [? (f & ? & ? & _ & ? & _)]; [by eauto 10|done..].
Qed.

Lemma register_total_aux a id ino dev mode t :
  wf_table t → acyclic a → Z.of_nat (size (fuse_map t)) < 2 ^ 64 - 2 →
  is_Some (register a id ino dev mode t).
Proof using.
  intros [_ _ Hn _] Ha Hsz. unfold register.
  assert (∀ key t0, fuse_map t0 = fuse_map t → next_fallback t0 = next_fallback t →
    is_Some (register_fresh id key mode t0)) as Hfresh.
  { intros key t0 Hf Hn0. unfold register_fresh. rewrite Hf, Hn0.
    destruct (resolve_collision_ends (fuse_map t)
      (compute_fuse_ino (key_ino key) (key_dev key) (same_device t0)) _ Hn Hsz) as [[] ->]. done. }
  destruct (table t !! _) as [o|]; [|by apply Hfresh].
  case_bool_decide; [by apply Hfresh|].
  destruct (compute_path_total_aux a id Ha) as [p ->]. simpl.
  destruct (find_duplicate_total a p (hash_order (filter (λ i, contains_key a i = true) (ino_nodes o))) Ha)
    as [[] ->]; done.
Qed.
End register_lemmas.

(** ** The life of an inode number *)

(** The operations the overlay performs on its inode table, with any arena. *)
Inductive table_step `{HashOrder} : InodeTable → InodeTable → Prop :=
| step_register a id ino dev mode t r t' :
    is_u64 ino → register a id ino dev mode t = Some (r, t') → table_step t t'
| step_remove_node key id t : table_step t (remove_node_id key id t)
| step_inc_lookup key t : table_step t (inc_lookup key t)
| step_forget f n t : table_step t (forget f n t).2
| step_set_same_device b t : table_step t (set_same_device b t).

Lemma forget_wf f n t : wf_table t → wf_table (forget f n t).2.
Proof.
  intros Hwf. unfold forget. destruct ((f =? 1) || (f =? 0)); [done|].
  destruct (fuse_map t !! f) as [key|] eqn:Hf; [|done].
  destruct (table t !! key) as [o|] eqn:Ho; simpl.
  - destruct (fuse_ino o =? f) eqn:Hof; simpl; zbool.
    + set (t' := set_entry key _ t).
      assert (wf_table t') as Hwf' by (by eapply wf_set_entry).
      destruct (_ <=? 0); simpl; [|done].
      assert (wf_table (remove_entry key t')) as Hwf''.
      { apply wf_remove_entry; [done|]. simpl. by rewrite lookup_insert_eq. }
      apply (wf_remove_fuse (remove_entry key t') f); [done|].
      intros k o' Ho' Hfo. apply (wf_back _ Hwf'') in Ho' as Hb. simpl in Hb.
      rewrite Hfo, Hf in Hb. simplify_eq. simpl in Ho'. by rewrite lookup_delete_eq in Ho'.
    + apply wf_remove_fuse; [done|]. intros k o' Ho' <-.
      rewrite (wf_back _ Hwf _ _ Ho') in Hf. congruence.
  - apply wf_remove_fuse; [done|]. intros k o' Ho' <-.
    rewrite (wf_back _ Hwf _ _ Ho') in Hf. congruence.
Qed.

Lemma table_step_wf `{HashOrder} t t' : table_step t t' → wf_table t → wf_table t'.
Proof.
  destruct 1 as [a id ino dev mode t r t' Hi Hr|key id t|key t|f n t|b t]; intros Hwf.
  - by eapply register_wf_aux.
  - unfold remove_node_id. destruct (table t !! key) eqn:Ho; [|done]. by eapply wf_set_entry.
  - unfold inc_lookup. destruct (table t !! key) eqn:Ho; [|done]. by eapply wf_set_entry.
  - by apply forget_wf.
  - by destruct Hwf.
Qed.

Lemma reachable_wf_aux `{HashOrder} t : rtc table_step InodeTable_new t → wf_table t.
Proof.
  cut (∀ t0, rtc table_step t0 t → wf_table t0 → wf_table t); [eauto using wf_table_new|].
  induction 1 as [|t1 t2 t3 Hs _ IH]; [done|]. intros Hwf. by eapply IH, table_step_wf.
Qed.

Lemma key_to_fuse_ino_Some t k f :
  key_to_fuse_ino t k = Some f ↔ ∃ o, table t !! k = Some o ∧ fuse_ino o = f.
Proof. unfold key_to_fuse_ino. rewrite fmap_Some. naive_solver. Qed.

(** C22. In every inode table the overlay can reach, a FUSE inode number
    belongs to one (ino, dev) pair only, is not 0 or the root's 1, and leads
    back to the inode it was given for, also after numbers collided and after
    inodes were recycled and forgotten. *)
Theorem reachable_fuse_ino_unique `{HashOrder} t k1 f :
  rtc table_step InodeTable_new t → key_to_fuse_ino t k1 = Some f →
  2 <= f < 2 ^ 64 ∧
  (∀ k2, key_to_fuse_ino t k2 = Some f → k2 = k1) ∧
  ∃ o, fuse_to_ino t f = Some o ∧ get_by_key t k1 = Some o.
Proof.
  intros Hwf%reachable_wf_aux (o & Ho & <-)%key_to_fuse_ino_Some.
  pose proof (wf_back _ Hwf _ _ Ho) as Hb. split_and!.
  - by apply (wf_used _ Hwf _ _ Hb).
  - by apply (wf_used _ Hwf _ _ Hb).
  - intros k2 (o2 & Ho2 & Heq)%key_to_fuse_ino_Some. apply (wf_back _ Hwf) in Ho2. congruence.
  - exists o. unfold fuse_to_ino, get_by_key. by rewrite Hb.
Qed.

#[local] Instance HashOrder_elements : HashOrder := {| hash_order := elements; hash_order_perm _ := reflexivity _ |}.

(** Two devices with the same inode number 30: the second gets another number. *)
Definition ex_table : InodeTable :=
  match register ex_arena 3 30 7 S_IFREG InodeTable_new with
  | Some (_, t1) => match register ex_arena 2 30 8 S_IFDIR t1 with
                    | Some (_, t2) => inc_lookup {| key_ino := 30; key_dev := 7 |} t2
                    | None => InodeTable_new
                    end
  | None => InodeTable_new
  end.

Lemma reachable_fuse_ino_unique_witness :
  key_to_fuse_ino ex_table {| key_ino := 30; key_dev := 8 |} = Some (2 ^ 63) ∧
  ∀ k2, key_to_fuse_ino ex_table k2 = Some (2 ^ 63) → k2 = {| key_ino := 30; key_dev := 8 |}.
Proof.
  assert (key_to_fuse_ino ex_table {| key_ino := 30; key_dev := 8 |} = Some (2 ^ 63)) as Hk
    by (vm_compute; reflexivity).
  split; [exact Hk|].
  apply (reachable_fuse_ino_unique ex_table {| key_ino := 30; key_dev := 8 |} (2 ^ 63)); [|exact Hk].
  eapply rtc_l; [eapply (step_register ex_arena 3 30 7 S_IFREG); [split; lia|vm_compute; reflexivity]|].
  eapply rtc_l; [eapply (step_register ex_arena 2 30 8 S_IFDIR); [split; lia|vm_compute; reflexivity]|].
  eapply rtc_l; [apply (step_inc_lookup {| key_ino := 30; key_dev := 7 |})|].
  vm_compute. apply rtc_refl.
Defined.

(** C24. [register] always ends and gives a number: the collision loop finds a
    free number within the fuel of one try per number in use, on every table
    the overlay can reach with fewer than [2 ^ 64 - 2] numbers in use, whatever
    the fallback counter's position, also across its wrap-around. *)
Theorem register_total `{HashOrder} a id ino dev mode t :
  rtc table_step InodeTable_new t → acyclic a → is_u64 ino →
  Z.of_nat (size (fuse_map t)) < 2 ^ 64 - 2 →
  ∃ f t', register a id ino dev mode t = Some (Some f, t') ∧
    key_to_fuse_ino t' {| key_ino := ino; key_dev := dev |} = Some f.
Proof.
  intros Hwf%reachable_wf_aux Ha Hi Hsz.
  destruct (register_total_aux a id ino dev mode t Hwf Ha Hsz) as [[r t'] Hr].
  destruct (register_wf_aux _ _ _ _ _ _ _ _ Hwf Hi Hr) as [_ (f & -> & _ & Hk)]. eauto.
Qed.

Lemma register_total_witness :
  ∃ f t', register ex_arena 3 1 7 S_IFREG InodeTable_new = Some (Some f, t') ∧
    key_to_fuse_ino t' {| key_ino := 1; key_dev := 7 |} = Some f.
Proof.
  apply (register_total ex_arena 3 1 7 S_IFREG InodeTable_new);
    [apply rtc_refl|exact ex_arena_acyclic|split; lia|vm_compute; reflexivity].
Defined.

(** A node of the inode is in the arena. *)
Definition alive (a : NodeArena) (o : OvlIno) : Prop := ∃ i, i ∈ ino_nodes o ∧ contains_key a i = true.

Lemma alive_filter a o : filter (λ i, contains_key a i = true) (ino_nodes o) ≠ ∅ ↔ alive a o.
Proof.
  split.
  - intros [i [Hc Hi]%elem_of_filter]%set_choose_L. by exists i.
  - intros (i & Hi & Hc) E. eapply (not_elem_of_empty (C := gset NodeId) i). rewrite <-E. by apply elem_of_filter.
Qed.

Lemma fresh_number id key mode t r t' :
  wf_table t → is_u64 (key_ino key) → table t !! key = None → register_fresh id key mode t = Some (r, t') →
  ∃ f o', r = Some f ∧ usable f ∧ fuse_map t !! f = None ∧ table t' = <[key := o']> (table t) ∧ fuse_ino o' = f ∧
    lookups o' = 0 ∧ ino_nodes o' = {[id]} ∧ fuse_map t' = <[f := key]> (fuse_map t).
Proof.
  intros Hwf Hi Hno Hr. apply register_fresh_wf in Hr as (_ & f & -> & Hu & Hfree & _ & Hfm & o & Ht & Hf & Hn & Hl); [|done..].
  exists f, o. by split_and!.
Qed.

(** C23. Numbers are stable and are not reused.  In a table reached by registering,
    counting and forgetting: while one of an inode's nodes is in the arena,
    registering its (ino, dev) again gives the number it has and keeps its lookup
    count and all numbers.  Otherwise, when the pair is new or all nodes of it are
    gone (the file system has recycled it), the inode gets a number that is not 0
    or 1, that no inode of the table has, and that the kernel has forgotten if it
    ever had it; its lookup count is 0, and a number the pair had before stays
    taken.  No other entry of the table changes. *)
Theorem register_stable_or_fresh `{HashOrder} a id ino dev mode t f t' :
  let key := {| key_ino := ino; key_dev := dev |} in
  rtc table_step InodeTable_new t → is_u64 ino → register a id ino dev mode t = Some (Some f, t') →
  (∀ k, k ≠ key → table t' !! k = table t !! k) ∧
  ∃ o', table t' !! key = Some o' ∧ fuse_ino o' = f ∧
    ((∃ o, table t !! key = Some o ∧ alive a o ∧ f = fuse_ino o ∧ lookups o' = lookups o ∧ fuse_map t' = fuse_map t) ∨
     ((∀ o, table t !! key = Some o → ¬ alive a o) ∧
      usable f ∧ fuse_map t !! f = None ∧ (∀ k o, table t !! k = Some o → fuse_ino o ≠ f) ∧
      lookups o' = 0 ∧ ino_nodes o' = {[id]} ∧ fuse_map t' = <[f := key]> (fuse_map t))).
Proof.
  intros key Hwf%reachable_wf_aux Hi.
  assert (fuse_map t !! f = None → ∀ k o, table t !! k = Some o → fuse_ino o ≠ f) as Hnew.
  { intros Hf k o Ho E. apply (wf_back _ Hwf) in Ho. congruence. }
  intros [(o & o' & Ho & Hf & Hl & Hlive & [= Hr] & ->)|[(o & o' & Ho & Hf & Hdead & Hr)|[Ho Hr]]]%register_inv;
    (change (table t !! key = Some o) in Ho || change (table t !! key = None) in Ho).
  - split; [intros k Hk; apply lookup_insert_ne, not_eq_sym, Hk|]. exists o'. split; [apply lookup_insert_eq|].
    split; [by rewrite Hr|]. left. exists o. split_and!; [done|by apply alive_filter|done..].
  - apply fresh_number in Hr as (f' & o1 & [= <-] & Hu & Hfree & Ht & Hf1 & Hl & Hn & Hfm);
      [|apply wf_remove_entry; [by eapply wf_set_entry|simpl; by rewrite lookup_insert_eq]|done|simpl; by rewrite lookup_delete_eq].
    simpl in Hfree, Hfm, Ht. rewrite Ht. split.
    + intros k Hk. by rewrite lookup_insert_ne, lookup_delete_ne, lookup_insert_ne.
    + exists o1. rewrite lookup_insert_eq. split_and!; [done|done|]. right. split_and!; try done; [|by apply Hnew].
      intros o2 Ho2. rewrite Ho in Ho2. injection Ho2 as <-. rewrite <-alive_filter. by intros [].
  - apply fresh_number in Hr as (f' & o1 & [= <-] & Hu & Hfree & Ht & Hf1 & Hl & Hn & Hfm); [|done..].
    rewrite Ht. split; [intros k Hk; by apply lookup_insert_ne|].
    exists o1. rewrite lookup_insert_eq. split_and!; [done|done|]. right. split_and!; try done; [|by apply Hnew]. congruence.
Qed.

Lemma register_stable_or_fresh_witness :
  ∃ o', table (inc_lookup {| key_ino := 30; key_dev := 7 |} ex_table) !!
          {| key_ino := 30; key_dev := 7 |} = Some o' ∧
  (* the node is gone from an empty arena: a different number *)
  ∃ f t', register NodeArena_new 9 30 7 S_IFREG ex_table = Some (Some f, t') ∧ f ≠ 30 ∧
    fuse_map t' !! 30 = Some {| key_ino := 30; key_dev := 7 |}.
Proof.
  eexists. split; [vm_compute; reflexivity|].
  destruct (register NodeArena_new 9 30 7 S_IFREG ex_table) as [[[f|] t']|] eqn:Hr;
    [|vm_compute in Hr; discriminate..].
  exists f, t'. split; [reflexivity|].
  assert (rtc table_step InodeTable_new ex_table) as Hreach.
  { eapply rtc_l; [eapply (step_register ex_arena 3 30 7 S_IFREG); [split; lia|vm_compute; reflexivity]|].
    eapply rtc_l; [eapply (step_register ex_arena 2 30 8 S_IFDIR); [split; lia|vm_compute; reflexivity]|].
    eapply rtc_l; [apply (step_inc_lookup {| key_ino := 30; key_dev := 7 |})|].
    vm_compute. apply rtc_refl. }
  destruct (register_stable_or_fresh NodeArena_new 9 30 7 S_IFREG ex_table f t' Hreach ltac:(split; lia) Hr)
    as (_ & o' & _ & _ & [(o & _ & (i & _ & Hi) & _)|(_ & _ & Hfree & _ & _ & _ & Hfm)]).
  - vm_compute in Hi. discriminate.
  - assert (f ≠ 30) as Hne by (intros ->; vm_compute in Hfree; discriminate).
    split; [exact Hne|]. rewrite Hfm, lookup_insert_ne by exact Hne. vm_compute. reflexivity.
Defined.

(** Forget [f] once for every number of the list. *)
Definition forgets (f : Z) (ns : list Z) (t : InodeTable) : InodeTable :=
  foldl (λ t n, (forget f n t).2) t ns.

Lemma forgets_unknown f ns t : fuse_map t !! f = None → forgets f ns t = t.
Proof.
  intros Hf. induction ns as [|n ns IH]; [done|]. unfold forgets in *. simpl.
  replace (forget f n t).2 with t; [done|].
  unfold forget. rewrite Hf. by destruct (_ || _).
Qed.

Lemma wrap_i64_small z : - 2 ^ 63 <= z < 2 ^ 63 → wrap_i64 z = z.
Proof. intros. by apply wrap_i64_id. Qed.

Lemma set_lookups_idem n m o : set_lookups n (set_lookups m o) = set_lookups n o.
Proof. done. Qed.

(** C25. The lookup count is a reference count: the forgets of an inode may come
    in any number of parts, and the inode and its number are kept until their
    sum reaches the count, and both are gone (the number free again) from then
    on; no other inode is touched. *)
Theorem forget_counts f ns t key o :
  wf_table t → table t !! key = Some o → fuse_ino o = f →
  0 < lookups o < 2 ^ 63 → Forall (λ n, 0 <= n) ns → foldr Z.add 0 ns <= lookups o →
  let t' := forgets f ns t in
  (if foldr Z.add 0 ns =? lookups o
   then table t' !! key = None ∧ fuse_map t' !! f = None
   else table t' !! key = Some (set_lookups (lookups o - foldr Z.add 0 ns) o) ∧
        fuse_map t' !! f = Some key) ∧
  ∀ key', key' ≠ key → table t' !! key' = table t !! key'.
Proof.
  intros Hwf Ho Hf Hl Hns. revert t o Hwf Ho Hf Hl.
  induction Hns as [|n ns Hn Hns IH]; intros t o Hwf Ho Hf Hl Hsum; cbn [foldr].
  - rewrite (proj2 (Z.eqb_neq _ _)) by lia. split; [|done].
    rewrite Z.sub_0_r. split; [by destruct o|]. subst f. by apply Hwf.
  - simpl in Hsum. assert (0 <= foldr Z.add 0 ns) as Hpos by (clear -Hns; induction Hns; simpl; lia).
    pose proof (wf_back _ Hwf _ _ Ho) as Hb. rewrite Hf in Hb.
    pose proof (wf_used _ Hwf _ _ Hb) as [Hf2 _].
    change (forgets f (n :: ns) t) with (forgets f ns (forget f n t).2).
    assert ((forget f n t).2 =
      if lookups o - n <=? 0
      then remove_entry key (remove_fuse f (set_entry key (set_lookups (lookups o - n) o) t))
      else set_entry key (set_lookups (lookups o - n) o) t) as ->.
    { unfold forget. rewrite (proj2 (Z.eqb_neq f 1)), (proj2 (Z.eqb_neq f 0)) by lia.
      simpl. rewrite Hb, Ho, Hf, Z.eqb_refl. simpl. rewrite (wrap_i64_small n) by lia.
      rewrite wrap_i64_small by lia. by destruct (_ <=? 0). }
    destruct (lookups o - n <=? 0) eqn:E; zbool.
    + assert (n = lookups o ∧ foldr Z.add 0 ns = 0) as [-> Hz] by lia.
      rewrite Hz, Z.add_0_r, Z.eqb_refl, forgets_unknown by (simpl; by rewrite lookup_delete_eq).
      simpl. rewrite !lookup_delete_eq. split; [done|].
      intros key' Hne. by rewrite lookup_delete_ne, lookup_insert_ne.
    + destruct (IH (set_entry key (set_lookups (lookups o - n) o) t) (set_lookups (lookups o - n) o))
        as [H1 H2]; [by eapply wf_set_entry|simpl; by rewrite lookup_insert_eq|done|simpl; lia|simpl; lia|].
      split.
      * simpl in H1. replace (n + foldr Z.add 0 ns =? lookups o) with
          (foldr Z.add 0 ns =? lookups o - n) by (destruct (Z.eqb_spec (foldr Z.add 0 ns) (lookups o - n)), (Z.eqb_spec (n + foldr Z.add 0 ns) (lookups o)); lia).
        destruct (_ =? _); [done|]. rewrite set_lookups_idem in H1. destruct H1 as [-> ?].
        split; [|done]. do 2 f_equal. lia.
      * intros key' Hne. rewrite H2 by done. simpl. by rewrite lookup_insert_ne.
Qed.

Lemma forget_counts_witness :
  let t := inc_lookup {| key_ino := 30; key_dev := 7 |} ex_table in
  table (forgets 30 [1] t) !! {| key_ino := 30; key_dev := 7 |} ≠ None ∧
  table (forgets 30 [1; 1] t) !! {| key_ino := 30; key_dev := 7 |} = None.
Proof.
  intros t.
  assert (wf_table t) as Hwf.
  { apply (reachable_wf_aux (H := HashOrder_elements)).
    eapply rtc_l; [eapply (step_register ex_arena 3 30 7 S_IFREG); [split; lia|vm_compute; reflexivity]|].
    eapply rtc_l; [eapply (step_register ex_arena 2 30 8 S_IFDIR); [split; lia|vm_compute; reflexivity]|].
    eapply rtc_l; [apply (step_inc_lookup {| key_ino := 30; key_dev := 7 |})|].
    eapply rtc_l; [apply (step_inc_lookup {| key_ino := 30; key_dev := 7 |})|].
    vm_compute. apply rtc_refl. }
  assert (∃ o, table t !! {| key_ino := 30; key_dev := 7 |} = Some o ∧ fuse_ino o = 30 ∧ lookups o = 2)
    as (o & Ho & Hf & Hl) by (eexists; vm_compute; done).
  split.
  - destruct (forget_counts 30 [1] t _ o Hwf Ho Hf) as [H _];
      [rewrite Hl; lia|repeat constructor; lia|rewrite Hl; simpl; lia|].
    rewrite Hl in H. destruct H as [H _]. rewrite H. discriminate.
  - destruct (forget_counts 30 [1; 1] t _ o Hwf Ho Hf) as [H _];
      [rewrite Hl; lia|repeat constructor; lia|rewrite Hl; simpl; lia|].
    rewrite Hl in H. destruct H as [H _]. exact H.
Defined.
