(* ===== verification/Tree.v ===== *)
(** * The tree and its inode numbers, as long as the mount lives

    What the operations on the arena and on the inode table keep: the parent
    links have no cycle and every id is below the next one; and every number in
    use was given to a node of its own, so that there are never more numbers
    than nodes were made, and [register] finds one. *)

From S2P Require Import Prelude Libc Node.
Local Open Scope Z_scope.

Definition own_key (n : OvlNode) : InodeKey := {| key_ino := tmp_ino n; key_dev := tmp_dev n |}.

(** [a'] has nodes of [a], perhaps detached from their parents. *)
Definition sub_tree (a a' : NodeArena) : Prop :=
  next_id a' = next_id a ∧
  ∀ id n', arena_get a' id = Some n' → ∃ n, arena_get a id = Some n ∧ own_key n' = own_key n ∧
    (parent n' = parent n ∨ parent n' = None).

Lemma sub_tree_refl a : sub_tree a a.
Proof. split; [done|]. intros id n Hn. eauto. Qed.
Lemma sub_tree_trans a1 a2 a3 : sub_tree a1 a2 → sub_tree a2 a3 → sub_tree a1 a3.
Proof.
  intros [E1 H1] [E2 H2]. split; [congruence|]. intros id n (n2 & Hn2 & K2 & P2)%H2.
  destruct (H1 _ _ Hn2) as (n1 & Hn1 & K1 & P1). exists n1. split_and!; [done|congruence|].
  destruct P2 as [->| ->]; [done|by right].
Qed.

(** An update of a node that keeps its inode and moves it nowhere. *)
Definition stays (f : OvlNode → OvlNode) : Prop :=
  ∀ n, own_key (f n) = own_key n ∧ (parent (f n) = parent n ∨ parent (f n) = None).

Lemma sub_tree_alter a f id : stays f → sub_tree a (arena_alter f id a).
Proof.
  intros Hf. split; [done|]. unfold arena_get, arena_alter. cbn. intros i n' Hi.
  destruct (decide (i = id)) as [->|Hne].
  - rewrite lookup_alter_eq in Hi. apply fmap_Some in Hi as (n & Hn & ->). exists n. by destruct (Hf n).
  - rewrite lookup_alter_ne in Hi by done. eauto.
Qed.
Lemma sub_tree_remove a id : sub_tree a (arena_remove id a).2.
Proof.
  split; [done|]. unfold arena_get, arena_remove. cbn. intros i n' [_ Hi]%lookup_delete_Some. eauto.
Qed.

(** The updates of nodes. *)
Lemma stays_id f : (∀ n, own_key (f n) = own_key n ∧ parent (f n) = parent n) → stays f.
Proof. intros Hf n. destruct (Hf n) as [? ->]. split; [done|by left]. Qed.
Lemma stays_comp f f' : stays f → stays f' → stays (λ n, f' (f n)).
Proof.
  intros Hf Hf' n. destruct (Hf n) as [K P], (Hf' (f n)) as [K' P']. split; [congruence|].
  destruct P' as [->| ->]; [done|by right].
Qed.
Ltac stays := intros n; split; [|left]; unfold mark_unloaded, mark_loaded, insert_child, remove_child,
  insert_whiteout, clear_children; by destruct (dir_state n).
Lemma stays_set_layer i : stays (set_layer_idx i). Proof. stays. Qed.
Lemma stays_set_last_layer i : stays (set_last_layer_idx i). Proof. stays. Qed.
Lemma stays_mark_loaded : stays mark_loaded. Proof. stays. Qed.
Lemma stays_mark_unloaded : stays mark_unloaded. Proof. stays. Qed.
Lemma stays_clear_children : stays clear_children. Proof. stays. Qed.
Lemma stays_insert_whiteout nm : stays (insert_whiteout nm). Proof. stays. Qed.
Lemma stays_insert_child nm id : stays (λ p, (insert_child nm id p).2). Proof. stays. Qed.
Lemma stays_remove_child nm : stays (λ p, (remove_child nm p).2). Proof. stays. Qed.
Lemma stays_detach : stays (set_parent None). Proof. intros n. split; [done|by right]. Qed.
#[export] Hint Resolve stays_set_layer stays_set_last_layer stays_mark_loaded stays_mark_unloaded stays_clear_children
  stays_insert_whiteout stays_insert_child stays_remove_child stays_detach stays_comp : ovl.

(** ** The tree *)

Record tree_ok (a : NodeArena) : Prop := {
  tree_acyclic : acyclic a;
  tree_next : 0 < next_id a;
  tree_ids id n : arena_get a id = Some n → 0 < id < next_id a;
  tree_parent id n p : arena_get a id = Some n → parent n = Some p → 0 < p < next_id a;
  tree_ino id n : arena_get a id = Some n → is_u64 (tmp_ino n)
}.

Lemma tree_sub a a' : sub_tree a a' → tree_ok a → tree_ok a'.
Proof.
  intros [E Hsub] [[rank Hr] Hnx Hid Hp Hino]. split; rewrite ?E; [|done|..].
  - exists rank. intros id n' pid (n & Hn & _ & [E'|E'])%Hsub Hpid; rewrite E' in Hpid; [|done]. by eapply Hr.
  - intros id n' (n & Hn & _)%Hsub. by eapply Hid.
  - intros id n' p (n & Hn & _ & [E'|E'])%Hsub Hpid; rewrite E' in Hpid; [|done]. by eapply Hp.
  - intros id n' (n & Hn & K & _)%Hsub. injection K as -> _. by eapply Hino.
Qed.

Lemma tree_insert a n :
  tree_ok a → next_id a + 1 < 2 ^ 64 → is_u64 (tmp_ino n) →
  (∀ p, parent n = Some p → 0 < p < next_id a) →
  tree_ok (arena_insert n a).2 ∧ next_id (arena_insert n a).2 = next_id a + 1.
Proof.
  intros [Hac Hnx Hid Hp Hino] Hlim Hu Hpar.
  assert (wrap_u64 (next_id a + 1) = next_id a + 1) as E by (unfold wrap_u64; apply Z.mod_small; lia).
  split; [|exact E]. split; cbn [arena_insert snd next_id]; rewrite ?E.
  - apply acyclic_insert; [done| |].
    + intros id n' Hn' Hpn. specialize (Hp _ _ _ Hn' Hpn). lia.
    + intros Hpn. specialize (Hpar _ Hpn). lia.
  - lia.
  - intros id n'. unfold arena_get. cbn. rewrite lookup_insert_Some. intros [[<- _]|[_ H]]; [lia|].
    specialize (Hid _ _ H). lia.
  - intros id n' p. unfold arena_get. cbn. rewrite lookup_insert_Some. intros [[_ <-]|[_ H]] Hpn.
    + specialize (Hpar _ Hpn). lia.
    + specialize (Hp _ _ _ H Hpn). lia.
  - intros id n'. unfold arena_get. cbn. rewrite lookup_insert_Some. intros [[_ <-]|[_ H]]; [done|eauto].
Qed.

Lemma tree_new n : parent n = None → is_u64 (tmp_ino n) → tree_ok (arena_insert n NodeArena_new).2.
Proof.
  intros Hp Hu. assert (tree_ok NodeArena_new) as H0.
  { split; try done. by exists (λ _, 0%nat). }
  apply tree_insert; [done|done|done|]. by rewrite Hp.
Qed.

(** ** The inode table of a tree *)

(** Every number in use belongs to a node; as long as that node is there, it is
    one of the nodes of its inode. *)
Definition fits (a : NodeArena) (t : InodeTable) : Prop :=
  ∃ owner : Z → NodeId,
    (∀ f k, fuse_map t !! f = Some k → 0 < owner f < next_id a) ∧
    (∀ f f' k k', fuse_map t !! f = Some k → fuse_map t !! f' = Some k' → owner f = owner f' → f = f') ∧
    (∀ f k n, fuse_map t !! f = Some k → arena_get a (owner f) = Some n →
       own_key n = k ∧ ∃ o, table t !! k = Some o ∧ fuse_ino o = f ∧ owner f ∈ ino_nodes o).

Definition table_ok (a : NodeArena) (t : InodeTable) : Prop := wf_table t ∧ fits a t.

Lemma fits_sub a a' t : sub_tree a a' → fits a t → fits a' t.
Proof.
  intros [E Hsub] (owner & H1 & H2 & H3). exists owner. rewrite E. split_and!; [done..|].
  intros f k n' Hf (n & Hn & -> & _)%Hsub. by apply H3.
Qed.
Lemma table_sub a a' t : sub_tree a a' → table_ok a t → table_ok a' t.
Proof. intros Hs [? ?]. split; [done|by eapply fits_sub]. Qed.

Lemma table_insert a n t : next_id a + 1 < 2 ^ 64 → 0 < next_id a → table_ok a t → table_ok (arena_insert n a).2 t.
Proof.
  intros Hlim Hpos [Hwf (owner & H1 & H2 & H3)]. split; [done|]. exists owner.
  assert (wrap_u64 (next_id a + 1) = next_id a + 1) as E by (unfold wrap_u64; apply Z.mod_small; lia).
  split_and!; [|done|].
  - cbn. rewrite E. intros f k Hf. specialize (H1 _ _ Hf). lia.
  - intros f k n' Hf. unfold arena_get. cbn. rewrite lookup_insert_ne by (specialize (H1 _ _ Hf); lia). by apply H3.
Qed.

(** There are fewer numbers than ids. *)
Lemma fits_size a t : 0 < next_id a → fits a t → Z.of_nat (size (fuse_map t)) < next_id a.
Proof.
  intros Hpos (owner & H1 & H2 & _).
  assert (size (fuse_map t) = size (set_map owner (dom (fuse_map t)) : gset NodeId)) as ->.
  { rewrite <-size_dom. set (X := dom (fuse_map t)).
    assert (∀ f f', f ∈ X → f' ∈ X → owner f = owner f' → f = f') as Hinj.
    { intros f f' [k Hf]%elem_of_dom [k' Hf']%elem_of_dom. by apply (H2 _ _ k k'). }
    clearbody X. clear H1 H2. revert Hinj. induction X as [|x X Hx IH] using set_ind_L; intros Hinj.
    - by rewrite set_map_empty, !size_empty.
    - rewrite set_map_union_L, set_map_singleton_L.
      assert (owner x ∉ (set_map owner X : gset NodeId)) as Hx'.
      { intros (y & E & Hy)%elem_of_map. assert (x = y) as -> by (apply Hinj; set_solver). done. }
      rewrite !size_union by set_solver. rewrite !size_singleton. f_equal. apply IH. intros f f' Hf Hf'.
      apply Hinj; set_solver. }
  assert (set_map owner (dom (fuse_map t)) ⊆ (list_to_set (seqZ 1 (next_id a - 1)) : gset NodeId)) as Hsub.
  { intros x (f & -> & [k Hf]%elem_of_dom)%elem_of_map. apply elem_of_list_to_set, elem_of_seqZ.
    specialize (H1 _ _ Hf). lia. }
  apply subseteq_size in Hsub. rewrite size_list_to_set in Hsub by apply NoDup_seqZ.
  rewrite length_seqZ in Hsub. lia.
Qed.

(** A change of an entry that keeps its number and the nodes that are there. *)
Lemma fits_set_entry a t k o o' :
  fits a t → table t !! k = Some o → fuse_ino o' = fuse_ino o →
  (∀ id, id ∈ ino_nodes o → is_Some (arena_get a id) → id ∈ ino_nodes o') → fits a (set_entry k o' t).
Proof.
  intros (owner & H1 & H2 & H3) Ho Hf Hn. exists owner. split_and!; [done..|]. cbn.
  intros f k' n Hfk Hown. destruct (H3 _ _ _ Hfk Hown) as (? & o1 & Ho1 & Hf1 & Hin). split; [done|].
  destruct (decide (k = k')) as [<-|]; [|rewrite lookup_insert_ne by done; eauto].
  rewrite lookup_insert_eq. exists o'. simplify_eq. split_and!; [done..|]. by apply Hn.
Qed.
Lemma table_set_entry a t k o o' :
  table_ok a t → table t !! k = Some o → fuse_ino o' = fuse_ino o →
  (∀ id, id ∈ ino_nodes o → is_Some (arena_get a id) → id ∈ ino_nodes o') → table_ok a (set_entry k o' t).
Proof. intros [? ?] ???. split; [by eapply wf_set_entry|by eapply fits_set_entry]. Qed.

Lemma table_inc_lookup a t k : table_ok a t → table_ok a (inc_lookup k t).
Proof.
  intros Ht. unfold inc_lookup. destruct (table t !! k) as [o|] eqn:Ho; [|done]. by eapply table_set_entry.
Qed.

(** A node and its place in the table go together. *)
Lemma table_remove_node a t k id :
  table_ok a t → arena_get a id = None → table_ok a (remove_node_id k id t).
Proof.
  intros Ht Hid. unfold remove_node_id. destruct (table t !! k) as [o|] eqn:Ho; [|done].
  eapply table_set_entry; [done|done|done|]. cbn. intros i Hi [n Hn]. apply elem_of_difference. split; [done|].
  intros ->%elem_of_singleton. congruence.
Qed.

(** Numbers may be dropped, and an entry with its number. *)
Lemma fits_forget a t f n : fits a t → fits a (forget f n t).2.
Proof.
  intros Hfit. unfold forget. destruct (_ || _); [done|]. destruct (fuse_map t !! f) as [k|] eqn:Hf; [|done].
  assert (∀ t1, fits a t1 → fits a (remove_fuse f t1)) as Hrm.
  { intros t1 (owner & H1 & H2 & H3). exists owner. cbn. split_and!.
    - intros f' k' [_ ?]%lookup_delete_Some. by eapply H1.
    - intros f1 f2 k1 k2 [_ ?]%lookup_delete_Some [_ ?]%lookup_delete_Some. by eapply H2.
    - intros f' k' n' [_ ?]%lookup_delete_Some. by apply H3. }
  destruct (table t !! k) as [o|] eqn:Ho; cbn; [|by apply Hrm].
  destruct (Z.eqb_spec (fuse_ino o) f) as [Hof|]; cbn; [|by apply Hrm].
  set (o' := set_lookups _ o). assert (fits a (set_entry k o' t)) as Hset by (by eapply fits_set_entry).
  destruct (_ <=? 0); cbn; [|done].
  apply Hrm in Hset as (owner & H1 & H2 & H3). exists owner. split_and!; [done..|].
  intros f' k' n' Hf' Hown. destruct (H3 _ _ _ Hf' Hown) as (? & o1 & Ho1 & Hf1 & Hin). split; [done|].
  cbn in Ho1, Hf' |- *. apply lookup_delete_Some in Hf' as [Hne _].
  destruct (decide (k = k')) as [<-|]; [|rewrite lookup_delete_ne by done; eauto].
  rewrite lookup_insert_eq in Ho1. by simplify_eq.
Qed.
Lemma table_forget a t f n : table_ok a t → table_ok a (forget f n t).2.
Proof. intros [? ?]. split; [by apply forget_wf|by apply fits_forget]. Qed.

Section register.
Context `{HashOrder}.

(** A number for an inode without a node that is there. *)
Lemma table_register_fresh a t t0 id n key mode r t' :
  table_ok a t → tree_ok a → arena_get a id = Some n → own_key n = key →
  (∀ o, table t !! key = Some o → ∀ i, i ∈ ino_nodes o → arena_get a i = None) →
  wf_table t0 → table t0 !! key = None → fuse_map t0 = fuse_map t →
  (∀ k, k ≠ key → table t0 !! k = table t !! k) →
  register_fresh id key mode t0 = Some (r, t') → table_ok a t'.
Proof using.
  intros [Hwf (owner & H1 & H2 & H3)] Ha Hid Hkey Hdead Hwf0 Hnone Hfm Htab Hr.
  apply register_fresh_wf in Hr as [Hwf' (f & -> & _ & Hfree & _ & Hfm' & o & Ho & Hfo & Hno & _)]; [|done| |done].
  2:{ subst key. cbn. by eapply tree_ino. }
  split; [done|].
  assert (∀ f' k' n', fuse_map t !! f' = Some k' → arena_get a (owner f') = Some n' → k' ≠ key) as Hother.
  { intros f' k' n' Hf' Hown ->. destruct (H3 _ _ _ Hf' Hown) as (_ & o1 & Ho1 & _ & Hin).
    by rewrite (Hdead _ Ho1 _ Hin) in Hown. }
  assert (∀ f' k', fuse_map t !! f' = Some k' → owner f' ≠ id) as Hne.
  { intros f' k' Hf' E. apply (Hother f' k' n Hf'); [by rewrite E|].
    destruct (H3 f' k' n Hf') as [<- _]; [by rewrite E|done]. }
  rewrite Hfm in Hfm', Hfree.
  exists (λ x, if decide (x = f) then id else owner x). rewrite Hfm', Ho. split_and!.
  - intros f' k'. rewrite lookup_insert_Some. intros [[<- _]|[Hff Hf']].
    + rewrite decide_True by done. by eapply tree_ids.
    + rewrite decide_False by done. by eapply H1.
  - intros f1 f2 k1 k2. rewrite !lookup_insert_Some. intros [[<- _]|[Hf1 Hk1]] [[<- _]|[Hf2 Hk2]]; [done|..].
    + rewrite decide_True, decide_False by done. intros E. by destruct (Hne _ _ Hk2).
    + rewrite decide_False, decide_True by done. intros E. by destruct (Hne _ _ Hk1).
    + rewrite !decide_False by done. by apply (H2 _ _ k1 k2).
  - intros f' k' n'. rewrite lookup_insert_Some. intros [[<- <-]|[Hff Hf']].
    + rewrite decide_True by done. intros Hn'. split; [congruence|]. exists o. rewrite lookup_insert_eq, Hno.
      split_and!; [done..|set_solver].
    + rewrite decide_False by done. intros Hn'. destruct (H3 _ _ _ Hf' Hn') as (? & o1 & Ho1 & ? & ?).
      split; [done|]. exists o1. pose proof (Hother _ _ _ Hf' Hn') as Hk. rewrite lookup_insert_ne by done.
      by rewrite Htab.
Qed.

Lemma contains_key_get a id : contains_key a id = true ↔ is_Some (arena_get a id).
Proof using. unfold contains_key, arena_get. apply bool_decide_eq_true. Qed.

Lemma table_register a t id n mode r t' :
  tree_ok a → table_ok a t → arena_get a id = Some n →
  register a id (tmp_ino n) (tmp_dev n) mode t = Some (r, t') → table_ok a t'.
Proof using.
  intros Ha Ht Hid. unfold register. set (key := {| key_ino := _; key_dev := _ |}).
  destruct (table t !! key) as [o|] eqn:Ho.
  2:{ intros Hr. eapply (table_register_fresh a t t id n key); [done..| |by destruct Ht|done|done|done|exact Hr].
      intros o. congruence. }
  set (live := filter _ _). case_bool_decide as Hlive.
  - intros Hr. eapply (table_register_fresh a t _ id n key); [done..| | | | | |exact Hr].
    + intros o1 Ho1 i Hi. assert (o1 = o) as -> by congruence. destruct (arena_get a i) eqn:Hai; [|done]. exfalso.
      assert (i ∈ live) as Hil; [|rewrite Hlive in Hil; set_solver].
      apply elem_of_filter. split; [|done]. by apply contains_key_get.
    + apply wf_remove_entry; [eapply wf_set_entry; [apply Ht|done|done]|]. cbn. by rewrite lookup_insert_eq.
    + cbn. apply lookup_delete_eq.
    + done.
    + intros k Hk. cbn. by rewrite lookup_delete_ne, lookup_insert_ne.
  - destruct (compute_path a id); cbn; [|done]. destruct (find_duplicate _ _ _) as [dup|]; cbn; [|done].
    assert (∀ i, i ∈ ino_nodes o → is_Some (arena_get a i) → i ∈ live) as Hin.
    { intros i Hi Hai. apply elem_of_filter. split; [by apply contains_key_get|done]. }
    destruct dup; intros [= <- <-]; eapply table_set_entry; try done; cbn; set_solver.
Qed.

Lemma register_ends a t id ino dev mode :
  tree_ok a → table_ok a t → next_id a < 2 ^ 64 - 1 → is_Some (register a id ino dev mode t).
Proof using.
  intros Ha [Hwf Hfit] Hlim. apply register_total_aux; [done|apply Ha|].
  pose proof (fits_size a t (tree_next _ Ha) Hfit). lia.
Qed.
End register.

Lemma table_new a b : table_ok a (set_same_device b InodeTable_new).
Proof. split; [by destruct wf_table_new|]. by exists (λ _, 0). Qed.
