(* ===== verification/Wrappers.v ===== *)
(** * The wrappers of src/src/sys/

    One definition per function of sys/fs.rs, sys/io.rs, sys/xattr.rs,
    sys/dir.rs, sys/handle.rs and sys/statx.rs, over the C library of Ffi.v, and
    [wrapper], which says which of them answers a call of Sys.v.  The theorems
    at the end relate the two levels: each wrapper makes the C call it stands
    for and gives its answer or its errno; and running a program with its calls
    replaced by the wrappers is running it against the kernel the wrappers make
    of the C library. *)

From S2P Require Import Prelude Libc Sys Node Ffi.
Local Open Scope Z_scope.
Open Scope ffi_scope.

(** ** sys/fs.rs and sys/io.rs *)

(** [if ret < 0 { Err(FsError::last()) } else { Ok(a) }] *)
Definition check {A} (ret : Z) (a : A) : FM (FsResult A) :=
  if ret <? 0 then FsError_last else fm_ret (Ok a).
(** [x as i32] *)
Definition wrap_i32 (z : Z) : Z := let m := z mod 2 ^ 32 in if m <? 2 ^ 31 then m else m - 2 ^ 32.

Definition fstat (fd : Z) : FM (FsResult stat) :=
  do! (ret, o) := fm_call (c_fstat fd) in
  check ret o.
Definition fstatat (dirfd : Z) (path : bytes) (flags : Z) : FM (FsResult stat) :=
  do! (ret, o) := fm_call (c_fstatat dirfd path flags) in
  check ret o.
Definition fstatvfs (fd : Z) : FM (FsResult statvfs) :=
  do! (ret, o) := fm_call (c_fstatvfs fd) in
  check ret o.
(** [f_type] of the answer *)
Definition statfs (path : bytes) : FM (FsResult Z) :=
  do! (ret, o) := fm_call (c_statfs path) in
  check ret o.
(** [f_flag] of the answer *)
Definition statvfs_flags (path : bytes) : FM (FsResult Z) :=
  do! (ret, o) := fm_call (c_statvfs path) in
  check ret o.
Definition fs_statx (dirfd : Z) (path : bytes) (flags mask : Z) : FM (FsResult statx) :=
  do! (ret, o) := fm_call (c_statx dirfd path flags mask) in
  check ret o.
Definition fchown (fd uid gid : Z) : FM (FsResult unit) :=
  do! (ret, _) := fm_call (c_fchown fd uid gid) in
  check ret tt.
Definition fchownat (dirfd : Z) (path : bytes) (uid gid flags : Z) : FM (FsResult unit) :=
  do! (ret, _) := fm_call (c_fchownat dirfd path uid gid flags) in
  check ret tt.
Definition fchmod (fd mode : Z) : FM (FsResult unit) :=
  do! (ret, _) := fm_call (c_fchmod fd mode) in
  check ret tt.
Definition fchmodat (dirfd : Z) (path : bytes) (mode flags : Z) : FM (FsResult unit) :=
  do! (ret, _) := fm_call (c_fchmodat dirfd path mode flags) in
  check ret tt.
Definition futimens (fd : Z) (times : timespec * timespec) : FM (FsResult unit) :=
  do! (ret, _) := fm_call (c_futimens fd times) in
  check ret tt.
Definition utimensat (dirfd : Z) (path : bytes) (times : timespec * timespec) (flags : Z) : FM (FsResult unit) :=
  do! (ret, _) := fm_call (c_utimensat dirfd path times flags) in
  check ret tt.
Definition mkdirat (dirfd : Z) (path : bytes) (mode : Z) : FM (FsResult unit) :=
  do! (ret, _) := fm_call (c_mkdirat dirfd path mode) in
  check ret tt.
Definition mknodat (dirfd : Z) (path : bytes) (mode dev : Z) : FM (FsResult unit) :=
  do! (ret, _) := fm_call (c_mknodat dirfd path mode dev) in
  check ret tt.
Definition unlinkat (dirfd : Z) (path : bytes) (flags : Z) : FM (FsResult unit) :=
  do! (ret, _) := fm_call (c_unlinkat dirfd path flags) in
  check ret tt.
Definition linkat (olddirfd : Z) (oldpath : bytes) (newdirfd : Z) (newpath : bytes) (flags : Z) : FM (FsResult unit) :=
  do! (ret, _) := fm_call (c_linkat olddirfd oldpath newdirfd newpath flags) in
  check ret tt.
Definition symlinkat (target : bytes) (dirfd : Z) (linkpath : bytes) : FM (FsResult unit) :=
  do! (ret, _) := fm_call (c_symlinkat target dirfd linkpath) in
  check ret tt.
(** The buffer is of [PATH_MAX] bytes and truncated to what was read. *)
Definition readlinkat (dirfd : Z) (path : bytes) : FM (FsResult bytes) :=
  do! (ret, buf) := fm_call (c_readlinkat dirfd path 4096) in
  check ret (take (Z.to_nat ret) buf).
Definition renameat (olddirfd : Z) (oldpath : bytes) (newdirfd : Z) (newpath : bytes) : FM (FsResult unit) :=
  do! (ret, _) := fm_call (c_renameat olddirfd oldpath newdirfd newpath) in
  check ret tt.
(** A raw system call, whose result is cast to an [i32]. *)
Definition renameat2 (olddirfd : Z) (oldpath : bytes) (newdirfd : Z) (newpath : bytes) (flags : Z)
    : FM (FsResult unit) :=
  do! (ret, _) := fm_call (c_renameat2 olddirfd oldpath newdirfd newpath flags) in
  check (wrap_i32 ret) tt.
Definition fallocate (fd mode offset len : Z) : FM (FsResult unit) :=
  do! (ret, _) := fm_call (c_fallocate fd mode offset len) in
  check ret tt.
Definition truncate (path : bytes) (length : Z) : FM (FsResult unit) :=
  do! (ret, _) := fm_call (c_truncate path length) in
  check ret tt.
(** The pointer is null on an error. *)
Definition realpath (path : bytes) : FM (FsResult bytes) :=
  do! (real, resolved) := fm_call (c_realpath path) in
  if real =? 0 then FsError_last else fm_ret (Ok (CStr_from_ptr resolved)).

(** The buffer as the call left it, next to the result. *)
Definition pread (fd count offset : Z) : FM (FsResult Z * bytes) :=
  do! (ret, buf) := fm_call (c_pread fd count offset) in
  do! r := check ret ret in fm_ret (r, buf).
Definition pwrite (fd : Z) (buf : bytes) (offset : Z) : FM (FsResult Z) :=
  do! (ret, _) := fm_call (c_pwrite fd buf offset) in
  check ret ret.
Definition read (fd count : Z) : FM (FsResult Z * bytes) :=
  do! (ret, buf) := fm_call (c_read fd count) in
  do! r := check ret ret in fm_ret (r, buf).
Definition write (fd : Z) (buf : bytes) : FM (FsResult Z) :=
  do! (ret, _) := fm_call (c_write fd buf) in
  check ret ret.
Definition sendfile (out_fd in_fd count : Z) : FM (FsResult Z) :=
  do! (ret, _) := fm_call (c_sendfile out_fd in_fd count) in
  check ret ret.
Definition copy_file_range (fd_in off_in fd_out off_out len : Z) : FM (FsResult Z) :=
  do! (ret, _) := fm_call (c_copy_file_range fd_in off_in fd_out off_out len) in
  check ret ret.
Definition fsync (fd : Z) : FM (FsResult unit) :=
  do! (ret, _) := fm_call (c_fsync fd) in
  check ret tt.
Definition fdatasync (fd : Z) : FM (FsResult unit) :=
  do! (ret, _) := fm_call (c_fdatasync fd) in
  check ret tt.
Definition ftruncate (fd length : Z) : FM (FsResult unit) :=
  do! (ret, _) := fm_call (c_ftruncate fd length) in
  check ret tt.
Definition lseek (fd offset whence : Z) : FM (FsResult Z) :=
  do! (ret, _) := fm_call (c_lseek fd offset whence) in
  check ret ret.
Definition ficlone (dest_fd src_fd : Z) : FM (FsResult unit) :=
  do! (ret, _) := fm_call (c_ioctl_fd dest_fd 0x40049409 src_fd) in
  check ret tt.
(** The value as the call left it. *)
Definition ioctl_long (fd cmd val : Z) : FM (FsResult Z) :=
  do! (ret, val) := fm_call (c_ioctl_long fd cmd val) in
  check ret val.

(** ** sys/xattr.rs *)

(** [cstr(s)?] and [cstr_bytes(s)?] *)
Definition with_cstr {A} (s : bytes) (k : bytes → FM (FsResult A)) : FM (FsResult A) :=
  match cstr_bytes s with Ok c => k c | Err e => fm_ret (Err e) end.

(** The attribute calls that fill a buffer give it back with the length. *)
Definition fgetxattr (fd : Z) (name : bytes) (size : Z) : FM (FsResult (Z * bytes)) :=
  with_cstr name (λ c_name,
    do! (ret, buf) := fm_call (c_fgetxattr fd c_name size) in
    check (A:=Z * bytes) ret (ret, buf)).
Definition lgetxattr (path name : bytes) (size : Z) : FM (FsResult (Z * bytes)) :=
  with_cstr path (λ c_path, with_cstr name (λ c_name,
    do! (ret, buf) := fm_call (c_lgetxattr c_path c_name size) in
    check (A:=Z * bytes) ret (ret, buf))).
Definition fsetxattr (fd : Z) (name value : bytes) (flags : Z) : FM (FsResult unit) :=
  with_cstr name (λ c_name,
    do! (ret, _) := fm_call (c_fsetxattr fd c_name value flags) in
    check ret tt).
Definition lsetxattr (path name value : bytes) (flags : Z) : FM (FsResult unit) :=
  with_cstr path (λ c_path, with_cstr name (λ c_name,
    do! (ret, _) := fm_call (c_lsetxattr c_path c_name value flags) in
    check (A:=unit) ret tt)).
Definition llistxattr (path : bytes) (size : Z) : FM (FsResult (Z * bytes)) :=
  with_cstr path (λ c_path,
    do! (ret, buf) := fm_call (c_llistxattr c_path size) in
    check (A:=Z * bytes) ret (ret, buf)).
Definition flistxattr (fd size : Z) : FM (FsResult (Z * bytes)) :=
  do! (ret, buf) := fm_call (c_flistxattr fd size) in
  check (A:=Z * bytes) ret (ret, buf).
Definition lremovexattr (path name : bytes) : FM (FsResult unit) :=
  with_cstr path (λ c_path, with_cstr name (λ c_name,
    do! (ret, _) := fm_call (c_lremovexattr c_path c_name) in
    check (A:=unit) ret tt)).

(** ** sys/dir.rs *)

(** A [DirStream] is its [DIR*]. *)
Definition DirStream_from_fd (raw : Z) : FM (FsResult Z) :=
  do! (dir, _) := fm_call (c_fdopendir raw) in
  if dir =? 0 then
    do! _ := fm_call (c_close raw) in
    FsError_last
  else fm_ret (Ok dir).
Definition DirStream_from_raw_fd (fd : Z) : FM (FsResult Z) :=
  do! (dup_fd, _) := fm_call (c_dup fd) in
  if dup_fd <? 0 then FsError_last
  else
    do! (dir, _) := fm_call (c_fdopendir dup_fd) in
    if dir =? 0 then
      do! _ := fm_call (c_close dup_fd) in
      FsError_last
    else fm_ret (Ok dir).
Definition next_entry (dir : Z) : FM (option RawDirEntry) :=
  do! (entry, d) := fm_call (c_readdir dir) in
  fm_ret (if entry =? 0 then None
          else Some {| rde_name := CStr_from_ptr (d_name d); rde_ino := d_ino d; rde_dtype := d_type d |}).
(** [drop] *)
Definition DirStream_drop (dir : Z) : FM unit :=
  do! _ := fm_call (c_closedir dir) in fm_ret tt.

(** The callers' [while let Some(entry) = stream.next_entry()]. *)
Fixpoint entries (fuel : nat) (dir : Z) : FM (list RawDirEntry) :=
  match fuel with
  | O => fm_nofuel
  | S fuel =>
      do! e := next_entry dir in
      match e with
      | None => fm_ret []
      | Some e => do! es := entries fuel dir in fm_ret (e :: es)
      end
  end.

(** ** sys/handle.rs *)

Definition MAX_HANDLE_SZ : Z := 128.

(** The bytes of the [FileHandle]; the slice panics out of the array. *)
Definition name_to_handle_at (dirfd : Z) (pathname : bytes) (flags : Z) : FM (FsResult bytes) :=
  with_cstr pathname (λ c_path,
    do! (ret, o) := fm_call (c_name_to_handle_at dirfd c_path MAX_HANDLE_SZ flags) in
    if ret <? 0 then FsError_last
    else
      let '(handle_bytes, f_handle) := o in
      if handle_bytes <=? MAX_HANDLE_SZ then fm_ret (Ok (take (Z.to_nat handle_bytes) f_handle))
      else fm_panic).

(** ** sys/statx.rs *)

Definition statx_to_stat `{DevT} (stx : statx) : stat := {|
  st_dev := makedev (stx_dev_major stx) (stx_dev_minor stx);
  st_ino := stx_ino stx;
  st_mode := stx_mode stx;
  st_nlink := stx_nlink stx;
  st_uid := stx_uid stx;
  st_gid := stx_gid stx;
  st_rdev := makedev (stx_rdev_major stx) (stx_rdev_minor stx);
  st_size := wrap_i64 (stx_size stx);
  st_blksize := stx_blksize stx;
  st_blocks := wrap_i64 (stx_blocks stx);
  st_atime := stx_sec (stx_atime stx);
  st_atime_nsec := stx_nsec (stx_atime stx);
  st_mtime := stx_sec (stx_mtime stx);
  st_mtime_nsec := stx_nsec (stx_mtime stx);
  st_ctime := stx_sec (stx_ctime stx);
  st_ctime_nsec := stx_nsec (stx_ctime stx)
|}.

(** [fnv1a_hash] of sys/handle.rs *)
Definition fnv1a_hash (data : bytes) : Z :=
  foldl (λ hash byte, wrap_u64 (Z.lxor hash (Z.of_N (N_of_ascii byte)) * 0x100000001b3)) 0xcbf29ce484222325 data.

(** ** The wrapper of every call *)

Section wrapper.
Context `{DevT} (dir_fuel : nat).

(** [&buf[..n]], with the [?] on [n] *)
Definition slice (r : FsResult (Z * bytes)) : FM (FsResult bytes) :=
  match r with
  | Ok (n, buf) =>
      if n <=? Z.of_nat (length buf) then fm_ret (Ok (take (Z.to_nat n) buf)) else fm_panic
  | Err e => fm_ret (Err e)
  end.
Definition filled (o : FsResult Z * bytes) : FsResult (Z * bytes) :=
  match o.1 with Ok n => Ok (n, o.2) | Err e => Err e end.

(** A stream, read to its end and dropped. *)
Definition read_stream (m : FM (FsResult Z)) : FM (FsResult (list RawDirEntry)) :=
  do! r := m in
  match r with
  | Err e => fm_ret (Err e)
  | Ok dir =>
      do! es := entries dir_fuel dir in
      do! _ := DirStream_drop dir in
      fm_ret (Ok es)
  end.

Definition wrapper (c : sys) : FM (resp c) :=
  match c with
  | Fstat fd => fstat fd
  | Fstatat dirfd path flags => fstatat dirfd path flags
  | Statx dirfd path flags mask =>
      do! r := fs_statx dirfd path flags mask in
      fm_ret (match r with Ok stx => Ok (statx_to_stat stx) | Err e => Err e end)
  | Fstatvfs fd => fstatvfs fd
  | Fchown fd uid gid => fchown fd uid gid
  | Fchownat dirfd path uid gid flags => fchownat dirfd path uid gid flags
  | Fchmod fd mode => fchmod fd mode
  | Fchmodat dirfd path mode flags => fchmodat dirfd path mode flags
  | Futimens fd times => futimens fd times
  | Utimensat dirfd path times flags => utimensat dirfd path times flags
  | Mkdirat dirfd path mode => mkdirat dirfd path mode
  | Mknodat dirfd path mode dev => mknodat dirfd path mode dev
  | Unlinkat dirfd path flags => unlinkat dirfd path flags
  | Linkat od op nd np flags => linkat od op nd np flags
  | Symlinkat target dirfd linkpath => symlinkat target dirfd linkpath
  | Readlinkat dirfd path => readlinkat dirfd path
  | Renameat od op nd np => renameat od op nd np
  | Renameat2 od op nd np flags => renameat2 od op nd np flags
  | Truncate path length => truncate path length
  | Ftruncate fd length => ftruncate fd length
  | Realpath path => realpath path
  | Openat2 dirfd path flags mode resolve =>
      do! (ret, _) := fm_call (c_openat2 dirfd path flags mode resolve) in
      check (wrap_i32 ret) (wrap_i32 ret)
  | OpenPath path flags mode =>
      do! (ret, _) := fm_call (c_open path flags mode) in check ret ret
  | Faccessat dirfd path mode flags =>
      do! (ret, _) := fm_call (c_faccessat dirfd path mode flags) in check ret tt
  | ReadDir fd => read_stream (DirStream_from_fd fd)
  | ReadDirDup fd => read_stream (DirStream_from_raw_fd fd)
  | Fgetxattr fd name size => do! r := fgetxattr fd name size in slice r
  | Lgetxattr path name size => do! r := lgetxattr path name size in slice r
  | Fsetxattr fd name value flags => fsetxattr fd name value flags
  | Lsetxattr path name value flags => lsetxattr path name value flags
  | Llistxattr path size => do! r := llistxattr path size in slice r
  | Flistxattr fd size => do! r := flistxattr fd size in slice r
  | Lremovexattr path name => lremovexattr path name
  | NameToHandleAt dirfd path flags => name_to_handle_at dirfd path flags
  | Read fd count => do! o := read fd count in slice (filled o)
  | Write fd data => write fd data
  | Sendfile out_fd in_fd count => sendfile out_fd in_fd count
  | Ficlone dest_fd src_fd => ficlone dest_fd src_fd
  | Pread fd count offset => do! o := pread fd count offset in slice (filled o)
  | Pwrite fd data offset => pwrite fd data offset
  | Fallocate fd mode offset len => fallocate fd mode offset len
  | Lseek fd offset whence => lseek fd offset whence
  | CopyFileRange fd_in off_in fd_out off_out len => copy_file_range fd_in off_in fd_out off_out len
  | Fsync fd => fsync fd
  | Fdatasync fd => fdatasync fd
  | IoctlLong fd cmd val => ioctl_long fd cmd val
  | OpenBacking fd => do! (ret, _) := fm_call (c_open_backing fd) in check ret ret
  | InvalInode ino => do! (ret, _) := fm_call (c_inval_inode ino) in check ret tt
  end.

(** A program with its calls replaced by their wrappers. *)
Fixpoint lower {A} (p : prog A) : FM A :=
  match p with
  | Ret a => fm_ret a
  | Panic => fm_panic
  | NoFuel => fm_nofuel
  | Call c k => do! r := wrapper c in lower (k r)
  end.
End wrapper.

(** The two hashes are one function. *)
Lemma fnv1a_hash_name data : fnv1a_hash data = fnv1a_name_hash data.
Proof. reflexivity. Qed.

(** ** What is documented of the C library

    A buffer call returns at most the size of the buffer, a raw system call a
    C [int], a file handle fits the array, and a directory stream ends. *)
Definition documented (c : ffi) : answer c → Prop :=
  match c with
  | c_pread _ _ _ | c_read _ _ | c_fgetxattr _ _ _ | c_lgetxattr _ _ _ | c_llistxattr _ _ | c_flistxattr _ _ =>
      λ a, a_ret a <= Z.of_nat (length (a_out a))
  | c_renameat2 _ _ _ _ _ | c_openat2 _ _ _ _ _ => λ a, - 2 ^ 31 <= a_ret a < 2 ^ 31
  | c_name_to_handle_at _ _ _ _ => λ a, (a_out a).1 <= MAX_HANDLE_SZ
  | _ => λ _, True
  end.

Section library.
Context `{DevT} {W : Type} (K : ∀ c, W → answer c * W).

Fixpoint stream_ends (n : nat) (dir : Z) (w : W) : Prop :=
  match n with
  | O => False
  | S n => a_ret (K (c_readdir dir) w).1 = 0 ∨ stream_ends n dir (K (c_readdir dir) w).2
  end.

Record library_ok (dir_fuel : nat) : Prop := {
  lo_documented c w : documented c (K c w).1;
  lo_streams dir w : stream_ends dir_fuel dir w
}.

Lemma entries_total n dir w e : stream_ends n dir w →
  ∃ es e' w', frun K (entries n dir e) w = Some (es, e', w').
Proof using.
  revert w e. induction n as [|n IH]; intros w e; cbn [stream_ends]; [done|].
  intros Hs. cbn [entries]. unfold next_entry. rewrite !frun_fm_bind. cbn.
  destruct (K (c_readdir dir) w) as [[ret er o] w1]. cbn in *.
  destruct (Z.eqb_spec ret 0) as [|Hne]; [by eexists _, _, _|]. destruct Hs as [|Hs]; [done|].
  destruct (IH w1 (default e er) Hs) as (es & e' & w' & Hes). rewrite frun_fm_bind, Hes. by eexists _, _, _.
Qed.

Context (dir_fuel : nat) (HK : library_ok dir_fuel).

(** The wrapper returns, something that satisfies [P]. *)
Definition answers {A} (m : FM A) (P : A → Prop) : Prop :=
  ∀ e w, ∃ r e' w', frun K (m e) w = Some (r, e', w') ∧ P r.
Definition anything {A} (_ : A) : Prop := True.
(** A length and a buffer it is within. *)
Definition within (r : FsResult (Z * bytes)) : Prop :=
  match r with Ok (n, buf) => n <= Z.of_nat (length buf) | Err _ => True end.

Lemma answers_ret {A} (a : A) (P : A → Prop) : P a → answers (fm_ret a) P.
Proof using. intros Ha e w. by eexists _, _, _. Qed.
Lemma answers_last {A} (P : FsResult A → Prop) : (∀ e, P (Err e)) → answers FsError_last P.
Proof using. intros HP e w. by eexists _, _, _. Qed.
Lemma answers_bind {A B} (m : FM A) (k : A → FM B) (P : A → Prop) (Q : B → Prop) :
  answers m P → (∀ a, P a → answers (k a) Q) → answers (fm_bind m k) Q.
Proof using.
  intros Hm Hk e w. destruct (Hm e w) as (r & e' & w' & E & HP). rewrite frun_fm_bind, E. by apply Hk.
Qed.
Lemma answers_call {B} c (k : Z * out c → FM B) (Q : B → Prop) :
  (∀ a : answer c, documented c a → answers (k (a_ret a, a_out a)) Q) → answers (fm_bind (fm_call c) k) Q.
Proof using HK.
  intros Hk e w. pose proof (lo_documented _ HK c w) as Hd. rewrite frun_fm_bind. cbn.
  destruct (K c w) as [a w']. apply Hk, Hd.
Qed.
Lemma answers_check {A} ret (a : A) (P : FsResult A → Prop) :
  (∀ e, P (Err e)) → P (Ok a) → answers (check ret a) P.
Proof using. intros. unfold check. destruct (_ <? _); [by apply answers_last|by apply answers_ret]. Qed.
Lemma answers_cstr {A} s (k : bytes → FM (FsResult A)) (P : FsResult A → Prop) :
  (∀ e, P (Err e)) → (∀ c, answers (k c) P) → answers (with_cstr s k) P.
Proof using. intros HE Hk. unfold with_cstr. destruct (cstr_bytes s); [apply Hk|by apply answers_ret]. Qed.
Lemma answers_slice r : within r → answers (slice r) anything.
Proof using.
  destruct r as [[n buf]|e]; cbn; intros Hr; [|by apply answers_ret].
  rewrite (proj2 (Z.leb_le _ _) Hr). by apply answers_ret.
Qed.
Lemma answers_filled ret (buf : bytes) : ret <= Z.of_nat (length buf) →
  answers (do! r := check ret ret in fm_ret (r, buf)) (λ o, within (filled o)).
Proof using.
  intros Hr. apply (answers_bind _ _ (λ r, within (filled (r, buf)))); [by apply answers_check|].
  intros r Hw. by apply answers_ret.
Qed.
Lemma answers_stream m : answers m anything → answers (read_stream dir_fuel m) anything.
Proof using HK.
  intros Hm. eapply answers_bind; [exact Hm|]. intros [dir|e] _; [|by apply answers_ret].
  apply (answers_bind _ _ anything).
  - intros e w. destruct (entries_total dir_fuel dir w e) as (es & e' & w' & E); [apply HK|]. by eexists _, _, _.
  - intros es _. apply (answers_bind _ _ anything); [|by intros; apply answers_ret].
    apply answers_call. by intros; apply answers_ret.
Qed.
End library.

Ltac answers_step :=
  lazymatch goal with
  | |- answers _ (fm_bind (fm_call _) _) _ => apply (answers_call _ _ ltac:(eassumption)); intros [? ? ?] ?
  | |- answers _ (with_cstr _ _) _ => apply answers_cstr; [done|intros ?]
  | |- answers _ (check _ _) _ => apply answers_check; [done|try done; assumption]
  | |- answers _ (fm_ret _) _ => apply answers_ret; done
  | |- answers _ FsError_last _ => apply answers_last; done
  | |- answers _ (match ?x with _ => _ end) _ => destruct x eqn:?
  end.

Section total.
Context `{DevT} {W : Type} (K : ∀ c, W → answer c * W) (dir_fuel : nat) (HK : library_ok K dir_fuel).

(** Every wrapper returns. *)
Lemma wrapper_answers c : answers K (wrapper dir_fuel c) anything.
Proof using HK.
  destruct c; cbn [wrapper];
    try (unfold fstat, fstatat, fstatvfs, fchown, fchownat, fchmod, fchmodat, futimens, utimensat, mkdirat,
      mknodat, unlinkat, linkat, symlinkat, readlinkat, renameat, renameat2, truncate, ftruncate, realpath,
      fsetxattr, lsetxattr, lremovexattr, write, sendfile, ficlone, pwrite, fallocate, lseek,
      copy_file_range, fsync, fdatasync, ioctl_long; solve [repeat answers_step]).
  all: try (eapply (answers_bind _ _ _ within); [unfold fgetxattr, lgetxattr, llistxattr, flistxattr;
    solve [repeat answers_step]|intros r Hr; by apply answers_slice]).
  all: try (eapply (answers_bind _ _ _ (λ o, within (filled o)));
    [unfold read, pread|intros r Hr; by apply answers_slice]).
  - eapply (answers_bind _ _ _ anything); [unfold fs_statx; repeat answers_step|intros [stx|e] _; by apply answers_ret].
  - eapply answers_stream; [exact HK|]. unfold DirStream_from_fd. repeat answers_step.
  - eapply answers_stream; [exact HK|]. unfold DirStream_from_raw_fd. repeat answers_step.
  - unfold name_to_handle_at. answers_step. apply (answers_call _ _ HK). intros [ret er [n f]] Hn. cbn in *.
    destruct (_ <? _); [by apply answers_last|]. rewrite (proj2 (Z.leb_le _ _) Hn). by apply answers_ret.
  - answers_step. by apply answers_filled.
  - answers_step. by apply answers_filled.
Qed.

End total.

(** ** The two levels *)

(** An error of any call. *)
Definition error_resp (c : sys) (e : Z) : resp c := match c with Fstat _ => Err e | _ => Err e end.
(** The error of a result. *)
Definition resp_error {c : sys} : resp c → option Z :=
  let error {A} (r : FsResult A) := match r with Ok _ => None | Err e => Some e end in
  match c with Fstat _ => error | _ => error end.

(** The kernel the wrappers make of the C library; its state is the library's
    and [errno]. *)
Definition kernel_of `{DevT} {W} (K : ∀ c, W → answer c * W) (dir_fuel : nat) (c : sys) (we : W * Z)
    : resp c * (W * Z) :=
  match frun K (wrapper dir_fuel c we.2) we.1 with
  | Some (r, e', w') => (r, (w', e'))
  | None => (error_resp c EIO, we)
  end.

(** The wrappers implement the calls of the model.  With a C library as it
    is documented, every wrapper returns; and a program over the model's
    calls, run with the wrappers in their place, does what it does against the
    kernel they make of the library: the same result, a panic where there was
    one, and the same state of the library after it. *)
Theorem lower_refines `{DevT} {W : Type} (K : ∀ c, W → answer c * W) (dir_fuel : nat)
    (HK : library_ok K dir_fuel) :
  (∀ c e w, ∃ r e' w', frun K (wrapper dir_fuel c e) w = Some (r, e', w')) ∧
  ∀ A (p : prog A) e w,
    frun K (lower dir_fuel p e) w = (λ '(a, (w', e')), (a, e', w')) <$> run (kernel_of K dir_fuel) p (w, e).
Proof.
  split.
  - intros c e w. destruct (wrapper_answers K dir_fuel HK c e w) as (r & e' & w' & E & _). eauto.
  - intros A p. induction p as [a| | |c k IH]; intros e w; cbn [lower run]; [done..|].
    destruct (wrapper_answers K dir_fuel HK c e w) as (r & e' & w' & E & _).
    rewrite frun_fm_bind, E. unfold kernel_of at 1. cbn [fst snd]. rewrite E. apply IH.
Qed.

(** A C library in which every call fails with ENOSYS. *)
Definition no_library (c : ffi) (w : unit) : answer c * unit.
Proof.
  refine ({| a_ret := match c with c_fdopendir _ | c_readdir _ | c_realpath _ => 0 | _ => -1 end;
             a_errno := Some ENOSYS; a_out := _ |}, w).
  destruct c; first [exact tt | exact [] | exact 0 | exact zeroed_stat | exact (0, []) | exact (0, 0) | idtac].
  - exact {| f_bsize := 0; f_frsize := 0; f_blocks := 0; f_bfree := 0; f_bavail := 0; f_files := 0; f_ffree := 0;
             f_namemax := 0 |}.
  - exact {| stx_blksize := 0; stx_nlink := 0; stx_uid := 0; stx_gid := 0; stx_mode := 0; stx_ino := 0; stx_size := 0;
             stx_blocks := 0; stx_atime := {| stx_sec := 0; stx_nsec := 0 |};
             stx_ctime := {| stx_sec := 0; stx_nsec := 0 |}; stx_mtime := {| stx_sec := 0; stx_nsec := 0 |};
             stx_rdev_major := 0; stx_rdev_minor := 0; stx_dev_major := 0; stx_dev_minor := 0 |}.
  - exact {| d_ino := 0; d_type := 0; d_name := [] |}.
Defined.

Lemma no_library_ok : library_ok no_library 1.
Proof. split; [|by left]. intros [] []; cbn; unfold MAX_HANDLE_SZ; try done; lia. Qed.

Lemma lower_refines_witness :
  frun no_library (@lower DevT_halves 1 _ (sm_call (S:=unit) (Mkdirat 3 (bs "d") 493) tt) 0) tt =
    Some ((Err ENOSYS, tt), ENOSYS, tt).
Proof.
  rewrite (proj2 (@lower_refines DevT_halves unit no_library 1 no_library_ok)). reflexivity.
Defined.

(** ** Errors *)

(** The one call of a wrapper: [None] for the wrappers of several calls, and
    for names that are no C strings. *)
Definition libc_call (c : sys) : option ffi :=
  let cstr s (f : bytes → ffi) := match cstr_bytes s with Ok c => Some (f c) | Err _ => None end in
  let cstr2 s t (f : bytes → bytes → ffi) :=
    match cstr_bytes s, cstr_bytes t with Ok c, Ok d => Some (f c d) | _, _ => None end in
  match c with
  | Fstat fd => Some (c_fstat fd)
  | Fstatat dirfd path flags => Some (c_fstatat dirfd path flags)
  | Statx dirfd path flags mask => Some (c_statx dirfd path flags mask)
  | Fstatvfs fd => Some (c_fstatvfs fd)
  | Fchown fd uid gid => Some (c_fchown fd uid gid)
  | Fchownat dirfd path uid gid flags => Some (c_fchownat dirfd path uid gid flags)
  | Fchmod fd mode => Some (c_fchmod fd mode)
  | Fchmodat dirfd path mode flags => Some (c_fchmodat dirfd path mode flags)
  | Futimens fd times => Some (c_futimens fd times)
  | Utimensat dirfd path times flags => Some (c_utimensat dirfd path times flags)
  | Mkdirat dirfd path mode => Some (c_mkdirat dirfd path mode)
  | Mknodat dirfd path mode dev => Some (c_mknodat dirfd path mode dev)
  | Unlinkat dirfd path flags => Some (c_unlinkat dirfd path flags)
  | Linkat od op nd np flags => Some (c_linkat od op nd np flags)
  | Symlinkat target dirfd linkpath => Some (c_symlinkat target dirfd linkpath)
  | Readlinkat dirfd path => Some (c_readlinkat dirfd path 4096)
  | Renameat od op nd np => Some (c_renameat od op nd np)
  | Renameat2 od op nd np flags => Some (c_renameat2 od op nd np flags)
  | Truncate path length => Some (c_truncate path length)
  | Ftruncate fd length => Some (c_ftruncate fd length)
  | Realpath path => Some (c_realpath path)
  | Openat2 dirfd path flags mode resolve => Some (c_openat2 dirfd path flags mode resolve)
  | OpenPath path flags mode => Some (c_open path flags mode)
  | Faccessat dirfd path mode flags => Some (c_faccessat dirfd path mode flags)
  | ReadDir _ | ReadDirDup _ => None
  | Fgetxattr fd name size => cstr name (λ n, c_fgetxattr fd n size)
  | Lgetxattr path name size => cstr2 path name (λ p n, c_lgetxattr p n size)
  | Fsetxattr fd name value flags => cstr name (λ n, c_fsetxattr fd n value flags)
  | Lsetxattr path name value flags => cstr2 path name (λ p n, c_lsetxattr p n value flags)
  | Llistxattr path size => cstr path (λ p, c_llistxattr p size)
  | Flistxattr fd size => Some (c_flistxattr fd size)
  | Lremovexattr path name => cstr2 path name (λ p n, c_lremovexattr p n)
  | NameToHandleAt dirfd path flags => cstr path (λ p, c_name_to_handle_at dirfd p MAX_HANDLE_SZ flags)
  | Read fd count => Some (c_read fd count)
  | Write fd data => Some (c_write fd data)
  | Sendfile out_fd in_fd count => Some (c_sendfile out_fd in_fd count)
  | Ficlone dest_fd src_fd => Some (c_ioctl_fd dest_fd 0x40049409 src_fd)
  | Pread fd count offset => Some (c_pread fd count offset)
  | Pwrite fd data offset => Some (c_pwrite fd data offset)
  | Fallocate fd mode offset len => Some (c_fallocate fd mode offset len)
  | Lseek fd offset whence => Some (c_lseek fd offset whence)
  | CopyFileRange fd_in off_in fd_out off_out len => Some (c_copy_file_range fd_in off_in fd_out off_out len)
  | Fsync fd => Some (c_fsync fd)
  | Fdatasync fd => Some (c_fdatasync fd)
  | IoctlLong fd cmd val => Some (c_ioctl_long fd cmd val)
  | OpenBacking fd => Some (c_open_backing fd)
  | InvalInode ino => Some (c_inval_inode ino)
  end.

(** How C says that a call failed. *)
Definition failed (f : ffi) (ret : Z) : bool := match f with c_realpath _ => ret =? 0 | _ => ret <? 0 end.

Lemma cstr_bytes_Err s e : cstr_bytes s = Err e → e = EINVAL.
Proof. unfold cstr_bytes. case_bool_decide; congruence. Qed.

Lemma wrap_i32_id z : - 2 ^ 31 <= z < 2 ^ 31 → wrap_i32 z = z.
Proof.
  intros Hz. unfold wrap_i32. cbv zeta. destruct (decide (0 <= z)).
  - rewrite Z.mod_small by lia. case_match; zbool; lia.
  - assert (z mod 2 ^ 32 = z + 2 ^ 32) as ->.
    { rewrite <-(Z.mod_add z 1) by lia. apply Z.mod_small. lia. }
    case_match; zbool; lia.
Qed.

(** The wrappers of several calls. *)
Definition is_stream (c : sys) : bool := match c with ReadDir _ | ReadDirDup _ => true | _ => false end.

(** The bytes of the buffer the call filled. *)
Definition bytes_of (f : ffi) : answer f → bytes :=
  match f with
  | c_readlinkat _ _ _ | c_realpath _ | c_pread _ _ _ | c_read _ _ | c_fgetxattr _ _ _ | c_lgetxattr _ _ _
  | c_llistxattr _ _ | c_flistxattr _ _ => λ a, a_out a
  | _ => λ _, []
  end.

(** What a call that did not fail answers: what C documents as its result, a
    number, a filled structure, or as many bytes of the buffer as it says. *)
Definition value `{DevT} (c : sys) : ∀ f, answer f → resp c → Prop :=
  match c with
  | Fstat _ | Fstatat _ _ _ => λ f,
      match f with c_fstat _ | c_fstatat _ _ _ => λ a r, r = Ok (a_out a) | _ => λ _ _, False end
  | Statx _ _ _ _ => λ f, match f with c_statx _ _ _ _ => λ a r, r = Ok (statx_to_stat (a_out a)) | _ => λ _ _, False end
  | Fstatvfs _ => λ f, match f with c_fstatvfs _ => λ a r, r = Ok (a_out a) | _ => λ _ _, False end
  | IoctlLong _ _ _ => λ f, match f with c_ioctl_long _ _ _ => λ a r, r = Ok (a_out a) | _ => λ _ _, False end
  | NameToHandleAt _ _ _ => λ f,
      match f with
      | c_name_to_handle_at _ _ _ _ => λ a r, r = Ok (take (Z.to_nat (a_out a).1) (a_out a).2)
      | _ => λ _ _, False
      end
  | Realpath _ => λ f a r, r = Ok (CStr_from_ptr (bytes_of f a))
  | Readlinkat _ _ | Fgetxattr _ _ _ | Lgetxattr _ _ _ | Llistxattr _ _ | Flistxattr _ _ | Read _ _ | Pread _ _ _ => λ f a r,
      r = Ok (take (Z.to_nat (a_ret a)) (bytes_of f a))
  | Openat2 _ _ _ _ _ | OpenPath _ _ _ | Write _ _ | Sendfile _ _ _ | Pwrite _ _ _ | Lseek _ _ _
  | CopyFileRange _ _ _ _ _ | OpenBacking _ => λ f a r, r = Ok (a_ret a)
  | ReadDir _ | ReadDirDup _ => λ _ _ _, False
  | _ => λ _ _ r, r = Ok tt
  end.



(** ** Directory streams *)

(** From the library's state [w], [dir] gives the entries [es] and then a null
    pointer; [er] is what that last call does to [errno]. *)
Inductive stream {W} (K : ∀ c, W → answer c * W) (dir : Z) : W → list RawDirEntry → option Z → W → Prop :=
| stream_null w : a_ret (K (c_readdir dir) w).1 = 0 →
    stream K dir w [] (a_errno (K (c_readdir dir) w).1) (K (c_readdir dir) w).2
| stream_entry w es er w' :
    a_ret (K (c_readdir dir) w).1 ≠ 0 →
    stream K dir (K (c_readdir dir) w).2 es er w' →
    let d := a_out (K (c_readdir dir) w).1 in
    stream K dir w
      ({| rde_name := CStr_from_ptr (d_name d); rde_ino := d_ino d; rde_dtype := d_type d |} :: es) er w'.

Lemma entries_stream {W} (K : ∀ c, W → answer c * W) dir w es er w' fuel e :
  stream K dir w es er w' → (length es < fuel)%nat →
  ∃ e', frun K (entries fuel dir e) w = Some (es, e', w') ∧ (∀ n, er = Some n → e' = n).
Proof.
  intros Hs. revert fuel e. induction Hs as [w Hret|w es er w' Hret Hs IH d0]; intros [|fuel] e; try subst d0; cbn [length]; try lia;
    intros Hf; cbn [entries]; unfold next_entry; rewrite !frun_fm_bind; cbn.
  - destruct (K (c_readdir dir) w) as [[ret err d] w1]. cbn in *. subst ret. cbn.
    eexists. split; [done|]. by intros n ->.
  - destruct (K (c_readdir dir) w) as [[ret err d] w1]. cbn in *. destruct (Z.eqb_spec ret 0) as [|_]; [done|].
    destruct (IH fuel (default e err)) as (e' & E & He); [lia|]. rewrite frun_fm_bind, E. by exists e'.
Qed.

(** A directory that cannot be read to its end looks like one that ends
    there.  [readdir] returns a null pointer at the end of the stream and also
    when it fails, when it sets [errno] as well; [next_entry] gives [None] for
    both, so the listing succeeds with the entries so far, whatever [errno]
    the last call left. *)
Theorem read_error_ends_listing `{DevT} {W : Type} (K : ∀ c, W → answer c * W) (dir_fuel : nat)
    (fd e : Z) (w : W) (es : list RawDirEntry) (er : option Z) (w' : W)
    (Hopen : a_ret (K (c_fdopendir fd) w).1 ≠ 0)
    (Hstream : stream K (a_ret (K (c_fdopendir fd) w).1) (K (c_fdopendir fd) w).2 es er w')
    (Hfuel : (length es < dir_fuel)%nat) :
  ∃ e' w'', frun K (wrapper dir_fuel (ReadDir fd) e) w = Some (Ok es, e', w'').
Proof.
  cbn [wrapper]. unfold read_stream, DirStream_from_fd. rewrite !frun_fm_bind. cbn.
  destruct (K (c_fdopendir fd) w) as [[dir err []] w1]. cbn in *.
  rewrite (proj2 (Z.eqb_neq dir 0) Hopen). cbn. rewrite frun_fm_bind.
  destruct (entries_stream K dir w1 es er w' dir_fuel (default e err) Hstream Hfuel) as (e' & E & _).
  rewrite E. cbn. destruct (K (c_closedir dir) w') as [[ret' err' []] w2]. cbn. by eexists _, _.
Qed.

(** A stream that has one entry and then fails with EIO; its state is the
    number of entries left. *)
Definition failing_stream (c : ffi) (w : nat) : answer c * nat :=
  match c with
  | c_fdopendir _ => ({| a_ret := 5; a_errno := None; a_out := tt : out (c_fdopendir _) |}, w)
  | c_readdir dir =>
      let d := {| d_ino := 8; d_type := 8; d_name := bs "a" ++ [NUL] |} in
      match w with
      | O => ({| a_ret := 0; a_errno := Some EIO; a_out := d : out (c_readdir dir) |}, O)
      | S w => ({| a_ret := 1; a_errno := None; a_out := d : out (c_readdir dir) |}, w)
      end
  | c => ((no_library c tt).1, w)
  end.

Lemma read_error_ends_listing_witness :
  ∃ e' w'', frun failing_stream (@wrapper DevT_halves 3 (ReadDir 4) 0) 1%nat =
    Some (Ok [{| rde_name := bs "a"; rde_ino := 8; rde_dtype := 8 |}], e', w'').
Proof.
  apply (@read_error_ends_listing DevT_halves nat failing_stream 3 4 0 1%nat _ (Some EIO) 0%nat); [done| |cbn; lia].
  apply (stream_entry failing_stream 5 1%nat []); [done|]. apply (stream_null failing_stream 5 0%nat). done.
Defined.
