(* ===== verification/DataSource.v ===== *)
(** * Data sources (src/src/datasource.rs, src/src/direct.rs)

    The [DataSource] trait as a record of operations, and its implementation
    [DirectAccess], which reaches every file of a layer through [safe_openat]
    or through one name below a directory opened by it. *)

From S2P Require Import Prelude Libc Sys Xattr Openat2 Node.
Local Open Scope Z_scope.

Definition XATTR_OVERRIDE_STAT : bytes := bs "user.fuseoverlayfs.override_stat".
Definition XATTR_PRIVILEGED_OVERRIDE_STAT : bytes := bs "security.fuseoverlayfs.override_stat".
Definition XATTR_OVERRIDE_CONTAINERS_STAT : bytes := bs "user.containers.override_stat".

(** The operations of a layer; the buffers they fill are their answers, and
    [opendir] gives what its iterator yields. *)
Record DataSource := {
  file_exists : bytes → SM unit (FsResult bool);
  statat : bytes → Z → Z → SM unit (FsResult stat);
  ds_fstat : RawFd → bytes → Z → SM unit (FsResult stat);
  opendir : bytes → SM unit (FsResult (list RawDirEntry));
  openat : bytes → Z → Z → SM unit (FsResult RawFd);
  listxattr : bytes → Z → SM unit (FsResult bytes);
  getxattr : bytes → bytes → Z → SM unit (FsResult bytes);
  ds_readlinkat : bytes → SM unit (FsResult bytes);
  get_nfs_filehandle : bytes → SM unit Z;
  root_fd : RawFd;
  ds_st_dev : Z;
  stat_override_mode : StatOverrideMode;
  nfs_filehandles : Z
}.

Module Direct.
(** [DirectAccess] *)
Record DirectAccess := {
  resolved_path : bytes;
  da_fd : option RawFd;
  dev : Z;
  stat_override : StatOverrideMode;
  nfs_fh : Z;
  fh_size : Z
}.

Definition new : DirectAccess := {|
  resolved_path := []; da_fd := None; dev := 0; stat_override := ModeNone; nfs_fh := 0; fh_size := 0
|}.

Definition set_stat_override (mode : StatOverrideMode) (d : DirectAccess) : DirectAccess := {|
  resolved_path := resolved_path d; da_fd := da_fd d; dev := dev d; stat_override := mode;
  nfs_fh := nfs_fh d; fh_size := fh_size d
|}.

Definition fd (d : DirectAccess) : RawFd := default (-1) (da_fd d).

(** The NFS state and the size of a handle; [AT_FDCWD] is -100. *)
Definition probe_nfs_handles {S} (path : bytes) : SM S (Z * Z) :=
  let! r := (try! c_path := sm_ret (cstr_bytes path) in
             sm_call (NameToHandleAt (-100) c_path 0)) in
  sm_ret (match r with
          | Ok handle => (1, Z.of_nat (length handle))
          | Err e => if e =? ENOTSUP then (0, 0) else (-1, 0)
          end).

Definition load_data_source {S} (path : bytes) : SM S (FsResult DirectAccess) :=
  try! c_path := sm_ret (cstr_bytes path) in
  try! resolved := sm_call (Realpath c_path) in
  try! fd := open_trusted path O_DIRECTORY 0 in
  try! st := sm_call (Fstat fd) in
  let! (nfs_fh, fh_size) := probe_nfs_handles resolved in
  let! privileged := sm_call (Fgetxattr fd XATTR_PRIVILEGED_OVERRIDE_STAT 64) in
  let! mode :=
    (if is_ok privileged then sm_ret ModePrivileged
     else
       let! containers := sm_call (Fgetxattr fd XATTR_OVERRIDE_CONTAINERS_STAT 64) in
       if is_ok containers then sm_ret ModeContainers
       else
         let! user := sm_call (Fgetxattr fd XATTR_OVERRIDE_STAT 64) in
         sm_ret (if is_ok user then ModeUser else ModeNone)) in
  sm_ret (Ok {| resolved_path := resolved; da_fd := Some fd; dev := st_dev st;
                stat_override := mode; nfs_fh := nfs_fh; fh_size := fh_size |}).

Section ops.
Context (self : DirectAccess).

(** The open descriptor of the parent of [path] and the name below it. *)
Definition parent_of (path : bytes) : SM unit (FsResult (RawFd * bytes)) :=
  try! (parent_fd, basename) := open_parent_safe (fd self) path in
  sm_ret (Ok (default (fd self) parent_fd, basename)).

Definition direct_file_exists (path : bytes) : SM unit (FsResult bool) :=
  try! (dirfd, basename) := parent_of path in
  let! b := file_exists_at dirfd basename in
  sm_ret (Ok b).

Definition direct_statat (path : bytes) (flags mask : Z) : SM unit (FsResult stat) :=
  try! (dirfd, basename) := parent_of path in
  try! c_name := sm_ret (cstr_bytes basename) in
  let! r := sm_call (Statx dirfd c_name (Z.lor AT_STATX_DONT_SYNC flags) mask) in
  match r with
  | Ok stx => sm_ret (Ok stx)
  | Err e =>
      if (e =? ENOSYS) || (e =? EINVAL) then sm_call (Fstatat dirfd c_name flags)
      else sm_ret (Err e)
  end.

Definition direct_fstat (fd : RawFd) (_path : bytes) (mask : Z) : SM unit (FsResult stat) :=
  let! r := sm_call (Statx fd [] (Z.lor AT_STATX_DONT_SYNC AT_EMPTY_PATH) mask) in
  match r with
  | Ok stx => sm_ret (Ok stx)
  | Err e =>
      if (e =? ENOSYS) || (e =? EINVAL) then sm_call (Fstat fd) else sm_ret (Err e)
  end.

Definition direct_opendir (path : bytes) : SM unit (FsResult (list RawDirEntry)) :=
  try! safe_fd := safe_openat (fd self) path (Z.lor O_DIRECTORY O_NOFOLLOW) 0 in
  sm_call (ReadDir safe_fd).

Definition direct_openat (path : bytes) (flags mode : Z) : SM unit (FsResult RawFd) :=
  safe_openat (fd self) path flags mode.

Definition direct_listxattr (path : bytes) (buf : Z) : SM unit (FsResult bytes) :=
  try! (dirfd, basename) := parent_of path in
  try! c_path := sm_ret (cstr_bytes (proc_fd_path dirfd basename)) in
  sm_call (Llistxattr c_path buf).

Definition direct_getxattr (path name : bytes) (buf : Z) : SM unit (FsResult bytes) :=
  try! (dirfd, basename) := parent_of path in
  try! c_path := sm_ret (cstr_bytes (proc_fd_path dirfd basename)) in
  try! c_name := sm_ret (cstr_bytes name) in
  sm_call (Lgetxattr c_path c_name buf).

Definition direct_readlinkat (path : bytes) : SM unit (FsResult bytes) :=
  try! (dirfd, basename) := parent_of path in
  try! c_name := sm_ret (cstr_bytes basename) in
  sm_call (Readlinkat dirfd c_name).

(** A handle hash, or 0; [fnv1a_hash] of sys/handle.rs is the node name's. *)
Definition direct_get_nfs_filehandle (path : bytes) : SM unit Z :=
  if negb (nfs_fh self =? 1) || (fh_size self =? 0) then sm_ret 0
  else
    let! r := (try! (dirfd, basename) := parent_of path in
               try! c_path := sm_ret (cstr_bytes basename) in
               sm_call (NameToHandleAt dirfd c_path 0)) in
    sm_ret (match r with Ok handle => fnv1a_name_hash handle | Err _ => 0 end).

(** [impl DataSource for DirectAccess] *)
Definition direct_source : DataSource := {|
  file_exists := direct_file_exists;
  statat := direct_statat;
  ds_fstat := direct_fstat;
  opendir := direct_opendir;
  openat := direct_openat;
  listxattr := direct_listxattr;
  getxattr := direct_getxattr;
  ds_readlinkat := direct_readlinkat;
  get_nfs_filehandle := direct_get_nfs_filehandle;
  root_fd := fd self;
  ds_st_dev := dev self;
  stat_override_mode := stat_override self;
  nfs_filehandles := nfs_fh self
|}.
End ops.
End Direct.
