(* ===== verification/Whiteout.v ===== *)
(** * Whiteouts and opaque directories (src/src/whiteout.rs)

    The two whiteout styles (a character device 0:0 at the name, a
    [.wh.<name>] file) and the two opacity marks (an xattr, the sentinel
    [.wh..wh..opq]).  The static [CAN_MKNOD] is the state of the functions
    that read or clear it. *)

From S2P Require Import Prelude Libc Sys Xattr Openat2 DataSource.
Local Open Scope Z_scope.

Section whiteout.
Context `{DevT}.

(** The test of [is_directory_opaque] on one attribute. *)
Definition is_y (r : FsResult bytes) : bool :=
  match r with
  | Ok (c :: _) => bool_decide (c = "y"%char)
  | _ => false
  end.

Definition is_directory_opaque (ds : DataSource) (path : bytes) : SM unit (FsResult bool) :=
  let! r1 := getxattr ds path PRIVILEGED_OPAQUE_XATTR 16 in
  if is_y r1 then sm_ret (Ok true)
  else
    let! r2 := getxattr ds path UNPRIVILEGED_OPAQUE_XATTR 16 in
    if is_y r2 then sm_ret (Ok true)
    else
      let! r3 := getxattr ds path OPAQUE_XATTR 16 in
      if is_y r3 then sm_ret (Ok true)
      else
        let opq_path := path ++ SLASH :: OPAQUE_WHITEOUT in
        let! r := file_exists ds opq_path in
        sm_ret (match r with
                | Ok b => Ok b
                | Err e => if e =? ENOENT then Ok false else Err e
                end).

Definition set_fd_opaque {S} (fd : RawFd) : SM S (FsResult unit) :=
  try! xattr_set :=
    (let! r := sm_call (Fsetxattr fd PRIVILEGED_OPAQUE_XATTR (bs "y") 0) in
     match r with
     | Ok _ => sm_ret (Ok true)
     | Err e =>
         if e =? ENOTSUP then sm_ret (Ok false)
         else if e =? EPERM then
           let! r := sm_call (Fsetxattr fd UNPRIVILEGED_OPAQUE_XATTR (bs "y") 0) in
           sm_ret (match r with
                   | Ok _ => Ok true
                   | Err e => if e =? ENOTSUP then Ok false else Err e
                   end)
         else sm_ret (Err e)
     end) in
  let! opq_result :=
    safe_openat fd OPAQUE_WHITEOUT (Z.lor O_CREAT (Z.lor O_WRONLY O_NONBLOCK)) MODE_700 in
  match opq_result with
  | Ok _ => sm_ret (Ok tt)
  | Err e => sm_ret (if xattr_set : bool then Ok tt else Err e)
  end.

(** A character device 0:0. *)
Definition is_chardev_whiteout (st : stat) : bool :=
  (file_type (st_mode st) =? S_IFCHR) && (major (st_rdev st) =? 0) && (minor (st_rdev st) =? 0).

Definition WH_PREFIX : bytes := bs ".wh.".

Definition delete_whiteout (upper_fd : RawFd) (dirfd : option RawFd) (parent_path name : bytes)
    : SM bool (FsResult unit) :=
  try! parent_safe :=
    (if bool_decide (dirfd = None) && negb (bool_decide (parent_path = bs ".")) then
       try! f := safe_openat upper_fd parent_path (Z.lor O_DIRECTORY (Z.lor O_NOFOLLOW O_PATH)) 0 in
       sm_ret (Ok (Some f))
     else sm_ret (Ok None)) in
  let dfd := match dirfd with Some f => f | None => default upper_fd parent_safe end in
  let! can_mknod := sm_get in
  try! _ :=
    (if can_mknod : bool then
       try! c_name := sm_ret (cstr_bytes name) in
       let! r := sm_call (Fstatat dfd c_name AT_SYMLINK_NOFOLLOW) in
       match r with
       | Ok st => if is_chardev_whiteout st then sm_call (Unlinkat dfd c_name 0) else sm_ret (Ok tt)
       | Err _ => sm_ret (Ok tt)
       end
     else sm_ret (Ok tt)) in
  try! c_wh := sm_ret (cstr_bytes (WH_PREFIX ++ name)) in
  let! r := sm_call (Unlinkat dfd c_wh 0) in
  sm_ret (match r with
          | Ok _ => Ok tt
          | Err e => if e =? ENOENT then Ok tt else Err e
          end).

(** The [.wh.<name>] file of [create_whiteout]. *)
Definition create_wh_file (pfd : RawFd) (name : bytes) : SM bool (FsResult unit) :=
  try! _ := safe_openat pfd (WH_PREFIX ++ name) (Z.lor O_CREAT (Z.lor O_WRONLY O_NONBLOCK)) MODE_700 in
  sm_ret (Ok tt).

Definition create_whiteout (dirfd : RawFd) (parent_path name : bytes) (can_mknod : bool)
    : SM bool (FsResult unit) :=
  try! parent_fd :=
    (if negb (bool_decide (parent_path = bs ".")) then
       try! f := safe_openat dirfd parent_path (Z.lor O_DIRECTORY (Z.lor O_NOFOLLOW O_PATH)) 0 in
       sm_ret (Ok (Some f))
     else sm_ret (Ok None)) in
  let pfd := default dirfd parent_fd in
  if can_mknod then
    try! c_name := sm_ret (cstr_bytes name) in
    let! r := sm_call (Mknodat pfd c_name (Z.lor S_IFCHR MODE_700) (makedev 0 0)) in
    match r with
    | Ok _ => sm_ret (Ok tt)
    | Err e =>
        if e =? EEXIST then
          let! r := sm_call (Fstatat pfd c_name AT_SYMLINK_NOFOLLOW) in
          match r with
          | Ok st => sm_ret (if is_chardev_whiteout st then Ok tt else Err EEXIST)
          | Err _ => sm_ret (Err EEXIST)
          end
        else if (e =? EPERM) || (e =? ENOTSUP) then
          (* CAN_MKNOD.store(false): fall through to the .wh. file *)
          sm_modify (λ _, false) ;;; create_wh_file pfd name
        else sm_ret (Err e)
    end
  else create_wh_file pfd name.
End whiteout.
