(* ===== verification/Layer.v ===== *)
(** * Layers (src/src/layer.rs)

    A layer is a data source and whether it is a lower one; [init_layers]
    opens the configured directories, the upper one first. *)

From S2P Require Import Prelude Libc Sys Xattr Config Openat2 DataSource.
Local Open Scope Z_scope.

Record OvlLayer := { ds : DataSource; low : bool }.

Definition from_datasource (ds : DataSource) (low : bool) : OvlLayer := {| ds := ds; low := low |}.
Definition layer_root_fd (l : OvlLayer) : RawFd := root_fd (ds l).
Definition layer_st_dev (l : OvlLayer) : Z := ds_st_dev (ds l).
Definition layer_stat_override_mode (l : OvlLayer) : StatOverrideMode := stat_override_mode (ds l).

(** What stops [init_layers]; the source makes a message of it. *)
Inductive InitError :=
| UpperFailed (dir : bytes) (e : Z)
| LowerFailed (dir : bytes) (e : Z)
| UpperNoHandles
| LowerNoHandles (dir : bytes)
| NoLayers.

Section init_layers.
Context (nfs_filehandles_config xattr_permissions : Z).

Definition init_upper (upper : bytes) : SM unit (result InitError OvlLayer) :=
  let! r := Direct.load_data_source upper in
  match r with
  | Err e => sm_ret (Err (UpperFailed upper e))
  | Ok ds =>
      let ds :=
        if bool_decide (Direct.stat_override ds = ModeNone) then
          if xattr_permissions =? 1 then Direct.set_stat_override ModePrivileged ds
          else if xattr_permissions =? 2 then Direct.set_stat_override ModeContainers ds
          else ds
        else ds in
      sm_ret (if (nfs_filehandles_config =? 2) && negb (Direct.nfs_fh ds =? 1)
              then Err UpperNoHandles
              else Ok (from_datasource (Direct.direct_source ds) false))
  end.

(** The loop over the lower directories, after the layers so far. *)
Fixpoint init_lowers (layers : list OvlLayer) (dirs : list bytes)
    : SM unit (result InitError (list OvlLayer)) :=
  match dirs with
  | [] => sm_ret (Ok layers)
  | dir :: dirs' =>
      match parse_plugin_path dir with
      | Some _ => init_lowers layers dirs'
      | None =>
          let! r := Direct.load_data_source dir in
          match r with
          | Err e => sm_ret (Err (LowerFailed dir e))
          | Ok ds =>
              if (nfs_filehandles_config =? 2) && negb (Direct.nfs_fh ds =? 1)
              then sm_ret (Err (LowerNoHandles dir))
              else init_lowers (layers ++ [from_datasource (Direct.direct_source ds) true]) dirs'
          end
      end
  end.

Definition init_layers (lowerdir : bytes) (upperdir : option bytes)
    : SM unit (result InitError (list OvlLayer)) :=
  let dirs := parse_lowerdir lowerdir in
  let! r := match upperdir with
            | Some upper => let! r := init_upper upper in
                            sm_ret (let? l := r in Ok [l])
            | None => sm_ret (Ok [])
            end in
  match r with
  | Err e => sm_ret (Err e)
  | Ok layers =>
      let! r := init_lowers layers dirs in
      sm_ret (let? layers := r in
              match layers with
              | [] => Err NoLayers
              | _ => Ok layers
              end)
  end.
End init_layers.

Definition all_same_device (layers : list OvlLayer) : bool :=
  match layers with
  | [] => true
  | l0 :: _ => forallb (λ l, layer_st_dev l =? layer_st_dev l0) layers
  end.
