(* ===== verification/Copyup.v ===== *)
(** * Copy-up (src/src/copyup.rs)

    Copies a file or a directory of a lower layer to the upper one: the
    content is prepared under a fresh name in the work directory and moved in
    place by one rename.  The mutable borrows of the source are the state
    [CopyState]: the arena, the work-name counter and the static [CAN_MKNOD].

    The loops of [copy_data] wait for the kernel, and have the fuel
    [copy_fuel]; the recursion of [create_node_directory] on the parent links
    has one unit per node of the arena. *)

From S2P Require Import Prelude Libc Sys Xattr Openat2 Node DataSource Whiteout Layer.
Local Open Scope Z_scope.

Record CopyState := { cs_nodes : NodeArena; cs_wd_counter : Z; cs_can_mknod : bool }.

Definition set_cs_nodes (v : NodeArena) (s : CopyState) : CopyState :=
  {| cs_nodes := v; cs_wd_counter := cs_wd_counter s; cs_can_mknod := cs_can_mknod s |}.
Definition set_cs_wd_counter (v : Z) (s : CopyState) : CopyState :=
  {| cs_nodes := cs_nodes s; cs_wd_counter := v; cs_can_mknod := cs_can_mknod s |}.
Definition set_cs_can_mknod (v : bool) (s : CopyState) : CopyState :=
  {| cs_nodes := cs_nodes s; cs_wd_counter := cs_wd_counter s; cs_can_mknod := v |}.

(** [nodes.get_mut(id)]: update a node when it is there. *)
Definition cs_alter (f : OvlNode → OvlNode) (id : NodeId) (s : CopyState) : CopyState :=
  set_cs_nodes (arena_alter f id (cs_nodes s)) s.

Definition stat_times (st : stat) : timespec * timespec :=
  ({| tv_sec := st_atime st; tv_nsec := st_atime_nsec st |},
   {| tv_sec := st_mtime st; tv_nsec := st_mtime_nsec st |}).

(** The counter in decimal has no NUL: the [unwrap] cannot fail. *)
Definition next_wd_name : SM CopyState bytes :=
  let! s := sm_get in
  sm_modify (set_cs_wd_counter (wrap_u64 (cs_wd_counter s + 1))) ;;;
  sm_ret (print_dec (cs_wd_counter s)).

Section copy.
Context {S : Type}.

(** The internal names [copy_xattr] skips. *)
Definition internal_xattr (name : bytes) : bool :=
  starts_with PRIVILEGED_XATTR_PREFIX name || starts_with UNPRIVILEGED_XATTR_PREFIX name
  || starts_with XATTR_PREFIX name.

Fixpoint copy_xattr_names (sfd dfd : RawFd) (names : list bytes) : SM S (FsResult unit) :=
  match names with
  | [] => sm_ret (Ok tt)
  | name :: names' =>
      if internal_xattr name then copy_xattr_names sfd dfd names'
      else
        let! r := sm_call (Fgetxattr sfd name 65536) in
        match r with
        | Err e => if e =? ENODATA then copy_xattr_names sfd dfd names' else sm_ret (Err e)
        | Ok value =>
            let! r := sm_call (Fsetxattr dfd name value 0) in
            match r with
            | Ok _ => copy_xattr_names sfd dfd names'
            | Err e =>
                if (e =? EPERM) || (e =? ENOTSUP) then copy_xattr_names sfd dfd names'
                else sm_ret (Err e)
            end
        end
  end.

(** The names of a NUL-separated list, without the empty and non-UTF-8 ones. *)
Definition xattr_names (l : bytes) : list bytes :=
  filter (λ s, s ≠ [] ∧ valid_utf8 s = true) (split_on NUL l).

Definition copy_xattr (sfd dfd : RawFd) : SM S (FsResult unit) :=
  let! r := sm_call (Flistxattr sfd 65536) in
  match r with
  | Err e => sm_ret (if (e =? ENOTSUP) || (e =? ENODATA) then Ok tt else Err e)
  | Ok l => copy_xattr_names sfd dfd (xattr_names l)
  end.

(** [while copied < size]: [None] when the copy is done (end of the file),
    otherwise how much was copied when the loop ended. *)
Fixpoint sendfile_loop (fuel : nat) (sfd dfd : RawFd) (size copied : Z) : SM S (option Z) :=
  if copied <? size then
    match fuel with
    | O => sm_nofuel
    | Datatypes.S fuel =>
        let! r := sm_call (Sendfile dfd sfd (size - copied)) in
        match r with
        | Err e => if e =? EINTR then sendfile_loop fuel sfd dfd size copied
                   else sm_ret (Some copied)
        | Ok n => if n =? 0 then sm_ret None
                  else sendfile_loop fuel sfd dfd size (copied + n)
        end
    end
  else sm_ret (Some copied).

(** [while written < nread] over what is left of the buffer. *)
Fixpoint write_loop (fuel : nat) (dfd : RawFd) (buf : bytes) : SM S (FsResult unit) :=
  match buf with
  | [] => sm_ret (Ok tt)
  | _ =>
      match fuel with
      | O => sm_nofuel
      | Datatypes.S fuel =>
          try! n := sm_call (Write dfd buf) in
          write_loop fuel dfd (drop (Z.to_nat n) buf)
      end
  end.

Fixpoint read_loop (fuel : nat) (sfd dfd : RawFd) : SM S (FsResult unit) :=
  match fuel with
  | O => sm_nofuel
  | Datatypes.S fuel' =>
      try! buf := sm_call (Read sfd (2 ^ 20)) in
      match buf with
      | [] => sm_ret (Ok tt)
      | _ =>
          try! _ := write_loop fuel dfd buf in
          read_loop fuel' sfd dfd
      end
  end.

(** FICLONE, then sendfile, then read and write. *)
Definition copy_data (copy_fuel : nat) (sfd dfd : RawFd) (size : Z) : SM S (FsResult unit) :=
  let! r := sm_call (Ficlone dfd sfd) in
  if is_ok r then sm_ret (Ok tt)
  else
    let! sent := sendfile_loop copy_fuel sfd dfd size 0 in
    match sent with
    | None => sm_ret (Ok tt)
    | Some copied =>
        if size <=? copied then sm_ret (Ok tt) else read_loop copy_fuel sfd dfd
    end.
End copy.

Section copyup.
Context `{DevT} (copy_fuel : nat) (layers : list OvlLayer) (workdir_fd : RawFd).

(** The node, or ENOENT. *)
Definition cs_node (id : NodeId) : SM CopyState (FsResult OvlNode) :=
  sm_gets (λ s, ok_or ENOENT (arena_get (cs_nodes s) id)).
Definition cs_path (id : NodeId) : SM CopyState bytes :=
  let! s := sm_get in sm_fuel (compute_path (cs_nodes s) id).
Definition cs_delete_whiteout (upper_fd : RawFd) (dirfd : option RawFd) (parent_path name : bytes)
    : SM CopyState (FsResult unit) :=
  zoom cs_can_mknod set_cs_can_mknod (delete_whiteout upper_fd dirfd parent_path name).

(** Move the new directory in place: the [match] on [renameat] of
    [create_node_directory]. *)
Definition move_directory {S} (c_wd_name : bytes) (dst_dirfd : RawFd) (c_dst_name : bytes)
    : SM S (FsResult unit) :=
  let! r := sm_call (Renameat workdir_fd c_wd_name dst_dirfd c_dst_name) in
  match r with
  | Ok _ => sm_ret (Ok tt)
  | Err e =>
      if (e =? EEXIST) || (e =? ENOTEMPTY) then
        let! r := sm_call (Renameat2 workdir_fd c_wd_name dst_dirfd c_dst_name RENAME_EXCHANGE) in
        let! _ := sm_call (Unlinkat workdir_fd c_wd_name AT_REMOVEDIR) in
        sm_ret r
      else if e =? ENOTDIR then
        let! _ := sm_call (Unlinkat dst_dirfd c_dst_name 0) in
        let! r := sm_call (Renameat workdir_fd c_wd_name dst_dirfd c_dst_name) in
        match r with
        | Ok _ => sm_ret (Ok tt)
        | Err e =>
            let! _ := sm_call (Unlinkat workdir_fd c_wd_name AT_REMOVEDIR) in
            sm_ret (Err e)
        end
      else
        let! _ := sm_call (Unlinkat workdir_fd c_wd_name AT_REMOVEDIR) in
        sm_ret (Err e)
  end.

(** The body of [create_node_directory] after the parent is on the upper
    layer. *)
Definition create_one_directory (node_id : NodeId) : SM CopyState (FsResult unit) :=
  let! path := cs_path node_id in
  try! node := cs_node node_id in
  try! layer := sm_ret (ok_or ENOENT (layers !! layer_idx node)) in
  try! upper := sm_ret (ok_or EROFS (head layers)) in
  let upper_fd := root_fd (ds upper) in
  try! sfd := stateless (openat (ds layer) path (Z.lor O_RDONLY O_NONBLOCK) MODE_755) in
  try! st := sm_call (Fstat sfd) in
  let! wd_name := next_wd_name in
  try! _ := sm_call (Mkdirat workdir_fd wd_name (Z.lor (st_mode st) MODE_755)) in
  try! dfd := safe_openat workdir_fd wd_name O_RDONLY 0 in
  let! _ := sm_call (Fchown dfd (st_uid st) (st_gid st)) in
  let! _ := sm_call (Futimens dfd (stat_times st)) in
  let! _ := copy_xattr sfd dfd in
  try! (guard, dst_dirfd, c_dst_name) := open_parent_safe_cstr upper_fd path in
  try! _ := move_directory wd_name dst_dirfd c_dst_name in
  sm_modify (cs_alter (set_layer_idx 0) node_id) ;;;
  match parent node with
  | Some pid =>
      let! parent_path := cs_path pid in
      let! _ := cs_delete_whiteout upper_fd None parent_path (name node) in
      sm_ret (Ok tt)
  | None => sm_ret (Ok tt)
  end.

Fixpoint create_node_directory_go (fuel : nat) (node_id : NodeId) : SM CopyState (FsResult unit) :=
  try! node := cs_node node_id in
  try! upper_ref := sm_ret (ok_or EROFS (head layers)) in
  if (layer_idx node =? 0)%nat && negb (low upper_ref) then sm_ret (Ok tt)
  else
    try! _ :=
      match parent node with
      | Some parent_id =>
          let! s := sm_get in
          let parent_layer := default 0%nat (layer_idx <$> arena_get (cs_nodes s) parent_id) in
          if negb (parent_layer =? 0)%nat || low upper_ref then
            match fuel with
            | O => sm_nofuel
            | Datatypes.S fuel => create_node_directory_go fuel parent_id
            end
          else sm_ret (Ok tt)
      | None => sm_ret (Ok tt)
      end in
    create_one_directory node_id.

Definition create_node_directory (node_id : NodeId) : SM CopyState (FsResult unit) :=
  let! s := sm_get in
  create_node_directory_go (size (arena_map (cs_nodes s))) node_id.

(** Rename the prepared work file over its place: shared by the three kinds
    of [copyup]. *)
Definition move_file {S} (c_wd_name : bytes) (dst_dirfd : RawFd) (c_dst_name : bytes)
    : SM S (FsResult unit) :=
  let! r := sm_call (Renameat workdir_fd c_wd_name dst_dirfd c_dst_name) in
  match r with
  | Ok _ => sm_ret (Ok tt)
  | Err e =>
      let! _ := sm_call (Unlinkat workdir_fd c_wd_name 0) in
      sm_ret (Err e)
  end.

Definition copyup_symlink (src : DataSource) (upper_fd : RawFd) (node_id : NodeId) (path : bytes)
    (st : stat) : SM CopyState (FsResult unit) :=
  try! target := stateless (ds_readlinkat src path) in
  try! c_target := sm_ret (cstr_bytes target) in
  let! wd_name := next_wd_name in
  try! _ := sm_call (Symlinkat c_target workdir_fd wd_name) in
  let! _ := sm_call (Fchownat workdir_fd wd_name (st_uid st) (st_gid st) AT_SYMLINK_NOFOLLOW) in
  try! (guard, dst_dirfd, c_dst_name) := open_parent_safe_cstr upper_fd path in
  try! _ := move_file wd_name dst_dirfd c_dst_name in
  sm_modify (cs_alter (set_layer_idx 0) node_id) ;;;
  sm_ret (Ok tt).

Definition copyup_special (src : DataSource) (upper_fd : RawFd) (node_id : NodeId) (path : bytes)
    (st : stat) : SM CopyState (FsResult unit) :=
  let! wd_name := next_wd_name in
  try! _ := sm_call (Mknodat workdir_fd wd_name (st_mode st) (st_rdev st)) in
  let! _ := sm_call (Fchownat workdir_fd wd_name (st_uid st) (st_gid st) AT_SYMLINK_NOFOLLOW) in
  let! r := safe_openat workdir_fd wd_name (Z.lor O_RDONLY (Z.lor O_NOFOLLOW O_NONBLOCK)) 0 in
  match r with
  | Ok wd_fd =>
      let! r := stateless (openat src path (Z.lor O_RDONLY (Z.lor O_NOFOLLOW O_NONBLOCK)) 0) in
      match r with
      | Ok sfd => let! _ := copy_xattr sfd wd_fd in sm_ret tt
      | Err _ => sm_ret tt
      end
  | Err _ => sm_ret tt
  end ;;;
  try! (guard, dst_dirfd, c_dst_name) := open_parent_safe_cstr upper_fd path in
  try! _ := move_file wd_name dst_dirfd c_dst_name in
  sm_modify (cs_alter (set_layer_idx 0) node_id) ;;;
  sm_ret (Ok tt).

(** [path.rsplit(|b| b == '/').next()]: what follows the last slash. *)
Definition basename (path : bytes) : bytes :=
  match rsplit_once SLASH path with Some (_, b) => b | None => path end.

Definition copyup_regular (src : DataSource) (upper_fd : RawFd) (node_id : NodeId) (path : bytes)
    (st : stat) : SM CopyState (FsResult unit) :=
  let mode := st_mode st in
  let! wd_name := next_wd_name in
  try! sfd := stateless (openat src path (Z.lor O_RDONLY O_NOFOLLOW) 0) in
  try! dfd := safe_openat workdir_fd wd_name (Z.lor O_CREAT O_WRONLY) (Z.lor mode MODE_200) in
  let! _ := sm_call (Fchown dfd (st_uid st) (st_gid st)) in
  try! _ := copy_data copy_fuel sfd dfd (st_size st) in
  let! _ := sm_call (Futimens dfd (stat_times st)) in
  let! _ := copy_xattr sfd dfd in
  let! _ := sm_call (Fchmod dfd mode) in
  try! (guard, dst_dirfd, c_dst_name) := open_parent_safe_cstr upper_fd path in
  try! _ := move_file wd_name dst_dirfd c_dst_name in
  match cstr_bytes (WH_PREFIX ++ basename path) with
  | Ok wh_name => let! _ := sm_call (Unlinkat dst_dirfd wh_name 0) in sm_ret tt
  | Err _ => sm_ret tt
  end ;;;
  sm_modify (cs_alter (set_layer_idx 0) node_id) ;;;
  sm_ret (Ok tt).

(** [copyup] after the parent is there, by file type. *)
Definition copyup_kind (src : DataSource) (upper_fd : RawFd) (node_id : NodeId) (path : bytes)
    (st : stat) : SM CopyState (FsResult unit) :=
  let file_type := file_type (st_mode st) in
  if file_type =? S_IFDIR then
    try! _ := create_node_directory node_id in sm_ret (Ok tt)
  else if file_type =? S_IFLNK then copyup_symlink src upper_fd node_id path st
  else if (file_type =? S_IFCHR) || (file_type =? S_IFBLK) || (file_type =? S_IFIFO)
          || (file_type =? S_IFSOCK)
  then copyup_special src upper_fd node_id path st
  else copyup_regular src upper_fd node_id path st.

Definition copyup (node_id : NodeId) : SM CopyState (FsResult unit) :=
  try! upper := sm_ret (ok_or EROFS (head layers)) in
  if low upper then sm_ret (Err EROFS)
  else
    let! path := cs_path node_id in
    try! node := cs_node node_id in
    try! src_layer := sm_ret (ok_or ENOENT (layers !! layer_idx node)) in
    try! st := stateless (statat (ds src_layer) path AT_SYMLINK_NOFOLLOW STATX_BASIC_STATS) in
    try! _ := match parent node with
              | Some pid => create_node_directory pid
              | None => sm_ret (Ok tt)
              end in
    copyup_kind (ds src_layer) (root_fd (ds upper)) node_id path st.
End copyup.
