(* ===== verification/CopyData.v ===== *)
(** * Copying a file's data

    [copy_data] of copyup.rs against a kernel that copies: the policy [COPIES]
    keeps the offset of the source, what is in the destination, and how many
    times a call may still be interrupted.  It allows only the calls of the
    copy, and a loop that does not end is not allowed. *)

From S2P Require Import Prelude Libc Sys Copyup.
Local Open Scope Z_scope.

Record CopyGhost := { cg_pos : nat; cg_dst : bytes; cg_interrupts : nat }.

Section copies.
Context (content : bytes) (sfd dfd : RawFd).

(** [k] bytes from the offset on are appended to the destination. *)
Definition moves (k : nat) (g g' : CopyGhost) : Prop :=
  (cg_pos g + k <= length content)%nat ∧
  g' = {| cg_pos := cg_pos g + k; cg_dst := cg_dst g ++ take k (drop (cg_pos g) content);
          cg_interrupts := cg_interrupts g |}.

Definition copies_pre (g : CopyGhost) (c : sys) : Prop :=
  match c with
  | Ficlone d s | Sendfile d s _ => d = dfd ∧ s = sfd
  | Read s n => s = sfd
  | Write d _ => d = dfd
  | _ => False
  end.

(** A transfer moves some bytes, none only at the end of the source; a write of
    a non-empty buffer takes at least one byte; an interrupted call changes
    nothing. *)
Definition copies_post (g : CopyGhost) (c : sys) : resp c → CopyGhost → Prop :=
  match c with
  | Ficlone _ _ => λ r g',
      match r with
      | Ok _ => cg_dst g' = content
      | Err _ => g' = g
      end
  | Sendfile _ _ n => λ r g',
      match r with
      | Ok k => 0 <= k <= n ∧ (k = 0 → cg_pos g = length content) ∧ moves (Z.to_nat k) g g'
      | Err e =>
          if e =? EINTR
          then cg_interrupts g = S (cg_interrupts g') ∧ cg_pos g' = cg_pos g ∧ cg_dst g' = cg_dst g
          else g' = g
      end
  | Read _ n => λ r g',
      match r with
      | Ok buf =>
          (buf = [] → cg_pos g = length content) ∧ (cg_pos g + length buf <= length content)%nat ∧
          buf = take (length buf) (drop (cg_pos g) content) ∧
          g' = {| cg_pos := cg_pos g + length buf; cg_dst := cg_dst g; cg_interrupts := cg_interrupts g |}
      | Err _ => g' = g
      end
  | Write _ data => λ r g',
      match r with
      | Ok k => 0 < k <= Z.of_nat (length data) ∧
                g' = {| cg_pos := cg_pos g; cg_dst := cg_dst g ++ take (Z.to_nat k) data;
                        cg_interrupts := cg_interrupts g |}
      | Err _ => g' = g
      end
  | _ => λ _ _, False
  end.

Definition COPIES : policy :=
  {| ghost := CopyGhost; pol_pre := copies_pre; pol_post := copies_post; pol_diverge := False; pol_panic := False |}.

(** The destination is the source up to the offset. *)
Definition in_step (g : CopyGhost) : Prop :=
  (cg_pos g <= length content)%nat ∧ cg_dst g = take (cg_pos g) content.

Lemma moves_in_step k g g' : in_step g → moves k g g' → in_step g' ∧ cg_pos g' = (cg_pos g + k)%nat.
Proof using.
  intros [Hp Hd] [Hk ->]. split; [|done]. split; [done|]. simpl.
  rewrite Hd, take_take_drop. done.
Qed.

Context {S : Type}.
Implicit Types (s : S) (g : CopyGhost).

Lemma wp_sendfile fuel s g copied (Q : option Z → S → CopyGhost → Prop) :
  in_step g → copied = Z.of_nat (cg_pos g) →
  (length content - cg_pos g + cg_interrupts g < fuel)%nat →
  (∀ g', cg_dst g' = content → Q None s g') →
  (∀ g', in_step g' → Q (Some (Z.of_nat (cg_pos g'))) s g') →
  sm_wp COPIES (sendfile_loop fuel sfd dfd (Z.of_nat (length content)) copied) s g Q.
Proof using.
  intros Hg -> Hf HN HS. revert g Hg Hf. induction fuel as [|fuel IH]; intros g Hg Hf; [lia|].
  cbn [sendfile_loop]. destruct (Z.ltb_spec (Z.of_nat (cg_pos g)) (Z.of_nat (length content))) as [Hlt|];
    [|by apply HS].
  apply sm_wp_bind, sm_wp_call; [done|]. intros [k|e] g'; cbn.
  - intros (Hk & H0 & Hm). destruct (moves_in_step _ _ _ Hg Hm) as [Hg' Hpos].
    destruct (Z.eqb_spec k 0) as [->|Hne]; [specialize (H0 eq_refl); lia|].
    replace (Z.of_nat (cg_pos g) + k) with (Z.of_nat (cg_pos g')) by lia.
    apply IH; [done|]. destruct Hm as [Hle ->]. cbn in *. lia.
  - destruct (e =? EINTR).
    + intros (Hi & Hp & Hd). rewrite <-Hp. apply IH; [|lia]. destruct Hg. split; congruence.
    + intros ->. by apply HS.
Qed.

Lemma wp_write fuel : ∀ buf s g (Q : FsResult unit → S → CopyGhost → Prop),
  (length buf <= fuel)%nat →
  (∀ g', g' = {| cg_pos := cg_pos g; cg_dst := cg_dst g ++ buf; cg_interrupts := cg_interrupts g |} →
     Q (Ok tt) s g') →
  (∀ e g', Q (Err e) s g') →
  sm_wp COPIES (write_loop fuel dfd buf) s g Q.
Proof using.
  induction fuel as [|fuel IH]; intros [|c buf] s g Q Hf HOk HErr; cbn [write_loop]; try (simpl in Hf; lia);
    try (apply sm_wp_ret, HOk; rewrite app_nil_r; by destruct g).
  apply sm_wp_try, sm_wp_call; [done|]. intros [k|e] g'; [|intros _; apply HErr].
  intros [Hk ->]. cbn [length] in *. apply IH; [rewrite length_drop; simpl; lia| |done].
  intros g' ->. apply HOk. cbn. by rewrite <-app_assoc, take_drop.
Qed.

Lemma wp_read fuel : ∀ s g (Q : FsResult unit → S → CopyGhost → Prop),
  in_step g → (length content - cg_pos g < fuel)%nat →
  (∀ g', cg_dst g' = content → Q (Ok tt) s g') → (∀ e g', Q (Err e) s g') →
  sm_wp COPIES (read_loop fuel sfd dfd) s g Q.
Proof using.
  induction fuel as [|fuel IH]; intros s g Q [Hp Hd] Hf HOk HErr; [lia|]. cbn [read_loop].
  apply sm_wp_try, sm_wp_call; [done|]. intros [buf|e] g'; [|intros _; apply HErr].
  intros (H0 & Hle & Hbuf & ->). destruct buf as [|c buf].
  - apply sm_wp_ret, HOk. cbn. rewrite Hd, (H0 eq_refl). by apply take_ge.
  - apply sm_wp_try, wp_write; [lia| |intros; apply HErr]. intros g' ->. cbn in Hle |- *.
    apply IH; [split; cbn; [lia|]|cbn; lia|done|done].
    rewrite Hbuf, Hd. cbn. apply (take_take_drop content (cg_pos g) (Datatypes.S (length buf))).
Qed.
End copies.

(** C12. Copying ends and copies.  With a kernel whose copy calls move bytes of
    the source, of whatever number but some before the end, and interrupt a
    call only finitely often, [copy_data] returns: an error, or success with
    the destination equal to the source, whichever of the three methods moved
    the data and wherever the copy went from one to the next.  The fuel of one
    round per byte, and per interruption, is enough. *)
Theorem copy_data_copies {S} (content : bytes) (sfd dfd : RawFd) (fuel interrupts : nat) (s : S)
    (Hfuel : (length content + interrupts < fuel)%nat) :
  sm_wp (COPIES content sfd dfd) (copy_data fuel sfd dfd (Z.of_nat (length content))) s
    {| cg_pos := 0; cg_dst := []; cg_interrupts := interrupts |}
    (λ r _ g, r = Ok tt → cg_dst g = content).
Proof.
  apply sm_wp_bind, sm_wp_call; [done|]. intros [[]|e] g.
  { intros Hd. by apply sm_wp_ret. }
  intros ->. apply sm_wp_bind, wp_sendfile; [by split; [cbn; lia|]|done|cbn; lia|..].
  - intros g Hd. by apply sm_wp_ret.
  - intros g Hg. destruct (Z.leb_spec (Z.of_nat (length content)) (Z.of_nat (cg_pos g))) as [Hle|Hlt].
    + apply sm_wp_ret. intros _. destruct Hg as [Hp ->]. apply take_ge. lia.
    + apply wp_read; [done|lia|by intros|by intros].
Qed.

Lemma copy_data_copies_witness :
  sm_wp (COPIES (bs "data") 3 4) (copy_data 8 3 4 4) tt
    {| cg_pos := 0; cg_dst := []; cg_interrupts := 2 |} (λ r _ g, r = Ok tt → cg_dst g = bs "data").
Proof. apply (copy_data_copies (bs "data") 3 4 8 2 tt). apply (bool_decide_unpack _). exact I. Defined.
