(* ===== verification/Ends.v ===== *)
(** * Programs that end

    [ends]: against a kernel whose answers a policy allows, a program does not
    run out of fuel; it says nothing of a panic, which the policy [SAFE]
    excludes, and [wp_ends] puts the two together.

    [LIVE] is the kernel of a mount that is used for a while: its ghost state is
    how many files and entries it has yet to report and how many bytes it has
    yet to give in a copy.  Both are numbers the kernel does not get past, and a
    write of a non-empty buffer takes at least one byte. *)

From S2P Require Import Prelude Libc Mapping Xattr Sys Openat2 Node DataSource Whiteout Layer Copyup.
Local Open Scope Z_scope.

(** ** The logic *)

Fixpoint ends (P : policy) {A} (p : prog A) (g : ghost P) (Q : A → ghost P → Prop) : Prop :=
  match p with
  | Ret a => Q a g
  | Panic => True
  | NoFuel => False
  | Call s k => ∀ r g', pol_post P g s r g' → ends P (k r) g' Q
  end.

Lemma ends_mono P {A} (p : prog A) g (Q Q' : A → ghost P → Prop) :
  ends P p g Q → (∀ a g', Q a g' → Q' a g') → ends P p g Q'.
Proof.
  intros Hp HQ. revert g Hp. induction p as [a| | |s k IH]; intros g; cbn; try done; [by auto|].
  intros Hk r g' Hr. by apply IH, Hk.
Qed.

Lemma ends_bind P {A B} (p : prog A) (f : A → prog B) g Q :
  ends P p g (λ a g', ends P (f a) g' Q) → ends P (bind p f) g Q.
Proof.
  revert g. induction p as [a| | |s k IH]; intros g; cbn; try done. intros Hk r g' Hr. by apply IH, Hk.
Qed.

(** Safe by one policy, ending by another: a run of both kernels ends safely. *)
Definition both (P1 P2 : policy) : policy := {|
  ghost := ghost P1 * ghost P2;
  pol_pre g c := pol_pre P1 g.1 c;
  pol_post g c r g' := pol_post P1 g.1 c r g'.1 ∧ pol_post P2 g.2 c r g'.2;
  pol_diverge := False;
  pol_panic := pol_panic P1
|}.

Lemma wp_ends P1 P2 {A} (p : prog A) g1 g2 (Q1 : A → ghost P1 → Prop) (Q2 : A → ghost P2 → Prop) :
  wp P1 p g1 Q1 → ends P2 p g2 Q2 → wp (both P1 P2) p (g1, g2) (λ a g, Q1 a g.1 ∧ Q2 a g.2).
Proof.
  revert g1 g2. induction p as [a| | |s k IH]; intros g1 g2; cbn; try done.
  intros [Hpre Hk1] Hk2. split; [done|]. intros r [g1' g2'] [H1 H2]. apply IH; auto.
Qed.

Definition sm_ends (P : policy) {S A} (m : SM S A) (s : S) (g : ghost P)
    (Q : A → S → ghost P → Prop) : Prop :=
  ends P (m s) g (λ '(a, s') g', Q a s' g').

Lemma sm_ends_bind (P : policy) {S A B} (m : SM S A) (k : A → SM S B) (s : S) g Q :
  sm_ends P m s g (λ a s' g', sm_ends P (k a) s' g' Q) → sm_ends P (sm_bind m k) s g Q.
Proof. intros H. apply ends_bind. eapply ends_mono; [exact H|]. by intros [a s'] g'. Qed.
Lemma sm_ends_try (P : policy) {S A B} (m : SM S (FsResult A)) (k : A → SM S (FsResult B)) (s : S) g Q :
  sm_ends P m s g (λ r s' g', match r with
                              | Ok a => sm_ends P (k a) s' g' Q
                              | Err e => Q (Err e) s' g'
                              end) →
  sm_ends P (sm_try m k) s g Q.
Proof. intros H. apply sm_ends_bind. eapply ends_mono; [exact H|]. by intros [[a|e] s'] g'. Qed.
Lemma sm_ends_ret (P : policy) {S A} (a : A) (s : S) g (Q : A → S → ghost P → Prop) :
  Q a s g → sm_ends P (sm_ret a) s g Q.
Proof. done. Qed.
Lemma sm_ends_get (P : policy) {S} (s : S) g (Q : S → S → ghost P → Prop) : Q s s g → sm_ends P sm_get s g Q.
Proof. done. Qed.
Lemma sm_ends_modify (P : policy) {S} (f : S → S) (s : S) g (Q : unit → S → ghost P → Prop) :
  Q tt (f s) g → sm_ends P (sm_modify f) s g Q.
Proof. done. Qed.
Lemma sm_ends_call (P : policy) {S} (c : sys) (s : S) g (Q : resp c → S → ghost P → Prop) :
  (∀ r g', pol_post P g c r g' → Q r s g') → sm_ends P (sm_call c) s g Q.
Proof. done. Qed.
Lemma sm_ends_mono (P : policy) {S A} (m : SM S A) (s : S) g (Q Q' : A → S → ghost P → Prop) :
  sm_ends P m s g Q → (∀ a s' g', Q a s' g' → Q' a s' g') → sm_ends P m s g Q'.
Proof. intros H HQ. eapply ends_mono; [exact H|]. intros [a s']. apply HQ. Qed.

Lemma sm_wp_ends P1 P2 {S A} (m : SM S A) (s : S) g1 g2 (Q1 : A → S → ghost P1 → Prop)
    (Q2 : A → S → ghost P2 → Prop) :
  sm_wp P1 m s g1 Q1 → sm_ends P2 m s g2 Q2 →
  sm_wp (both P1 P2) m s (g1, g2) (λ a s' g, Q1 a s' g.1 ∧ Q2 a s' g.2).
Proof.
  intros H1 H2. eapply wp_mono; [by apply wp_ends|]. intros [a s'] g. done.
Qed.

(** ** The kernel that is used for a while *)

Record Budget := { b_names : Z; b_data : Z }.

Definition paid (names data : Z) (g g' : Budget) : Prop :=
  0 <= b_names g' ∧ b_names g' + names <= b_names g ∧ 0 <= b_data g' ∧ b_data g' + data <= b_data g.

Definition live_post (g : Budget) (c : sys) : resp c → Budget → Prop :=
  match c with
  | Fstat _ | Fstatat _ _ _ | Statx _ _ _ _ => λ r g',
      match r with Ok st => is_u64 (st_ino st) ∧ paid 1 0 g g' | Err _ => paid 0 0 g g' end
  | ReadDir _ | ReadDirDup _ => λ r g',
      match r with
      | Ok es => Forall (λ e, is_u64 (rde_ino e)) es ∧ paid (Z.of_nat (length es)) 0 g g'
      | Err _ => paid 0 0 g g'
      end
  | Read _ _ => λ r g',
      match r with Ok buf => paid 0 (Z.of_nat (length buf)) g g' | Err _ => paid 0 0 g g' end
  | Sendfile _ _ _ => λ r g',
      match r with
      | Ok n => 0 <= n ∧ paid 0 n g g'
      | Err e => paid 0 (if e =? EINTR then 1 else 0) g g'
      end
  | Write _ buf => λ r g', match r with Ok n => 0 < n | Err _ => True end ∧ paid 0 0 g g'
  | _ => λ _ g', paid 0 0 g g'
  end.

Definition LIVE : policy :=
  {| ghost := Budget; pol_pre _ _ := True; pol_post := live_post; pol_diverge := False; pol_panic := False |}.

Definition budget_ok (g : Budget) : Prop := 0 <= b_names g ∧ 0 <= b_data g.

Lemma paid_refl g : budget_ok g → paid 0 0 g g.
Proof. unfold budget_ok, paid. lia. Qed.
Lemma paid_weaken n d n' d' g g' : paid n d g g' → n' <= n → d' <= d → paid n' d' g g'.
Proof. unfold paid. lia. Qed.
Lemma paid_trans n d n' d' g1 g2 g3 : paid n d g1 g2 → paid n' d' g2 g3 → paid (n + n') (d + d') g1 g3.
Proof. unfold paid. lia. Qed.

Lemma live_post_paid g c r g' : live_post g c r g' → paid 0 0 g g'.
Proof.
  destruct c; cbn; try done; try (destruct r; [intros [_ H]|intros H]; (eapply paid_weaken; [exact H|lia|lia])).
  - destruct r; intros H; (eapply paid_weaken; [exact H|lia|lia]).
  - by intros [_ H].
  - destruct r; [intros [? H]|intros H; case_match]; (eapply paid_weaken; [exact H|lia|lia]).
Qed.

(** ** Programs that keep an invariant

    [I g s] is the invariant, [nx s] a number that only grows: what a program
    has to know of the state it starts in is that it has got past [N]. *)
Record Inv (S : Type) := {
  inv : Budget → S → Prop;
  nx : S → Z;
  inv_paid g g' s : inv g s → paid 0 0 g g' → inv g' s;
  inv_budget g s : inv g s → budget_ok g
}.
Arguments inv {S}.
Arguments nx {S}.
Arguments inv_paid {S}.
Arguments inv_budget {S}.

Section lives.
Context {S : Type} (I : Inv S).
Implicit Types (s : S) (g : Budget) (N : Z).

(** What is left of the start after a program. *)
Definition later (g : Budget) (s : S) (g' : Budget) (s' : S) : Prop :=
  inv I g' s' ∧ nx I s <= nx I s' ∧ paid 0 0 g g'.

(** [m] ends in every state past [N], and its result is one of [R]. *)
Definition gives {A} N (m : SM S A) (R : A → Prop) : Prop :=
  ∀ s g, inv I g s → N <= nx I s → sm_ends LIVE m s g (λ a s' g', R a ∧ later g s g' s').
Definition lives {A} N (m : SM S A) : Prop := gives N m (λ _, True).

Lemma later_refl g s : inv I g s → later g s g s.
Proof using. intros H. split; [done|]. split; [lia|]. eapply paid_refl, inv_budget, H. Qed.
Lemma later_trans g1 s1 g2 s2 g3 s3 : later g1 s1 g2 s2 → later g2 s2 g3 s3 → later g1 s1 g3 s3.
Proof using.
  intros (_ & Hn & Hp) (Hi & Hn' & Hp'). split; [done|]. split; [lia|]. exact (paid_trans _ _ _ _ _ _ _ Hp Hp').
Qed.

Lemma gives_mono {A} N N' (m : SM S A) (R R' : A → Prop) :
  gives N m R → N <= N' → (∀ a, R a → R' a) → gives N' m R'.
Proof using.
  intros Hm HN HR s g Hi Hs. eapply ends_mono; [apply Hm; [done|lia]|]. intros [a s'] g' []. auto.
Qed.
Lemma gives_ret {A} N (a : A) (R : A → Prop) : R a → gives N (sm_ret a) R.
Proof using. intros HR s g Hi _. split; [done|by apply later_refl]. Qed.
Lemma gives_bind {A B} N (m : SM S A) (k : A → SM S B) (R : A → Prop) (R' : B → Prop) :
  gives N m R → (∀ a, R a → gives N (k a) R') → gives N (sm_bind m k) R'.
Proof using.
  intros Hm Hk s g Hi Hs. apply ends_bind. eapply ends_mono; [by apply Hm|].
  intros [a s1] g1 [Ha Hl]. pose proof Hl as (Hi1 & Hn1 & _).
  eapply ends_mono; [apply Hk; [done|done|lia]|]. intros [b s2] g2 [Hb Hl2]. split; [done|]. by eapply later_trans.
Qed.
Lemma gives_try {A B} N (m : SM S (FsResult A)) (k : A → SM S (FsResult B)) (R : A → Prop)
    (R' : FsResult B → Prop) :
  gives N m (λ r, match r with Ok a => R a | Err _ => True end) → (∀ a, R a → gives N (k a) R') →
  (∀ e, R' (Err e)) → gives N (sm_try m k) R'.
Proof using.
  intros Hm Hk HE. eapply gives_bind; [exact Hm|]. intros [a|e] Ha; [by apply Hk|by apply gives_ret].
Qed.
(** Reading the state: it is past where it is. *)
Lemma gives_get {A} N (k : S → SM S A) (R : A → Prop) :
  (∀ s g, inv I g s → N <= nx I s → gives (nx I s) (k s) R) → gives N (sm_bind sm_get k) R.
Proof using. intros Hk s g Hi Hs. by apply (Hk s g). Qed.
Lemma gives_gets {A B} N (f : S → A) (k : A → SM S B) (R : B → Prop) :
  (∀ s g, inv I g s → N <= nx I s → gives (nx I s) (k (f s)) R) → gives N (sm_bind (sm_gets f) k) R.
Proof using. intros Hk s g Hi Hs. by apply (Hk s g). Qed.
Lemma gives_modify N (f : S → S) (R : unit → Prop) :
  (∀ s g, inv I g s → N <= nx I s → inv I g (f s) ∧ nx I s <= nx I (f s)) → R tt → gives N (sm_modify f) R.
Proof using.
  intros Hf HR s g Hi Hs. destruct (Hf s g Hi Hs) as [Hi' Hn]. split; [done|]. split; [done|]. split; [done|].
  eapply paid_refl, inv_budget, Hi.
Qed.
Lemma lives_call N (c : sys) : lives N (sm_call c).
Proof using.
  intros s g Hi Hs r g' Hp%live_post_paid. split; [done|]. split; [by eapply inv_paid|]. split; [lia|done].
Qed.
Lemma gives_fuel {A} N (o : option A) (R : A → Prop) : (∃ a, o = Some a ∧ R a) → gives N (sm_fuel o) R.
Proof using. intros (a & -> & Ha). by apply gives_ret. Qed.
Lemma gives_expect {A} N (o : option A) (R : A → Prop) : (∀ a, o = Some a → R a) → gives N (sm_expect o) R.
Proof using. destruct o; cbn; [intros H; by apply gives_ret, H|done]. Qed.
Lemma gives_index {A} N (l : list A) i (R : A → Prop) : (∀ a, l !! i = Some a → R a) → gives N (sm_index l i) R.
Proof using. unfold sm_index. destruct (l !! i); [intros H; by apply gives_ret, H|done]. Qed.

Lemma lives_ret {A} N (a : A) : lives N (sm_ret a).
Proof using. by apply gives_ret. Qed.
Lemma lives_bind {A B} N (m : SM S A) (k : A → SM S B) :
  lives N m → (∀ a, lives N (k a)) → lives N (sm_bind m k).
Proof using. intros Hm Hk. eapply gives_bind; [exact Hm|]. intros a _. apply Hk. Qed.
Lemma lives_try {A B} N (m : SM S (FsResult A)) (k : A → SM S (FsResult B)) :
  lives N m → (∀ a, lives N (k a)) → lives N (sm_try m k).
Proof using. intros Hm Hk. apply lives_bind; [done|]. intros [a|e]; [apply Hk|apply lives_ret]. Qed.
Lemma lives_try_ret {A B} N (r : FsResult A) (k : A → SM S (FsResult B)) :
  (∀ a, r = Ok a → lives N (k a)) → lives N (sm_try (sm_ret r) k).
Proof using.
  intros Hk. destruct r as [a|e]; [apply (Hk a eq_refl)|apply lives_ret].
Qed.
(** The rest of a run. *)
Lemma ends_lives {A} (m : SM S A) g s g1 s1 :
  later g s g1 s1 → lives (nx I s1) m → sm_ends LIVE m s1 g1 (λ _ s' g', later g s g' s').
Proof using.
  intros Hl Hm. eapply sm_ends_mono; [apply Hm; [apply Hl|done]|]. intros a s' g' [_ Hl']. by eapply later_trans.
Qed.
Lemma lives_gives {A} N (m : SM S A) (R : A → Prop) : gives N m R → lives N m.
Proof using. intros Hm. by eapply gives_mono. Qed.
Lemma gives_conj {A} N (m : SM S A) (R : A → Prop) : gives N m R → ∀ N', N <= N' → gives N' m R.
Proof using. intros Hm N' HN. by eapply gives_mono. Qed.
End lives.

(** A program over a part of the state. *)
Lemma gives_zoom {S T A} (I : Inv S) (J : S → Inv T) (get : S → T) (put : T → S → S) N (m : SM T A)
    (R : A → Prop) :
  (∀ s g, inv I g s → N <= nx I s → gives (J s) 0 m R ∧ inv (J s) g (get s) ∧ 0 <= nx (J s) (get s) ∧
     ∀ g' t, paid 0 0 g g' → inv (J s) g' t → inv I g' (put t s) ∧ nx I s <= nx I (put t s)) →
  gives I N (zoom get put m) R.
Proof.
  intros H s g Hi Hs. destruct (H s g Hi Hs) as (Hm & HJ & Hz & Hput).
  apply ends_bind. eapply ends_mono; [by apply Hm|]. intros [a t] g' (Ha & Ht & _ & Hp).
  destruct (Hput g' t Hp Ht) as [Hi' Hn]. by split.
Qed.

(** A change computed from the state. *)
Lemma ends_modify_then {S A} (I : Inv S) N (f : S → S) (m : SM S A) s g :
  inv I g s → N <= nx I s → inv I g (f s) → nx I s <= nx I (f s) → lives I N m →
  sm_ends LIVE (sm_modify f ;;; m) s g (λ a s' g', True ∧ later I g s g' s').
Proof.
  intros Hi HN Hi' Hn Hm. apply sm_ends_bind. change (sm_ends LIVE m (f s) g (λ a s' g', True ∧ later I g s g' s')).
  eapply sm_ends_mono; [apply Hm; [done|lia]|]. intros a s' g' [_ Hl]. split; [done|].
  eapply later_trans; [|exact Hl]. split; [done|]. split; [done|]. by eapply paid_refl, inv_budget.
Qed.

(** The state does not matter: the budget alone. *)
Definition Free {S} : Inv S.
Proof.
  refine {| inv g _ := budget_ok g; nx _ := 0 |}; [|done].
  unfold budget_ok, paid. intros g g' _ ??. lia.
Defined.

Lemma lives_stateless {S A} (I : Inv S) N (m : SM unit A) : lives Free 0 m → lives I N (stateless m).
Proof.
  intros Hm s g Hi Hs. apply ends_bind. eapply ends_mono; [apply Hm; [by eapply inv_budget|done]|].
  intros [a []] g' (_ & _ & _ & Hp). split; [done|]. split; [by eapply inv_paid|]. split; [lia|done].
Qed.

(** [lives] of the state's own reads. *)
Lemma lives_get {S A} (I : Inv S) N (k : S → SM S A) :
  (∀ s g, inv I g s → N <= nx I s → lives I (nx I s) (k s)) → lives I N (sm_bind sm_get k).
Proof. apply gives_get. Qed.
Lemma lives_gets {S A B} (I : Inv S) N (f : S → A) (k : A → SM S B) :
  (∀ s g, inv I g s → N <= nx I s → lives I (nx I s) (k (f s))) → lives I N (sm_bind (sm_gets f) k).
Proof. apply gives_gets. Qed.
Lemma lives_expect {S A} (I : Inv S) N (o : option A) : lives I N (sm_expect o).
Proof. by apply gives_expect. Qed.
Lemma lives_index {S A} (I : Inv S) N (l : list A) i : lives I N (sm_index l i).
Proof. by apply gives_index. Qed.

(** Follow a program; what it calls is found in the hint database. *)
Create HintDb ends discriminated.
#[global] Hint Constants Opaque : ends.
#[global] Hint Variables Opaque : ends.
#[global] Hint Transparent resp : ends.
Ltac lives_leaf := solve [eauto 4 with ends nocore].
Ltac lives_hook := fail.
Ltac lives :=
  repeat first [lives_hook | lazymatch goal with
    | |- ∀ _, _ => intros ?
    | |- lives _ _ (sm_ret _) => apply lives_ret
    | |- lives _ _ (sm_try (sm_ret _) _) => apply lives_try_ret; intros ? ?
    | |- lives _ _ (sm_try _ _) => apply lives_try
    | |- lives _ _ (sm_bind sm_get _) => apply lives_get; intros ? ? ? ?
    | |- lives _ _ (sm_bind (sm_gets _) _) => apply lives_gets; intros ? ? ? ?
    | |- lives _ _ (sm_bind _ _) => apply lives_bind
    | |- lives _ _ (sm_call _) => apply lives_call
    | |- lives _ _ (sm_expect _) => apply lives_expect
    | |- lives _ _ (sm_index _ _) => apply lives_index
    | |- lives _ _ (match ?x with _ => _ end) => first [is_var x; destruct x | destruct x eqn:?]
    | |- lives _ _ _ => lives_leaf
    end].

(** ** Opens *)
Section opens.
Context {S : Type} (I : Inv S) (N : Z).

Lemma lives_safe_openat dirfd path flags mode : lives I N (safe_openat dirfd path flags mode).
Proof using. unfold safe_openat, syscall_openat2. lives. Qed.
Hint Resolve lives_safe_openat : ends.
Lemma lives_open_parent_safe dirfd path : lives I N (open_parent_safe dirfd path).
Proof using. unfold open_parent_safe. lives. Qed.
Hint Resolve lives_open_parent_safe : ends.
Lemma lives_open_parent_safe_cstr dirfd path : lives I N (open_parent_safe_cstr dirfd path).
Proof using. unfold open_parent_safe_cstr. lives. Qed.
Lemma lives_file_exists_at dirfd nm : lives I N (file_exists_at dirfd nm).
Proof using. unfold file_exists_at. lives. Qed.
End opens.
#[export] Hint Resolve lives_safe_openat lives_open_parent_safe lives_open_parent_safe_cstr
  lives_file_exists_at : ends.

(** ** Data sources *)

(** What the program says of a file is paid for. *)
Definition pays {A} (m : SM unit (FsResult A)) (R : A → Prop) (cost : A → Z) : Prop :=
  ∀ g, budget_ok g → sm_ends LIVE m tt g (λ r _ g',
    match r with Ok a => R a ∧ paid (cost a) 0 g g' | Err _ => paid 0 0 g g' end).

Class Ending (d : DataSource) : Prop := {
  end_file_exists path : lives Free 0 (file_exists d path);
  end_statat path flags mask : pays (statat d path flags mask) (λ st, is_u64 (st_ino st)) (λ _, 1);
  end_fstat fd path mask : pays (ds_fstat d fd path mask) (λ st, is_u64 (st_ino st)) (λ _, 1);
  end_opendir path :
    pays (opendir d path) (Forall (λ e, is_u64 (rde_ino e))) (λ es, Z.of_nat (length es));
  end_openat path flags mode : lives Free 0 (openat d path flags mode);
  end_listxattr path n : lives Free 0 (listxattr d path n);
  end_getxattr path nm n : lives Free 0 (getxattr d path nm n);
  end_readlinkat path : lives Free 0 (ds_readlinkat d path);
  end_get_nfs_filehandle path : lives Free 0 (get_nfs_filehandle d path)
}.

Lemma pays_lives {A} (m : SM unit (FsResult A)) R cost :
  pays m R cost → (∀ a, R a → 0 <= cost a) → lives Free 0 m.
Proof.
  intros Hm Hc [] g Hg _. eapply ends_mono; [by apply Hm|]. intros [[a|e] []] g'; cbn.
  - intros [Ha Hp]. split; [done|]. assert (paid 0 0 g g') as H0 by (eapply paid_weaken; [done|by apply Hc|lia]).
    split; [|by split]. cbn. unfold budget_ok, paid in *. lia.
  - intros Hp. split; [done|]. split; [|by split]. cbn. unfold budget_ok, paid in *. lia.
Qed.
Lemma pays_try {A B} (m : SM unit (FsResult A)) (k : A → SM unit (FsResult B)) R cost :
  lives Free 0 m → (∀ a, pays (k a) R cost) → pays (sm_try m k) R cost.
Proof.
  intros Hm Hk g Hg. apply ends_bind. eapply ends_mono; [by apply Hm|].
  intros [[a|e] []] g1 (_ & Hg1 & _ & Hp); [|done].
  eapply ends_mono; [by apply Hk|]. intros [[b|e] []] g2; cbn.
  - intros [? Hp2]. split; [done|]. unfold paid in *. lia.
  - unfold paid in *. lia.
Qed.
Lemma pays_err {A} e R (cost : A → Z) : pays (sm_ret (Err e)) R cost.
Proof. intros g Hg. by apply paid_refl. Qed.
(** A stat, and another one when the first has failed. *)
Definition pays_a_stat (m : SM unit (FsResult stat)) : Prop := pays m (λ st, is_u64 (st_ino st)) (λ _, 1).
Lemma pays_statx dirfd nm flags mask (k : Z → SM unit (FsResult stat)) :
  (∀ e, pays_a_stat (k e)) →
  pays_a_stat (let! r := sm_call (Statx dirfd nm flags mask) in
               match r with Ok stx => sm_ret (Ok stx) | Err e => k e end).
Proof.
  intros Hk g Hg [st|e] g'; cbn; [done|]. intros Hp.
  assert (budget_ok g') as Hg' by (unfold budget_ok, paid in *; lia).
  eapply ends_mono; [by apply (Hk e)|]. intros [[b|e'] []] g2; cbn.
  - intros [? Hp2]. split; [done|]. unfold paid in *. lia.
  - unfold paid in *. lia.
Qed.
Lemma pays_fstatat dirfd nm flags : pays_a_stat (sm_call (Fstatat dirfd nm flags)).
Proof. intros g Hg [st|e] g'; done. Qed.
Lemma pays_fstat fd : pays_a_stat (sm_call (Fstat fd)).
Proof. intros g Hg [st|e] g'; done. Qed.

Section direct.
Import Direct.
Context (d : DirectAccess).

Lemma lives_parent_of path : lives Free 0 (parent_of d path).
Proof using. unfold parent_of. lives. Qed.
Hint Resolve lives_parent_of : ends.

#[export] Instance direct_ending : Ending (direct_source d).
Proof using.
  split; cbn.
  - intros path. unfold direct_file_exists. lives.
  - intros path flags mask. unfold direct_statat. apply pays_try; [apply lives_parent_of|].
    intros [dirfd b]. apply pays_try; [apply lives_ret|]. intros c. apply pays_statx.
    intros e. destruct (_ || _); [apply pays_fstatat|apply pays_err].
  - intros fd path mask. unfold direct_fstat. apply pays_statx.
    intros e. destruct (_ || _); [apply pays_fstat|apply pays_err].
  - intros path. unfold direct_opendir. apply pays_try; [apply lives_safe_openat|].
    intros fd g Hg [es|e] g'; done.
  - intros path flags mode. apply lives_safe_openat.
  - intros path n. unfold direct_listxattr. lives.
  - intros path nm n. unfold direct_getxattr. lives.
  - intros path. unfold direct_readlinkat. lives.
  - intros path. unfold direct_get_nfs_filehandle. lives.
Qed.
End direct.

Lemma end_exists_lives d path : Ending d → lives Free 0 (file_exists d path).
Proof. intros Hd. apply end_file_exists. Qed.
Lemma end_openat_lives d path flags mode : Ending d → lives Free 0 (openat d path flags mode).
Proof. intros Hd. apply end_openat. Qed.
Lemma end_listxattr_lives d path n : Ending d → lives Free 0 (listxattr d path n).
Proof. intros Hd. apply end_listxattr. Qed.
Lemma end_getxattr_lives d path nm n : Ending d → lives Free 0 (getxattr d path nm n).
Proof. intros Hd. apply end_getxattr. Qed.
Lemma end_readlinkat_lives d path : Ending d → lives Free 0 (ds_readlinkat d path).
Proof. intros Hd. apply end_readlinkat. Qed.
Lemma end_nfs_filehandle_lives d path : Ending d → lives Free 0 (get_nfs_filehandle d path).
Proof. intros Hd. apply end_get_nfs_filehandle. Qed.
Lemma end_statat_lives d path flags mask : Ending d → lives Free 0 (statat d path flags mask).
Proof. intros Hd. eapply pays_lives; [apply end_statat|]. done. Qed.
Lemma end_fstat_lives d fd path mask : Ending d → lives Free 0 (ds_fstat d fd path mask).
Proof. intros Hd. eapply pays_lives; [apply end_fstat|]. done. Qed.
Lemma end_opendir_lives d path : Ending d → lives Free 0 (opendir d path).
Proof. intros Hd. eapply pays_lives; [apply end_opendir|]. intros es _. apply Nat2Z.is_nonneg. Qed.

#[export] Hint Extern 0 (lives _ _ (stateless _)) => apply lives_stateless : ends.
#[export] Hint Resolve end_exists_lives end_openat_lives end_listxattr_lives end_getxattr_lives
  end_readlinkat_lives end_nfs_filehandle_lives end_statat_lives end_fstat_lives end_opendir_lives : ends.

(** ** Whiteouts *)

Lemma lives_is_directory_opaque d path : Ending d → lives Free 0 (is_directory_opaque d path).
Proof. intros Hd. unfold is_directory_opaque. lives. Qed.
Lemma lives_set_fd_opaque {S} (I : Inv S) N fd : lives I N (set_fd_opaque fd).
Proof. unfold set_fd_opaque. lives. Qed.

Lemma lives_true {S} (I : Inv S) N (f : S → S) :
  (∀ s g, inv I g s → inv I g (f s) ∧ nx I s <= nx I (f s)) → lives I N (sm_modify f).
Proof. intros H. apply gives_modify; [|done]. intros s g Hi _. by apply H. Qed.

Lemma lives_delete_whiteout `{DevT} upper_fd dirfd parent_path nm :
  lives Free 0 (delete_whiteout upper_fd dirfd parent_path nm).
Proof. unfold delete_whiteout. lives. Qed.
Lemma lives_create_wh_file pfd nm : lives Free 0 (create_wh_file pfd nm).
Proof. unfold create_wh_file. lives. Qed.
#[export] Hint Resolve lives_is_directory_opaque lives_set_fd_opaque lives_delete_whiteout
  lives_create_wh_file : ends.
Lemma lives_create_whiteout `{DevT} dirfd parent_path nm can_mknod :
  lives Free 0 (create_whiteout dirfd parent_path nm can_mknod).
Proof. unfold create_whiteout. lives; by apply lives_true. Qed.
#[export] Hint Resolve lives_create_whiteout : ends.

(** A program over a part of the state the invariant does not look at. *)
Lemma lives_zoom_free {S T A} (I : Inv S) (get : S → T) (put : T → S → S) N (m : SM T A) :
  lives Free 0 m → (∀ s g t, inv I g s → inv I g (put t s) ∧ nx I s <= nx I (put t s)) →
  lives I N (zoom get put m).
Proof.
  intros Hm Hput. apply (gives_zoom I (λ _, Free)). intros s g Hi _. split_and!; [exact Hm|by eapply inv_budget|done|].
  intros g' t Hp _. apply Hput. by eapply inv_paid.
Qed.
