(* ===== verification/Overlay.v ===== *)
(** * The overlay (src/src/overlay.rs): the shared state and its operations

    [OverlayInner], the state behind the lock, and the methods the request
    handlers are made of: paths and inodes of nodes, attributes with the
    stored overrides and the id mappings, the two ways a directory is merged
    from its layers ([load_dir_impl] and [do_lazy_lookup]), copy-up, hiding and
    registering nodes.

    A method that takes [&self] and makes no system call is a function of the
    state; the others are programs of [SM OverlayInner].  A request's
    [OverlayConfig] is the section variable [config]. *)

From S2P Require Import Prelude Libc Mapping Xattr ConfigData Sys Openat2 Node DataSource.
From S2P Require Import Whiteout Layer Copyup.
Local Open Scope Z_scope.

(** ** The state *)
Record OverlayInner := {
  layers : list OvlLayer;
  inodes : InodeTable;
  nodes : NodeArena;
  root_id : NodeId;
  workdir_fd : RawFd;
  ino_passthrough : bool;
  overflow : OverflowIds;
  wd_counter : Z;
  can_mknod : bool;
  (* the static of whiteout.rs *)
  CAN_MKNOD : bool
}.

Definition set_inodes (v : InodeTable) (s : OverlayInner) : OverlayInner :=
  {| layers := layers s; inodes := v; nodes := nodes s; root_id := root_id s;
     workdir_fd := workdir_fd s; ino_passthrough := ino_passthrough s; overflow := overflow s;
     wd_counter := wd_counter s; can_mknod := can_mknod s; CAN_MKNOD := CAN_MKNOD s |}.
Definition set_nodes (v : NodeArena) (s : OverlayInner) : OverlayInner :=
  {| layers := layers s; inodes := inodes s; nodes := v; root_id := root_id s;
     workdir_fd := workdir_fd s; ino_passthrough := ino_passthrough s; overflow := overflow s;
     wd_counter := wd_counter s; can_mknod := can_mknod s; CAN_MKNOD := CAN_MKNOD s |}.
Definition set_wd_counter (v : Z) (s : OverlayInner) : OverlayInner :=
  {| layers := layers s; inodes := inodes s; nodes := nodes s; root_id := root_id s;
     workdir_fd := workdir_fd s; ino_passthrough := ino_passthrough s; overflow := overflow s;
     wd_counter := v; can_mknod := can_mknod s; CAN_MKNOD := CAN_MKNOD s |}.
Definition set_CAN_MKNOD (v : bool) (s : OverlayInner) : OverlayInner :=
  {| layers := layers s; inodes := inodes s; nodes := nodes s; root_id := root_id s;
     workdir_fd := workdir_fd s; ino_passthrough := ino_passthrough s; overflow := overflow s;
     wd_counter := wd_counter s; can_mknod := can_mknod s; CAN_MKNOD := v |}.

(** What [copyup] borrows. *)
Definition get_copy (s : OverlayInner) : CopyState :=
  {| cs_nodes := nodes s; cs_wd_counter := wd_counter s; cs_can_mknod := CAN_MKNOD s |}.
Definition put_copy (c : CopyState) (s : OverlayInner) : OverlayInner :=
  set_nodes (cs_nodes c) (set_wd_counter (cs_wd_counter c) (set_CAN_MKNOD (cs_can_mknod c) s)).

Abbreviation InnerM := (SM OverlayInner).

(** [self.nodes.get_mut(&id)] with an update. *)
Definition alter_node (f : OvlNode → OvlNode) (id : NodeId) : InnerM unit :=
  sm_modify (λ s, set_nodes (arena_alter f id (nodes s)) s).
Definition nodes_get (s : OverlayInner) (id : NodeId) : option OvlNode := arena_get (nodes s) id.

(** [OverlayFs::new]: the inner state of a fresh mount; [disabled] says whether
    FUSE_OVERLAYFS_DISABLE_OVL_WHITEOUT is set, and the two files are those
    [OverflowIds::read] reads. *)
Definition OverlayInner_new (ls : list OvlLayer) (workdir_fd : RawFd) (overflow : OverflowIds)
    (disabled : bool) : OverlayInner :=
  let ino_passthrough := all_same_device ls in
  let '(root_id, nodes) := arena_insert (OvlNode_new [] 0 0 0 true) NodeArena_new in
  {| layers := ls;
     inodes := set_same_device ino_passthrough InodeTable_new;
     nodes := nodes;
     root_id := root_id;
     workdir_fd := workdir_fd;
     ino_passthrough := ino_passthrough;
     overflow := overflow;
     wd_counter := 1;
     can_mknod := negb disabled;
     CAN_MKNOD := true |}.

(** ** Attributes *)

Inductive FileType :=
| Directory | RegularFile | Symlink | BlockDevice | CharDevice | NamedPipe | Socket.

(** A [SystemTime]: seconds and nanoseconds since the epoch. *)
Record FileAttr := {
  attr_ino : Z; attr_size : Z; attr_blocks : Z;
  attr_atime : Z * Z; attr_mtime : Z * Z; attr_ctime : Z * Z; attr_crtime : Z * Z;
  attr_kind : FileType; attr_perm : Z; attr_nlink : Z; attr_uid : Z; attr_gid : Z;
  attr_rdev : Z; attr_blksize : Z; attr_flags : Z
}.
Definition set_attr_ino (v : Z) (a : FileAttr) : FileAttr :=
  {| attr_ino := v; attr_size := attr_size a; attr_blocks := attr_blocks a;
     attr_atime := attr_atime a; attr_mtime := attr_mtime a; attr_ctime := attr_ctime a;
     attr_crtime := attr_crtime a; attr_kind := attr_kind a; attr_perm := attr_perm a;
     attr_nlink := attr_nlink a; attr_uid := attr_uid a; attr_gid := attr_gid a;
     attr_rdev := attr_rdev a; attr_blksize := attr_blksize a; attr_flags := attr_flags a |}.

Definition UNIX_EPOCH : Z * Z := (0, 0).

(** [UNIX_EPOCH + Duration::new(secs as u64, nsec as u32)]: the addition
    panics ([None]) when the seconds do not fit an [i64]. *)
Definition epoch_plus (secs nsec : Z) : option (Z * Z) :=
  let nsec := wrap_u32 nsec in
  let secs := wrap_u64 secs + nsec / 10 ^ 9 in
  if secs <? 2 ^ 63 then Some (secs, nsec mod 10 ^ 9) else None.

Definition mode_to_filetype (mode : Z) : FileType :=
  let t := file_type mode in
  if t =? S_IFDIR then Directory
  else if t =? S_IFREG then RegularFile
  else if t =? S_IFLNK then Symlink
  else if t =? S_IFBLK then BlockDevice
  else if t =? S_IFCHR then CharDevice
  else if t =? S_IFIFO then NamedPipe
  else if t =? S_IFSOCK then Socket
  else RegularFile.

Definition stat_to_attr (st : stat) : option FileAttr :=
  atime ← epoch_plus (st_atime st) (st_atime_nsec st);
  mtime ← epoch_plus (st_mtime st) (st_mtime_nsec st);
  ctime ← epoch_plus (st_ctime st) (st_ctime_nsec st);
  Some {|
    attr_ino := st_ino st;
    attr_size := wrap_u64 (st_size st);
    attr_blocks := wrap_u64 (st_blocks st);
    attr_atime := atime; attr_mtime := mtime; attr_ctime := ctime; attr_crtime := UNIX_EPOCH;
    attr_kind := mode_to_filetype (st_mode st);
    attr_perm := Z.land (st_mode st) PERM_MASK;
    attr_nlink := wrap_u32 (st_nlink st);
    attr_uid := st_uid st; attr_gid := st_gid st;
    attr_rdev := wrap_u32 (st_rdev st);
    attr_blksize := wrap_u32 (st_blksize st);
    attr_flags := 0
  |}.

(** ** Stat overrides *)

Section override.
Context `{DevT}.

Definition parse_device (s : bytes) : option Z :=
  match splitn_on 2 COLON s with
  | [p0; p1] =>
      major ← parse_u32 p0;
      minor ← parse_u32 p1;
      Some (makedev major minor)
  | _ => None
  end.

(** The file type of a fourth field, and the device number it gives. *)
Definition override_type (type_str : bytes) : option (Z * option Z) :=
  if starts_with (bs "dir") type_str then Some (S_IFDIR, None)
  else if starts_with (bs "file") type_str then Some (S_IFREG, None)
  else if starts_with (bs "symlink") type_str then Some (S_IFLNK, None)
  else if starts_with (bs "pipe") type_str then Some (S_IFIFO, None)
  else if starts_with (bs "socket") type_str then Some (S_IFSOCK, None)
  else match strip_prefix (bs "block") type_str with
       | Some rest => Some (S_IFBLK, parse_device rest)
       | None =>
           match strip_prefix (bs "char") type_str with
           | Some rest => Some (S_IFCHR, parse_device rest)
           | None => None
           end
       end.

(** The result, and the [stat] as the function leaves it. *)
Definition parse_and_apply_override (s : bytes) (st : stat) : FsResult unit * stat :=
  let finish uid gid mode st :=
    (Ok tt, set_st_mode mode (set_st_gid gid (set_st_uid uid st))) in
  match splitn_on 4 COLON s with
  | p0 :: p1 :: p2 :: rest =>
      match parse_u32 p0, parse_u32 p1, parse_u32_oct p2 with
      | Some uid, Some gid, Some mode =>
          match rest with
          | [type_str] =>
              match override_type type_str with
              | Some (ty, dev) =>
                  finish uid gid (Z.lor mode ty)
                    (match dev with Some d => set_st_rdev d st | None => st end)
              | None => (Err EINVAL, st)
              end
          | _ => finish uid gid (Z.lor mode (file_type (st_mode st))) st
          end
      | _, _, _ => (Err EINVAL, st)
      end
  | _ => (Err EINVAL, st)
  end.

Definition parse_override_fields (s : bytes) (st : stat) : Z * Z * Z :=
  match splitn_on 4 COLON s with
  | p0 :: p1 :: p2 :: _ =>
      (default (st_uid st) (parse_u32 p0), default (st_gid st) (parse_u32 p1),
       default (Z.land (st_mode st) PERM_MASK) (parse_u32_oct p2))
  | _ => (st_uid st, st_gid st, Z.land (st_mode st) PERM_MASK)
  end.

(** [format!("{}:{}:{:o}", ...)], what [setattr] stores. *)
Definition override_value (uid gid mode : Z) : bytes :=
  print_dec uid ++ COLON :: print_dec gid ++ COLON :: print_oct mode.

(** The attribute of a mode other than [None]. *)
Definition override_xattr_name (m : StatOverrideMode) : option bytes :=
  match m with
  | ModeNone => None
  | ModeUser | ModeContainers => Some XATTR_OVERRIDE_CONTAINERS_STAT
  | ModePrivileged => Some XATTR_PRIVILEGED_OVERRIDE_STAT
  end.

(** The [stat] after the override: on an error it is what the failed parse
    left, as behind the [&mut]. *)
Definition override_mode {S} (layer : OvlLayer) (fd : RawFd) (path : bytes) (st : stat)
    : SM S (FsResult unit * stat) :=
  let ft := file_type (st_mode st) in
  if negb (ft =? S_IFDIR) && negb (ft =? S_IFREG) then sm_ret (Ok tt, st)
  else
    match override_xattr_name (layer_stat_override_mode layer) with
    | None => sm_ret (Ok tt, st)
    | Some xattr_name =>
        let! r := (if 0 <=? fd then sm_call (Fgetxattr fd xattr_name 64)
                   else stateless (getxattr (ds layer) path xattr_name 64)) in
        sm_ret (match r with
                | Err e => (if (e =? ENODATA) || (e =? ENOTSUP) then Ok tt else Err e, st)
                | Ok s => if valid_utf8 s then parse_and_apply_override s st else (Err EINVAL, st)
                end)
    end.
End override.

(** ** Helpers without a system call *)

Definition child_path (parent_path name : bytes) : bytes :=
  if bool_decide (parent_path = bs ".") then name else parent_path ++ SLASH :: name.

Definition wh_prefix_name (name : bytes) : option bytes :=
  if starts_with WH_PREFIX name && negb (bool_decide (name = OPAQUE_WHITEOUT))
  then Some (drop 4 name) else None.

Definition is_whiteout_or_missing (s : OverlayInner) (id : NodeId) : bool :=
  negb (contains_key (nodes s) id).

Definition upper_layer (s : OverlayInner) : option OvlLayer :=
  match layers s with
  | l :: _ => if low l then None else Some l
  | [] => None
  end.
Definition upper (s : OverlayInner) : FsResult OvlLayer := ok_or EROFS (upper_layer s).

Definition node (s : OverlayInner) (id : NodeId) : FsResult OvlNode := ok_or ENOENT (nodes_get s id).
Definition layer (s : OverlayInner) (idx : nat) : FsResult OvlLayer := ok_or ENOENT (layers s !! idx).
Definition node_and_layer (s : OverlayInner) (id : NodeId) : FsResult (OvlNode * OvlLayer) :=
  let? n := node s id in
  let? l := layer s (layer_idx n) in
  Ok (n, l).

(** The key of a node's inode. *)
Definition node_key (n : OvlNode) : InodeKey := {| key_ino := tmp_ino n; key_dev := tmp_dev n |}.

Section helpers.
Context `{F64, HashOrder} (config : OverlayConfig).

Definition map_uid (s : OverlayInner) (id : Z) : Z :=
  find_mapping id (cfg_uid_mappings config) false (cfg_squash_to_root config)
    (cfg_squash_to_uid config) (o_uid (overflow s)).
Definition map_gid (s : OverlayInner) (id : Z) : Z :=
  find_mapping id (cfg_gid_mappings config) false (cfg_squash_to_root config)
    (cfg_squash_to_gid config) (o_gid (overflow s)).

(** The first live node of the inode; [INodeNo::ROOT] is 1. *)
Definition lookup_node_id (s : OverlayInner) (ino : Z) : option NodeId :=
  if ino =? 1 then Some (root_id s)
  else
    ovl_ino ← fuse_to_ino (inodes s) ino;
    head (filter (λ id, contains_key (nodes s) id = true) (hash_order (ino_nodes ovl_ino))).

Definition resolve_node (s : OverlayInner) (ino : Z) : FsResult NodeId :=
  let? node_id := ok_or ENOENT (lookup_node_id s ino) in
  if is_whiteout_or_missing s node_id then Err ENOENT else Ok node_id.

Definition resolve_node_for_write (s : OverlayInner) (ino : Z) : FsResult NodeId :=
  ok_or ENOENT (lookup_node_id s ino).

(** The link count [rpl_stat_with_path] reports, given the one on disk. *)
Definition rpl_nlink (s : OverlayInner) (n : OvlNode) (st_nlink : Z) : Z :=
  if is_loaded n && (0 <? n_links n) then n_links n
  else if is_dir n then
    if cfg_static_nlink config then 1
    else
      2 + match children n with
          | Some ch => Z.of_nat (length (filter (λ id,
              match nodes_get s id with Some c => is_dir c | None => false end = true)
              (snd <$> map_to_list ch)))
          | None => 0
          end
  else if tmp_ino n =? 0 then st_nlink
  else
    match get_by_key (inodes s) (node_key n) with
    | Some ovl_ino =>
        let count := Z.of_nat (size (filter (λ id, contains_key (nodes s) id = true)
                                       (ino_nodes ovl_ino))) in
        if 0 <? count then count else st_nlink
    | None => st_nlink
    end.
End helpers.

(** An entry of a directory handle. *)
Record DirEntry := {
  de_name : bytes; de_ino : Z; de_mode : Z; de_attr : option FileAttr; de_node_id : option NodeId
}.

(** Byte strings in lexicographic order, the [Ord] of [&[u8]]. *)
Fixpoint bytes_leb (s t : bytes) : bool :=
  match s, t with
  | [], _ => true
  | _ :: _, [] => false
  | c :: s', d :: t' =>
      if (N_of_ascii c =? N_of_ascii d)%N then bytes_leb s' t'
      else (N_of_ascii c <? N_of_ascii d)%N
  end.
Definition name_le (p q : bytes * NodeId) : Prop := bytes_leb p.1 q.1 = true.
#[export] Instance name_le_dec p q : Decision (name_le p q).
Proof. unfold name_le. apply _. Defined.

(** ** Programs of the inner state *)
Section inner.
Context `{F64, DevT, HashOrder} (copy_fuel : nat) (config : OverlayConfig).

Definition node_path (id : NodeId) : InnerM bytes :=
  let! s := sm_get in sm_fuel (compute_path (nodes s) id).

(** [self.layers[idx]] *)
Definition layer_at (idx : nat) : InnerM OvlLayer :=
  let! s := sm_get in sm_index (layers s) idx.

(** [self.inodes.register(&self.nodes, ...)] *)
Definition do_register (id : NodeId) (ino dev mode : Z) : InnerM (option Z) :=
  let! s := sm_get in
  let! (r, t) := sm_fuel (register (nodes s) id ino dev mode (inodes s)) in
  sm_modify (set_inodes t) ;;;
  sm_ret r.

Definition do_inc_lookup (key : InodeKey) : InnerM unit :=
  sm_modify (λ s, set_inodes (inc_lookup key (inodes s)) s).

Definition do_insert (n : OvlNode) : InnerM NodeId :=
  let! s := sm_get in
  let '(id, a) := arena_insert n (nodes s) in
  sm_modify (set_nodes a) ;;;
  sm_ret id.

(** [self.nodes.remove(&id)] and the drop of the node. *)
Definition do_remove (id : NodeId) : InnerM unit :=
  let! s := sm_get in
  let '(n, a) := arena_remove id (nodes s) in
  sm_modify (set_nodes a) ;;;
  match n with Some n => drop_node n | None => sm_ret tt end.

Definition is_wh_file (layer_idx : nat) (parent_path name : bytes) : InnerM bool :=
  let wh_path :=
    (if bool_decide (parent_path = bs ".") then WH_PREFIX else parent_path ++ bs "/.wh.") ++ name in
  let! l := layer_at layer_idx in
  let! r := stateless (file_exists (ds l) wh_path) in
  sm_ret (match r with Ok b => b | Err _ => false end).

Definition do_stat_with_path (node : OvlNode) (fd : RawFd) (path : bytes) : InnerM (FsResult stat) :=
  let! s := sm_get in
  try! layer := sm_ret (layer s (layer_idx node)) in
  if 0 <=? fd then stateless (ds_fstat (ds layer) fd path STATX_BASIC_STATS)
  else if hidden node then
    try! c_path := sm_ret (cstr_bytes (default [] (hidden_path node))) in
    sm_call (Fstatat (hidden_dirfd node) c_path AT_SYMLINK_NOFOLLOW)
  else stateless (statat (ds layer) path AT_SYMLINK_NOFOLLOW STATX_BASIC_STATS).

Definition get_st_ino_with_path (node : OvlNode) (path : bytes) : InnerM Z :=
  let! s := sm_get in
  let finish ino :=
    let ino := compute_fuse_ino ino (tmp_dev node) (ino_passthrough s) in
    if cfg_ino_t_32 config then wrap_u32 ino else ino in
  if negb (cfg_nfs_filehandles config =? 0) then
    match layer s (layer_idx node) with
    | Err _ => sm_ret (tmp_ino node)
    | Ok layer =>
        let! fh := stateless (get_nfs_filehandle (ds layer) path) in
        sm_ret (finish (if negb (fh =? 0) then fh else tmp_ino node))
    end
  else sm_ret (finish (tmp_ino node)).

Definition get_fs_namemax : InnerM Z :=
  let! s := sm_get in
  match layers s with
  | [] => sm_ret 251
  | l :: _ =>
      let! r := sm_call (Fstatvfs (layer_root_fd l)) in
      sm_ret (match r with
              | Ok svfs => if 4 <? f_namemax svfs then f_namemax svfs - 4 else f_namemax svfs
              | Err _ => 251
              end)
  end.

Definition rpl_stat_with_path (node_id : NodeId) (fd : RawFd) (path : bytes)
    : InnerM (FsResult stat) :=
  let! s := sm_get in
  try! node := sm_ret (node s node_id) in
  try! st := do_stat_with_path node fd path in
  try! layer := sm_ret (layer s (layer_idx node)) in
  let! st :=
    (if bool_decide (layer_stat_override_mode layer ≠ ModeNone) then
       let! (r, st) := override_mode layer fd path st in sm_ret st
     else sm_ret st) in
  let st := set_st_uid (find_mapping (st_uid st) (cfg_uid_mappings config) true
    (cfg_squash_to_root config) (cfg_squash_to_uid config) (o_uid (overflow s))) st in
  let st := set_st_gid (find_mapping (st_gid st) (cfg_gid_mappings config) true
    (cfg_squash_to_root config) (cfg_squash_to_gid config) (o_gid (overflow s))) st in
  let! ino := get_st_ino_with_path node path in
  let st := set_st_ino ino st in
  sm_ret (Ok (set_st_nlink (rpl_nlink config s node (st_nlink st)) st)).

Definition rpl_stat (node_id : NodeId) (fd : RawFd) : InnerM (FsResult stat) :=
  let! s := sm_get in
  try! n := sm_ret (node s node_id) in
  let! path := (if hidden n then sm_ret (default [] (hidden_path n)) else node_path node_id) in
  rpl_stat_with_path node_id fd path.

Definition do_getattr (node_id : NodeId) : InnerM (option FileAttr) :=
  let! r := rpl_stat node_id (-1) in
  match r with
  | Ok st => let! a := sm_expect (stat_to_attr st) in sm_ret (Some a)
  | Err _ => sm_ret None
  end.

Definition inherit_acl (parent_id : NodeId) (target_fd : RawFd) : InnerM unit :=
  if cfg_noacl config then sm_ret tt
  else
    let! parent_path := node_path parent_id in
    let! s := sm_get in
    match node_and_layer s parent_id with
    | Err _ => sm_ret tt
    | Ok (_, layer) =>
        let! r := stateless (getxattr (ds layer) parent_path (bs "system.posix_acl_default") 4096) in
        match r with
        | Err _ | Ok [] => sm_ret tt
        | Ok buf =>
            let! _ := sm_call (Fsetxattr target_fd (bs "system.posix_acl_default") buf 0) in
            sm_ret tt
        end
    end.

Definition insert_child_node (parent_id : NodeId) (child : OvlNode) : InnerM NodeId :=
  let! child_id := do_insert child in
  alter_node (λ p, (insert_child (name child) child_id p).2) parent_id ;;;
  sm_ret child_id.

(** ** Loading a directory from its layers *)

(** One entry of one layer: the body of the inner loop of [load_dir_impl]. *)
Definition load_entry (parent_id : NodeId) (path : bytes) (layer_idx : nat) (entry : RawDirEntry)
    : InnerM unit :=
  let nm := rde_name entry in
  if bool_decide (nm = bs "." ∨ nm = bs ".." ∨ nm = OPAQUE_WHITEOUT) then sm_ret tt
  else
    let! s := sm_get in
    match nodes_get s parent_id ≫= λ p, get_child p nm with
    | Some existing_id => alter_node (set_last_layer_idx layer_idx) existing_id
    | None =>
        if default false ((λ p, is_whiteout p nm) <$> nodes_get s parent_id) then sm_ret tt
        else
          let! wh := is_wh_file layer_idx path nm in
          if wh : bool then alter_node (insert_whiteout nm) parent_id
          else
            match wh_prefix_name nm with
            | Some whited_name =>
                if is_Some_b (nodes_get s parent_id ≫= λ p, get_child p whited_name)
                then sm_ret tt
                else alter_node (insert_whiteout whited_name) parent_id
            | None =>
                let! l := layer_at layer_idx in
                let! chardev :=
                  (if (rde_dtype entry =? DT_CHR) || (rde_dtype entry =? DT_UNKNOWN) then
                     let! r := stateless (statat (ds l) (child_path path nm)
                                            AT_SYMLINK_NOFOLLOW STATX_TYPE) in
                     sm_ret (match r with Ok st => is_chardev_whiteout st | Err _ => false end)
                   else sm_ret false) in
                if chardev : bool then alter_node (insert_whiteout nm) parent_id
                else
                  let is_dir := rde_dtype entry =? DT_DIR in
                  let unknown := (rde_ino entry, 0, if is_dir then S_IFDIR else 0) in
                  let! (ino, dev, mode) :=
                    (if cfg_fast_ino_check config then sm_ret unknown
                     else
                       let! r := stateless (statat (ds l) (child_path path nm) AT_SYMLINK_NOFOLLOW
                                   (Z.lor STATX_TYPE (Z.lor STATX_MODE STATX_INO))) in
                       sm_ret (match r with
                               | Ok st => (st_ino st, st_dev st, st_mode st)
                               | Err _ => unknown
                               end)) in
                  let actual_is_dir := (file_type mode =? S_IFDIR) || is_dir in
                  let child := OvlNode_new nm layer_idx ino dev actual_is_dir in
                  let child := set_node_mode mode child in
                  let child := set_last_layer_idx layer_idx child in
                  let child := set_parent (Some parent_id) child in
                  let! _ := insert_child_node parent_id child in sm_ret tt
            end
    end.

Fixpoint load_entries (parent_id : NodeId) (path : bytes) (layer_idx : nat)
    (entries : list RawDirEntry) : InnerM unit :=
  match entries with
  | [] => sm_ret tt
  | e :: entries' => load_entry parent_id path layer_idx e ;;;
                     load_entries parent_id path layer_idx entries'
  end.

(** The outer loop, over the layer indices that are left. *)
Fixpoint load_layers (parent_id : NodeId) (path : bytes) (last_layer_stop : option nat)
    (stop_lookup : bool) (idxs : list nat) : InnerM unit :=
  match idxs with
  | [] => sm_ret tt
  | layer_idx :: idxs' =>
      if stop_lookup then sm_ret tt
      else
        let stop_lookup :=
          match last_layer_stop with
          | Some last => (last =? layer_idx)%nat && (0 <? layer_idx)%nat
          | None => false
          end in
        let! l := layer_at layer_idx in
        let! r := stateless (statat (ds l) path AT_SYMLINK_NOFOLLOW STATX_TYPE) in
        match r with
        | Ok st =>
            if negb (file_type (st_mode st) =? S_IFDIR) then sm_ret tt
            else
              let! r := stateless (opendir (ds l) path) in
              match r with
              | Err _ => load_layers parent_id path last_layer_stop stop_lookup idxs'
              | Ok entries =>
                  load_entries parent_id path layer_idx entries ;;;
                  let! r := stateless (is_directory_opaque (ds l) path) in
                  let stop_lookup :=
                    match r with Ok true => true | _ => stop_lookup end in
                  load_layers parent_id path last_layer_stop stop_lookup idxs'
              end
        | Err e =>
            if (e =? ENOENT) || (e =? ENOTDIR)
            then load_layers parent_id path last_layer_stop stop_lookup idxs'
            else sm_ret tt
        end
  end.

Definition load_dir_impl (parent_id : NodeId) (path : bytes) (last_layer_stop : option nat)
    : InnerM unit :=
  let! s := sm_get in
  load_layers parent_id path last_layer_stop false (seq 0 (length (layers s))) ;;;
  alter_node mark_loaded parent_id.

Definition load_dir_entries (parent_id : NodeId) (path : bytes) : InnerM unit :=
  load_dir_impl parent_id path None.

Definition ensure_root_loaded : InnerM unit :=
  let! s := sm_get in
  if default true (is_loaded <$> nodes_get s (root_id s)) then sm_ret tt
  else load_dir_entries (root_id s) (bs ".").

(** ** Looking up one name *)

(** The loop of [do_lazy_lookup]: [None] for its early returns, otherwise
    what was found when it ends. *)
Fixpoint lazy_layers (parent_id : NodeId) (parent_path nm : bytes) (last_layer : nat)
    (found_node : option OvlNode) (stop_lookup : bool) (idxs : list nat)
    : InnerM (option (option OvlNode)) :=
  match idxs with
  | [] => sm_ret (Some found_node)
  | layer_idx :: idxs' =>
      if stop_lookup then sm_ret (Some found_node)
      else
        let stop_lookup := (last_layer =? layer_idx)%nat && (0 <? layer_idx)%nat in
        let path := child_path parent_path nm in
        let! l := layer_at layer_idx in
        let! r := stateless (statat (ds l) path AT_SYMLINK_NOFOLLOW
                    (Z.lor STATX_TYPE (Z.lor STATX_MODE STATX_INO))) in
        match r with
        | Err e =>
            if (e =? ENOENT) || (e =? ENOTDIR) || (e =? EACCES) then
              match found_node with
              | Some _ => lazy_layers parent_id parent_path nm last_layer found_node stop_lookup idxs'
              | None =>
                  let! wh := is_wh_file layer_idx parent_path nm in
                  if wh : bool then
                    alter_node (insert_whiteout nm) parent_id ;;; sm_ret None
                  else lazy_layers parent_id parent_path nm last_layer found_node stop_lookup idxs'
              end
            else sm_ret None
        | Ok st =>
            match found_node with
            | Some existing =>
                let existing := set_tmp_ino (st_ino st) existing in
                let existing := set_tmp_dev (st_dev st) existing in
                let existing := set_last_layer_idx layer_idx existing in
                lazy_layers parent_id parent_path nm last_layer (Some existing) stop_lookup idxs'
            | None =>
                let! wh := is_wh_file layer_idx parent_path nm in
                if wh : bool then
                  alter_node (insert_whiteout nm) parent_id ;;; sm_ret None
                else
                  match wh_prefix_name nm with
                  | Some whited => alter_node (insert_whiteout whited) parent_id ;;; sm_ret None
                  | None =>
                      if is_chardev_whiteout st then
                        alter_node (insert_whiteout nm) parent_id ;;; sm_ret None
                      else
                        let is_dir := file_type (st_mode st) =? S_IFDIR in
                        let child := OvlNode_new nm layer_idx (st_ino st) (st_dev st) is_dir in
                        let child := set_node_mode (st_mode st) child in
                        let child := set_last_layer_idx layer_idx child in
                        let child := set_parent (Some parent_id) child in
                        let! opaque :=
                          (if is_dir then
                             let! r := stateless (is_directory_opaque (ds l) path) in
                             sm_ret (match r with Ok true => true | _ => false end)
                           else sm_ret false) in
                        let stop_lookup := stop_lookup || opaque in
                        lazy_layers parent_id parent_path nm last_layer (Some child) stop_lookup idxs'
                  end
            end
        end
  end.

Definition do_lazy_lookup (parent_id : NodeId) (nm : bytes) : InnerM (option NodeId) :=
  let! parent_path := node_path parent_id in
  let! s := sm_get in
  match nodes_get s parent_id with
  | None => sm_ret None
  | Some p =>
      let! r := lazy_layers parent_id parent_path nm (last_layer_idx p) None false
                  (seq 0 (length (layers s))) in
      match r with
      | Some (Some child) =>
          let! child_id := do_insert child in
          (if negb (tmp_ino child =? 0) then
             let! _ := do_register child_id (tmp_ino child) (tmp_dev child) (node_mode child) in
             sm_ret tt
           else sm_ret tt) ;;;
          let! s := sm_get in
          match nodes_get s parent_id with
          | None => sm_ret None
          | Some _ =>
              alter_node (λ p, (insert_child (name child) child_id p).2) parent_id ;;;
              sm_ret (Some child_id)
          end
      | _ => sm_ret None
      end
  end.

Definition do_lookup_file (parent_ino : Z) (nm : option bytes) : InnerM (option NodeId) :=
  let! s := sm_get in
  match lookup_node_id s parent_ino with
  | None => sm_ret None
  | Some parent_id =>
      match nm with
      | None => sm_ret (Some parent_id)
      | Some nm =>
          match nodes_get s parent_id ≫= λ p, get_child p nm with
          | Some child_id => sm_ret (Some child_id)
          | None =>
              if default false ((λ p, is_whiteout p nm) <$> nodes_get s parent_id)
              then sm_ret None
              else
                let loaded := default true (is_loaded <$> nodes_get s parent_id) in
                if negb loaded then do_lazy_lookup parent_id nm else sm_ret None
          end
      end
  end.

Definition reload_dir (node_id : NodeId) : InnerM bool :=
  let! s := sm_get in
  match nodes_get s node_id with
  | None => sm_ret true
  | Some n =>
      if is_loaded n then sm_ret true
      else
        let! path := node_path node_id in
        load_dir_impl node_id path (Some (last_layer_idx n)) ;;;
        sm_ret true
  end.
(** ** Directory listings *)

Definition attr_of (r : FsResult stat) : InnerM (option FileAttr) :=
  match r with
  | Ok st => let! a := sm_expect (stat_to_attr st) in sm_ret (Some a)
  | Err _ => sm_ret None
  end.

(** The entry of one child; nothing for a missing or hidden one. *)
Definition child_entry (dir_path child_name : bytes) (child_id : NodeId) : InnerM (list DirEntry) :=
  let! s := sm_get in
  match nodes_get s child_id with
  | Some child =>
      if hidden child then sm_ret []
      else
        let path := child_path dir_path (name child) in
        let! ino := get_st_ino_with_path child path in
        let! r := rpl_stat_with_path child_id (-1) path in
        let! attr := attr_of r in
        sm_ret [{| de_name := child_name; de_ino := ino; de_mode := node_mode child;
                   de_attr := attr; de_node_id := Some child_id |}]
  | None => sm_ret []
  end.

Fixpoint child_entries (dir_path : bytes) (ids : list (bytes * NodeId)) : InnerM (list DirEntry) :=
  match ids with
  | [] => sm_ret []
  | (nm, id) :: ids' =>
      let! es := child_entry dir_path nm id in
      let! rest := child_entries dir_path ids' in
      sm_ret (es ++ rest)
  end.

Definition build_dir_entries (node_id : NodeId) : InnerM (list DirEntry) :=
  let! _ := reload_dir node_id in
  let! s := sm_get in
  match nodes_get s node_id with
  | None => sm_ret []
  | Some node =>
      let! dir_path := node_path node_id in
      let! self_ino := get_st_ino_with_path node dir_path in
      let! r := rpl_stat_with_path node_id (-1) dir_path in
      let! self_attr := attr_of r in
      let dot := {| de_name := bs "."; de_ino := self_ino; de_mode := S_IFDIR;
                    de_attr := self_attr; de_node_id := Some node_id |} in
      let! (parent_ino, parent_attr) :=
        match parent node with
        | Some pid =>
            match nodes_get s pid with
            | Some p =>
                let! parent_path := node_path pid in
                let! ino := get_st_ino_with_path p parent_path in
                let! r := rpl_stat_with_path pid (-1) parent_path in
                let! attr := attr_of r in
                sm_ret (ino, attr)
            | None => sm_ret (self_ino, self_attr)
            end
        | None => sm_ret (self_ino, self_attr)
        end in
      let dotdot := {| de_name := bs ".."; de_ino := parent_ino; de_mode := S_IFDIR;
                       de_attr := parent_attr; de_node_id := parent node |} in
      let child_ids := merge_sort name_le (map_to_list (default ∅ (children node))) in
      let! rest := child_entries dir_path child_ids in
      sm_ret (dot :: dotdot :: rest)
  end.

(** ** Changing the tree *)

Definition next_wd_counter : InnerM Z :=
  let! s := sm_get in
  sm_modify (set_wd_counter (wrap_u64 (wd_counter s + 1))) ;;;
  sm_ret (wd_counter s).

Definition get_node_up (node_id : NodeId) : InnerM (FsResult unit) :=
  let! s := sm_get in
  match upper_layer s with
  | None => sm_ret (Err EROFS)
  | Some _ =>
      try! n := sm_ret (node s node_id) in
      try! l0 := sm_ret (layer s 0) in
      if (layer_idx n =? 0)%nat && negb (low l0) then sm_ret (Ok tt)
      else zoom get_copy put_copy (copyup copy_fuel (layers s) (workdir_fd s) node_id)
  end.

Definition do_create_whiteout (dirfd : RawFd) (parent_path nm : bytes) (can_mknod : bool)
    : InnerM (FsResult unit) :=
  zoom CAN_MKNOD set_CAN_MKNOD (create_whiteout dirfd parent_path nm can_mknod).
Definition do_delete_whiteout (upper_fd : RawFd) (dirfd : option RawFd) (parent_path nm : bytes)
    : InnerM (FsResult unit) :=
  zoom CAN_MKNOD set_CAN_MKNOD (delete_whiteout upper_fd dirfd parent_path nm).

(** Is there something below the node that its removal would uncover? *)
Definition needs_whiteout (s : OverlayInner) (n : OvlNode) : bool :=
  (0 <? last_layer_idx n)%nat
  || match parent n with
     | Some pid => default false ((λ p, (0 <? last_layer_idx p)%nat) <$> nodes_get s pid)
     | None => false
     end.

(** The [if unlink_src] block of [hide_node]. *)
Definition hide_move (upper_fd : RawFd) (node_id : NodeId) (newname : bytes)
    : InnerM (FsResult unit) :=
  let! path := node_path node_id in
  let! s := sm_get in
  try! n := sm_ret (node s node_id) in
  try! (src_guard, src_dirfd, c_name) := open_parent_safe_cstr upper_fd path in
  if needs_whiteout s n then
    let! rename_wh_ok :=
      (if can_mknod s then
         let! r := sm_call (Renameat2 src_dirfd c_name (workdir_fd s) newname RENAME_WHITEOUT) in
         sm_ret (is_ok r)
       else sm_ret false) in
    if rename_wh_ok : bool then sm_ret (Ok tt)
    else
      try! _ := match parent n with
                | Some pid =>
                    let! parent_path := node_path pid in
                    do_create_whiteout upper_fd parent_path (name n) (can_mknod s)
                | None => sm_ret (Ok tt)
                end in
      sm_call (Renameat src_dirfd c_name (workdir_fd s) newname)
  else sm_call (Renameat src_dirfd c_name (workdir_fd s) newname).

(** The node's state after the move: it will be deleted when dropped. *)
Definition hide_mark (node_id : NodeId) (newname : bytes) : InnerM (FsResult unit) :=
  let! s := sm_get in
  try! n := sm_ret (node s node_id) in
  alter_node (λ n,
    let n := set_hidden true (set_hidden_path (Some newname) (set_hidden_dirfd (workdir_fd s) n)) in
    if is_dir n then set_do_rmdir true n else set_do_unlink true n) node_id ;;;
  match parent n with
  | Some pid => alter_node mark_unloaded pid
  | None => sm_ret tt
  end ;;;
  alter_node (set_parent None) node_id ;;;
  sm_ret (Ok tt).

Definition hide_node (node_id : NodeId) (unlink_src : bool) : InnerM (FsResult unit) :=
  let! s := sm_get in
  try! upper := sm_ret (upper s) in
  let! c := next_wd_counter in
  let newname := print_dec c in
  try! _ := (if unlink_src then hide_move (root_fd (ds upper)) node_id newname
             else sm_ret (Ok tt)) in
  hide_mark node_id newname.

Definition create_and_register_child (parent_id : NodeId) (nm : bytes) (st : stat) (is_dir : bool)
    : InnerM (option (NodeId * Z)) :=
  let child := OvlNode_new nm 0 (st_ino st) (st_dev st) is_dir in
  let child := set_parent (Some parent_id) child in
  let child := set_node_mode (st_mode st) child in
  let child := if is_dir then mark_loaded child else child in
  let! child_id := do_insert child in
  let! r := do_register child_id (st_ino st) (st_dev st) (st_mode st) in
  match r with
  | None => sm_ret None
  | Some fuse_ino =>
      do_inc_lookup {| key_ino := st_ino st; key_dev := st_dev st |} ;;;
      let! s := sm_get in
      match nodes_get s parent_id with
      | None => sm_ret None
      | Some _ =>
          alter_node (λ p, (insert_child nm child_id p).2) parent_id ;;;
          sm_ret (Some (child_id, fuse_ino))
      end
  end.

(** (pnode_id, pnode_path, upper_fd, child_path) *)
Definition prepare_create_parent (parent_ino : Z) (nm : bytes)
    : InnerM (FsResult (NodeId * bytes * RawFd * bytes)) :=
  let! r := do_lookup_file parent_ino None in
  try! pnode_id := sm_ret (ok_or ENOENT r) in
  try! _ := get_node_up pnode_id in
  let! pnode_path := node_path pnode_id in
  let! l0 := layer_at 0 in
  sm_ret (Ok (pnode_id, pnode_path, root_fd (ds l0), child_path pnode_path nm)).

Definition stat_and_register_child (pnode_id : NodeId) (nm path : bytes)
    : InnerM (FsResult (Z * FileAttr)) :=
  let! l0 := layer_at 0 in
  try! st := stateless (statat (ds l0) path AT_SYMLINK_NOFOLLOW STATX_BASIC_STATS) in
  let is_dir := file_type (st_mode st) =? S_IFDIR in
  let! r := create_and_register_child pnode_id nm st is_dir in
  match r with
  | Some (child_id, fuse_ino) =>
      let! attr := sm_expect (stat_to_attr st) in
      sm_ret (Ok (fuse_ino, set_attr_ino fuse_ino attr))
  | None => sm_ret (Err ENOMEM)
  end.

(** Remove every entry of a list from the open directory. *)
Fixpoint empty_entries (dir_raw : RawFd) (entries : list RawDirEntry) : InnerM unit :=
  match entries with
  | [] => sm_ret tt
  | e :: entries' =>
      (if bool_decide (rde_name e = bs "." ∨ rde_name e = bs "..") then sm_ret tt
       else
         match cstr_bytes (rde_name e) with
         | Ok c_name =>
             let! _ := sm_call (Unlinkat dir_raw c_name
                                  (if rde_dtype e =? DT_DIR then AT_REMOVEDIR else 0)) in
             sm_ret tt
         | Err _ => sm_ret tt
         end) ;;;
      empty_entries dir_raw entries'
  end.

Definition empty_upper_dir (upper : OvlLayer) (path : bytes) : InnerM (FsResult unit) :=
  try! fd := stateless (openat (ds upper) path (Z.lor O_RDONLY O_DIRECTORY) 0) in
  try! entries := sm_call (ReadDirDup fd) in
  empty_entries fd entries ;;;
  sm_ret (Ok tt).
End inner.
