(* ===== verification/EndsInner.v ===== *)
(** * The shared operations end

    The copy-up and the programs of Overlay.v against the kernel [LIVE]: they
    end, and keep the tree and the table in order. *)

From S2P Require Import Prelude Libc Mapping Xattr ConfigData Sys Openat2 Node Tree DataSource.
From S2P Require Import Whiteout Layer Copyup Overlay Ends.
Local Open Scope Z_scope.

(** ** Copying *)
Section copy.
Context {S : Type} (I : Inv S) (copy_fuel : nat).
Context (Hdata : ∀ g s, inv I g s → b_data g < Z.of_nat copy_fuel).

Lemma lives_copy_xattr_names N sfd dfd names : lives I N (copy_xattr_names sfd dfd names).
Proof using. induction names as [|nm names IH]; cbn [copy_xattr_names]; lives; exact IH. Qed.
Hint Resolve lives_copy_xattr_names : ends.
Lemma lives_copy_xattr N sfd dfd : lives I N (copy_xattr sfd dfd).
Proof using. unfold copy_xattr. lives. Qed.

Lemma later_paid g g' s : inv I g s → paid 0 0 g g' → later I g s g' s.
Proof using. intros Hi Hp. split; [by eapply inv_paid|]. split; [lia|done]. Qed.

Lemma ends_sendfile fuel sfd dfd size : ∀ copied s g,
  inv I g s → b_data g < Z.of_nat fuel →
  sm_ends LIVE (sendfile_loop fuel sfd dfd size copied) s g (λ _ s' g', later I g s g' s').
Proof using.
  induction fuel as [|fuel IH]; intros copied s g Hi Hf; cbn [sendfile_loop].
  { destruct (inv_budget _ _ _ Hi). lia. }
  destruct (_ <? _); [|by apply later_refl]. apply sm_ends_bind, sm_ends_call. intros r g' Hr.
  pose proof (later_paid _ _ _ Hi (live_post_paid _ _ _ _ Hr)) as Hl. pose proof Hl as (Hi' & _ & Hp).
  assert (∀ c, b_data g' < Z.of_nat fuel →
    sm_ends LIVE (sendfile_loop fuel sfd dfd size c) s g' (λ _ s' g'', later I g s g'' s')) as Hrec.
  { intros c Hf'. eapply sm_ends_mono; [by apply IH|]. intros ? s' g'' Hl'. by eapply later_trans. }
  destruct r as [n|e]; cbn in Hr |- *.
  - destruct (Z.eqb_spec n 0); [done|]. apply Hrec. unfold paid in *. lia.
  - destruct (e =? EINTR); [|done]. apply Hrec. unfold paid in *. lia.
Qed.

Lemma ends_write fuel dfd : ∀ buf s g,
  inv I g s → (length buf <= fuel)%nat →
  sm_ends LIVE (write_loop fuel dfd buf) s g (λ _ s' g', later I g s g' s').
Proof using.
  induction fuel as [|fuel IH]; intros [|c buf] s g Hi Hf; cbn [write_loop]; try (simpl in Hf; lia);
    try by apply later_refl.
  apply sm_ends_try, sm_ends_call. intros r g' Hr. pose proof (later_paid _ _ _ Hi (live_post_paid _ _ _ _ Hr)) as Hl. pose proof Hl as (Hi' & _ & Hp).
  destruct r as [n|e]; cbn in Hr; [|done]. destruct Hr as [Hn _].
  eapply sm_ends_mono; [apply IH; [done|]|].
  - rewrite length_drop. simpl in *. lia.
  - intros ? s' g'' Hl'. by eapply later_trans.
Qed.

Lemma ends_read fuel sfd dfd : ∀ s g,
  inv I g s → b_data g < Z.of_nat fuel →
  sm_ends LIVE (read_loop fuel sfd dfd) s g (λ _ s' g', later I g s g' s').
Proof using.
  induction fuel as [|fuel IH]; intros s g Hi Hf; cbn [read_loop].
  { destruct (inv_budget _ _ _ Hi). lia. }
  apply sm_ends_try, sm_ends_call. intros r g' Hr. pose proof (later_paid _ _ _ Hi (live_post_paid _ _ _ _ Hr)) as Hl. pose proof Hl as (Hi' & _ & Hp).
  destruct r as [[|c buf]|e]; [done| |done]. cbn in Hr.
  apply sm_ends_try. eapply sm_ends_mono; [apply ends_write; [done|]|].
  - unfold paid in Hr. simpl in *. lia.
  - intros [w|e] s' g'' Hl'; [|by eapply later_trans]. pose proof Hl' as (Hi'' & _ & Hp').
    eapply sm_ends_mono; [apply IH; [done|]|].
    + unfold paid in *. simpl in *. lia.
    + intros ? s'' g3 Hl3. eapply later_trans; [exact Hl|]. by eapply later_trans.
Qed.

Lemma lives_copy_data N sfd dfd size : lives I N (copy_data copy_fuel sfd dfd size).
Proof using Hdata.
  unfold copy_data. apply lives_bind; [apply lives_call|]. intros r. destruct (is_ok r); [apply lives_ret|].
  apply lives_bind.
  - intros s g Hi _. eapply sm_ends_mono; [apply ends_sendfile; [done|by eapply Hdata]|]. done.
  - intros [copied|]; [|apply lives_ret]. destruct (_ <=? _); [apply lives_ret|].
    intros s g Hi _. eapply sm_ends_mono; [apply ends_read; [done|by eapply Hdata]|]. done.
Qed.
End copy.
#[export] Hint Resolve lives_copy_xattr : ends.

(** ** Copy-up *)
Section copyup.
Context `{DevT} (copy_fuel : nat) (layers : list OvlLayer) (workdir_fd : RawFd).
Context (Hlayers : Forall (λ l, Ending (ds l)) layers).

(** The arena is still the tree it was. *)
Definition CopyInv (a0 : NodeArena) : Inv CopyState.
Proof using copy_fuel.
  refine {| inv g c := sub_tree a0 (cs_nodes c) ∧ tree_ok a0 ∧ budget_ok g ∧ b_data g < Z.of_nat copy_fuel;
            nx _ := 0 |}.
  - intros g g' c (? & ? & ? & ?) Hp. unfold budget_ok, paid in *. split_and!; try done; lia.
  - by intros g c (_ & _ & ? & _).
Defined.

Context (a0 : NodeArena).
Abbreviation I := (CopyInv a0).

Lemma copy_tree g c : inv I g c → tree_ok (cs_nodes c).
Proof using. intros (Hs & Ha & _). by eapply tree_sub. Qed.

Lemma ending_layer k l : ok_or ENOENT (layers !! k) = Ok l → Ending (ds l).
Proof using Hlayers.
  destruct (layers !! k) as [l'|] eqn:Hl; cbn; [|done]. intros [= <-]. by apply (Forall_lookup_1 _ _ _ _ Hlayers Hl).
Qed.

Lemma lives_cs_node N id : lives I N (cs_node id).
Proof using. unfold cs_node. intros s g Hi _. split; [done|by apply later_refl]. Qed.
Lemma lives_cs_path N id : lives I N (cs_path id).
Proof using.
  unfold cs_path. apply lives_get. intros s g Hi _. apply gives_fuel.
  destruct (compute_path_total_aux (cs_nodes s) id) as [p ->]; [by eapply tree_acyclic, copy_tree|]. by exists p.
Qed.
Lemma lives_next_wd_name N : lives I N next_wd_name.
Proof using. unfold next_wd_name. lives. apply lives_true. intros s' g' Hi. by split. Qed.
Lemma lives_cs_delete_whiteout N upper_fd dirfd parent_path nm :
  lives I N (cs_delete_whiteout upper_fd dirfd parent_path nm).
Proof using.
  apply lives_zoom_free; [apply lives_delete_whiteout|]. intros s g b Hi. by split.
Qed.
Lemma lives_cs_copied N id : lives I N (sm_modify (cs_alter (set_layer_idx 0) id)).
Proof using.
  apply lives_true. intros s g (Hs & ?). split; [|done]. split; [|done].
  eapply sub_tree_trans; [exact Hs|]. apply sub_tree_alter. intros n. split; [done|by left].
Qed.
Lemma lives_cs_copy_data N sfd dfd size : lives I N (copy_data copy_fuel sfd dfd size).
Proof using. apply lives_copy_data. by intros g s (_ & _ & _ & ?). Qed.
#[local] Hint Resolve lives_cs_node lives_cs_path lives_next_wd_name lives_cs_delete_whiteout lives_cs_copied
  lives_cs_copy_data ending_layer : ends.

Lemma lives_move_directory N wd_name dst_dirfd dst_name :
  lives I N (move_directory workdir_fd wd_name dst_dirfd dst_name).
Proof using. unfold move_directory. lives. Qed.
Lemma lives_move_file N wd_name dst_dirfd dst_name :
  lives I N (move_file workdir_fd wd_name dst_dirfd dst_name).
Proof using. unfold move_file. lives. Qed.
#[local] Hint Resolve lives_move_directory lives_move_file : ends.

Lemma lives_create_one_directory N id : lives I N (create_one_directory layers workdir_fd id).
Proof using Hlayers. unfold create_one_directory. lives. Qed.

(** The recursion is as long as the path. *)
Lemma ends_create_node_directory fuel : ∀ id s g,
  inv I g s → is_Some (path_parts fuel (cs_nodes s) id) →
  sm_ends LIVE (create_node_directory_go layers workdir_fd fuel id) s g (λ _ s' g', later I g s g' s').
Proof using Hlayers.
  assert (∀ id s g, inv I g s →
    sm_ends LIVE (create_one_directory layers workdir_fd id) s g (λ _ s' g', later I g s g' s')) as Hone.
  { intros id s g Hi. eapply sm_ends_mono; [by apply (lives_create_one_directory 0)|]. by intros ? s' g' []. }
  induction fuel as [|fuel IH]; intros id s g Hi Hpp; cbn [create_node_directory_go path_parts] in *;
    apply sm_ends_try; unfold sm_ends, cs_node, sm_gets; cbn [ends];
    (destruct (arena_get (cs_nodes s) id) as [n|] eqn:Hid; cbn [ok_or]; [|by apply later_refl]);
    (destruct (ok_or EROFS (head layers)) as [u|e]; [|by apply later_refl]);
    apply sm_ends_try, sm_ends_ret;
    (destruct (_ && _); [by apply later_refl|]);
    apply sm_ends_try;
    (destruct (parent n) as [pid|] eqn:Hpar; [|by apply Hone]);
    apply sm_ends_bind, sm_ends_get; cbv zeta; (destruct (_ || _); [|by apply Hone]).
  - by destruct Hpp.
  - eapply sm_ends_mono; [apply IH; [done|]|].
    + destruct (path_parts fuel (cs_nodes s) pid); [done|by destruct Hpp].
    + intros [[]|e] s' g' Hl; [|done]. pose proof Hl as (Hi' & _).
      eapply sm_ends_mono; [by apply Hone|]. intros ? s'' g'' Hl'. by eapply later_trans.
Qed.
Lemma lives_create_node_directory N id : lives I N (create_node_directory layers workdir_fd id).
Proof using Hlayers.
  intros s g Hi _. unfold create_node_directory. apply sm_ends_bind, sm_ends_get.
  eapply sm_ends_mono; [apply ends_create_node_directory; [done|]|done].
  apply path_parts_total. by eapply tree_acyclic, copy_tree.
Qed.
#[local] Hint Resolve lives_create_node_directory : ends.

Lemma lives_copyup_symlink N d upper_fd id path st :
  Ending d → lives I N (copyup_symlink workdir_fd d upper_fd id path st).
Proof using. intros Hd. unfold copyup_symlink. lives. Qed.
Lemma lives_copyup_special N d upper_fd id path st :
  Ending d → lives I N (copyup_special workdir_fd d upper_fd id path st).
Proof using. intros Hd. unfold copyup_special. lives. Qed.
Lemma lives_copyup_regular N d upper_fd id path st :
  Ending d → lives I N (copyup_regular copy_fuel workdir_fd d upper_fd id path st).
Proof using. intros Hd. unfold copyup_regular. lives. Qed.
#[local] Hint Resolve lives_copyup_symlink lives_copyup_special lives_copyup_regular : ends.

Lemma lives_copyup N id : lives I N (copyup copy_fuel layers workdir_fd id).
Proof using Hlayers.
  unfold copyup, copyup_kind. lives.
Qed.
End copyup.

(** ** The inner state *)
Section inner.
Context `{F64, DevT, HashOrder} (copy_fuel : nat) (config : OverlayConfig).
Context (ls : list OvlLayer) (Hls : Forall (λ l, Ending (ds l)) ls).
Implicit Types (s : OverlayInner) (g : Budget) (c N : Z).

(** [c] nodes may be made without asking the kernel again. *)
Record inner_live (c : Z) (g : Budget) (s : OverlayInner) : Prop := {
  il_layers : layers s = ls;
  il_tree : tree_ok (nodes s);
  il_table : table_ok (nodes s) (inodes s);
  il_root : 0 < root_id s < next_id (nodes s);
  il_budget : budget_ok g;
  il_names : next_id (nodes s) + b_names g + c < 2 ^ 64 - 1;
  il_data : b_data g < Z.of_nat copy_fuel
}.

Definition InnerInv (c : Z) : Inv OverlayInner.
Proof using copy_fuel ls.
  refine {| inv := inner_live c; nx s := next_id (nodes s) |}.
  - intros g g' s [] Hp. unfold budget_ok, paid in *. split; unfold budget_ok; try done; lia.
  - by intros g s [].
Defined.

(** *** Changes of the state *)
Lemma il_sub c g s a : sub_tree (nodes s) a → inner_live c g s → inner_live c g (set_nodes a s).
Proof using.
  intros Hs []. pose proof Hs as [E _]. split; cbn; rewrite ?E; try done; [by eapply tree_sub|by eapply table_sub].
Qed.
Lemma il_table_set c g s t : table_ok (nodes s) t → inner_live c g s → inner_live c g (set_inodes t s).
Proof using. by intros Ht []. Qed.
Lemma il_weaken c c' g s : inner_live c g s → c' <= c → inner_live c' g s.
Proof using. intros [] ?. split; try done. lia. Qed.

Lemma il_layer c g s k l : inner_live c g s → layer s k = Ok l → Ending (ds l).
Proof using Hls.
  intros [E _ _ _ _ _ _]. unfold layer. rewrite E. destruct (ls !! k) as [l'|] eqn:Hl; cbn; [|done].
  intros [= <-]. by apply (Forall_lookup_1 _ _ _ _ Hls Hl).
Qed.
Lemma il_layer_node c g s id n l : inner_live c g s → node_and_layer s id = Ok (n, l) → Ending (ds l).
Proof using Hls.
  intros Hi. unfold node_and_layer. destruct (node s id) as [n'|]; cbn; [|done].
  destruct (layer s (layer_idx n')) as [l'|] eqn:Hl; cbn; [|done]. intros [= <- <-]. by eapply il_layer.
Qed.

Section keeps.
Context (c : Z).
Abbreviation I := (InnerInv c).

Lemma lives_alter N f id : stays f → lives I N (alter_node f id).
Proof using.
  intros Hf. apply lives_true. intros s g Hi. split; [|done]. apply il_sub; [by apply sub_tree_alter|done].
Qed.
Lemma lives_node_path N id : lives I N (node_path id).
Proof using.
  apply lives_get. intros s g Hi _. apply gives_fuel.
  destruct (compute_path_total_aux (nodes s) id) as [p ->]; [exact (tree_acyclic _ (il_tree _ _ _ Hi))|]. by exists p.
Qed.
Lemma lives_layer_at {A} N idx (k : OvlLayer → InnerM A) :
  (∀ l, Ending (ds l) → lives I N (k l)) → lives I N (sm_bind (layer_at idx) k).
Proof using Hls.
  intros Hk. eapply gives_bind; [|exact Hk]. apply gives_get. intros s g [E _ _ _ _ _ _] _. apply gives_index.
  rewrite E. intros l Hl. by apply (Forall_lookup_1 _ _ _ _ Hls Hl).
Qed.
Lemma lives_do_inc_lookup N key : lives I N (do_inc_lookup key).
Proof using.
  apply lives_true. intros s g Hi. split; [|done]. apply il_table_set; [|done]. apply table_inc_lookup, Hi.
Qed.
Lemma lives_drop_node N n : lives I N (drop_node n).
Proof using. unfold drop_node. lives. Qed.
Lemma lives_do_remove N id : lives I N (do_remove id).
Proof using.
  intros s g Hi HN. unfold do_remove. apply sm_ends_bind, sm_ends_get.
  pose proof (il_sub c g s _ (sub_tree_remove (nodes s) id) Hi) as Hi'.
  assert (next_id (arena_remove id (nodes s)).2 = next_id (nodes s)) as En by done.
  destruct (arena_remove id (nodes s)) as [n a]. eapply ends_modify_then; [done|exact HN|done|cbn in *; lia|].
  destruct n; [apply lives_drop_node|apply lives_ret].
Qed.
Lemma lives_next_wd_counter N : lives I N next_wd_counter.
Proof using.
  unfold next_wd_counter. lives. apply lives_true. intros s' g' []. by split.
Qed.
Lemma lives_get_fs_namemax N : lives I N get_fs_namemax.
Proof using. unfold get_fs_namemax. lives. Qed.

(** A handler's borrow of the arena. *)
Lemma lives_get_node_up N id : lives I N (get_node_up copy_fuel id).
Proof using Hls.
  unfold get_node_up. apply lives_get. intros s g Hi HN. destruct (upper_layer s); [|apply lives_ret].
  apply lives_try_ret. intros n _. apply lives_try_ret. intros l _. destruct (_ && _); [apply lives_ret|].
  apply (gives_zoom I (λ s, CopyInv copy_fuel (nodes s))). intros s1 g1 Hi1 _. split_and!; [| |done|].
  - apply lives_copyup. by rewrite (il_layers _ _ _ Hi).
  - split; [apply sub_tree_refl|]. split; [apply Hi1|]. split; [apply Hi1|]. apply (il_data _ _ _ Hi1).
  - intros g' t Hp (Hs & _ & Hb & Hd). pose proof Hs as [E _]. split; [|cbn; lia].
    assert (inner_live c g' s1) as Hi2 by (by eapply (inv_paid I)).
    apply (il_sub c g' (set_wd_counter (cs_wd_counter t) (set_CAN_MKNOD (cs_can_mknod t) s1))); [exact Hs|].
    by destruct Hi2.
Qed.
Lemma lives_zoom_mknod {A} N (m : SM bool A) : lives Free 0 m → lives I N (zoom CAN_MKNOD set_CAN_MKNOD m).
Proof using. intros Hm. apply lives_zoom_free; [done|]. intros s g b Hi. split; [by destruct Hi|done]. Qed.
Lemma lives_do_create_whiteout N dirfd parent_path nm b : lives I N (do_create_whiteout dirfd parent_path nm b).
Proof using. apply lives_zoom_mknod, lives_create_whiteout. Qed.
Lemma lives_do_delete_whiteout N upper_fd dirfd parent_path nm :
  lives I N (do_delete_whiteout upper_fd dirfd parent_path nm).
Proof using. apply lives_zoom_mknod, lives_delete_whiteout. Qed.
End keeps.

Lemma ending_of_layer c g s k l : inv (InnerInv c) g s → layer s k = Ok l → Ending (ds l).
Proof using Hls. apply il_layer. Qed.
Lemma ending_of_node c g s id n l : inv (InnerInv c) g s → node_and_layer s id = Ok (n, l) → Ending (ds l).
Proof using Hls. apply il_layer_node. Qed.
End inner.

#[export] Hint Resolve stays_set_layer stays_set_last_layer stays_mark_loaded stays_mark_unloaded
  stays_clear_children stays_insert_whiteout stays_insert_child stays_remove_child stays_detach : ends.
#[export] Hint Resolve lives_alter lives_node_path lives_do_inc_lookup lives_drop_node lives_do_remove
  lives_next_wd_counter lives_get_fs_namemax lives_get_node_up lives_do_create_whiteout
  lives_do_delete_whiteout ending_of_layer ending_of_node : ends.
Ltac lives_hook ::=
  lazymatch goal with
  | |- lives _ _ (sm_bind (layer_at _) _) => eapply lives_layer_at; [eassumption|intros ? ?]
  end.

(** ** What makes no node *)
Section attributes.
Context `{F64, DevT, HashOrder} (copy_fuel : nat) (config : OverlayConfig).
Context (ls : list OvlLayer) (Hls : Forall (λ l, Ending (ds l)) ls) (c : Z).
Abbreviation I := (InnerInv copy_fuel ls c).

Lemma lives_is_wh_file N idx parent_path nm : lives I N (is_wh_file idx parent_path nm).
Proof using Hls. unfold is_wh_file. lives. Qed.
Lemma lives_do_stat_with_path N n fd path : lives I N (do_stat_with_path n fd path).
Proof using Hls. unfold do_stat_with_path. lives. Qed.
Lemma lives_get_st_ino_with_path N n path : lives I N (get_st_ino_with_path config n path).
Proof using Hls. unfold get_st_ino_with_path. lives. Qed.
Lemma lives_override_mode N l fd path st : Ending (ds l) → lives I N (override_mode l fd path st).
Proof using. intros Hl. unfold override_mode. lives. Qed.
#[local] Hint Resolve lives_do_stat_with_path lives_get_st_ino_with_path lives_override_mode : ends.
Lemma lives_rpl_stat_with_path N id fd path : lives I N (rpl_stat_with_path config id fd path).
Proof using Hls. unfold rpl_stat_with_path. lives. Qed.
#[local] Hint Resolve lives_rpl_stat_with_path : ends.
Lemma lives_rpl_stat N id fd : lives I N (rpl_stat config id fd).
Proof using Hls. unfold rpl_stat. lives. Qed.
#[local] Hint Resolve lives_rpl_stat : ends.
Lemma lives_do_getattr N id : lives I N (do_getattr config id).
Proof using Hls. unfold do_getattr. lives. Qed.
Lemma lives_inherit_acl N id fd : lives I N (inherit_acl config id fd).
Proof using Hls. unfold inherit_acl. lives. Qed.
Lemma lives_attr_of N r : lives I N (attr_of r).
Proof using. unfold attr_of. lives. Qed.
#[local] Hint Resolve lives_attr_of : ends.
Lemma lives_child_entry N dir_path nm id : lives I N (child_entry config dir_path nm id).
Proof using Hls. unfold child_entry. lives. Qed.
#[local] Hint Resolve lives_child_entry : ends.
Lemma lives_child_entries N dir_path ids : lives I N (child_entries config dir_path ids).
Proof using Hls. revert N. induction ids as [|[nm id] ids IH]; intros N; cbn [child_entries]; lives. Qed.
Lemma lives_hide_move N upper_fd id nm : lives I N (hide_move upper_fd id nm).
Proof using. unfold hide_move. lives. Qed.
End attributes.
#[export] Hint Resolve lives_is_wh_file lives_do_stat_with_path lives_get_st_ino_with_path lives_override_mode
  lives_rpl_stat_with_path lives_rpl_stat lives_do_getattr lives_inherit_acl lives_attr_of lives_child_entries
  lives_hide_move : ends.

(** ** What makes nodes

    [spends]: the program may use one node more than the invariant after it
    leaves room for. *)
Section spends.
Context (copy_fuel : nat) (ls : list OvlLayer) (c : Z) (Hc : 0 <= c).
Abbreviation I c := (InnerInv copy_fuel ls c).
Implicit Types (s : OverlayInner) (g : Budget) (N : Z).

Definition spends {A} N (m : InnerM A) : Prop :=
  ∀ s g, inv (I (c + 1)) g s → N <= nx (I c) s → sm_ends LIVE m s g (λ _ s' g', later (I c) g s g' s').

Lemma later_weaken c1 c2 g s g' s' : later (I c1) g s g' s' → c2 <= c1 → later (I c2) g s g' s'.
Proof using. intros (Hi & ? & ?) Hle. split; [exact (il_weaken copy_fuel ls c1 c2 _ _ Hi Hle)|done]. Qed.

Lemma lives_spends {A} N (m : InnerM A) : lives (I (c + 1)) N m → spends N m.
Proof using.
  intros Hm s g Hi HN. eapply sm_ends_mono; [by apply Hm|]. intros a s' g' [_ Hl]. eapply later_weaken; [exact Hl|lia].
Qed.
Lemma spends_bind {A B} N (m : InnerM A) (k : A → InnerM B) :
  lives (I (c + 1)) N m → (∀ a, spends N (k a)) → spends N (sm_bind m k).
Proof using.
  intros Hm Hk s g Hi HN. apply sm_ends_bind. eapply sm_ends_mono; [by apply Hm|].
  intros a s1 g1 [_ Hl]. pose proof Hl as (Hi1 & Hn1 & _). cbn in Hn1, HN.
  eapply sm_ends_mono; [apply Hk; [done|cbn; lia]|]. intros b s2 g2 Hl2.
  eapply later_trans; [eapply later_weaken; [exact Hl|lia]|exact Hl2].
Qed.
Lemma spends_get {A} N (k : OverlayInner → InnerM A) :
  (∀ s g, inv (I (c + 1)) g s → N <= nx (I c) s → spends (nx (I c) s) (k s)) → spends N (sm_bind sm_get k).
Proof using. intros Hk s g Hi HN. by apply (Hk s g). Qed.
Lemma spends_ret {A} N (a : A) : spends N (sm_ret a).
Proof using. apply lives_spends, lives_ret. Qed.
(** The node is made first, what follows makes none. *)
Lemma spends_then {A B} N (m : InnerM A) (k : A → InnerM B) :
  spends N m → (∀ a, lives (I c) N (k a)) → spends N (sm_bind m k).
Proof using.
  intros Hm Hk s g Hi HN. apply sm_ends_bind. eapply sm_ends_mono; [by apply Hm|].
  intros a s1 g1 Hl. pose proof Hl as (Hi1 & Hn1 & _). cbn in Hn1, HN.
  eapply sm_ends_mono; [apply Hk; [done|cbn; lia]|]. intros b s2 g2 [_ Hl2]. exact (later_trans _ _ _ _ _ _ _ Hl Hl2).
Qed.

(** A new node below a known one. *)
Definition child_ok N (n : OvlNode) : Prop := is_u64 (tmp_ino n) ∧ ∀ p, parent n = Some p → 0 < p < N.

Lemma ends_do_insert n s g (Q : NodeId → OverlayInner → Budget → Prop) :
  inv (I (c + 1)) g s → child_ok (nx (I c) s) n →
  (∀ s', inv (I c) g s' → nx (I c) s < nx (I c) s' → nodes_get s' (next_id (nodes s)) = Some n →
     Q (next_id (nodes s)) s' g) →
  sm_ends LIVE (do_insert n) s g Q.
Proof using Hc.
  intros Hi [Hu Hp] HQ. unfold do_insert. apply sm_ends_bind, sm_ends_get. destruct Hi as [E Ht Htab Hr Hb Hn Hd].
  assert (0 < next_id (nodes s)) as Hpos by apply Ht. unfold budget_ok in Hb.
  destruct (tree_insert (nodes s) n) as [Ht' En]; [done|lia|done|exact Hp|].
  apply (HQ (set_nodes (arena_insert n (nodes s)).2 s)).
  - split; try done; cbn [nodes inodes root_id set_nodes].
    + by apply table_insert; [lia|..].
    + cbn [arena_insert snd] in En |- *. rewrite En. lia.
    + cbn [arena_insert snd] in En |- *. rewrite En. lia.
  - cbn in En |- *. lia.
  - unfold nodes_get, arena_get. cbn. apply lookup_insert_eq.
Qed.

Lemma spends_insert_child_node N pid n : child_ok N n → spends N (insert_child_node pid n).
Proof using Hc.
  intros [Hu Hp] s g Hi HN. unfold insert_child_node. apply sm_ends_bind, ends_do_insert; [done| |].
  - split; [done|]. intros p Hpp. specialize (Hp p Hpp). cbn in *. lia.
  - intros s' Hi' Hn Hid.
    eapply sm_ends_mono; [apply (lives_bind (I c) 0); [apply lives_alter, stays_insert_child|intros; apply lives_ret|exact Hi'|]|].
    + cbn. pose proof (tree_next _ (il_tree _ _ _ _ _ Hi')). lia.
    + intros a s'' g'' [_ (Hi'' & Hn'' & Hp'')]. split; [done|]. cbn in *. split; [lia|done].
Qed.

(** A call that is paid for leaves room for what it reported. *)
Lemma lives_pays {A B} N (m : SM unit (FsResult A)) R cost (k : FsResult A → InnerM B) :
  pays m R cost → (∀ a, R a → 0 <= cost a) →
  (∀ a s g, R a → inv (I (c + cost a)) g s → N <= nx (I c) s →
     sm_ends LIVE (k (Ok a)) s g (λ _ s' g', later (I c) g s g' s')) →
  (∀ e, lives (I c) N (k (Err e))) → lives (I c) N (sm_bind (stateless m) k).
Proof using.
  intros Hm Hcost HOk HErr s g Hi HN. apply sm_ends_bind. apply ends_bind.
  eapply ends_mono; [apply Hm, Hi|]. intros [[a|e] []] g1.
  - intros [Ha Hp]. cbn. assert (inv (I (c + cost a)) g1 s) as Hi1.
    { destruct Hi as [E Ht Htab Hr Hb Hn Hd]. unfold budget_ok, paid in *. split; unfold budget_ok; try done; lia. }
    specialize (Hcost a Ha). assert (paid 0 0 g g1) as Hp0 by (eapply paid_weaken; [exact Hp|lia|lia]).
    eapply sm_ends_mono; [apply (HOk a s g1 Ha Hi1 HN)|]. intros b s2 g2 Hl. split; [done|].
    eapply (later_trans (I c) g s g1 s); [|exact Hl]. split; [by eapply (inv_paid (I c))|]. split; [lia|done].
  - intros Hp. cbn. assert (inv (I c) g1 s) as Hi1 by (by eapply (inv_paid (I c))).
    eapply sm_ends_mono; [apply (HErr e); [done|done]|]. intros b s2 g2 [_ Hl]. split; [done|].
    eapply (later_trans (I c) g s g1 s); [|exact Hl]. split; [done|]. split; [lia|done].
Qed.

(** A stat, then something that makes one node. *)
Lemma lives_stat_spends {A} N (m : SM unit (FsResult stat)) (k : stat → InnerM (FsResult A)) :
  pays_a_stat m → (∀ st, is_u64 (st_ino st) → spends N (k st)) → lives (I c) N (sm_try (stateless m) k).
Proof using.
  intros Hm Hk. eapply lives_pays; [exact Hm|done| |intros e; apply lives_ret].
  intros st s g Hst Hi HN. by apply Hk.
Qed.

(** The number a stat gives fits. *)
Lemma gives_stat N (m : SM unit (FsResult stat)) :
  pays_a_stat m →
  gives (I c) N (stateless m) (λ r, match r with Ok st => is_u64 (st_ino st) | Err _ => True end).
Proof using.
  intros Hm s g Hi HN. apply ends_bind. eapply ends_mono; [apply Hm, Hi|]. intros [[st|e] []] g1.
  - intros [Hst Hp]. split; [done|]. assert (paid 0 0 g g1) as Hp0 by (eapply paid_weaken; [exact Hp|lia|lia]).
    split; [by eapply (inv_paid (I c))|]. split; [lia|done].
  - intros Hp. split; [done|]. split; [by eapply (inv_paid (I c))|]. split; [lia|done].
Qed.
End spends.

Lemma spends_bind_gives copy_fuel ls c N {A B} (m : InnerM A) (k : A → InnerM B) (R : A → Prop) :
  gives (InnerInv copy_fuel ls (c + 1)) N m R → (∀ a, R a → spends copy_fuel ls c N (k a)) →
  spends copy_fuel ls c N (sm_bind m k).
Proof.
  intros Hm Hk s g Hi HN. apply sm_ends_bind. eapply sm_ends_mono; [by apply Hm|].
  intros a s1 g1 [Ha Hl]. pose proof Hl as (Hi1 & Hn1 & _). cbn in Hn1, HN.
  eapply sm_ends_mono; [apply (Hk a Ha); [done|cbn; lia]|]. intros b s2 g2 Hl2.
  eapply later_trans; [eapply later_weaken; [exact Hl|lia]|exact Hl2].
Qed.

(** ** Loading *)
Section load.
Context `{F64, DevT, HashOrder} (copy_fuel : nat) (config : OverlayConfig).
Context (ls : list OvlLayer) (Hls : Forall (λ l, Ending (ds l)) ls).
Abbreviation I c := (InnerInv copy_fuel ls c).
Abbreviation spends := (spends copy_fuel ls).
Implicit Types (s : OverlayInner) (g : Budget) (c N : Z).

Lemma spends_layer_at {A} c N idx (k : OvlLayer → InnerM A) :
  (∀ l, Ending (ds l) → spends c N (k l)) → spends c N (sm_bind (layer_at idx) k).
Proof using Hls.
  intros Hk. eapply spends_bind_gives; [|exact Hk]. apply gives_get. intros s g [E _ _ _ _ _ _] _.
  apply gives_index. rewrite E. intros l Hl. by apply (Forall_lookup_1 _ _ _ _ Hls Hl).
Qed.

Lemma spends_load_entry c N pid path idx e :
  0 <= c → 0 < pid < N → is_u64 (rde_ino e) → spends c N (load_entry config pid path idx e).
Proof using Hls.
  intros Hc Hpid He. unfold load_entry. cbv zeta. case_bool_decide; [apply spends_ret|].
  apply spends_get. intros s g _ HN. set (N' := nx _ s) in *. assert (0 < pid < N') as Hpid' by lia. clearbody N'.
  destruct (nodes_get s pid ≫= _); [apply lives_spends; lives|].
  destruct (default _ _); [apply spends_ret|]. apply spends_bind; [lives|]. intros [|]; [apply lives_spends; lives|].
  destruct (wh_prefix_name _); [apply lives_spends; lives|]. apply spends_layer_at. intros l Hl.
  apply spends_bind; [lives|]. intros [|]; [apply lives_spends; lives|].
  eapply (spends_bind_gives _ _ _ _ _ _ (λ r, is_u64 r.1.1)).
  { destruct (cfg_fast_ino_check config); [by apply gives_ret|].
    eapply gives_bind; [apply gives_stat, end_statat|]. intros [st|?] Hst; by apply gives_ret. }
  intros [[ino dev] mode] Hino. apply spends_then; [apply spends_insert_child_node; [done|]|intros; apply lives_ret].
  split; [done|]. intros p. cbn. intros [= <-]. done.
Qed.

Lemma ends_load_entries pid path idx es : ∀ c N s g,
  0 <= c → 0 < pid < N → Forall (λ e, is_u64 (rde_ino e)) es →
  inv (I (c + Z.of_nat (length es))) g s → N <= nx (I c) s →
  sm_ends LIVE (load_entries config pid path idx es) s g (λ _ s' g', later (I c) g s g' s').
Proof using Hls.
  induction es as [|e es IH]; intros c N s g Hc Hpid Hes Hi HN; cbn [load_entries].
  { apply sm_ends_ret, later_refl. by rewrite Z.add_0_r in Hi. }
  apply Forall_cons in Hes as [He Hes]. apply sm_ends_bind.
  replace (c + Z.of_nat (length (e :: es))) with (c + Z.of_nat (length es) + 1) in Hi by (simpl; lia).
  eapply sm_ends_mono; [apply (spends_load_entry (c + Z.of_nat (length es)) N); [lia|done|done|exact Hi|exact HN]|].
  intros ? s1 g1 Hl. pose proof Hl as (Hi1 & Hn1 & _). cbn in Hn1, HN.
  eapply sm_ends_mono; [apply (IH c N); [done|done|done|exact Hi1|cbn; lia]|]. intros ? s2 g2 Hl2.
  eapply later_trans; [eapply later_weaken; [exact Hl|lia]|exact Hl2].
Qed.

Lemma lives_load_layers c pid path last idxs : 0 <= c → ∀ N stop,
  0 < pid < N → lives (I c) N (load_layers config pid path last stop idxs).
Proof using Hls.
  intros Hc. induction idxs as [|idx idxs IH]; intros N stop Hpid; cbn [load_layers]; [apply lives_ret|].
  destruct stop; [apply lives_ret|]. cbv zeta. apply lives_layer_at; [done|]. intros l Hl.
  apply lives_bind; [lives|]. intros [st|e].
  2:{ destruct (_ || _); [by apply IH|apply lives_ret]. }
  destruct (negb _); [apply lives_ret|].
  eapply lives_pays; [apply end_opendir|intros es _; apply Nat2Z.is_nonneg| |intros e; by apply IH].
  intros es s g Hes Hi HN. apply sm_ends_bind.
  eapply sm_ends_mono; [by apply (ends_load_entries _ _ _ _ c N)|]. intros ? s1 g1 Hl1.
  pose proof Hl1 as (Hi1 & Hn1 & _). cbn in Hn1, HN.
  eapply sm_ends_mono; [apply (lives_bind (I c) N); [lives|intros; by apply IH|done|cbn; lia]|].
  intros ? s2 g2 [_ Hl2]. exact (later_trans _ _ _ _ _ _ _ Hl1 Hl2).
Qed.

Lemma lives_load_dir_impl c N pid path last :
  0 <= c → 0 < pid < N → lives (I c) N (load_dir_impl config pid path last).
Proof using Hls.
  intros Hc Hpid. unfold load_dir_impl. apply lives_get. intros s g _ HN.
  apply lives_bind; [apply lives_load_layers; [done|lia]|intros; lives].
Qed.

(** A node that is there has an id below the next. *)
Lemma known_node c g s id n : inv (I c) g s → nodes_get s id = Some n → 0 < id < nx (I c) s.
Proof using. intros Hi Hid. exact (tree_ids _ (il_tree _ _ _ _ _ Hi) _ _ Hid). Qed.

Lemma lives_reload_dir c N id : 0 <= c → lives (I c) N (reload_dir config id).
Proof using Hls.
  intros Hc. unfold reload_dir. apply lives_get. intros s g Hi HN. destruct (nodes_get s id) as [n|] eqn:Hid; [|lives].
  pose proof (known_node _ _ _ _ _ Hi Hid) as Hk. destruct (is_loaded n); [lives|].
  apply lives_bind; [lives|]. intros path. apply lives_bind; [by apply lives_load_dir_impl|intros; lives].
Qed.
Lemma lives_ensure_root_loaded c N : 0 <= c → lives (I c) N (ensure_root_loaded config).
Proof using Hls.
  intros Hc. unfold ensure_root_loaded, load_dir_entries. apply lives_get. intros s g Hi HN.
  destruct (default _ _); [lives|]. apply lives_load_dir_impl; [done|apply Hi].
Qed.
Lemma lives_build_dir_entries c N id : 0 <= c → lives (I c) N (build_dir_entries config id).
Proof using Hls.
  intros Hc. unfold build_dir_entries. apply lives_bind; [by apply lives_reload_dir|]. lives.
Qed.
End load.
#[export] Hint Resolve lives_reload_dir lives_ensure_root_loaded lives_build_dir_entries Z.le_refl : ends.

(** ** Looking up and registering *)
Section lookup.
Context `{F64, DevT, HashOrder} (copy_fuel : nat) (config : OverlayConfig).
Context (ls : list OvlLayer) (Hls : Forall (λ l, Ending (ds l)) ls).
Abbreviation I c := (InnerInv copy_fuel ls c).
Abbreviation spends := (spends copy_fuel ls).
Implicit Types (s : OverlayInner) (g : Budget) (c N : Z).

(** A node's inode is registered. *)
Lemma ends_do_register c id n mode s g (Q : option Z → OverlayInner → Budget → Prop) :
  0 <= c → inv (I c) g s → nodes_get s id = Some n →
  (∀ r s', later (I c) g s g s' → Q r s' g) →
  sm_ends LIVE (do_register id (tmp_ino n) (tmp_dev n) mode) s g Q.
Proof using.
  intros Hc Hi Hid HQ. unfold do_register. apply sm_ends_bind, sm_ends_get, sm_ends_bind.
  pose proof Hi as [E Ht Htab Hr Hb Hn Hd].
  destruct (register_ends (nodes s) (inodes s) id (tmp_ino n) (tmp_dev n) mode Ht Htab) as [[r t] Hreg].
  { unfold budget_ok in Hb. lia. }
  rewrite Hreg. apply sm_ends_ret, (HQ r (set_inodes t s)). split; [|split; [cbn; lia|by apply paid_refl]].
  apply il_table_set; [|exact Hi]. by eapply table_register.
Qed.

Lemma spends_create_and_register c N pid nm st isdir :
  0 <= c → 0 < pid < N → is_u64 (st_ino st) → spends c N (create_and_register_child pid nm st isdir).
Proof using.
  intros Hc Hpid Hst s g Hi HN. unfold create_and_register_child. cbv zeta. set (n := if isdir then _ else _).
  assert (tmp_ino n = st_ino st ∧ tmp_dev n = st_dev st ∧ parent n = Some pid) as (Ei & Ed & Ep) by by destruct isdir.
  clearbody n. apply sm_ends_bind, (ends_do_insert copy_fuel ls c); [done|exact Hi| |].
  { split; [by rewrite Ei|]. rewrite Ep. intros p [= <-]. cbn in *. lia. }
  intros s1 Hi1 Hn1 Hid. apply sm_ends_bind. rewrite <-Ei, <-Ed. eapply ends_do_register; [done|exact Hi1|exact Hid|].
  intros r s2 (Hi2 & Hn2 & Hp2). assert (later (I c) g s g s2) as Hl.
  { split; [done|]. cbn in *. split; [lia|done]. }
  apply (ends_lives (I c)); [exact Hl|]. lives.
Qed.

Definition found_ok N (found : option OvlNode) : Prop := match found with Some n => child_ok N n | None => True end.
Definition found_cost (found : option OvlNode) : Z := match found with Some _ => 1 | None => 0 end.

(** How the search ends: what it found is paid for. *)
Definition lazy_post c N g s (r : option (option OvlNode)) s' g' : Prop :=
  match r with
  | Some (Some n) => child_ok N n ∧ later (I (c + 1)) g s g' s'
  | _ => later (I c) g s g' s'
  end.

Lemma lazy_trans c N g s g1 s1 r s2 g2 :
  nx (I c) s <= nx (I c) s1 → paid 0 0 g g1 → lazy_post c N g1 s1 r s2 g2 → lazy_post c N g s r s2 g2.
Proof using.
  intros Hn1 Hp1. assert (∀ c0 g2 s2, later (I c0) g1 s1 g2 s2 → later (I c0) g s g2 s2) as Htr.
  { intros c0 g3 s3 (? & ? & Hp2). split; [done|]. split; [cbn in *; lia|]. exact (paid_trans _ _ _ _ _ _ _ Hp1 Hp2). }
  destruct r as [[n|]|]; [|apply Htr..]. intros [? Hl]. split; [done|]. by apply Htr.
Qed.
Lemma lazy_step {A} c c' N (m : InnerM A) (k : A → InnerM (option (option OvlNode))) (R : A → Prop) s g :
  gives (I c') N m R → inv (I c') g s → N <= nx (I c) s →
  (∀ a s1 g1, R a → inv (I c') g1 s1 → N <= nx (I c) s1 → sm_ends LIVE (k a) s1 g1 (lazy_post c N g1 s1)) →
  sm_ends LIVE (sm_bind m k) s g (lazy_post c N g s).
Proof using.
  intros Hm Hi HN Hk. apply sm_ends_bind. eapply sm_ends_mono; [by apply Hm|].
  intros a s1 g1 [Ha (Hi1 & Hn1 & Hp1)]. cbn in HN, Hn1. eapply sm_ends_mono; [apply Hk; [done|done|cbn; lia]|].
  intros r s2 g2. by apply lazy_trans.
Qed.
Lemma lazy_stat c c' N (m : SM unit (FsResult stat)) (k : FsResult stat → InnerM (option (option OvlNode))) s g :
  pays_a_stat m → inv (I c') g s →
  (∀ st g1, is_u64 (st_ino st) → inv (I (c' + 1)) g1 s → sm_ends LIVE (k (Ok st)) s g1 (lazy_post c N g1 s)) →
  (∀ e g1, inv (I c') g1 s → sm_ends LIVE (k (Err e)) s g1 (lazy_post c N g1 s)) →
  sm_ends LIVE (sm_bind (stateless m) k) s g (lazy_post c N g s).
Proof using.
  intros Hm Hi HOk HErr. apply sm_ends_bind. apply ends_bind.
  eapply ends_mono; [apply Hm; by eapply (inv_budget (I c'))|]. intros [[st|e] []] g1.
  - intros [Hst Hp]. cbn. assert (paid 0 0 g g1) as Hp0 by (eapply paid_weaken; [exact Hp|lia|lia]).
    eapply sm_ends_mono; [apply HOk; [done|]|].
    + destruct Hi as [E Ht Htab Hr Hb Hn Hd]. unfold budget_ok, paid in *. split; unfold budget_ok; try done; lia.
    + intros r s2 g2. by apply lazy_trans.
  - intros Hp. cbn. eapply sm_ends_mono; [apply HErr; by eapply (inv_paid (I c'))|].
    intros r s2 g2. by apply lazy_trans.
Qed.
Lemma lazy_whiteout c N s g id w : 0 <= c →
  inv (I (c + 1)) g s ∨ inv (I c) g s → N <= nx (I c) s →
  sm_ends LIVE (alter_node (insert_whiteout w) id ;;; sm_ret None) s g (lazy_post c N g s).
Proof using.
  intros Hc Hi HN. assert (inv (I c) g s) as Hi'.
  { destruct Hi as [Hi|Hi]; [|done]. apply (il_weaken copy_fuel ls (c + 1)); [exact Hi|lia]. }
  eapply (lazy_step c c N); [apply (lives_alter copy_fuel ls c), stays_insert_whiteout|done|done|].
  intros ? s1 g1 _ Hi1 HN1. apply sm_ends_ret. by apply later_refl.
Qed.

Lemma gives_layer_at c N idx : gives (I c) N (layer_at idx) (λ l, Ending (ds l)).
Proof using Hls.
  apply gives_get. intros s g [E _ _ _ _ _ _] _. apply gives_index. rewrite E. intros l Hl.
  by apply (Forall_lookup_1 _ _ _ _ Hls Hl).
Qed.

Lemma ends_lazy_layers c pid pp nm ll N idxs : 0 <= c → 0 < pid < N → ∀ found stop s g,
  inv (I (c + found_cost found)) g s → N <= nx (I c) s → found_ok N found →
  sm_ends LIVE (lazy_layers pid pp nm ll found stop idxs) s g (lazy_post c N g s).
Proof using Hls.
  intros Hc Hpid. induction idxs as [|idx idxs IH]; intros found stop s g Hi HN Hf; cbn [lazy_layers].
  all: assert (lazy_post c N g s (Some found) s g) as Hstop by
    (destruct found; cbn in Hi; [split; [done|by apply later_refl]|apply later_refl; by rewrite Z.add_0_r in Hi]).
  { by apply sm_ends_ret. }
  destruct stop; [by apply sm_ends_ret|]. clear Hstop. cbv zeta.
  eapply lazy_step; [apply gives_layer_at|exact Hi|exact HN|]. clear s g Hi HN. intros l s g Hl Hi HN. cbv beta in Hl.
  eapply lazy_stat; [apply (end_statat (d:=ds l))|exact Hi| |]; clear Hi.
  - intros st g1 Hst Hi. destruct found as [old|]; cbn in Hi.
    + apply IH; [cbn; apply (il_weaken copy_fuel ls (c + 1 + 1)); [exact Hi|lia]|done|]. split; [done|apply Hf].
    + rewrite Z.add_0_r in Hi.
      eapply lazy_step; [apply lives_is_wh_file; exact Hls|exact Hi|exact HN|]. clear s g g1 HN Hi.
      intros wh s g _ Hi HN. destruct wh; [apply lazy_whiteout; auto|].
      destruct (wh_prefix_name nm); [apply lazy_whiteout; auto|].
      destruct (is_chardev_whiteout st); [apply lazy_whiteout; auto|].
      eapply (lazy_step c (c + 1) N _ _ (λ _, True)); [|exact Hi|exact HN|].
      { change (lives (I (c + 1)) N (if file_type (st_mode st) =? S_IFDIR then
          let! r := stateless (is_directory_opaque (ds l) (child_path pp nm)) in
          sm_ret (match r with Ok true => true | _ => false end) else sm_ret false)). lives. }
      clear s g HN Hi. intros opaque s g _ Hi HN. apply IH; [exact Hi|exact HN|].
      split; [done|]. intros p. cbn. intros [= <-]. done.
  - intros e g1 Hi. destruct (_ || _).
    2:{ apply sm_ends_ret. apply later_refl. apply (il_weaken copy_fuel ls (c + found_cost found)); [exact Hi|].
        destruct found; cbn; lia. }
    destruct found as [old|]; [by apply IH|]. cbn in Hi. rewrite Z.add_0_r in Hi.
    eapply lazy_step; [apply lives_is_wh_file; exact Hls|exact Hi|exact HN|]. clear s g g1 HN Hi.
    intros wh s g _ Hi HN. destruct wh; [apply lazy_whiteout; auto|]. apply IH; [by rewrite Z.add_0_r|done|done].
Qed.

Lemma lives_do_lazy_lookup c N pid nm : 0 <= c → lives (I c) N (do_lazy_lookup pid nm).
Proof using Hls.
  intros Hc. unfold do_lazy_lookup. apply lives_bind; [lives|]. intros pp. apply lives_get. intros s0 g0 Hi0 _.
  destruct (nodes_get s0 pid) as [p|] eqn:Hpid; [|lives].
  pose proof (known_node _ _ _ _ _ _ _ Hi0 Hpid) as Hk. intros s g Hi HN. clear Hi0. apply sm_ends_bind.
  cbn in Hk. eapply sm_ends_mono; [apply (ends_lazy_layers c pid pp nm _ (nx (I c) s0)); [done|done| |done|done]|].
  { cbn. by rewrite Z.add_0_r. }
  intros [[n|]|] s1 g1 Hpost; cbn in Hpost.
  2,3: apply sm_ends_ret; by split.
  destruct Hpost as [[Hu Hpar] (Hi1 & Hn1 & Hp1)]. cbn in Hn1, HN.
  apply sm_ends_bind, (ends_do_insert copy_fuel ls c Hc); [exact Hi1| |].
  { split; [done|]. intros q Hq. specialize (Hpar q Hq). cbn in *. lia. }
  intros s2 Hi2 Hn2 Hid2. cbn in Hn2. assert (later (I c) g s g1 s2) as Hl2.
  { split; [done|]. split; [cbn; lia|done]. }
  set (rest := λ _ : unit, _). assert (∀ s3, later (I c) g s g1 s3 →
    sm_ends LIVE (rest tt) s3 g1 (λ _ s' g', True ∧ later (I c) g s g' s')) as Hrest.
  { intros s3 Hl3. eapply sm_ends_mono; [apply (ends_lives (I c) (rest tt)); [exact Hl3|]|by split].
    unfold rest. lives. }
  clearbody rest. apply sm_ends_bind. destruct (negb _).
  - apply sm_ends_bind. eapply ends_do_register; [exact Hc|exact Hi2|exact Hid2|].
    intros r s3 Hl3. apply sm_ends_ret, Hrest. by eapply later_trans.
  - by apply sm_ends_ret, Hrest.
Qed.
#[local] Hint Resolve lives_do_lazy_lookup : ends.

Lemma known_lookup c g s ino id : inv (I c) g s → lookup_node_id s ino = Some id → 0 < id < nx (I c) s.
Proof using.
  intros Hi. unfold lookup_node_id. destruct (ino =? 1); [intros [= <-]; apply Hi|].
  destruct (fuse_to_ino (inodes s) ino) as [o|]; cbn; [|done].
  intros Hid%head_Some_elem_of%list_elem_of_filter. destruct Hid as [[n Hn]%contains_key_get _].
  by eapply known_node.
Qed.
Lemma lives_do_lookup_file c N ino nm : 0 <= c → lives (I c) N (do_lookup_file ino nm).
Proof using Hls. intros Hc. unfold do_lookup_file. lives. Qed.
(** A directory found by its number is known. *)
Lemma lives_lookup_dir {A} c N ino (k : option NodeId → InnerM A) : 0 <= c →
  (∀ N' id, N <= N' → 0 < id < N' → lives (I c) N' (k (Some id))) → lives (I c) N (k None) →
  lives (I c) N (sm_bind (do_lookup_file ino None) k).
Proof using.
  intros Hc HSome HNone s g Hi HN. unfold do_lookup_file. apply sm_ends_bind, sm_ends_bind, sm_ends_get.
  destruct (lookup_node_id s ino) as [id|] eqn:Hid; apply sm_ends_ret.
  - pose proof (known_lookup _ _ _ _ _ Hi Hid). by apply (HSome (nx (I c) s)).
  - by apply HNone.
Qed.

Lemma lives_prepare_create {A} c N parent nm
    (k : NodeId * bytes * RawFd * bytes → InnerM (FsResult A)) : 0 <= c →
  (∀ N' id p fd q, N <= N' → 0 < id < N' → lives (I c) N' (k (id, p, fd, q))) →
  lives (I c) N (sm_try (prepare_create_parent copy_fuel parent nm) k).
Proof using Hls.
  intros Hc Hk s g Hi HN. apply sm_ends_try. unfold prepare_create_parent, do_lookup_file.
  apply sm_ends_bind, sm_ends_bind, sm_ends_get.
  destruct (lookup_node_id s parent) as [id|] eqn:Hid; apply sm_ends_ret; [|by split; [|apply later_refl]].
  pose proof (known_lookup _ _ _ _ _ Hi Hid) as Hknown.
  assert (gives (I c) (nx (I c) s) (try! _ := get_node_up copy_fuel id in
      let! pnode_path := node_path id in
      let! l0 := layer_at 0 in
      sm_ret (Ok (id, pnode_path, root_fd (ds l0), child_path pnode_path nm)))
    (λ r, match r with Ok q => q.1.1.1 = id | Err _ => True end)) as Hm.
  { eapply (gives_try _ _ _ _ (λ _, True)); [eapply gives_mono; [apply (lives_get_node_up copy_fuel ls Hls c (nx (I c) s))|lia|by intros []]| |done].
    intros _ _. eapply gives_bind; [apply lives_node_path|]. intros pp _.
    eapply gives_bind; [apply gives_layer_at|]. intros l _. by apply gives_ret. }
  eapply sm_ends_mono; [apply Hm; [done|lia]|]. intros [[[[id' pp] fd] q]|e] s1 g1 [HR Hl]; cbn in HR; [subst id'|by split].
  eapply sm_ends_mono; [apply (ends_lives (I c)); [exact Hl|]|by split].
  destruct Hl as (_ & Hn & _). apply Hk; cbn in *; lia.
Qed.

(** The end of a request that makes an entry. *)
Lemma lives_stat_and_register c N pid nm path :
  0 <= c → 0 < pid < N → lives (I c) N (stat_and_register_child pid nm path).
Proof using Hls.
  intros Hc Hpid. unfold stat_and_register_child. apply lives_layer_at; [done|]. intros l Hl.
  apply lives_stat_spends; [apply end_statat|]. intros st Hst. cbv zeta.
  apply spends_then; [by apply spends_create_and_register|]. lives.
Qed.
Lemma lives_hide_node c N id b : lives (I c) N (hide_node id b).
Proof using. unfold hide_node, hide_mark. lives. apply lives_alter. intros n. cbv zeta. case_match; (split; [done|by left]).
Qed.
Lemma lives_empty_entries c N fd es : lives (I c) N (empty_entries fd es).
Proof using. revert N. induction es as [|e es IH]; intros N; cbn [empty_entries]; lives. Qed.
End lookup.
#[export] Hint Resolve lives_do_lookup_file lives_hide_node lives_empty_entries : ends.
