(* ===== verification/Merge.v ===== *)
(** * What a merged directory shows

    [do_lazy_lookup] against its specification: while the layers do not change,
    a name of a merged directory is the entry of the first layer that decides
    it, by an entry or by a whiteout.  A layer is seen through a [View], what
    its data source answers; the kernel's answers are the function [o]. *)

From S2P Require Import Prelude Libc Mapping Xattr ConfigData Sys Openat2 Node DataSource Whiteout.
From S2P Require Import Layer Copyup Overlay.
Local Open Scope Z_scope.

(** ** Runs against a fixed kernel *)

Section runs.
Context (o : ∀ c, resp c).

(** The program returns [a] and leaves [s']. *)
Definition runs {S A} (m : SM S A) (s : S) (a : A) (s' : S) : Prop := exec o (m s) = Some (a, s').

Lemma runs_ret {S A} (a : A) (s : S) : runs (sm_ret a) s a s.
Proof using. done. Qed.
Lemma runs_get {S} (s : S) : runs sm_get s s s.
Proof using. done. Qed.
Lemma runs_modify {S} (f : S → S) s : runs (sm_modify f) s tt (f s).
Proof using. done. Qed.
Lemma runs_bind {S A B} (m : SM S A) (k : A → SM S B) s a s' b s'' :
  runs m s a s' → runs (k a) s' b s'' → runs (sm_bind m k) s b s''.
Proof using. unfold runs. intros Hm Hk. by rewrite exec_sm_bind, Hm. Qed.
Lemma runs_stateless {S A} (m : SM unit A) (s : S) a :
  runs m tt a tt → runs (stateless m) s a s.
Proof using. unfold runs, stateless. intros Hm. by rewrite exec_bind, Hm. Qed.
Lemma runs_fuel {S A} (v : option A) (s : S) a : v = Some a → runs (sm_fuel v) s a s.
Proof using. by intros ->. Qed.
Lemma runs_index {S A} (l : list A) i (s : S) a : l !! i = Some a → runs (sm_index l i) s a s.
Proof using. unfold runs, sm_index. by intros ->. Qed.
Lemma runs_eq {S A} (m : SM S A) s a s' b s'' :
  runs m s a s' → a = b → s' = s'' → runs m s b s''.
Proof using. by intros ? -> ->. Qed.
End runs.

Ltac run_step :=
  lazymatch goal with
  | |- runs _ (sm_bind _ _) _ _ _ => eapply runs_bind
  | |- runs _ (sm_ret _) _ _ _ => apply runs_ret
  | |- runs _ sm_get _ _ _ => apply runs_get
  | |- runs _ (sm_modify _) _ _ _ => apply runs_modify
  | |- runs _ (alter_node _ _) _ _ _ => apply runs_modify
  end; cbv beta iota zeta.
Ltac run := repeat run_step.

(** ** What a layer shows *)

Record View := {
  v_stat : bytes → FsResult stat;
  v_exists : bytes → FsResult bool;
  v_list : bytes → FsResult (list RawDirEntry);
  v_opaque : bytes → FsResult bool
}.

(** [v] is what the layer's data source answers; the mask of a [statat] only
    says which fields the caller reads. *)
Definition shows `{DevT} (o : ∀ c, resp c) (l : OvlLayer) (v : View) : Prop :=
  ∀ path,
    (∀ mask, runs o (statat (ds l) path AT_SYMLINK_NOFOLLOW mask) tt (v_stat v path) tt) ∧
    runs o (file_exists (ds l) path) tt (v_exists v path) tt ∧
    runs o (opendir (ds l) path) tt (v_list v path) tt ∧
    runs o (is_directory_opaque (ds l) path) tt (v_opaque v path) tt.

(** The path of the whiteout file of a name. *)
Definition wh_path (parent_path nm : bytes) : bytes :=
  (if bool_decide (parent_path = bs ".") then WH_PREFIX else parent_path ++ bs "/.wh.") ++ nm.
Definition has_wh_file (v : View) (parent_path nm : bytes) : bool :=
  match v_exists v (wh_path parent_path nm) with Ok b => b | Err _ => false end.

(** What a layer says about a name below [parent_path]. *)
Inductive verdict := Absent | Whites (nm : bytes) | Shows (st : stat) | Broken.

Definition absent_errno (e : Z) : bool := (e =? ENOENT) || (e =? ENOTDIR) || (e =? EACCES).

Definition verdict_at `{DevT} (v : View) (parent_path nm : bytes) : verdict :=
  match v_stat v (child_path parent_path nm) with
  | Err e =>
      if absent_errno e then if has_wh_file v parent_path nm then Whites nm else Absent
      else Broken
  | Ok st =>
      if has_wh_file v parent_path nm then Whites nm
      else match wh_prefix_name nm with
           | Some whited => Whites whited
           | None => if is_chardev_whiteout st then Whites nm else Shows st
           end
  end.

(** Of the layers in [part], [k] decides the name: the first that says
    anything. *)
Definition first_says `{DevT} (vs : list View) (part : nat → Prop) (p nm : bytes) (k : nat) (d : verdict) : Prop :=
  d ≠ Absent ∧ part k ∧
  (∃ v, vs !! k = Some v ∧ verdict_at v p nm = d) ∧
  (∀ j v, (j < k)%nat → vs !! j = Some v → verdict_at v p nm = Absent).

Lemma first_says_unique `{DevT} vs part p nm k k' d d' :
  first_says vs part p nm k d → first_says vs part p nm k' d' → k = k' ∧ d = d'.
Proof.
  intros (Hd & _ & (v & Hv & Hvd) & Hab) (Hd' & _ & (v' & Hv' & Hvd') & Hab').
  assert (k = k') as ->; [|simplify_eq; done].
  destruct (Nat.lt_trichotomy k k') as [Hlt|[?|Hlt]]; [|done|].
  - specialize (Hab' k v Hlt Hv). congruence.
  - specialize (Hab k' v' Hlt Hv'). congruence.
Qed.

(** Layer [j] has something at the name. *)
Definition entry_at (vs : list View) (p nm : bytes) (j : nat) (st : stat) : Prop :=
  ∃ v, vs !! j = Some v ∧ v_stat v (child_path p nm) = Ok st.
Definition layer_opaque (vs : list View) (p nm : bytes) (k : nat) : bool :=
  match vs !! k with
  | Some v => match v_opaque v (child_path p nm) with Ok true => true | _ => false end
  | None => false
  end.

(** An entry of layer [k] goes down to layer [j]: an opaque directory to its own,
    anything else to the last layer in [part] that has something at the name. *)
Definition goes_down (vs : list View) (part : nat → Prop) (p nm : bytes) (k : nat) (st : stat) (j : nat) (st' : stat) : Prop :=
  entry_at vs p nm j st' ∧ (k <= j)%nat ∧ part j ∧
  if (file_type (st_mode st) =? S_IFDIR) && layer_opaque vs p nm k then j = k
  else ∀ i st'', (j < i)%nat → part i → ¬ entry_at vs p nm i st''.

(** How the code takes the last layer of a directory: 0 is no bound. *)
Definition participates (last k : nat) : Prop := last = 0%nat ∨ (k <= last)%nat.
Abbreviation decides vs last := (first_says vs (participates last)).

(** The layers a directory is merged from: the root from all, another from
    those down to its last. *)
Definition merged_from (s : OverlayInner) (pid : NodeId) (n : OvlNode) (k : nat) : Prop :=
  pid = root_id s ∨ (k <= last_layer_idx n)%nat.

(** ** The loop over the layers *)

Section lazy.
Context `{F64, DevT, HashOrder} (o : ∀ c, resp c) (vs : list View).
Context (pid : NodeId) (p nm : bytes) (last : nat).
Implicit Types (s : OverlayInner).

(** No layer fails on the name. *)
Definition sane : Prop := ∀ k v, vs !! k = Some v → verdict_at v p nm ≠ Broken.

Definition views_ok s : Prop := Forall2 (shows o) (layers s) vs.

Lemma runs_layer_at s k v : views_ok s → vs !! k = Some v →
  ∃ l, runs o (layer_at k) s l s ∧ shows o l v.
Proof using.
  intros Hs Hv. destruct (Forall2_lookup_r _ _ _ _ _ Hs Hv) as (l & Hl & Hlv).
  exists l. split; [|done]. unfold layer_at. run. by apply runs_index.
Qed.

Lemma runs_is_wh_file s k v : views_ok s → vs !! k = Some v →
  runs o (is_wh_file k p nm) s (has_wh_file v p nm) s.
Proof using.
  intros Hs Hv. destruct (runs_layer_at s k v Hs Hv) as (l & Hl & Hlv).
  unfold is_wh_file. cbv zeta. eapply runs_bind; [exact Hl|].
  eapply runs_bind; [apply runs_stateless, Hlv|]. run.
Qed.

(** What looking at lower layers keeps of a found node. *)
Definition same_entry (c c' : OvlNode) : Prop :=
  layer_idx c' = layer_idx c ∧ name c' = name c ∧ node_mode c' = node_mode c ∧
  dir_state c' = dir_state c ∧ parent c' = parent c.

Lemma sane_stat k v e : sane → vs !! k = Some v → v_stat v (child_path p nm) = Err e →
  absent_errno e = true.
Proof using.
  intros Hsane Hv He. specialize (Hsane k v Hv). unfold verdict_at in Hsane. rewrite He in Hsane.
  by destruct (absent_errno e).
Qed.

(** Whether the layers from [k] on are past the last one. *)
Definition stopped (k : nat) : bool := (0 <? last)%nat && (last <? k)%nat.
Lemma stopped_S k : stopped k = false → ((last =? k) && (0 <? k))%nat = stopped (S k).
Proof using.
  unfold stopped. intros Hk. apply eq_true_iff_eq. apply andb_false_iff in Hk.
  rewrite !andb_true_iff, Nat.eqb_eq, !Nat.ltb_lt. rewrite !Nat.ltb_ge in Hk. lia.
Qed.
Lemma stopped_participates k : stopped k = false ↔ participates last k.
Proof using.
  unfold stopped, participates. rewrite andb_false_iff, !Nat.ltb_ge. lia.
Qed.

Lemma stopped_mono i k : (i <= k)%nat → stopped i = true → stopped k = true.
Proof using. unfold stopped. rewrite !andb_true_iff, !Nat.ltb_lt. lia. Qed.

(** What the node found so far knows of layer [j], the last one met that has
    something at the name. *)
Definition knows (c : OvlNode) (j : nat) (st : stat) : Prop :=
  last_layer_idx c = j ∧ tmp_ino c = st_ino st ∧ tmp_dev c = st_dev st.

Lemma lazy_found s : views_ok s → sane → ∀ m i c j st,
  (i + m = length vs)%nat → (j < i)%nat → entry_at vs p nm j st → participates last j → knows c j st →
  (∀ i' st', (j < i' < i)%nat → participates last i' → ¬ entry_at vs p nm i' st') →
  ∃ c' j' st', runs o (lazy_layers pid p nm last (Some c) (stopped i) (seq i m)) s (Some (Some c')) s ∧
    same_entry c c' ∧ (j <= j')%nat ∧ entry_at vs p nm j' st' ∧ participates last j' ∧ knows c' j' st' ∧
    ∀ i' st'', (j' < i')%nat → participates last i' → ¬ entry_at vs p nm i' st''.
Proof using.
  intros Hs Hsane. induction m as [|m IH]; intros i c j st Him Hji He Hp Hc Hno; cbn [seq lazy_layers].
  { exists c, j, st. split_and!; try done. intros i' st' Hi' Hp'. destruct (decide (i' < i)%nat); [by apply Hno|].
    intros (v & Hv & _). apply lookup_lt_Some in Hv. lia. }
  destruct (stopped i) eqn:Hstop.
  { exists c, j, st. split_and!; try done. intros i' st' Hi' Hp'. destruct (decide (i' < i)%nat); [by apply Hno|].
    apply stopped_participates in Hp'. rewrite (stopped_mono i i') in Hp'; [done|lia|done]. }
  rewrite (stopped_S i Hstop). cbv zeta. destruct (lookup_lt_is_Some_2 vs i) as [v Hv]; [lia|].
  destruct (runs_layer_at s i v Hs Hv) as (l & Hl & Hlv). destruct (Hlv (child_path p nm)) as (Hst & _).
  destruct (v_stat v (child_path p nm)) as [st1|e] eqn:E.
  - destruct (IH (S i) (set_last_layer_idx i (set_tmp_dev (st_dev st1) (set_tmp_ino (st_ino st1) c))) i st1)
      as (c' & j' & st' & Hr & Hsame & Hle & Hrest).
    + lia.
    + lia.
    + by exists v.
    + by apply stopped_participates.
    + done.
    + intros i' st' Hi'. lia.
    + exists c', j', st'. split_and!; [|exact Hsame|lia|apply Hrest..].
      eapply runs_bind; [exact Hl|]. by eapply runs_bind; [apply runs_stateless, Hst|].
  - destruct (IH (S i) c j st) as (c' & j' & st' & Hr & Hrest); [lia|lia|done..| |].
    + intros i' st' Hi' Hp'. destruct (decide (i' = i)) as [->|]; [|apply Hno; [lia|done]].
      intros (v' & Hv' & Hst'). simplify_eq. congruence.
    + exists c', j', st'. split; [|exact Hrest]. eapply runs_bind; [exact Hl|].
      eapply runs_bind; [apply runs_stateless, Hst|]. cbv beta iota.
      pose proof (sane_stat i v e Hsane Hv E) as Ha. unfold absent_errno in Ha. by rewrite Ha.
Qed.

(** What the search finds: the deciding layer's entry, its whiteout, or
    nothing. *)
Definition finds (s : OverlayInner) (r : option (option OvlNode)) (s' : OverlayInner) : Prop :=
  (∃ k st c, decides vs last p nm k (Shows st) ∧ r = Some (Some c) ∧ s' = s ∧
     layer_idx c = k ∧ name c = nm ∧ node_mode c = st_mode st ∧ parent c = Some pid ∧
     dir_state c = dir_state (OvlNode_new nm k 0 0 (file_type (st_mode st) =? S_IFDIR)) ∧
     ∃ j st', goes_down vs (participates last) p nm k st j st' ∧ knows c j st') ∨
  (∃ k w, decides vs last p nm k (Whites w) ∧ r = None ∧
     s' = set_nodes (arena_alter (insert_whiteout w) pid (nodes s)) s) ∨
  ((∀ k v, vs !! k = Some v → participates last k → verdict_at v p nm = Absent) ∧
     r = Some None ∧ s' = s).

(** One round of the loop, up to what the verdict decides. *)
Ltac lazy_case R :=
  let r := fresh "r" in let s' := fresh "s'" in let Hr := fresh "Hr" in let Hf := fresh in
  destruct R as (r & s' & Hr & Hf); exists r, s'; split; [|exact Hf];
  match goal with Hl : runs _ (layer_at _) _ _ _ |- _ => eapply runs_bind; [exact Hl|] end;
  match goal with Hst : ∀ mask, runs _ _ _ _ _ |- _ =>
    eapply runs_bind; [apply runs_stateless, Hst|] end; cbv beta iota;
  match goal with Ha : _ || _ || _ = true |- _ => rewrite Ha | _ => idtac end;
  match goal with Hwh : runs _ (is_wh_file _ _ _) _ _ _ |- _ => eapply runs_bind; [exact Hwh|] end;
  cbv beta iota;
  repeat match goal with E : ?x = _ |- runs _ (match ?x with _ => _ end) _ _ _ => rewrite E; cbv beta iota end;
  try exact Hr.

Lemma lazy_search s : views_ok s → sane →
  ∀ m i, (i + m = length vs)%nat →
  (∀ j v, (j < i)%nat → vs !! j = Some v → participates last j → verdict_at v p nm = Absent) →
  ∃ r s', runs o (lazy_layers pid p nm last None (stopped i) (seq i m)) s r s' ∧ finds s r s'.
Proof using.
  intros Hs Hsane. induction m as [|m IH]; intros i Him Habove; cbn [seq lazy_layers].
  { exists (Some None), s. split; [done|]. right; right. split; [|done].
    intros k v Hv. apply Habove; [|done]. apply lookup_lt_Some in Hv. lia. }
  destruct (stopped i) eqn:Hstop.
  { exists (Some None), s. split; [done|]. right; right. split; [|done]. intros k v Hv Hp.
    apply (Habove k v); [|done..]. unfold stopped in Hstop.
    apply andb_true_iff in Hstop as [?%Nat.ltb_lt ?%Nat.ltb_lt]. unfold participates in Hp. lia. }
  rewrite (stopped_S i Hstop). cbv zeta.
  destruct (lookup_lt_is_Some_2 vs i) as [v Hv]; [lia|].
  destruct (runs_layer_at s i v Hs Hv) as (l & Hl & Hlv).
  destruct (Hlv (child_path p nm)) as (Hst & _ & _ & Hopq).
  pose proof (runs_is_wh_file s i v Hs Hv) as Hwh. pose proof (Hsane i v Hv) as Hb.
  assert (participates last i) as Hpart by (by apply stopped_participates).
  assert (∀ d, verdict_at v p nm = d → d ≠ Absent → decides vs last p nm i d) as Hdec.
  { intros d Hd Hne. split_and!; [done|done|by exists v|]. intros j v' Hj Hv'.
    apply (Habove j v'); [lia|done|]. unfold participates in *. lia. }
  assert (∀ w, verdict_at v p nm = Whites w → ∃ r s',
    runs o (alter_node (insert_whiteout w) pid ;;; sm_ret None) s r s' ∧ finds s r s') as Hwhite.
  { intros w Hw. eexists _, _. split; [run|]. right; left. exists i, w. split; [by apply Hdec|done]. }
  revert Hb Hdec Hwhite. unfold verdict_at.
  destruct (v_stat v (child_path p nm)) as [st|e] eqn:E.
  - destruct (has_wh_file v p nm) eqn:Ewh; (try rewrite Ewh in Hwh); [intros _ _ Hwhite; lazy_case (Hwhite nm eq_refl)|].
    destruct (wh_prefix_name nm) as [w|] eqn:Ew; [intros _ _ Hwhite; lazy_case (Hwhite w eq_refl)|].
    destruct (is_chardev_whiteout st) eqn:Ec; [intros _ _ Hwhite; lazy_case (Hwhite nm eq_refl)|].
    intros _ Hdec _. set (dir := file_type (st_mode st) =? S_IFDIR).
    set (child := set_parent (Some pid) (set_last_layer_idx i (set_node_mode (st_mode st)
      (OvlNode_new nm i (st_ino st) (st_dev st) dir)))).
    set (opq := match v_opaque v (child_path p nm) with Ok true => true | _ => false end).
    assert (∃ r s', runs o (lazy_layers pid p nm last (Some child) (stopped (S i) || dir && opq)
      (seq (S i) m)) s r s' ∧ finds s r s') as Hfound.
    { assert (entry_at vs p nm i st) as He by (by exists v).
      assert (layer_opaque vs p nm i = opq) as Ho by (unfold layer_opaque; by rewrite Hv).
      assert (∃ c j st', runs o (lazy_layers pid p nm last (Some child) (stopped (S i) || dir && opq) (seq (S i) m)) s
          (Some (Some c)) s ∧ same_entry child c ∧ goes_down vs (participates last) p nm i st j st' ∧ knows c j st')
        as (c & j & st' & Hr & (H3 & H4 & H5 & H6 & H7) & Hgd).
      { unfold goes_down. fold dir. rewrite Ho. destruct (dir && opq).
        - exists child, i, st. rewrite orb_true_r. split_and!; try done. by destruct m.
        - rewrite orb_false_r. destruct (lazy_found s Hs Hsane m (S i) child i st)
            as (c & j & st' & Hr & Hsame & Hle & He' & Hp' & Hk & Hno); [lia|lia|done..|intros; lia|].
          exists c, j, st'. by split_and!. }
      exists (Some (Some c)), s. split; [exact Hr|]. left. exists i, st, c.
      split; [by apply Hdec|]. split_and!; try done; eauto; congruence. }
    lazy_case Hfound. eapply runs_bind; [|exact Hr]. fold dir. destruct dir; [|run].
    eapply runs_bind; [apply runs_stateless, Hopq|]. run.
  - pose proof (sane_stat i v e Hsane Hv E) as Ha. rewrite Ha. unfold absent_errno in Ha.
    destruct (has_wh_file v p nm) eqn:Ewh; (try rewrite Ewh in Hwh); [intros _ _ Hwhite; lazy_case (Hwhite nm eq_refl)|].
    intros _ _ _.
    assert (∃ r s', runs o (lazy_layers pid p nm last None (stopped (S i)) (seq (S i) m)) s r s' ∧
      finds s r s') as Hnext.
    { apply IH; [lia|]. intros j v' Hj Hv' Hp. destruct (decide (j = i)) as [->|].
      - simplify_eq. unfold verdict_at. rewrite E, Ewh. unfold absent_errno. by rewrite Ha.
      - apply (Habove j v'); [lia|done..]. }
    lazy_case Hnext.
Qed.

(** ** Looking up a name *)

(** The tables are in order: numbers are left, the parent links are a tree and
    the arena's next id is new. *)
Record tables_ok (s : OverlayInner) : Prop := {
  to_table : wf_table (inodes s);
  to_room : Z.of_nat (size (fuse_map (inodes s))) < 2 ^ 64 - 2;
  to_tree : acyclic (nodes s);
  to_new : nodes_get s (next_id (nodes s)) = None;
  to_unref id n : nodes_get s id = Some n → parent n ≠ Some (next_id (nodes s))
}.

Lemma runs_do_register s id ino dev mode :
  wf_table (inodes s) → acyclic (nodes s) → Z.of_nat (size (fuse_map (inodes s))) < 2 ^ 64 - 2 →
  ∃ r t, runs o (do_register id ino dev mode) s r (set_inodes t s).
Proof using.
  intros Hwf Ha Hsz. destruct (register_total_aux (nodes s) id ino dev mode (inodes s) Hwf Ha Hsz) as [[r t] Hr].
  exists r, t. unfold do_register. run.
  { apply runs_fuel. exact Hr. }
  cbv beta iota. run.
Qed.

Lemma runs_do_insert s c :
  runs o (do_insert c) s (next_id (nodes s)) (set_nodes (arena_insert c (nodes s)).2 s).
Proof using. done. Qed.

(** The new child in the tree. *)
Lemma runs_link_child s n c :
  tables_ok s → nodes_get s pid = Some n → is_dir n = true → parent c = Some pid →
  ∃ s', runs o
    (let! child_id := do_insert c in
     (if negb (tmp_ino c =? 0) then
        let! _ := do_register child_id (tmp_ino c) (tmp_dev c) (node_mode c) in sm_ret tt
      else sm_ret tt) ;;;
     let! s := sm_get in
     match nodes_get s pid with
     | None => sm_ret None
     | Some _ =>
         alter_node (λ p, (insert_child (name c) child_id p).2) pid ;;; sm_ret (Some child_id)
     end) s (Some (next_id (nodes s))) s' ∧
    nodes_get s' (next_id (nodes s)) = Some c ∧ layers s' = layers s ∧
    (nodes_get s' pid ≫= λ p, get_child p (name c)) = Some (next_id (nodes s)).
Proof using.
  intros [Hwf Hroom Htree Hnew Hun] Hn Hdir Hpar.
  assert (pid ≠ next_id (nodes s)) as Hne by (intros E; congruence).
  set (s1 := set_nodes (arena_insert c (nodes s)).2 s).
  assert (∃ t, runs o
    (if negb (tmp_ino c =? 0) then
       let! _ := do_register (next_id (nodes s)) (tmp_ino c) (tmp_dev c) (node_mode c) in sm_ret tt
     else sm_ret tt) s1 tt (set_inodes t s1)) as [t Ht].
  { destruct (negb _); [|exists (inodes s1); by run].
    destruct (runs_do_register s1 (next_id (nodes s)) (tmp_ino c) (tmp_dev c) (node_mode c)) as (r & t & Hr);
      [done| |done|exists t; eapply runs_bind; [exact Hr|run]].
    apply acyclic_insert; [done|done|]. rewrite Hpar. congruence. }
  assert (nodes_get (set_inodes t s1) pid = Some n) as Hp1.
  { unfold nodes_get, arena_get. simpl. by rewrite lookup_insert_ne. }
  eexists. split_and!.
  - eapply runs_bind; [apply runs_do_insert|]. eapply runs_bind; [exact Ht|].
    eapply runs_bind; [apply runs_get|]. rewrite Hp1. run.
  - unfold nodes_get, arena_get, arena_alter. simpl.
    by rewrite lookup_alter_ne, lookup_insert_eq by congruence.
  - done.
  - unfold nodes_get, arena_get, arena_alter. simpl.
    rewrite lookup_alter_eq, lookup_insert_ne by congruence.
    unfold nodes_get, arena_get in Hn. rewrite Hn. simpl. revert Hdir. unfold is_dir, insert_child, get_child.
    destruct (dir_state n); [done|]. intros _. simpl. by rewrite lookup_insert_eq.
Qed.
End lazy.

Lemma do_lazy_lookup_spec `{F64, DevT, HashOrder} (o : ∀ c, resp c) (vs : list View)
    (s : OverlayInner) (pid : NodeId) (n : OvlNode) (p nm : bytes)
    (Hviews : Forall2 (shows o) (layers s) vs) (Htables : tables_ok s)
    (Hn : nodes_get s pid = Some n) (Hdir : is_dir n = true) (Hp : compute_path (nodes s) pid = Some p)
    (Hsane : sane vs p nm) :
  ∃ r s', runs o (do_lazy_lookup pid nm) s r s' ∧
    ((∃ k st id c, decides vs (last_layer_idx n) p nm k (Shows st) ∧ r = Some id ∧
        nodes_get s' id = Some c ∧ layer_idx c = k ∧ name c = nm ∧ node_mode c = st_mode st ∧
        is_dir c = (file_type (st_mode st) =? S_IFDIR) ∧ parent c = Some pid ∧
        (nodes_get s' pid ≫= λ p, get_child p nm) = Some id ∧
        ∃ j st', goes_down vs (participates (last_layer_idx n)) p nm k st j st' ∧ knows c j st') ∨
     (∃ k w, decides vs (last_layer_idx n) p nm k (Whites w) ∧ r = None ∧
        s' = set_nodes (arena_alter (insert_whiteout w) pid (nodes s)) s) ∨
     ((∀ k v, vs !! k = Some v → participates (last_layer_idx n) k → verdict_at v p nm = Absent) ∧
        r = None ∧ s' = s)).
Proof.
  destruct (lazy_search o vs pid p nm (last_layer_idx n) s Hviews Hsane (length vs) 0)
    as (r & s' & Hr & Hf); [done|intros j v Hj; lia|].
  assert (stopped (last_layer_idx n) 0 = false) as Hs0.
  { unfold stopped. by rewrite andb_false_r. }
  rewrite Hs0, <-(Forall2_length _ _ _ Hviews) in Hr.
  assert (∀ r2 s2, runs o match r with
      | Some (Some child) =>
        let! child_id := do_insert child in
        (if negb (tmp_ino child =? 0) then
           let! _ := do_register child_id (tmp_ino child) (tmp_dev child) (node_mode child) in sm_ret tt
         else sm_ret tt) ;;;
        let! s := sm_get in
        match nodes_get s pid with
        | None => sm_ret None
        | Some _ =>
            alter_node (λ p, (insert_child (name child) child_id p).2) pid ;;; sm_ret (Some child_id)
        end
      | _ => sm_ret None
      end s' r2 s2 → runs o (do_lazy_lookup pid nm) s r2 s2) as Hrest.
  { intros r2 s2 H2. unfold do_lazy_lookup. eapply runs_bind.
    { eapply runs_bind; [apply runs_get|]. by apply runs_fuel. }
    eapply runs_bind; [apply runs_get|]. rewrite Hn. eapply runs_bind; [exact Hr|exact H2]. }
  destruct Hf as [(k & st & c & Hd & -> & -> & Hk & Hnm & Hm & Hpar & Hds & Hgd)
    |[(k & w & Hd & -> & ->)|(Habs & -> & ->)]].
  - destruct (runs_link_child o pid s n c Htables Hn Hdir Hpar) as (s2 & H2 & Hc & _ & Hch).
    eexists _, s2. split; [by apply Hrest|]. left. exists k, st, (next_id (nodes s)), c.
    rewrite Hnm in Hch. split_and!; try done.
    unfold is_dir. rewrite Hds. cbn [dir_state OvlNode_new]. by destruct (file_type (st_mode st) =? S_IFDIR).
  - eexists None, _. split; [by apply Hrest|]. right; left. by exists k, w.
  - exists None, s. split; [by apply Hrest|]. by right; right.
Qed.

(** ** The property *)

Section rules.
Context `{DevT} (vs : list View) (p nm : bytes) (part part' : nat → Prop) (Hpart : ∀ k, part k ↔ part' k).

Lemma first_says_iff k d : first_says vs part p nm k d → first_says vs part' p nm k d.
Proof using Hpart. intros (? & ? & Hrest). split_and!; [done|by apply Hpart|apply Hrest..]. Qed.
Lemma goes_down_iff k st j st' : goes_down vs part p nm k st j st' → goes_down vs part' p nm k st j st'.
Proof using Hpart.
  intros (? & ? & ? & Hrest). split_and!; [done|done|by apply Hpart|]. case_match; [done|].
  intros i st'' Hi Hp. apply (Hrest i); [done|by apply Hpart].
Qed.
End rules.

(** The code's bound is the directory's last layer, where that is not 0 but for
    the root. *)
Lemma participates_merged s pid n k : (last_layer_idx n = 0%nat ↔ pid = root_id s) →
  participates (last_layer_idx n) k ↔ merged_from s pid n k.
Proof. unfold participates, merged_from. tauto. Qed.

(** C5. What [do_lazy_lookup] finds is what the merged directory shows.  Of the
    layers the directory is merged from, which are all for the root and those
    down to its last layer for another directory, the first one that says
    anything about the name decides it.  If that is an entry, a new node for it
    is linked into the directory, of that layer, with its type and mode; the
    node's last layer is its own if it is an opaque directory, else the last one
    of the directory's layers that has something at the name, and the node has
    the inode and device number found there.  If it is a whiteout, nothing is
    found and the whiteout is remembered; if no layer says anything, nothing is
    found and nothing changes.  No outcome but these three, and the lookup always
    ends.  This is for layers that answer the same all the while and with no
    error but that the name is not there, tables in order, and a directory whose
    last layer is 0 only if it is the root: of another one that is on the first
    layer alone, [lazy_lookup_ignores_opaque] has what is found. *)
Theorem do_lazy_lookup_merges `{F64, DevT, HashOrder} (o : ∀ c, resp c) (vs : list View)
    (s : OverlayInner) (pid : NodeId) (n : OvlNode) (p nm : bytes)
    (Hviews : Forall2 (shows o) (layers s) vs) (Htables : tables_ok s)
    (Hn : nodes_get s pid = Some n) (Hdir : is_dir n = true) (Hp : compute_path (nodes s) pid = Some p)
    (Hlast : last_layer_idx n = 0%nat ↔ pid = root_id s) (Hsane : sane vs p nm) :
  ∃ r s', runs o (do_lazy_lookup pid nm) s r s' ∧
    ((∃ k st id c, first_says vs (merged_from s pid n) p nm k (Shows st) ∧ r = Some id ∧
        nodes_get s' id = Some c ∧ layer_idx c = k ∧ name c = nm ∧ node_mode c = st_mode st ∧
        is_dir c = (file_type (st_mode st) =? S_IFDIR) ∧ parent c = Some pid ∧
        (nodes_get s' pid ≫= λ p, get_child p nm) = Some id ∧
        ∃ j st', goes_down vs (merged_from s pid n) p nm k st j st' ∧
          last_layer_idx c = j ∧ tmp_ino c = st_ino st' ∧ tmp_dev c = st_dev st') ∨
     (∃ k w, first_says vs (merged_from s pid n) p nm k (Whites w) ∧ r = None ∧
        s' = set_nodes (arena_alter (insert_whiteout w) pid (nodes s)) s) ∨
     ((∀ k v, vs !! k = Some v → merged_from s pid n k → verdict_at v p nm = Absent) ∧
        r = None ∧ s' = s)).
Proof.
  destruct (do_lazy_lookup_spec o vs s pid n p nm) as (r & s' & Hr & Hcase); [done..|].
  pose proof (λ k, participates_merged s pid n k Hlast) as Hpm.
  exists r, s'. split; [done|]. destruct Hcase as [(k & st & id & c & Hd & Hc)|[(k & w & Hd & Hc)|(Habs & Hc)]].
  - left. exists k, st, id, c. split; [by eapply first_says_iff|].
    destruct Hc as (? & ? & ? & ? & ? & ? & ? & ? & j & st' & Hgd & Hk). split_and!; try done.
    exists j, st'. split; [by eapply goes_down_iff|exact Hk].
  - right; left. exists k, w. split; [by eapply first_says_iff|done].
  - right; right. split; [|done]. intros k v Hv Hm. apply (Habs k v Hv). by apply Hpm.
Qed.
