(* ===== verification/LoadDir.v ===== *)
(** * What loading a directory shows

    [load_dir_impl] against its specification.  Every layer's listing is a set
    of names it shows and a set of names it whites out; after loading, the
    directory has, besides what it had, the names shown by a layer that the
    search reaches, unless a layer above shows or whites out the name, each
    from the first layer that shows it. *)

From S2P Require Import Prelude Libc Mapping Xattr ConfigData Sys Openat2 Node DataSource Whiteout.
From S2P Require Import Layer Copyup Overlay Merge.
Local Open Scope Z_scope.

(** ** One listing *)

(** What an entry of a listing is for the merged directory. *)
Inductive entry_kind := ESkip | EWhites | EHides (nm : bytes) | EChild.

Section listing.
Context `{DevT} (v : View) (p : bytes).

Definition kind_of (e : RawDirEntry) : entry_kind :=
  let nm := rde_name e in
  if bool_decide (nm = bs "." ∨ nm = bs ".." ∨ nm = OPAQUE_WHITEOUT) then ESkip
  else if has_wh_file v p nm then EWhites
  else match wh_prefix_name nm with
       | Some whited => EHides whited
       | None =>
           if ((rde_dtype e =? DT_CHR) || (rde_dtype e =? DT_UNKNOWN)) &&
              match v_stat v (child_path p nm) with Ok st => is_chardev_whiteout st | Err _ => false end
           then EWhites else EChild
       end.

(** The names a listing shows and those it whites out. *)
Definition shows_in (es : list RawDirEntry) (nm : bytes) : Prop :=
  ∃ e, e ∈ es ∧ rde_name e = nm ∧ kind_of e = EChild.
Definition whites_in (es : list RawDirEntry) (nm : bytes) : Prop :=
  ∃ e, e ∈ es ∧ ((rde_name e = nm ∧ kind_of e = EWhites) ∨ kind_of e = EHides nm).

(** A listing has each name once, and is of the same directory as the lookups:
    the file behind a listed whiteout exists.  Whiteouts are not themselves
    whited out. *)
Definition listing_ok (es : list RawDirEntry) : Prop :=
  NoDup (rde_name <$> es) ∧
  (∀ e w, e ∈ es → kind_of e = EHides w → has_wh_file v p w = true ∧ wh_prefix_name w = None) ∧
  (∀ e, e ∈ es → kind_of e = EWhites → wh_prefix_name (rde_name e) = None).

(** The children, with their layers, and the whiteouts so far. *)
Abbreviation merged := (gmap bytes nat * gset bytes)%type.

Definition merge_entry (k : nat) (m : merged) (e : RawDirEntry) : merged :=
  let nm := rde_name e in
  if bool_decide (is_Some (m.1 !! nm)) then m
  else if bool_decide (nm ∈ m.2) then m
  else match kind_of e with
       | ESkip => m
       | EWhites => (m.1, {[nm]} ∪ m.2)
       | EHides w => if bool_decide (is_Some (m.1 !! w)) then m else (m.1, {[w]} ∪ m.2)
       | EChild => (<[nm := k]> m.1, m.2)
       end.

(** No name in it is a whiteout file's. *)
Definition plain (m : merged) : Prop :=
  (∀ nm, is_Some (m.1 !! nm) → wh_prefix_name nm = None) ∧ (∀ nm, nm ∈ m.2 → wh_prefix_name nm = None).

Lemma shows_in_cons e es nm :
  shows_in (e :: es) nm ↔ (rde_name e = nm ∧ kind_of e = EChild) ∨ shows_in es nm.
Proof using.
  unfold shows_in. split.
  - intros (e' & [->|He']%elem_of_cons & Hn & Hk); [by left|right; eauto].
  - intros [[Hn Hk]|(e' & He' & Hn & Hk)]; [exists e|exists e']; (split; [set_solver|done]).
Qed.
Lemma whites_in_cons e es nm :
  whites_in (e :: es) nm ↔ ((rde_name e = nm ∧ kind_of e = EWhites) ∨ kind_of e = EHides nm) ∨ whites_in es nm.
Proof using.
  unfold whites_in. split.
  - intros (e' & [->|He']%elem_of_cons & Hk); [by left|right; eauto].
  - intros [Hk|(e' & He' & Hk)]; [exists e|exists e']; (split; [set_solver|done]).
Qed.

(** A child's name has no whiteout file and no whiteout prefix. *)
Lemma kind_child e : kind_of e = EChild → has_wh_file v p (rde_name e) = false ∧ wh_prefix_name (rde_name e) = None.
Proof using. unfold kind_of. cbv zeta. repeat case_match; done. Qed.
Lemma kind_hides e w : kind_of e = EHides w → wh_prefix_name (rde_name e) = Some w.
Proof using. unfold kind_of. cbv zeta. repeat case_match; naive_solver. Qed.

(** A listing does not both show and white out a name. *)
Lemma shows_not_whites es nm : listing_ok es → shows_in es nm → whites_in es nm → False.
Proof using.
  intros (Hnd & Hh & Hw) (e & He & <- & Hk) (e' & He' & [[Hn Hk']|Hk']).
  - assert (e = e') as ->; [|congruence].
    apply list_elem_of_lookup in He as [i Hi], He' as [j Hj].
    assert (i = j) as ->; [|congruence].
    eapply NoDup_lookup; [exact Hnd|by rewrite list_lookup_fmap, Hi|rewrite list_lookup_fmap, Hj; cbn; by rewrite Hn].
  - destruct (Hh _ _ He' Hk') as [? _]. destruct (kind_child e Hk). congruence.
Qed.

Lemma listing_ok_cons e es : listing_ok (e :: es) → listing_ok es.
Proof using.
  intros (Hnd & Hh & Hw). cbn in Hnd. apply NoDup_cons in Hnd as [_ Hnd].
  split_and!; [done|intros e' w ?; apply Hh; set_solver|intros e' ?; apply Hw; set_solver].
Qed.

(** Merging a listing: what it shows of the names that are new, and what it
    whites out of the names that are not there. *)
Definition merge_spec (k : nat) (es : list RawDirEntry) (m m' : merged) : Prop :=
  plain m' ∧
  (∀ nm j, m'.1 !! nm = Some j ↔
     m.1 !! nm = Some j ∨ (m.1 !! nm = None ∧ (nm ∉ m.2) ∧ j = k ∧ shows_in es nm)) ∧
  (∀ nm, nm ∈ m'.2 ↔ nm ∈ m.2 ∨ (m.1 !! nm = None ∧ whites_in es nm)).

Lemma merge_entry_spec k m e es : listing_ok (e :: es) → plain m → merge_spec k [e] m (merge_entry k m e).
Proof using.
  intros (_ & Hh & Hw) Hpl. pose proof Hpl as [Hp1 Hp2]. specialize (Hh e). specialize (Hw e).
  assert (∀ nm, shows_in [e] nm ↔ rde_name e = nm ∧ kind_of e = EChild) as Hsh.
  { intros nm. rewrite shows_in_cons. unfold shows_in. set_solver. }
  assert (∀ nm, whites_in [e] nm ↔ ((rde_name e = nm ∧ kind_of e = EWhites) ∨ kind_of e = EHides nm)) as Hwh.
  { intros nm. rewrite whites_in_cons. unfold whites_in. set_solver. }
  assert (merge_spec k [e] m m ↔ ∀ nm, (kind_of e = EChild → rde_name e = nm → is_Some (m.1 !! nm) ∨ nm ∈ m.2) ∧
    ((rde_name e = nm ∧ kind_of e = EWhites) ∨ kind_of e = EHides nm → is_Some (m.1 !! nm) ∨ nm ∈ m.2)) as Hsame.
  { unfold merge_spec. setoid_rewrite Hsh. setoid_rewrite Hwh. split.
    - intros (_ & H1 & H2) nm. specialize (H1 nm k). specialize (H2 nm).
      destruct (m.1 !! nm) eqn:E; [by eauto|]. destruct (decide (nm ∈ m.2)); naive_solver.
    - intros Hall. split_and!; [done|..]; intros nm; specialize (Hall nm);
        destruct (m.1 !! nm) eqn:E; naive_solver. }
  unfold merge_entry. cbv zeta. destruct (kind_of e) as [| |w|] eqn:Ek.
  - assert (merge_spec k [e] m m); [|by repeat case_bool_decide].
    apply Hsame. intros nm. split; [done|]. by intros [[_ ?]|?].
  - do 2 (case_bool_decide; [apply Hsame; intros nm; split; [done|]; intros [[<- _]|?]; naive_solver|]).
    unfold merge_spec. setoid_rewrite Hsh. setoid_rewrite Hwh. simpl. split_and!.
    + split; [done|]. simpl. intros nm [->%elem_of_singleton|?]%elem_of_union; [apply Hw; [by left|done]|auto].
    + naive_solver.
    + intros nm. rewrite elem_of_union, elem_of_singleton. rewrite <-eq_None_not_Some in *. naive_solver.
  - pose proof (kind_hides e w Ek) as Hpre. destruct (Hh w) as [_ Hw']; [by left|done|].
    assert (¬ is_Some (m.1 !! rde_name e)) as Hn1 by (intros ?%Hp1; congruence).
    assert (rde_name e ∉ m.2) as Hn2 by (intros ?%Hp2; congruence).
    do 2 (rewrite bool_decide_false by done).
    case_bool_decide as Hm; [apply Hsame; intros nm; split; [done|]; intros [[_ ?]|[= <-]]; [done|by left]|].
    unfold merge_spec. setoid_rewrite Hsh. setoid_rewrite Hwh. simpl. split_and!.
    + split; [done|]. simpl. intros nm [->%elem_of_singleton|?]%elem_of_union; [done|auto].
    + naive_solver.
    + intros nm. rewrite elem_of_union, elem_of_singleton. rewrite <-eq_None_not_Some in *. naive_solver.
  - do 2 (case_bool_decide; [apply Hsame; intros nm; split; [by intros _ <-; auto|]; by intros [[_ ?]|?]|]).
    unfold merge_spec. setoid_rewrite Hsh. setoid_rewrite Hwh. simpl. split_and!.
    + split; [|done]. simpl. intros nm [j Hj]. apply lookup_insert_Some in Hj as [[<- _]|[_ ?]]; [|eauto].
      by apply kind_child.
    + intros nm j. rewrite lookup_insert_Some. rewrite <-eq_None_not_Some in *.
      destruct (decide (rde_name e = nm)) as [<-|]; naive_solver.
    + naive_solver.
Qed.

Lemma merge_listing k es m : listing_ok es → plain m →
  merge_spec k es m (foldl (merge_entry k) m es).
Proof using.
  revert m. induction es as [|e es IH]; intros m Hes Hm; cbn [foldl].
  { unfold merge_spec, shows_in, whites_in. split_and!; [done|set_solver..]. }
  destruct (merge_entry_spec k m e es Hes Hm) as (Hm1 & Hc1 & Hw1).
  destruct (IH (merge_entry k m e)) as (Hm2 & Hc2 & Hw2); [by eapply listing_ok_cons|done|].
  set (m1 := merge_entry k m e) in *. set (m' := foldl _ _ _) in *.
  assert (∀ nm, shows_in (e :: es) nm ↔ shows_in [e] nm ∨ shows_in es nm) as Hsh.
  { intros nm. rewrite !shows_in_cons. unfold shows_in. set_solver. }
  assert (∀ nm, whites_in (e :: es) nm ↔ whites_in [e] nm ∨ whites_in es nm) as Hwh.
  { intros nm. rewrite !whites_in_cons. unfold whites_in. set_solver. }
  assert (∀ nm, shows_in (e :: es) nm → whites_in (e :: es) nm → False) as Hdis.
  { intros nm. by apply shows_not_whites. }
  split; [done|]. split; intros nm; specialize (Hdis nm); specialize (Hw1 nm); specialize (Hw2 nm);
    rewrite Hsh, Hwh in Hdis.
  - intros j. rewrite Hc2, Hsh. destruct (m.1 !! nm) as [i|] eqn:E.
    + assert (m1.1 !! nm = Some i) as E1 by (apply Hc1; by left). rewrite E1. naive_solver.
    + specialize (Hc1 nm). destruct (m1.1 !! nm) as [i|] eqn:E1.
      * destruct (proj1 (Hc1 i) eq_refl) as [?|(_ & ? & -> & ?)]; naive_solver.
      * assert (¬ ((nm ∉ m.2) ∧ shows_in [e] nm)) by (intros [? ?]; naive_solver). naive_solver.
  - rewrite Hw2, Hwh. specialize (Hc1 nm). destruct (m.1 !! nm) as [i|] eqn:E.
    + assert (m1.1 !! nm = Some i) as E1 by (apply Hc1; by left). naive_solver.
    + destruct (m1.1 !! nm) as [i|] eqn:E1; [|naive_solver].
      destruct (proj1 (Hc1 i) eq_refl) as [?|(_ & ? & -> & ?)]; naive_solver.
Qed.
End listing.

(** ** The directory in the arena *)

(** The children of [pid] with their layers, and its whiteouts. *)
Definition dir_shows (s : OverlayInner) (pid : NodeId) (m : gmap bytes nat * gset bytes) (ld : bool) : Prop :=
  ∃ n ch, nodes_get s pid = Some n ∧ dir_state n = Dir ch m.2 ld ∧
    (∀ nm, m.1 !! nm = ch !! nm ≫= λ id, layer_idx <$> nodes_get s id) ∧
    (∀ nm id, ch !! nm = Some id → is_Some (nodes_get s id)).

(** Ids for [k] more nodes. *)
Definition room (s : OverlayInner) (k : nat) : Prop :=
  (∀ id, is_Some (nodes_get s id) → id < next_id (nodes s)) ∧
  0 <= next_id (nodes s) ∧ next_id (nodes s) + Z.of_nat k < 2 ^ 64.

Section dir_shows.
Implicit Types (s : OverlayInner) (m : gmap bytes nat * gset bytes).

Lemma dir_shows_child s pid m ld nm : dir_shows s pid m ld →
  is_Some (m.1 !! nm) ↔ is_Some (nodes_get s pid ≫= λ p, get_child p nm).
Proof.
  intros (n & ch & Hn & Hds & Hm & Hch). rewrite Hn. simpl. unfold get_child. rewrite Hds, Hm.
  destruct (ch !! nm) as [id|] eqn:E; simpl; [|done]. destruct (Hch nm id E) as [c ->]. simpl.
  split; by eexists.
Qed.
Lemma dir_shows_whiteout s pid m ld nm : dir_shows s pid m ld →
  default false ((λ p, is_whiteout p nm) <$> nodes_get s pid) = bool_decide (nm ∈ m.2).
Proof. intros (n & ch & Hn & Hds & _). rewrite Hn. simpl. unfold is_whiteout. by rewrite Hds. Qed.

(** Updating a node where it does not matter. *)
Lemma dir_shows_alter s pid m ld f id :
  (∀ n, dir_state (f n) = dir_state n ∧ layer_idx (f n) = layer_idx n) → dir_shows s pid m ld →
  dir_shows (set_nodes (arena_alter f id (nodes s)) s) pid m ld.
Proof.
  intros Hf (n & ch & Hn & Hds & Hm & Hch).
  assert (∀ i, nodes_get (set_nodes (arena_alter f id (nodes s)) s) i =
    (λ n, if decide (i = id) then f n else n) <$> nodes_get s i) as Hget.
  { intros i. unfold nodes_get, arena_get, arena_alter. simpl.
    destruct (decide (i = id)) as [->|]; [by rewrite lookup_alter_eq|].
    rewrite lookup_alter_ne by done. by destruct (_ !! i). }
  eexists _, ch. split; [by rewrite Hget, Hn|]. split; [|split].
  - case_decide; [by rewrite (proj1 (Hf n))|done].
  - intros nm. rewrite Hm. destruct (ch !! nm) as [i|]; [|done]. simpl. rewrite Hget.
    destruct (nodes_get s i) as [c|]; [|done]. simpl. case_decide; [|done]. by rewrite (proj2 (Hf c)).
  - intros nm i Hi. rewrite Hget. destruct (Hch nm i Hi) as [c ->]. by eexists.
Qed.

(** Updating the directory itself. *)
Lemma dir_shows_set s pid m m' ld ld' f :
  (∀ n ch, dir_state n = Dir ch m.2 ld → dir_state (f n) = Dir ch m'.2 ld' ∧ layer_idx (f n) = layer_idx n) →
  m'.1 = m.1 → dir_shows s pid m ld →
  dir_shows (set_nodes (arena_alter f pid (nodes s)) s) pid m' ld'.
Proof.
  intros Hf Hm1 (n & ch & Hn & Hds & Hm & Hch). destruct (Hf n ch Hds) as [Hfd Hfl].
  assert (∀ i, nodes_get (set_nodes (arena_alter f pid (nodes s)) s) i =
    if decide (i = pid) then Some (f n) else nodes_get s i) as Hget.
  { intros i. unfold nodes_get, arena_get, arena_alter. simpl.
    destruct (decide (i = pid)) as [->|]; [|by rewrite lookup_alter_ne].
    rewrite lookup_alter_eq. unfold nodes_get, arena_get in Hn. by rewrite Hn. }
  exists (f n), ch. split; [by rewrite Hget, decide_True|]. split; [done|]. rewrite Hm1. split.
  - intros nm. rewrite Hm. destruct (ch !! nm) as [i|]; [|done]. simpl. rewrite Hget.
    case_decide as Hi; [|done]. subst i. rewrite Hn. simpl. by rewrite Hfl.
  - intros nm i Hi. rewrite Hget. case_decide; [by eexists|by eapply Hch].
Qed.

Lemma dir_shows_insert_whiteout s pid m ld nm : dir_shows s pid m ld →
  dir_shows (set_nodes (arena_alter (insert_whiteout nm) pid (nodes s)) s) pid (m.1, {[nm]} ∪ m.2) ld.
Proof.
  apply dir_shows_set; [|done]. intros n ch Hds. unfold insert_whiteout. by rewrite Hds.
Qed.
Lemma dir_shows_loaded s pid m ld : dir_shows s pid m ld →
  dir_shows (set_nodes (arena_alter mark_loaded pid (nodes s)) s) pid m true.
Proof. apply dir_shows_set; [|done]. intros n ch Hds. unfold mark_loaded. by rewrite Hds. Qed.

Lemma room_alter s k f id : room s k → room (set_nodes (arena_alter f id (nodes s)) s) k.
Proof.
  intros (Hr & H0 & H1). split_and!; [|done|done]. intros i [n Hn]. apply Hr.
  unfold nodes_get, arena_get, arena_alter in *. simpl in *.
  apply lookup_alter_Some in Hn as [(-> & n' & ? & _)|[_ ?]]; by eexists.
Qed.

(** A new child. *)
Lemma dir_shows_insert s pid m ld c k :
  room s (S k) → m.1 !! name c = None → name c ∉ m.2 → dir_shows s pid m ld →
  let a := (arena_insert c (nodes s)).2 in
  let s' := set_nodes (arena_alter (λ p, (insert_child (name c) (next_id (nodes s)) p).2) pid a) s in
  dir_shows s' pid (<[name c := layer_idx c]> m.1, m.2) ld ∧ room s' k.
Proof.
  intros (Hr & H0 & H1) Hm1 Hm2 (n & ch & Hn & Hds & Hm & Hch).
  assert (next_id (nodes s) ≠ pid) as Hne.
  { intros E. assert (pid < next_id (nodes s)) by (apply Hr; by eexists). lia. }
  cbv zeta. set (id := next_id (nodes s)) in *. set (f := λ p : OvlNode, (insert_child (name c) id p).2).
  set (s' := set_nodes _ s).
  assert (∀ i, nodes_get s' i = if decide (i = pid) then Some (f n) else
    if decide (i = id) then Some c else nodes_get s i) as Hget.
  { intros i. unfold s', nodes_get, arena_get, arena_alter, arena_insert. simpl. fold id.
    destruct (decide (i = pid)) as [->|].
    - rewrite lookup_alter_eq, lookup_insert_ne by done.
      unfold nodes_get, arena_get in Hn. by rewrite Hn.
    - rewrite lookup_alter_ne by done. case_decide as Hi; [by rewrite Hi, lookup_insert_eq|].
      by rewrite lookup_insert_ne. }
  assert (∀ i, is_Some (nodes_get s i) → i ≠ id) as Hold by (intros i ?%Hr ?; lia).
  split.
  - exists (f n), (<[name c := id]> ch). split; [by rewrite Hget, decide_True|]. split; [|split].
    + unfold f, insert_child. rewrite Hds. simpl. f_equal. set_solver.
    + intros nm. simpl. destruct (decide (nm = name c)) as [->|].
      * rewrite !lookup_insert_eq. simpl. rewrite Hget, decide_False, decide_True by done. done.
      * rewrite !lookup_insert_ne by done. rewrite Hm. destruct (ch !! nm) as [i|] eqn:E; [|done]. simpl.
        rewrite Hget. case_decide as Hi; [|by rewrite decide_False by (eapply Hold, Hch; done)].
        rewrite Hi, Hn. simpl. unfold f, insert_child. by destruct (dir_state n).
    + intros nm i Hi. rewrite Hget. apply lookup_insert_Some in Hi as [[_ <-]|[_ Hi]].
      * rewrite decide_False, decide_True by done. by eexists.
      * case_decide; [by eexists|]. case_decide; [by eexists|]. by eapply Hch.
  - unfold room, s', arena_alter, arena_insert. simpl. fold id.
    assert (wrap_u64 (id + 1) = id + 1) as -> by (apply wrap_u64_id; split; lia).
    split; [|lia]. intros i [x Hx]. change (nodes_get s' i = Some x) in Hx. rewrite Hget in Hx.
    case_decide as Hi; [subst i; assert (pid < id) by (apply Hr; by eexists); lia|].
    case_decide; [lia|]. assert (i < id) by (apply Hr; by eexists). lia.
Qed.
End dir_shows.

(** ** Loading *)

Section load.
Context `{F64, DevT, HashOrder} (o : ∀ c, resp c) (config : OverlayConfig) (vs : list View).
Context (pid : NodeId) (p : bytes).
Implicit Types (s : OverlayInner) (m : gmap bytes nat * gset bytes).

(** The state while the directory is loading: what it shows, and room for
    [r] more nodes. *)
Record loading (s : OverlayInner) (m : gmap bytes nat * gset bytes) (ld : bool) (r : nat) : Prop := {
  lo_views : Forall2 (shows o) (layers s) vs;
  lo_shows : dir_shows s pid m ld;
  lo_room : room s r
}.

Lemma loading_less s m ld r r' : (r' <= r)%nat → loading s m ld r → loading s m ld r'.
Proof using. intros Hle [Hv Hm (Ha & Hb & Hc)]. split; [done|done|]. split_and!; [done|done|lia]. Qed.

Lemma loading_whiteout s m ld r nm : loading s m ld r →
  loading (set_nodes (arena_alter (insert_whiteout nm) pid (nodes s)) s) (m.1, {[nm]} ∪ m.2) ld r.
Proof using. intros [Hv Hm Hr]. split; [done|by apply dir_shows_insert_whiteout|by apply room_alter]. Qed.

(** The new child of an entry. *)
Lemma runs_new_child s m ld r k nm ino dev mode dir :
  loading s m ld (S r) → m.1 !! nm = None → nm ∉ m.2 →
  let c := set_parent (Some pid) (set_last_layer_idx k (set_node_mode mode (OvlNode_new nm k ino dev dir))) in
  ∃ id s', runs o (insert_child_node pid c) s id s' ∧ loading s' (<[nm := k]> m.1, m.2) ld r.
Proof using.
  intros [Hv Hm Hr] Hm1 Hm2 c. destruct (dir_shows_insert s pid m ld c r) as [Hm' Hr']; [done..|].
  eexists _, _. split; [|split; [|exact Hm'|exact Hr']]; [|done].
  unfold insert_child_node. eapply runs_bind; [apply runs_do_insert|]. run.
Qed.

Lemma runs_ex_bind {A B} (m : InnerM A) (k : A → InnerM B) s a s' (R : OverlayInner → Prop) b :
  runs o m s a s' → (∃ s'', runs o (k a) s' b s'' ∧ R s'') → ∃ s'', runs o (sm_bind m k) s b s'' ∧ R s''.
Proof using. intros Hm (s'' & Hk & HR). exists s''. split; [by eapply runs_bind|done]. Qed.
Lemma runs_ex_get {B} (k : OverlayInner → InnerM B) s (R : OverlayInner → Prop) b :
  (∃ s'', runs o (k s) s b s'' ∧ R s'') → ∃ s'', runs o (sm_bind sm_get k) s b s'' ∧ R s''.
Proof using. by apply runs_ex_bind. Qed.

Lemma runs_load_entry s m ld r k v e : loading s m ld (S r) → vs !! k = Some v →
  ∃ s', runs o (load_entry config pid p k e) s tt s' ∧ loading s' (merge_entry v p k m e) ld r.
Proof using.
  intros Hlo Hv. pose proof Hlo as [Hviews Hm Hroom].
  assert (loading s m ld r) as Hlo' by (eapply loading_less; [|exact Hlo]; lia).
  pose proof (dir_shows_child s pid m ld (rde_name e) Hm) as Hch.
  pose proof (dir_shows_whiteout s pid m ld (rde_name e) Hm) as Hwh.
  destruct (runs_layer_at o vs s k v Hviews Hv) as (l & Hl & Hlv).
  pose proof (runs_is_wh_file o vs p (rde_name e) s k v Hviews Hv) as Hwf.
  unfold load_entry, merge_entry, kind_of. cbv zeta.
  destruct (bool_decide (rde_name e = _ ∨ _)) eqn:Eskip.
  { exists s. split; [done|]. by repeat case_bool_decide. }
  destruct (nodes_get s pid ≫= _) as [id|] eqn:Ech.
  { rewrite bool_decide_true by (apply Hch; by eexists).
    eexists. split; [eapply runs_bind; [apply runs_get|]; rewrite Ech; run|].
    destruct Hlo' as [? ? ?]. split; [done| |by apply room_alter]. by apply dir_shows_alter. }
  rewrite bool_decide_false by (rewrite Hch; by intros []).
  assert (m.1 !! rde_name e = None) as Hnone.
  { apply eq_None_not_Some. rewrite Hch. by intros []. }
  apply runs_ex_get. rewrite Ech, Hwh. destruct (bool_decide (rde_name e ∈ m.2)) eqn:Ewm; [by exists s|].
  apply bool_decide_eq_false in Ewm. apply (runs_ex_bind _ _ _ _ _ _ _ Hwf).
  destruct (has_wh_file v p (rde_name e)).
  { eexists. split; [run|]. by apply loading_whiteout. }
  destruct (wh_prefix_name (rde_name e)) as [w|].
  { pose proof (dir_shows_child s pid m ld w Hm) as Hcw.
    destruct (nodes_get s pid ≫= λ p, get_child p w); simpl.
    - rewrite bool_decide_true by (apply Hcw; by eexists). exists s. split; [run|done].
    - rewrite bool_decide_false by (rewrite Hcw; by intros []).
      eexists. split; [run|]. by apply loading_whiteout. }
  apply (runs_ex_bind _ _ _ _ _ _ _ Hl).
  destruct (Hlv (child_path p (rde_name e))) as (Hst & _).
  set (chardev := match v_stat v (child_path p (rde_name e)) with Ok st => is_chardev_whiteout st | Err _ => false end).
  apply (runs_ex_bind _ _ s (((rde_dtype e =? DT_CHR) || (rde_dtype e =? DT_UNKNOWN)) && chardev) s _).
  { destruct (_ || _); [|run]. eapply runs_bind; [apply runs_stateless, Hst|]. run. }
  destruct (_ && _); [eexists; split; [run|]; by apply loading_whiteout|].
  assert (∃ x, runs o (if cfg_fast_ino_check config
    then sm_ret (rde_ino e, 0, if rde_dtype e =? DT_DIR then S_IFDIR else 0)
    else let! r := stateless (statat (ds l) (child_path p (rde_name e)) AT_SYMLINK_NOFOLLOW
            (Z.lor STATX_TYPE (Z.lor STATX_MODE STATX_INO))) in
         sm_ret (match r with
                 | Ok st => (st_ino st, st_dev st, st_mode st)
                 | Err _ => (rde_ino e, 0, if rde_dtype e =? DT_DIR then S_IFDIR else 0)
                 end)) s x s) as [[[ino dev] mode] Hx].
  { destruct (cfg_fast_ino_check config); [eexists; run|].
    eexists. eapply runs_bind; [apply runs_stateless, Hst|]. run. }
  apply (runs_ex_bind _ _ _ _ _ _ _ Hx).
  destruct (runs_new_child s m ld r k (rde_name e) ino dev mode
    ((file_type mode =? S_IFDIR) || (rde_dtype e =? DT_DIR)) Hlo Hnone Ewm) as (id & s' & Hs' & Hlo2).
  exists s'. split; [|done]. eapply runs_bind; [exact Hs'|]. run.
Qed.

Lemma runs_load_entries es : ∀ s m ld r k v, loading s m ld (length es + r) → vs !! k = Some v →
  ∃ s', runs o (load_entries config pid p k es) s tt s' ∧ loading s' (foldl (merge_entry v p k) m es) ld r.
Proof using.
  induction es as [|e es IH]; intros s m ld r k v Hlo Hv; cbn [load_entries foldl]; [by exists s|].
  destruct (runs_load_entry s m ld (length es + r) k v e Hlo Hv) as (s1 & H1' & Hlo1).
  destruct (IH s1 _ ld r k v Hlo1 Hv) as (s2 & H2' & Hlo2).
  exists s2. split; [|done]. by eapply runs_bind.
Qed.
(** ** The layers *)

(** What a layer lists of the directory: nothing, if it has none. *)
Definition listing (v : View) : list RawDirEntry :=
  match v_stat v p with
  | Ok st =>
      if file_type (st_mode st) =? S_IFDIR
      then match v_list v p with Ok es => es | Err _ => [] end else []
  | Err _ => []
  end.

(** Whether no layer below [k] is looked at: what is there is not a directory,
    or an opaque one, or it failed, or [k] is the last layer. *)
Definition stops_at (last : option nat) (k : nat) (v : View) : bool :=
  let at_last := match last with Some l => (l =? k)%nat && (0 <? k)%nat | None => false end in
  match v_stat v p with
  | Ok st =>
      if file_type (st_mode st) =? S_IFDIR
      then match v_list v p with
           | Ok _ => match v_opaque v p with Ok true => true | _ => at_last end
           | Err _ => at_last
           end
      else true
  | Err e => if (e =? ENOENT) || (e =? ENOTDIR) then at_last else true
  end.

(** The name is shown by layer [j], which the search from layer [i] reaches,
    and no layer before says anything about it. *)
Definition visible_from (last : option nat) (i j : nat) (nm : bytes) : Prop :=
  (i <= j)%nat ∧
  (∃ v, vs !! j = Some v ∧ shows_in v p (listing v) nm) ∧
  ∀ t v, (i <= t < j)%nat → vs !! t = Some v →
    stops_at last t v = false ∧ ¬ shows_in v p (listing v) nm ∧ ¬ whites_in v p (listing v) nm.

Lemma visible_from_step last i j nm v : vs !! i = Some v →
  visible_from last i j nm ↔
    (j = i ∧ shows_in v p (listing v) nm) ∨
    (stops_at last i v = false ∧ ¬ shows_in v p (listing v) nm ∧ ¬ whites_in v p (listing v) nm ∧
     visible_from last (S i) j nm).
Proof using.
  intros Hv. unfold visible_from. split.
  - intros (Hij & (w & Hw & Hsh) & Hall). destruct (decide (j = i)) as [->|Hne].
    + left. simplify_eq. done.
    + right. destruct (Hall i v) as (? & ? & ?); [lia|done|]. split_and!; [done..|lia|eauto|].
      intros t u Ht. apply Hall. lia.
  - intros [[-> Hsh]|(? & ? & ? & Hij & ? & Hall)].
    + split_and!; [done|eauto|]. lia.
    + split_and!; [lia|done|]. intros t u Ht Hu.
      destruct (decide (t = i)) as [->|]; [by simplify_eq|]. apply Hall; [lia|done].
Qed.

Definition count (l : list View) : nat := sum_list_with (λ v, length (listing v)) l.

Lemma load_layers_stopped last idxs s :
  runs o (load_layers config pid p last true idxs) s tt s.
Proof using. by destruct idxs. Qed.

(** One layer: its listing is merged, and the search goes on unless it
    stops. *)
Lemma runs_load_layer last i idxs s m ld r v : vs !! i = Some v →
  loading s m ld (length (listing v) + r) →
  ∃ s1, loading s1 (foldl (merge_entry v p i) m (listing v)) ld r ∧
    ∀ s2, runs o (load_layers config pid p last (stops_at last i v) idxs) s1 tt s2 →
      runs o (load_layers config pid p last false (i :: idxs)) s tt s2.
Proof using.
  intros Hv Hlo. destruct (runs_layer_at o vs s i v (lo_views _ _ _ _ Hlo) Hv) as (l & Hl & Hlv).
  destruct (Hlv p) as (Hst & _ & Hlist & Hopq). cbn [load_layers]. cbv zeta.
  unfold listing, stops_at in *. cbv zeta.
  set (at_last := match last with Some l => (l =? i)%nat && (0 <? i)%nat | None => false end).
  destruct (v_stat v p) as [st|e].
  - destruct (file_type (st_mode st) =? S_IFDIR) eqn:Edir.
    + destruct (v_list v p) as [es|e].
      * destruct (runs_load_entries es s m ld r i v Hlo Hv) as (s1 & Hs1 & Hlo1).
        exists s1. split; [done|]. intros s2 H2'.
        eapply runs_bind; [exact Hl|]. eapply runs_bind; [apply runs_stateless, Hst|].
        cbv beta iota. rewrite Edir. cbv beta iota delta [negb].
        eapply runs_bind; [apply runs_stateless, Hlist|]. cbv beta iota.
        eapply runs_bind; [exact Hs1|]. eapply runs_bind; [apply runs_stateless, Hopq|]. exact H2'.
      * exists s. split; [done|]. intros s2 H2'.
        eapply runs_bind; [exact Hl|]. eapply runs_bind; [apply runs_stateless, Hst|].
        cbv beta iota. rewrite Edir. cbv beta iota delta [negb].
        eapply runs_bind; [apply runs_stateless, Hlist|]. exact H2'.
    + exists s. split; [done|]. intros s2 H2'.
      assert (s2 = s) as -> by (pose proof (load_layers_stopped last idxs s); unfold runs in *; congruence).
      eapply runs_bind; [exact Hl|]. eapply runs_bind; [apply runs_stateless, Hst|].
      cbv beta iota. rewrite Edir. cbv beta iota delta [negb]. run.
  - exists s. split; [done|]. intros s2 H2'.
    eapply runs_bind; [exact Hl|]. eapply runs_bind; [apply runs_stateless, Hst|].
    cbv beta iota. destruct (_ || _); [exact H2'|].
    assert (s2 = s) as -> by (pose proof (load_layers_stopped last idxs s); unfold runs in *; congruence).
    run.
Qed.

(** What the layers from [i] on add to [m]. *)
Definition adds (last : option nat) (i : nat) (m m' : gmap bytes nat * gset bytes) : Prop :=
  ∀ nm j, m'.1 !! nm = Some j ↔
    m.1 !! nm = Some j ∨ (m.1 !! nm = None ∧ (nm ∉ m.2) ∧ visible_from last i j nm).

Lemma adds_step last i v m m1 m' : vs !! i = Some v → merge_spec v p i (listing v) m m1 →
  (stops_at last i v = true → m' = m1) → (stops_at last i v = false → adds last (S i) m1 m') →
  adds last i m m'.
Proof using.
  intros Hv (_ & Hc & Hw) Hstop Hgo nm j. rewrite (visible_from_step last i j nm v Hv).
  specialize (Hc nm). specialize (Hw nm).
  destruct (stops_at last i v) eqn:E.
  - rewrite (Hstop eq_refl), Hc. naive_solver.
  - rewrite (Hgo eq_refl nm j). rewrite Hw.
    destruct (m1.1 !! nm) as [k|] eqn:E1; destruct (m.1 !! nm) as [k'|] eqn:E0.
    + destruct (proj1 (Hc k) eq_refl) as [[= ->]|([=] & _)]. naive_solver.
    + destruct (proj1 (Hc k) eq_refl) as [?|(_ & ? & -> & ?)]; naive_solver.
    + specialize (Hc k'). naive_solver.
    + assert (¬ ((nm ∉ m.2) ∧ shows_in v p (listing v) nm)) by (intros [? ?]; naive_solver). naive_solver.
Qed.

Lemma runs_load_layers last : ∀ n i s m ld r,
  (i + n = length vs)%nat → Forall (λ v, listing_ok v p (listing v)) vs → plain m →
  loading s m ld (count (drop i vs) + r) →
  ∃ s' m', runs o (load_layers config pid p last false (seq i n)) s tt s' ∧ loading s' m' ld r ∧
    adds last i m m'.
Proof using.
  induction n as [|n IH]; intros i s m ld r Hi Hok Hm Hlo; cbn [seq].
  { exists s, m. split; [done|]. split; [eapply loading_less; [|done]; lia|]. intros nm j.
    split; [by left|]. intros [?|(_ & _ & ? & (v & Hv & _) & _)]; [done|].
    apply lookup_lt_Some in Hv. lia. }
  destruct (lookup_lt_is_Some_2 vs i) as [v Hv]; [lia|].
  assert (count (drop i vs) = length (listing v) + count (drop (S i) vs))%nat as Hcount.
  { by rewrite (drop_S _ _ _ Hv). }
  rewrite Hcount, <-Nat.add_assoc in Hlo.
  destruct (runs_load_layer last i (seq (S i) n) s m ld _ v Hv Hlo) as (s1 & Hlo1 & Hrest).
  assert (listing_ok v p (listing v)) as Hv' by (by eapply Forall_lookup_1 in Hok).
  pose proof (merge_listing v p i (listing v) m Hv' Hm) as Hspec.
  destruct (stops_at last i v) eqn:E.
  - exists s1, (foldl (merge_entry v p i) m (listing v)).
    split; [apply Hrest, load_layers_stopped|]. split; [eapply loading_less; [|done]; lia|].
    eapply adds_step; [done|done|done|congruence].
  - destruct (IH (S i) s1 _ ld r ltac:(lia) Hok (proj1 Hspec) Hlo1) as (s2 & m' & Hs2 & Hlo2 & Hadd).
    exists s2, m'. split; [by apply Hrest|]. split; [done|].
    eapply adds_step; [done|done|congruence|done].
Qed.
End load.

Lemma load_dir_spec `{F64, DevT, HashOrder} (o : ∀ c, resp c) (config : OverlayConfig)
    (vs : list View) (s : OverlayInner) (pid : NodeId) (p : bytes) (last : option nat)
    (m : gmap bytes nat * gset bytes) (ld : bool)
    (Hviews : Forall2 (shows o) (layers s) vs) (Hlist : Forall (λ v, listing_ok v p (listing p v)) vs)
    (Hm : dir_shows s pid m ld) (Hplain : plain m) (Hroom : room s (count p vs)) :
  ∃ s' m', runs o (load_dir_impl config pid p last) s tt s' ∧ dir_shows s' pid m' true ∧
    ∀ nm j, m'.1 !! nm = Some j ↔
      m.1 !! nm = Some j ∨ (m.1 !! nm = None ∧ (nm ∉ m.2) ∧ visible_from vs p last 0 j nm).
Proof.
  destruct (runs_load_layers o config vs pid p last (length vs) 0 s m ld 0)
    as (s1 & m' & Hs1 & [_ Hm1 _] & Hadds); [done|done|done|split; [done|done|by rewrite drop_0, Nat.add_0_r]|].
  eexists _, m'. split; [|split; [exact (dir_shows_loaded s1 pid m' ld Hm1)|exact Hadds]].
  unfold load_dir_impl. eapply runs_bind; [apply runs_get|].
  rewrite (Forall2_length _ _ _ Hviews). eapply runs_bind; [exact Hs1|]. done.
Qed.

(** C6. Loading a directory merges its layers.  Besides the children it had, the
    directory has afterwards exactly the names that some layer reached by the
    search shows and no layer before shows or whites out, each as a node of the
    first layer that shows it; a name whited out before stays hidden.  The
    search stops below an opaque directory, below something that is not a
    directory, and at the directory's last layer.  Loading always ends, and the
    directory is marked loaded. *)
Theorem load_dir_merges `{F64, DevT, HashOrder} (o : ∀ c, resp c) (config : OverlayConfig)
    (vs : list View) (s : OverlayInner) (pid : NodeId) (p : bytes) (last : option nat)
    (m : gmap bytes nat * gset bytes) (ld : bool)
    (Hviews : Forall2 (shows o) (layers s) vs) (Hlist : Forall (λ v, listing_ok v p (listing p v)) vs)
    (Hm : dir_shows s pid m ld) (Hplain : plain m) (Hroom : room s (count p vs)) :
  ∃ s' m', runs o (load_dir_impl config pid p last) s tt s' ∧ dir_shows s' pid m' true ∧
    ∀ nm j, m'.1 !! nm = Some j ↔
      m.1 !! nm = Some j ∨ (m.1 !! nm = None ∧ (nm ∉ m.2) ∧ visible_from vs p last 0 j nm).
Proof. by eapply load_dir_spec. Qed.
