(* ===== verification/MemLayer.v ===== *)
(** * Layers in memory

    A data source that answers from a list of paths with their modes, for the
    concrete examples: the paths are relative to the layer's root, ["."]; the
    directories in [m_opaque] carry the opaque attribute. *)

From S2P Require Import Prelude Libc Mapping Xattr ConfigData Config Sys Openat2 Node DataSource.
From S2P Require Import Whiteout Layer Copyup Overlay Merge LoadDir.
Local Open Scope Z_scope.

Record MemLayer := { m_files : list (bytes * Z); m_opaque : list bytes; m_rdev : Z }.

Definition mem_mode (m : MemLayer) (path : bytes) : option Z :=
  snd <$> head (filter (λ f, f.1 = path) (m_files m)).

(** An inode number for each path. *)
Definition mem_ino (path : bytes) : Z := foldl (λ a c, 31 * a + Z.of_N (N_of_ascii c)) 0 path.

Definition mem_stat (m : MemLayer) (path : bytes) : FsResult stat :=
  match mem_mode m path with
  | Some mode => Ok (set_st_rdev (m_rdev m) (set_st_mode mode (set_st_ino (mem_ino path) zeroed_stat)))
  | None => Err ENOENT
  end.

Definition mem_exists (m : MemLayer) (path : bytes) : bool := is_Some_b (mem_mode m path).

(** The directory of a path and its last component. *)
Definition mem_split (path : bytes) : bytes * bytes :=
  match rsplit_once SLASH path with
  | Some (d, b) => (d, b)
  | None => (bs ".", path)
  end.

Definition mem_dtype (mode : Z) : Z := Z.shiftr (file_type mode) 12.

Definition mem_list (m : MemLayer) (path : bytes) : FsResult (list RawDirEntry) :=
  Ok ((λ f, {| rde_name := (mem_split f.1).2; rde_ino := mem_ino f.1; rde_dtype := mem_dtype f.2 |}) <$>
      filter (λ f, (mem_split f.1).1 = path ∧ f.1 ≠ bs ".") (m_files m)).

Definition mem_getxattr (m : MemLayer) (path nm : bytes) : FsResult bytes :=
  if bool_decide (path ∈ m_opaque m ∧ nm = PRIVILEGED_OPAQUE_XATTR) then Ok (bs "y") else Err ENODATA.

Definition mem_source (m : MemLayer) : DataSource := {|
  file_exists path := sm_ret (Ok (mem_exists m path));
  statat path _ _ := sm_ret (mem_stat m path);
  ds_fstat _ path _ := sm_ret (mem_stat m path);
  opendir path := sm_ret (mem_list m path);
  openat _ _ _ := sm_ret (Err EACCES);
  listxattr _ _ := sm_ret (Ok []);
  getxattr path nm _ := sm_ret (mem_getxattr m path nm);
  ds_readlinkat _ := sm_ret (Err EINVAL);
  get_nfs_filehandle _ := sm_ret 0;
  root_fd := 3; ds_st_dev := 7; stat_override_mode := ModeNone; nfs_filehandles := 0
|}.

Definition mem_view (m : MemLayer) : View := {|
  v_stat := mem_stat m;
  v_exists path := Ok (mem_exists m path);
  v_list := mem_list m;
  v_opaque path := Ok (bool_decide (path ∈ m_opaque m) || mem_exists m (path ++ SLASH :: OPAQUE_WHITEOUT))
|}.

Lemma mem_shows `{DevT} o m low : shows o (from_datasource (mem_source m) low) (mem_view m).
Proof.
  intros path. split_and!; [done|done|done|].
  unfold runs, is_directory_opaque. simpl. unfold mem_getxattr.
  rewrite (bool_decide_ext (path ∈ m_opaque m ∧ PRIVILEGED_OPAQUE_XATTR = PRIVILEGED_OPAQUE_XATTR)
    (path ∈ m_opaque m)) by naive_solver.
  rewrite (bool_decide_false (_ ∧ UNPRIVILEGED_OPAQUE_XATTR = _)) by (by intros [_ [=]]).
  rewrite (bool_decide_false (_ ∧ OPAQUE_XATTR = _)) by (by intros [_ [=]]).
  by case_bool_decide.
Qed.

(** ** An opaque directory over a lower one *)

(** [d] is in both layers and opaque in the upper one; the lower [d] has a file
    [x]. *)
Definition opaque_upper : MemLayer :=
  {| m_files := [(bs ".", S_IFDIR); (bs "d", S_IFDIR)]; m_opaque := [bs "d"]; m_rdev := 1 |}.
Definition opaque_lower : MemLayer :=
  {| m_files := [(bs ".", S_IFDIR); (bs "d", S_IFDIR); (bs "d/x", S_IFREG); (bs "y", S_IFREG)];
     m_opaque := []; m_rdev := 1 |}.
Definition opaque_layers : list OvlLayer :=
  [from_datasource (mem_source opaque_upper) false; from_datasource (mem_source opaque_lower) true].
Definition opaque_views : list View := [mem_view opaque_upper; mem_view opaque_lower].
Definition opaque_mount : OverlayInner :=
  OverlayInner_new opaque_layers 5 {| o_uid := 65534; o_gid := 65534 |} false.

(** A kernel that is not called. *)
Definition no_kernel (c : sys) : resp c.
Proof. destruct c; exact (Err ENOSYS). Defined.

Ltac each_view Hv :=
  apply elem_of_cons in Hv as [->|Hv];
    [|apply elem_of_cons in Hv as [->|Hv]; [|by apply elem_of_nil in Hv]].

Section examples.
#[local] Existing Instances F64_Z DevT_halves HashOrder_elements.

Lemma opaque_views_ok : Forall2 (shows no_kernel) (layers opaque_mount) opaque_views.
Proof. repeat constructor; apply mem_shows. Qed.

Lemma opaque_tables_ok : tables_ok opaque_mount.
Proof.
  split; [apply wf_table_new|vm_compute; reflexivity| |done|].
  - exists (λ _, 0%nat). intros id n pid. unfold arena_get. cbn.
    rewrite lookup_insert_Some, lookup_empty. by intros [[_ <-]|[_ [=]]].
  - intros id n. unfold nodes_get, arena_get. cbn.
    rewrite lookup_insert_Some, lookup_empty. by intros [[_ <-]|[_ [=]]].
Qed.

(** The listings of the two roots: [d], and [d] and [y]. *)
Lemma opaque_listings : (λ v, rde_name <$> listing (bs ".") v) <$> opaque_views = [[bs "d"]; [bs "d"; bs "y"]].
Proof. vm_compute. reflexivity. Qed.

Lemma opaque_kinds v e : v ∈ opaque_views → e ∈ listing (bs ".") v → kind_of v (bs ".") e = EChild.
Proof.
  intros Hv He. each_view Hv; vm_compute in He;
    repeat (apply elem_of_cons in He as [->|He]; [vm_compute; reflexivity|]); by apply elem_of_nil in He.
Qed.

Lemma opaque_listings_ok : Forall (λ v, listing_ok v (bs ".") (listing (bs ".") v)) opaque_views.
Proof.
  apply Forall_forall. intros v Hv. split_and!.
  - each_view Hv;
      apply (bool_decide_unpack _); vm_compute; exact I.
  - intros e w He. by rewrite (opaque_kinds v e Hv He).
  - intros e He. by rewrite (opaque_kinds v e Hv He).
Qed.

Lemma opaque_root : dir_shows opaque_mount 1 (∅, ∅) false ∧ room opaque_mount (count (bs ".") opaque_views).
Proof.
  split.
  - eexists _, ∅. split; [done|]. split; [done|]. split; intros nm; [done|]. intros id [=].
  - split; [|vm_compute; done]. intros id [n Hn]. revert Hn. unfold nodes_get, arena_get. cbn.
    rewrite lookup_insert_Some, lookup_empty. by intros [[<- _]|[_ [=]]].
Qed.

Lemma opaque_visible :
  visible_from opaque_views (bs ".") None 0 0 (bs "d") ∧ visible_from opaque_views (bs ".") None 0 1 (bs "y").
Proof.
  assert (∀ v e, v ∈ opaque_views → e ∈ listing (bs ".") v → shows_in v (bs ".") (listing (bs ".") v) (rde_name e)) as Hsh.
  { intros v e Hv He. exists e. split_and!; [done|done|]. by apply opaque_kinds. }
  split; (split; [lia|]); split.
  - exists (mem_view opaque_upper). split; [done|].
    apply (Hsh _ {| rde_name := bs "d"; rde_ino := mem_ino (bs "d"); rde_dtype := DT_DIR |}); left.
  - intros t v Ht. lia.
  - exists (mem_view opaque_lower). split; [done|].
    apply (Hsh _ {| rde_name := bs "y"; rde_ino := mem_ino (bs "y"); rde_dtype := 8 |}); right; left.
  - intros [|t] v Ht Hv; [|lia]. injection Hv as <-. split; [done|]. split.
    + intros (e & He & Hn & _). vm_compute in He. apply elem_of_cons in He as [->|He]; [done|].
      by apply elem_of_nil in He.
    + intros (e & He & Hk). rewrite (opaque_kinds (mem_view opaque_upper) e) in Hk; [|left|done].
      by destruct Hk as [[_ ?]|?].
Qed.
End examples.

Lemma load_dir_merges_witness :
  ∃ s' m', runs no_kernel (@load_dir_impl F64_Z DevT_halves (@OverlayConfig_default F64_Z 0) 1 (bs ".") None)
      opaque_mount tt s' ∧
    dir_shows s' 1 m' true ∧ m'.1 !! bs "d" = Some 0%nat ∧ m'.1 !! bs "y" = Some 1%nat.
Proof.
  destruct (@load_dir_merges F64_Z DevT_halves HashOrder_elements no_kernel (@OverlayConfig_default F64_Z 0) opaque_views
    opaque_mount 1 (bs ".") None (∅, ∅) false opaque_views_ok opaque_listings_ok (proj1 opaque_root)
    ltac:(split; [by intros nm [? [=]]|by intros nm ?%elem_of_empty]) (proj2 opaque_root))
    as (s' & m' & Hr & Hs & Hm).
  exists s', m'. split; [exact Hr|]. split; [exact Hs|]. destruct opaque_visible as [Hd Hy]. split.
  - apply Hm. right. split; [reflexivity|]. split; [by apply not_elem_of_empty|exact Hd].
  - apply Hm. right. split; [reflexivity|]. split; [by apply not_elem_of_empty|exact Hy].
Defined.

Lemma do_lazy_lookup_merges_witness :
  ∃ id s', runs no_kernel (@do_lazy_lookup DevT_halves HashOrder_elements 1 (bs "y")) opaque_mount (Some id) s' ∧
    (layer_idx <$> nodes_get s' id) = Some 1%nat.
Proof.
  destruct (@do_lazy_lookup_merges F64_Z DevT_halves HashOrder_elements no_kernel opaque_views opaque_mount 1
    (OvlNode_new [] 0 0 0 true) (bs ".") (bs "y") opaque_views_ok opaque_tables_ok eq_refl eq_refl eq_refl ltac:(done))
    as (r & s' & Hr & [(k & st & id & c & Hd & -> & Hc & Hk & _)|[(k & w & Hd & _)|(Habs & _)]]).
  - intros k v Hv. apply list_elem_of_lookup_2 in Hv. each_view Hv; vm_compute; discriminate.
  - exists id, s'. split; [exact Hr|]. rewrite Hc. simpl. rewrite Hk.
    destruct Hd as (_ & _ & (v & Hv & Hverd) & _). destruct k as [|[|k]]; [|reflexivity|discriminate].
    injection Hv as <-. vm_compute in Hverd. discriminate.
  - exfalso. destruct Hd as (_ & _ & (v & Hv & Hverd) & _).
    destruct k as [|[|k]]; [| |discriminate]; injection Hv as <-; vm_compute in Hverd; discriminate.
  - specialize (Habs 1%nat _ eq_refl (or_introl eq_refl)). vm_compute in Habs. discriminate.
Defined.

(** ** A whiteout between two directories *)

Definition middle : MemLayer :=
  {| m_files := [(bs ".", S_IFDIR); (bs ".wh.d", S_IFREG)]; m_opaque := []; m_rdev := 1 |}.
Definition middle_mount : OverlayInner :=
  let source m low := from_datasource (mem_source m) low in
  OverlayInner_new
    [source {| m_files := [(bs ".", S_IFDIR); (bs "d", S_IFDIR)]; m_opaque := []; m_rdev := 1 |} false;
     source middle true; source opaque_lower true] 5 {| o_uid := 65534; o_gid := 65534 |} false.

(** A whiteout only hides a name from the layers above it that do not have
    it: when the upper layer has a directory [d], and the layer below whites [d]
    out, the directory below that is merged into it all the same. *)
Theorem middle_whiteout_ignored :
  @verdict_at DevT_halves (mem_view middle) (bs ".") (bs "d") = Whites (bs "d") ∧
  fst <$> exec no_kernel
    ((@do_lookup_file DevT_halves HashOrder_elements 1 (Some (bs "d")) ;;;
      @reload_dir F64_Z DevT_halves (@OverlayConfig_default F64_Z 0) 2 ;;;
      let! s := sm_get in
      sm_ret (nodes_get s 2 ≫= λ n, get_child n (bs "x") ≫= λ id, layer_idx <$> nodes_get s id))
     middle_mount) = Some (Some 2%nat).
Proof. split; vm_compute; reflexivity. Qed.
