(* ===== verification/Agree.v ===== *)
(** * Looking a name up and reading its directory agree

    [do_lazy_lookup] asks every layer for one name, [load_dir_impl] lists the
    directories.  Where the layers answer consistently, and no directory
    involved is opaque, both find the name in the same layer; Divergences.v
    has what happens with an opaque one. *)

From S2P Require Import Prelude Libc Mapping Xattr ConfigData Config Sys Openat2 Node DataSource.
From S2P Require Import Whiteout Layer Copyup Overlay Merge LoadDir MemLayer.
Local Open Scope Z_scope.

(** An ordinary name: no special entry and no whiteout file's. *)
Definition ordinary (nm : bytes) : Prop :=
  nm ≠ bs "." ∧ nm ≠ bs ".." ∧ nm ≠ OPAQUE_WHITEOUT ∧ WH_PREFIX ++ nm ≠ OPAQUE_WHITEOUT ∧ wh_prefix_name nm = None.

Lemma wh_prefix_name_app nm : WH_PREFIX ++ nm ≠ OPAQUE_WHITEOUT → wh_prefix_name (WH_PREFIX ++ nm) = Some nm.
Proof.
  intros Hne. unfold wh_prefix_name. rewrite starts_with_app, bool_decide_eq_false_2 by done. cbn [negb andb].
  reflexivity.
Qed.

(** The answers of a layer about [nm] in the directory [p] fit each other: the
    directory, if it is there, is not opaque and can be listed; it lists what
    a stat finds, with a device's type; and it lists the whiteout files that
    exist. *)
Record coherent `{DevT} (v : View) (p nm : bytes) : Prop := {
  co_dir : match v_stat v p with
           | Ok st => (file_type (st_mode st) =? S_IFDIR) = true ∧ is_ok (v_list v p) = true ∧ v_opaque v p ≠ Ok true
           | Err e => e = ENOENT ∨ e = ENOTDIR
           end;
  co_listed : (∃ e, e ∈ listing p v ∧ rde_name e = nm) ↔ is_ok (v_stat v (child_path p nm)) = true;
  co_errors e : v_stat v (child_path p nm) = Err e → absent_errno e = true;
  co_type e st : e ∈ listing p v → rde_name e = nm → v_stat v (child_path p nm) = Ok st →
    is_chardev_whiteout st = true → ((rde_dtype e =? DT_CHR) || (rde_dtype e =? DT_UNKNOWN)) = true;
  co_wh : has_wh_file v p nm = true → ∃ e, e ∈ listing p v ∧ rde_name e = WH_PREFIX ++ nm
}.

Section coherent.
Context `{DevT} (v : View) (p nm : bytes) (Hnm : ordinary nm).
Context (Hco : coherent v p nm) (Hlist : listing_ok v p (listing p v)).

Lemma not_special : bool_decide (nm = bs "." ∨ nm = bs ".." ∨ nm = OPAQUE_WHITEOUT) = false.
Proof using Hnm. destruct Hnm as (? & ? & ? & _). apply bool_decide_eq_false. tauto. Qed.

(** The listing shows what the lookup finds. *)
Lemma shows_verdict : shows_in v p (listing p v) nm ↔ ∃ st, verdict_at v p nm = Shows st.
Proof using Hnm Hco.
  pose proof not_special as Hsp. destruct Hnm as (_ & _ & _ & _ & Hpre). unfold verdict_at. split.
  - intros (e & He & Hn & Hk). unfold kind_of in Hk. rewrite Hn, Hsp in Hk.
    destruct (has_wh_file v p nm); [done|]. rewrite Hpre in *.
    pose proof (proj1 (co_listed _ _ _ Hco) (ex_intro _ e (conj He Hn))) as Hok.
    destruct (v_stat v (child_path p nm)) as [st|er] eqn:Est; [|done]. destruct (is_chardev_whiteout st) eqn:Ec; [|eauto].
    rewrite (co_type _ _ _ Hco e st He Hn Est Ec) in Hk. done.
  - intros [st Hst]. destruct (v_stat v (child_path p nm)) as [st'|er] eqn:Est.
    2:{ by repeat case_match. }
    destruct (has_wh_file v p nm) eqn:Ewh; [done|]. rewrite Hpre in Hst. destruct (is_chardev_whiteout st') eqn:Ec; [done|].
    destruct (proj2 (co_listed _ _ _ Hco)) as (e & He & Hn); [by rewrite Est|].
    exists e. split_and!; [done..|]. unfold kind_of. rewrite Hn, Hsp, Ewh, Hpre, Est, Ec. by rewrite andb_false_r.
Qed.

(** It says nothing where the lookup finds nothing. *)
Lemma silent_verdict :
  ¬ shows_in v p (listing p v) nm ∧ ¬ whites_in v p (listing p v) nm ↔ verdict_at v p nm = Absent.
Proof using Hnm Hco Hlist.
  pose proof not_special as Hsp. rewrite shows_verdict. pose proof Hnm as (_ & _ & _ & Hopq & Hpre).
  destruct Hlist as (_ & Hhides & Hwhites). split.
  - intros [Hsh Hwh]. destruct (verdict_at v p nm) as [|w|st|] eqn:E; [done| |by exfalso; eauto|].
    + exfalso. apply Hwh. unfold verdict_at in E. destruct (has_wh_file v p nm) eqn:Ewh.
      * destruct (co_wh _ _ _ Hco Ewh) as (e & He & Hn). exists e. split; [done|right]. unfold kind_of.
        rewrite Hn. rewrite bool_decide_eq_false_2.
        2:{ intros [Habs|[Habs|Habs]]; [done|done|by apply Hopq]. }
        destruct (has_wh_file v p (WH_PREFIX ++ nm)) eqn:Eww; [|by rewrite wh_prefix_name_app].
        exfalso. assert (kind_of v p e = EWhites) as Hk.
        { unfold kind_of. rewrite Hn, Eww. rewrite bool_decide_eq_false_2; [done|].
          intros [Habs|[Habs|Habs]]; [done|done|by apply Hopq]. }
        pose proof (Hwhites e He Hk) as Hpn. rewrite Hn, wh_prefix_name_app in Hpn by done. done.
      * destruct (v_stat v (child_path p nm)) as [st|er] eqn:Est; [|by destruct (absent_errno er)].
        rewrite Hpre in E. destruct (is_chardev_whiteout st) eqn:Ec; [|done].
        destruct (proj2 (co_listed _ _ _ Hco)) as (e & He & Hn); [by rewrite Est|].
        exists e. split; [done|left; split; [done|]]. unfold kind_of.
        rewrite Hn, Hsp, Ewh, Hpre, Est, Ec. by rewrite (co_type _ _ _ Hco e st He Hn Est Ec).
    + exfalso. unfold verdict_at in E. destruct (v_stat v (child_path p nm)) as [st|er] eqn:Est; [by repeat case_match|].
      rewrite (co_errors _ _ _ Hco er Est) in E. by case_match.
  - intros E. split; [intros [st Hst]; congruence|]. intros (e & He & [[Hn Hk]|Hk]).
    + pose proof (proj1 (co_listed _ _ _ Hco) (ex_intro _ e (conj He Hn))) as Hok. unfold verdict_at in E.
      destruct (v_stat v (child_path p nm)); [|done]. by repeat case_match.
    + destruct (Hhides e nm He Hk) as [Hwf _]. unfold verdict_at in E. rewrite Hwf in E.
      destruct (v_stat v (child_path p nm)) as [st|er]; [done|]. by destruct (absent_errno er).
Qed.

(** A layer ends the search only as the directory's last. *)
Lemma coherent_stops last k : stops_at p (Some last) k v = ((last =? k) && (0 <? k))%nat.
Proof using Hco.
  pose proof (co_dir _ _ _ Hco) as Hd. unfold stops_at. destruct (v_stat v p) as [st|e].
  - destruct Hd as (-> & Hl & Ho). destruct (v_list v p); [|done]. destruct (v_opaque v p) as [[]|]; done.
  - destruct Hd as [->| ->]; done.
Qed.
End coherent.

(** The layer that decides a name with an entry is the one whose listing
    shows it. *)
Lemma decides_visible `{DevT} (vs : list View) (last : nat) (p nm : bytes) (k : nat) :
  ordinary nm → Forall (λ v, coherent v p nm) vs → Forall (λ v, listing_ok v p (listing p v)) vs →
  (∃ st, decides vs last p nm k (Shows st)) ↔ visible_from vs p (Some last) 0 k nm.
Proof.
  intros Hnm Hco Hlist.
  assert (∀ t v, vs !! t = Some v → coherent v p nm ∧ listing_ok v p (listing p v)) as Hv.
  { intros t v Ht. split; [by eapply Forall_lookup_1 in Hco|by eapply Forall_lookup_1 in Hlist]. }
  split.
  - intros (st & _ & Hpart & (v & Hk & Hverd) & Habove). split; [lia|]. split.
    + exists v. split; [done|]. destruct (Hv k v Hk). apply shows_verdict; [done..|eauto].
    + intros t w Ht Hw. destruct (Hv t w Hw) as [Hc Hl]. split.
      * rewrite (coherent_stops w p nm Hc). apply andb_false_iff. rewrite Nat.eqb_neq, Nat.ltb_ge.
        unfold participates in Hpart. lia.
      * apply silent_verdict; [done..|]. apply (Habove t w); [lia|done].
  - intros (_ & (v & Hk & Hsh) & Habove). destruct (Hv k v Hk) as [Hc Hl].
    apply (shows_verdict v p nm Hnm Hc) in Hsh as [st Hst]. exists st. split; [done|]. split_and!.
    + destruct (decide (last = 0)%nat) as [->|Hne]; [by left|]. right. apply Nat.nlt_ge. intros Hlt.
      destruct (lookup_lt_is_Some_2 vs last) as [w Hw]; [apply lookup_lt_Some in Hk; lia|].
      destruct (Habove last w ltac:(lia) Hw) as [Hs _]. destruct (Hv last w Hw) as [Hcw _].
      rewrite (coherent_stops w p nm Hcw) in Hs. apply andb_false_iff in Hs.
      rewrite Nat.eqb_neq, Nat.ltb_ge in Hs. lia.
    + by exists v.
    + intros t w Ht Hw. destruct (Hv t w Hw) as [Hcw Hlw]. apply silent_verdict; [done..|].
      by apply (Habove t w ltac:(lia) Hw).
Qed.

Lemma coherent_sane `{DevT} vs p nm : Forall (λ v, coherent v p nm) vs → wh_prefix_name nm = None → sane vs p nm.
Proof.
  intros Hco Hpre k v Hv. pose proof (Forall_lookup_1 _ _ _ _ Hco Hv) as Hc. unfold verdict_at.
  destruct (v_stat v (child_path p nm)) as [st|e] eqn:Est; [by repeat case_match|].
  rewrite (co_errors _ _ _ Hc e Est). by case_match.
Qed.

(** C20. Looking a name up is reading its directory, for a directory of which
    nothing is known yet. Over layers that answer consistently and where the
    directory is not opaque in any of them, the lookup of an ordinary name alone
    ([do_lazy_lookup]) and the loading of the whole directory ([load_dir_impl])
    both end, and the one finds the name exactly when the other lists it, and in
    the same layer. Where the directory is opaque they can disagree, as
    [lazy_lookup_ignores_opaque] has it. *)
Theorem lookup_agrees_with_listing `{F64, DevT, HashOrder} (o : ∀ c, resp c) (config : OverlayConfig)
    (vs : list View) (s : OverlayInner) (pid : NodeId) (n : OvlNode) (p nm : bytes)
    (Hviews : Forall2 (shows o) (layers s) vs) (Htables : tables_ok s) (Hroom : room s (count p vs))
    (Hn : nodes_get s pid = Some n) (Hdir : dir_state n = Dir ∅ ∅ false)
    (Hp : compute_path (nodes s) pid = Some p) (Hnm : ordinary nm)
    (Hco : Forall (λ v, coherent v p nm) vs) (Hlist : Forall (λ v, listing_ok v p (listing p v)) vs) :
  ∃ r s1 s2 m,
    runs o (do_lazy_lookup pid nm) s r s1 ∧
    runs o (load_dir_impl config pid p (Some (last_layer_idx n))) s tt s2 ∧ dir_shows s2 pid m true ∧
    (r ≫= λ id, layer_idx <$> nodes_get s1 id) = m.1 !! nm.
Proof.
  destruct (do_lazy_lookup_spec o vs s pid n p nm) as (r & s1 & Hr & Hcase); [done..| |done| |].
  { unfold is_dir. by rewrite Hdir. }
  { apply coherent_sane; [done|apply Hnm]. }
  destruct (load_dir_spec o config vs s pid p (Some (last_layer_idx n)) (∅, ∅) false) as (s2 & m & Hs2 & Hm & Hspec);
    [done|done| | |done|].
  { exists n, ∅. split_and!; [done|done|intros; by rewrite !lookup_empty|intros ? ? [=]]. }
  { split; [by intros ? [? [=]]|by intros ? ?%elem_of_empty]. }
  exists r, s1, s2, m. split_and!; [done..|].
  pose proof (λ k, decides_visible vs (last_layer_idx n) p nm k Hnm Hco Hlist) as Hiff.
  assert (∀ k, m.1 !! nm = Some k ↔ ∃ st, decides vs (last_layer_idx n) p nm k (Shows st)) as Hlook.
  { intros k. rewrite Hspec, Hiff. cbn. rewrite lookup_empty. set_solver. }
  assert ((∀ k st, ¬ decides vs (last_layer_idx n) p nm k (Shows st)) → m.1 !! nm = None) as Hnone.
  { intros Hno. apply eq_None_not_Some. intros [k [st Hst]%Hlook]. by apply Hno in Hst. }
  destruct Hcase as [(k & st & id & c & Hd & -> & Hc & Hk & _)|[(k & w & Hd & -> & _)|(Habs & -> & _)]]; cbn.
  - rewrite Hc. cbn. rewrite Hk. symmetry. apply Hlook. eauto.
  - symmetry. apply Hnone. intros k' st Hd'. by destruct (first_says_unique _ _ _ _ _ _ _ _ Hd Hd').
  - symmetry. apply Hnone. intros k st (_ & Hpart & (v & Hv & Hverd) & _).
    by rewrite (Habs k v Hv Hpart) in Hverd.
Qed.

(** ** The witness: [y] in the root of the mount of MemLayer.v *)

#[local] Existing Instances F64_Z DevT_halves HashOrder_elements.

Lemma y_absent : coherent (mem_view opaque_upper) (bs ".") (bs "y").
Proof.
  split.
  - vm_compute. split; [reflexivity|split; [reflexivity|discriminate]].
  - split; [|vm_compute; discriminate]. intros (e & He & Hn). vm_compute in He.
    apply elem_of_cons in He as [->|He]; [discriminate|by apply elem_of_nil in He].
  - intros e He. vm_compute in He. injection He as <-. reflexivity.
  - intros e st _ _ Hst. vm_compute in Hst. discriminate.
  - vm_compute. discriminate.
Qed.

Lemma y_present : coherent (mem_view opaque_lower) (bs ".") (bs "y").
Proof.
  split.
  - vm_compute. split; [reflexivity|split; [reflexivity|discriminate]].
  - split; [intros _; reflexivity|]. intros _.
    exists {| rde_name := bs "y"; rde_ino := mem_ino (bs "y"); rde_dtype := 8 |}. split; [right; left|reflexivity].
  - intros e He. vm_compute in He. discriminate.
  - intros e st _ _ Hst Hc. vm_compute in Hst. injection Hst as <-. vm_compute in Hc. discriminate.
  - vm_compute. discriminate.
Qed.

Lemma lookup_agrees_with_listing_witness :
  ∃ r s1 s2 m, runs no_kernel (@do_lazy_lookup DevT_halves HashOrder_elements 1 (bs "y")) opaque_mount r s1 ∧
    runs no_kernel (@load_dir_impl F64_Z DevT_halves (@OverlayConfig_default F64_Z 0) 1 (bs ".") (Some 0%nat))
      opaque_mount tt s2 ∧ dir_shows s2 1 m true ∧
    (r ≫= λ id, layer_idx <$> nodes_get s1 id) = m.1 !! bs "y".
Proof.
  apply (@lookup_agrees_with_listing F64_Z DevT_halves HashOrder_elements no_kernel
    (@OverlayConfig_default F64_Z 0) opaque_views opaque_mount 1 (OvlNode_new [] 0 0 0 true) (bs ".") (bs "y")
    opaque_views_ok opaque_tables_ok (proj2 opaque_root)); try reflexivity.
  - split_and!; vm_compute; congruence.
  - constructor; [exact y_absent|]. constructor; [exact y_present|constructor].
  - exact opaque_listings_ok.
Defined.
