(* ===== verification/Ops.v ===== *)
(** * The FUSE requests (src/src/overlay.rs, [impl Filesystem for OverlayFs])

    One definition per request handler, over the whole state [OverlayFs]: the
    inner state behind the lock, the tables of open files and directories and
    the passthrough bookkeeping.  A handler is a program whose result is its
    reply: [Err e] is [reply.error(e)].  Long handlers are split along the
    comments of the source.  Every handler takes its locks for its whole body
    or in the two sections the source has; between requests the state is the
    only thing shared.

    [reply.add] of the fuser crate says when the reply buffer is full: the
    argument [full] of the two readdir handlers. *)

From S2P Require Import Prelude Libc Mapping Xattr ConfigData Sys Openat2 Node DataSource.
From S2P Require Import Whiteout Layer Copyup Overlay.
Local Open Scope Z_scope.

(** ** State and replies *)
Record OverlayFs := {
  inner : OverlayInner;
  open_files : gmap Z RawFd;
  next_fh : Z;
  open_dirs : gmap Z (list DirEntry);
  next_dh : Z;
  (* a backing id and its count of file handles, by FUSE inode *)
  inode_backings : gmap Z (Z * Z);
  fh_to_ino : gmap Z Z;
  passthrough_enabled : bool;
  (* is the notifier set? *)
  notifier : bool
}.

Definition set_inner (v : OverlayInner) (s : OverlayFs) : OverlayFs :=
  {| inner := v; open_files := open_files s; next_fh := next_fh s; open_dirs := open_dirs s;
     next_dh := next_dh s; inode_backings := inode_backings s; fh_to_ino := fh_to_ino s;
     passthrough_enabled := passthrough_enabled s; notifier := notifier s |}.
(** The tables of open files: handles, next handle, backings, owners. *)
Definition set_files (files : gmap Z RawFd) (nfh : Z) (backings : gmap Z (Z * Z))
    (owners : gmap Z Z) (s : OverlayFs) : OverlayFs :=
  {| inner := inner s; open_files := files; next_fh := nfh; open_dirs := open_dirs s;
     next_dh := next_dh s; inode_backings := backings; fh_to_ino := owners;
     passthrough_enabled := passthrough_enabled s; notifier := notifier s |}.
Definition set_dirs (dirs : gmap Z (list DirEntry)) (ndh : Z) (s : OverlayFs) : OverlayFs :=
  {| inner := inner s; open_files := open_files s; next_fh := next_fh s; open_dirs := dirs;
     next_dh := ndh; inode_backings := inode_backings s; fh_to_ino := fh_to_ino s;
     passthrough_enabled := passthrough_enabled s; notifier := notifier s |}.
Definition set_passthrough (b : bool) (s : OverlayFs) : OverlayFs :=
  {| inner := inner s; open_files := open_files s; next_fh := next_fh s; open_dirs := open_dirs s;
     next_dh := next_dh s; inode_backings := inode_backings s; fh_to_ino := fh_to_ino s;
     passthrough_enabled := b; notifier := notifier s |}.

(** [OverlayFs::new] *)
Definition OverlayFs_new (i : OverlayInner) (notifier : bool) : OverlayFs :=
  {| inner := i; open_files := ∅; next_fh := 1; open_dirs := ∅; next_dh := 1;
     inode_backings := ∅; fh_to_ino := ∅; passthrough_enabled := false; notifier := notifier |}.

(** [ttl] is in nanoseconds, [keep_cache] the flag FOPEN_KEEP_CACHE. *)
Inductive Reply :=
| ROk
| REntry (ttl : Z) (attr : FileAttr)
| RAttr (ttl : Z) (attr : FileAttr)
| RData (data : bytes)
| RSize (size : Z)
| RWritten (n : Z)
| ROffset (pos : Z)
| RIoctl (data : bytes)
| ROpened (fh : Z) (keep_cache : bool)
| ROpenedPassthrough (fh backing : Z)
| RCreated (ttl : Z) (attr : FileAttr) (fh : Z) (keep_cache : bool)
| RCreatedPassthrough (ttl : Z) (attr : FileAttr) (fh backing : Z)
| RStatfs (blocks bfree bavail files ffree bsize namelen frsize : Z)
| RDirectory (entries : list (Z * Z * FileType * bytes))
| RDirectoryPlus (entries : list (Z * Z * bytes * FileAttr)).

Record Request := { req_uid : Z; req_gid : Z }.

(** fuser's [TimeOrNow]; a time is seconds and nanoseconds since the epoch. *)
Inductive TimeOrNow := SpecificTime (secs nsec : Z) | Now.

Definition S_ISUID : Z := 2048.
Definition S_ISGID : Z := 1024.

(** ioctl numbers (x86_64) *)
Definition FS_IOC_GETFLAGS : Z := 0x80086601.
Definition FS_IOC_SETFLAGS : Z := 0x40086602.
Definition FS_IOC_GETVERSION : Z := 0x80087601.
Definition FS_IOC_SETVERSION : Z := 0x40087602.
Definition FUSE_OVFS_IOC_REFRESH_DIR : Z := Z.lor (Z.shiftl 0x66 8) 0x66.

(** An [i64] in memory (little-endian), [to_ne_bytes] and [from_ne_bytes]. *)
Fixpoint le_bytes (n : nat) (v : Z) : bytes :=
  match n with
  | O => []
  | S n => ascii_of_N (Z.to_N (v mod 256)) :: le_bytes n (v / 256)
  end.
Fixpoint le_value (s : bytes) : Z :=
  match s with
  | [] => 0
  | c :: s' => Z.of_N (N_of_ascii c) + 256 * le_value s'
  end.

(** ** Open flags *)

(** The flags [open] and [create] pass on, from the request's. *)
Definition adjust_flags (writeback : bool) (flags : Z) : Z :=
  let open_flags := Z.land flags (Z.lnot O_DIRECT) in
  if writeback then
    let open_flags :=
      if Z.land open_flags O_ACCMODE =? O_WRONLY
      then Z.lor (Z.land open_flags (Z.lnot O_ACCMODE)) O_RDWR else open_flags in
    Z.land open_flags (Z.lnot O_APPEND)
  else open_flags.

Definition needs_write (flags_raw : Z) : bool :=
  negb (Z.land flags_raw
          (Z.lor O_APPEND (Z.lor O_RDWR (Z.lor O_WRONLY (Z.lor O_CREAT O_TRUNC)))) =? 0).

(** ** Attribute calls with their C string conversions (sys/xattr.rs) *)
Definition lsetxattr {S} (path name value : bytes) (flags : Z) : SM S (FsResult unit) :=
  try! c_path := sm_ret (cstr_bytes path) in
  try! c_name := sm_ret (cstr_bytes name) in
  sm_call (Lsetxattr c_path c_name value flags).
Definition lremovexattr {S} (path name : bytes) : SM S (FsResult unit) :=
  try! c_path := sm_ret (cstr_bytes path) in
  try! c_name := sm_ret (cstr_bytes name) in
  sm_call (Lremovexattr c_path c_name).

Abbreviation HM A := (SM OverlayFs (FsResult A)).

Definition on_inner {A} (m : InnerM A) : SM OverlayFs A := zoom inner set_inner m.
Definition get_inner : SM OverlayFs OverlayInner := sm_gets inner.

Section ops.
Context `{F64, DevT, HashOrder} (copy_fuel : nat) (config : OverlayConfig).

Definition timeout : SM OverlayFs Z := sm_expect (f64_duration (cfg_timeout config)).

(** ** File handles *)

(** A new handle for [fd], under the inode [owner] when it has a backing. *)
Definition new_fh (fd : RawFd) (backings : gmap Z (Z * Z)) (owner : option Z) : SM OverlayFs Z :=
  let! s := sm_get in
  let fh := next_fh s in
  sm_modify (set_files (<[fh := fd]> (open_files s)) (wrap_u64 (fh + 1)) backings
               (match owner with Some ino => <[fh := ino]> (fh_to_ino s) | None => fh_to_ino s end)) ;;;
  sm_ret fh.

Definition alloc_fh (fd : RawFd) : SM OverlayFs Z :=
  let! s := sm_get in new_fh fd (inode_backings s) None.

Definition alloc_dh (entries : list DirEntry) : SM OverlayFs Z :=
  let! s := sm_get in
  sm_modify (set_dirs (<[next_dh s := entries]> (open_dirs s)) (wrap_u64 (next_dh s + 1))) ;;;
  sm_ret (next_dh s).

Definition get_file (fh : Z) : SM OverlayFs (option RawFd) := sm_gets (λ s, open_files s !! fh).

Definition reply_open_maybe_passthrough (ino : Z) (fd : RawFd) : HM Reply :=
  let keep_cache := f64_positive (cfg_timeout config) in
  let! s := sm_get in
  let plain :=
    let! fh := alloc_fh fd in sm_ret (Ok (ROpened fh keep_cache)) in
  if passthrough_enabled s then
    match inode_backings s !! ino with
    | Some (backing_id, count) =>
        let! fh := new_fh fd (<[ino := (backing_id, count + 1)]> (inode_backings s)) (Some ino) in
        sm_ret (Ok (ROpenedPassthrough fh backing_id))
    | None =>
        let! r := sm_call (OpenBacking fd) in
        match r with
        | Ok backing_id =>
            (* the re-check under the lock: in one atomic step nobody has
               inserted a backing since *)
            let! fh := new_fh fd (<[ino := (backing_id, 1)]> (inode_backings s)) (Some ino) in
            sm_ret (Ok (ROpenedPassthrough fh backing_id))
        | Err _ => sm_modify (set_passthrough false) ;;; plain
        end
    end
  else plain.

Definition release (fh : Z) : HM Reply :=
  let! s := sm_get in
  let backings :=
    match fh_to_ino s !! fh with
    | Some ino =>
        match inode_backings s !! ino with
        | Some (b, count) =>
            if count - 1 =? 0 then delete ino (inode_backings s)
            else <[ino := (b, count - 1)]> (inode_backings s)
        | None => inode_backings s
        end
    | None => inode_backings s
    end in
  sm_modify (set_files (delete fh (open_files s)) (next_fh s) backings (delete fh (fh_to_ino s))) ;;;
  sm_ret (Ok ROk).

(** ** Removal *)

(** Is everything in the directory hidden? *)
Definition no_visible_child (s : OverlayInner) (id : NodeId) : bool :=
  match nodes_get s id ≫= children with
  | Some ch => forallb (λ cid, default true (hidden <$> nodes_get s cid)) (snd <$> map_to_list ch)
  | None => true
  end.

(** The removal of the node from the parent, the inode table and the arena:
    the FUSE inode to invalidate, when other names of it are left. *)
Definition drop_child (pnode_id : NodeId) (nm : bytes) : InnerM (option Z) :=
  let! s := sm_get in
  match nodes_get s pnode_id with
  | None => sm_ret None
  | Some p =>
      alter_node (λ p, (remove_child nm p).2) pnode_id ;;;
      match (remove_child nm p).1 with
      | None => sm_ret None
      | Some removed_id =>
          let! s := sm_get in
          let! inval :=
            match nodes_get s removed_id with
            | None => sm_ret None
            | Some node =>
                let key := node_key node in
                let surviving :=
                  match get_by_key (inodes s) key with
                  | Some oi => existsb (λ id, negb (id =? removed_id) && contains_key (nodes s) id)
                                 (elements (ino_nodes oi))
                  | None => false
                  end in
                sm_modify (λ s, set_inodes (remove_node_id key removed_id (inodes s)) s) ;;;
                sm_ret (if surviving then key_to_fuse_ino (inodes s) key else None)
            end in
          do_remove removed_id ;;;
          sm_ret inval
      end
  end.

(** [do_rm] up to the notification, under the write lock. *)
Definition do_rm_inner (parent : Z) (nm : bytes) (is_dir : bool) : InnerM (FsResult (option Z)) :=
  let! r := do_lookup_file parent (Some nm) in
  try! node_id := sm_ret (ok_or ENOENT r) in
  let! s := sm_get in
  if is_whiteout_or_missing s node_id then sm_ret (Err ENOENT)
  else
    try! _ :=
      (if is_dir then
         let! _ := reload_dir config node_id in
         let! s := sm_get in
         sm_ret (if no_visible_child s node_id then Ok tt else Err ENOTEMPTY)
       else sm_ret (Ok tt)) in
    try! _ := get_node_up copy_fuel node_id in
    let! r := do_lookup_file parent None in
    try! pnode_id := sm_ret (ok_or ENOENT r) in
    try! _ := get_node_up copy_fuel pnode_id in
    try! _ := hide_node node_id true in
    let! inval := drop_child pnode_id nm in
    sm_ret (Ok inval).

Definition do_rm (parent : Z) (nm : bytes) (is_dir : bool) : HM Reply :=
  try! inval := on_inner (do_rm_inner parent nm is_dir) in
  let! s := sm_get in
  match inval with
  | Some fuse_ino =>
      if notifier s then let! _ := sm_call (InvalInode fuse_ino) in sm_ret (Ok ROk)
      else sm_ret (Ok ROk)
  | None => sm_ret (Ok ROk)
  end.

Definition unlink (parent : Z) (nm : bytes) : HM Reply := do_rm parent nm false.
Definition rmdir (parent : Z) (nm : bytes) : HM Reply := do_rm parent nm true.

(** ** Lookup and attributes *)

(** The read-lock section of [lookup]: [None] falls through to the slow
    path. *)
Definition lookup_fast (parent : Z) (nm : bytes) : InnerM (option (FsResult FileAttr)) :=
  let! s := sm_get in
  match lookup_node_id s parent with
  | None => sm_ret None
  | Some parent_id =>
      if default false ((λ p, is_whiteout p nm) <$> nodes_get s parent_id)
      then sm_ret (Some (Err ENOENT))
      else
        match nodes_get s parent_id ≫= λ p, get_child p nm with
        | None => sm_ret None
        | Some child_id =>
            match nodes_get s child_id with
            | None => sm_ret (Some (Err ENOENT))
            | Some node =>
                if hidden node then sm_ret (Some (Err ENOENT))
                else
                  let key := node_key node in
                  match get_by_key (inodes s) key with
                  | None => sm_ret None
                  | Some ovl_ino =>
                      if bool_decide (child_id ∈ ino_nodes ovl_ino) then
                        let! path := node_path child_id in
                        let! r := rpl_stat_with_path config child_id (-1) path in
                        match r with
                        | Err _ => sm_ret None
                        | Ok st =>
                            do_inc_lookup key ;;;
                            let! attr := sm_expect (stat_to_attr st) in
                            sm_ret (Some (Ok (set_attr_ino (fuse_ino ovl_ino) attr)))
                        end
                      else sm_ret None
                  end
            end
        end
  end.

(** The inode number of a stat'ed node, registered and counted. *)
Definition register_lookup (node_id : NodeId) (st : stat) : InnerM (FsResult Z) :=
  let! s := sm_get in
  try! n := sm_ret (node s node_id) in
  if negb (tmp_ino n =? 0) || is_dir n then
    let! r := do_register node_id (tmp_ino n) (tmp_dev n) (st_mode st) in
    match r with
    | Some ino_val => do_inc_lookup (node_key n) ;;; sm_ret (Ok ino_val)
    | None => sm_ret (Err ENOMEM)
    end
  else sm_ret (Ok 1).

Definition lookup_slow (parent : Z) (nm : bytes) : InnerM (FsResult FileAttr) :=
  let! r := do_lookup_file parent (Some nm) in
  try! node_id := sm_ret (ok_or ENOENT r) in
  let! s := sm_get in
  if is_whiteout_or_missing s node_id then sm_ret (Err ENOENT)
  else
    let! loaded :=
      (if negb (cfg_static_nlink config) && default false (is_dir <$> nodes_get s node_id)
       then reload_dir config node_id else sm_ret true) in
    if negb loaded then sm_ret (Err EIO)
    else
      try! st := rpl_stat config node_id (-1) in
      try! fuse_ino := register_lookup node_id st in
      let! attr := sm_expect (stat_to_attr st) in
      sm_ret (Ok (set_attr_ino fuse_ino attr)).

Definition lookup (parent : Z) (nm : bytes) : HM Reply :=
  if starts_with WH_PREFIX nm then sm_ret (Err ENOENT)
  else
    let! ttl := timeout in
    let! fast := on_inner (lookup_fast parent nm) in
    try! attr := match fast with
                 | Some r => sm_ret r
                 | None => on_inner (lookup_slow parent nm)
                 end in
    sm_ret (Ok (REntry ttl attr)).

(** [forget], the handler; it has no reply. *)
Definition forget_request (ino nlookup : Z) : SM OverlayFs unit :=
  on_inner (sm_modify (λ s, set_inodes (forget ino nlookup (inodes s)).2 s)).

Definition getattr (ino : Z) : HM Reply :=
  let! s := get_inner in
  try! st :=
    (if ino =? 1 then on_inner (ensure_root_loaded config ;;; rpl_stat config (root_id s) (-1))
     else
       try! node_id := sm_ret (resolve_node s ino) in
       on_inner (rpl_stat config node_id (-1))) in
  let! ttl := timeout in
  let! attr := sm_expect (stat_to_attr st) in
  sm_ret (Ok (RAttr ttl attr)).

Definition readlink (ino : Z) : HM Reply :=
  let! s := get_inner in
  try! node_id := sm_ret (ok_or ENOENT (lookup_node_id s ino)) in
  let! path := on_inner (node_path node_id) in
  try! (n, l) := sm_ret (node_and_layer s node_id) in
  try! target := stateless (ds_readlinkat (ds l) path) in
  sm_ret (Ok (RData target)).
End ops.
