(* ===== verification/OpsTree.v ===== *)
(** * Requests that change the tree (src/src/overlay.rs)

    [mknod], [mkdir], [symlink], [create], [rename] and [link].  The new
    object is prepared in the work directory and renamed in place; the source's
    error paths remove the prepared object again. *)

From S2P Require Import Prelude Libc Mapping Xattr ConfigData Sys Openat2 Node DataSource.
From S2P Require Import Whiteout Layer Copyup Overlay Ops.
Local Open Scope Z_scope.

Section ops_tree.
Context `{F64, DevT, HashOrder} (copy_fuel : nat) (config : OverlayConfig).

(** ** What the four creating requests share *)

(** The checks before anything is created: the name's length and that no
    node has the name. *)
Definition check_new_name (parent : Z) (nm : bytes) : InnerM (FsResult unit) :=
  let! namemax := get_fs_namemax in
  if namemax <? Z.of_nat (length nm) then sm_ret (Err ENAMETOOLONG)
  else
    let! r := do_lookup_file parent (Some nm) in
    let! s := sm_get in
    sm_ret (match r with
            | Some eid => if is_whiteout_or_missing s eid then Ok tt else Err EEXIST
            | None => Ok tt
            end).

(** The host owner of a new object. *)
Definition owner_ids (req : Request) (s : OverlayInner) : Z * Z :=
  (map_uid config s (req_uid req), map_gid config s (req_gid req)).

(** Move the prepared object at [wd_name] to [child_path]; on an error it is
    removed.  The descriptor of the destination directory. *)
Definition place_file (upper_fd : RawFd) (wd_name path : bytes) : InnerM (FsResult RawFd) :=
  let! s := sm_get in
  let! r := open_parent_safe_cstr upper_fd path in
  match r with
  | Err e =>
      let! _ := sm_call (Unlinkat (workdir_fd s) wd_name 0) in sm_ret (Err e)
  | Ok (guard, dst_dirfd, c_dst_name) =>
      let! r := sm_call (Renameat (workdir_fd s) wd_name dst_dirfd c_dst_name) in
      match r with
      | Err e =>
          let! _ := sm_call (Unlinkat (workdir_fd s) wd_name 0) in sm_ret (Err e)
      | Ok _ => sm_ret (Ok dst_dirfd)
      end
  end.

(** The end of the three requests that reply with an entry. *)
Definition finish_entry (pnode_id : NodeId) (pnode_path : bytes) (upper_fd dst_dirfd : RawFd)
    (nm path : bytes) : InnerM (FsResult FileAttr) :=
  let! _ := do_delete_whiteout upper_fd (Some dst_dirfd) pnode_path nm in
  try! (fuse_ino, attr) := stat_and_register_child pnode_id nm path in
  sm_ret (Ok attr).

Definition reply_entry (m : InnerM (FsResult FileAttr)) : HM Reply :=
  try! attr := on_inner m in
  let! ttl := timeout config in
  sm_ret (Ok (REntry ttl attr)).

(** ** mknod *)
Definition mknod_inner (req : Request) (parent : Z) (nm : bytes) (mode rdev : Z)
    : InnerM (FsResult FileAttr) :=
  try! _ := check_new_name parent nm in
  try! (pnode_id, pnode_path, upper_fd, path) := prepare_create_parent copy_fuel parent nm in
  let! c := next_wd_counter in
  let wd_name := print_dec c in
  let! s := sm_get in
  try! _ := sm_call (Mknodat (workdir_fd s) wd_name (Z.lor mode MODE_755) rdev) in
  let (host_uid, host_gid) := owner_ids req s in
  let! _ := sm_call (Fchownat (workdir_fd s) wd_name host_uid host_gid AT_SYMLINK_NOFOLLOW) in
  let! r := safe_openat (workdir_fd s) wd_name (Z.lor O_RDONLY O_NONBLOCK) 0 in
  match r with
  | Ok wd_fd => inherit_acl config pnode_id wd_fd
  | Err _ => sm_ret tt
  end ;;;
  try! dst_dirfd := place_file upper_fd wd_name path in
  finish_entry pnode_id pnode_path upper_fd dst_dirfd nm path.

Definition mknod (req : Request) (parent : Z) (nm : bytes) (mode rdev : Z) : HM Reply :=
  reply_entry (mknod_inner req parent nm mode rdev).

(** ** mkdir *)

(** [mkdir]'s own rename, which retries after a file in the way. *)
Definition place_dir (upper_fd : RawFd) (wd_name path : bytes) : InnerM (FsResult RawFd) :=
  let! s := sm_get in
  let! r := open_parent_safe_cstr upper_fd path in
  match r with
  | Err e =>
      let! _ := sm_call (Unlinkat (workdir_fd s) wd_name AT_REMOVEDIR) in sm_ret (Err e)
  | Ok (guard, dst_dirfd, c_dst_name) =>
      let! r := sm_call (Renameat (workdir_fd s) wd_name dst_dirfd c_dst_name) in
      match r with
      | Ok _ => sm_ret (Ok dst_dirfd)
      | Err e =>
          if e =? ENOTDIR then
            let! _ := sm_call (Unlinkat dst_dirfd c_dst_name 0) in
            let! r := sm_call (Renameat (workdir_fd s) wd_name dst_dirfd c_dst_name) in
            match r with
            | Ok _ => sm_ret (Ok dst_dirfd)
            | Err e =>
                let! _ := sm_call (Unlinkat (workdir_fd s) wd_name AT_REMOVEDIR) in
                sm_ret (Err e)
            end
          else
            let! _ := sm_call (Unlinkat (workdir_fd s) wd_name AT_REMOVEDIR) in
            sm_ret (Err e)
      end
  end.

Definition mkdir_inner (req : Request) (parent : Z) (nm : bytes) (mode : Z)
    : InnerM (FsResult FileAttr) :=
  try! _ := check_new_name parent nm in
  try! (pnode_id, pnode_path, upper_fd, path) := prepare_create_parent copy_fuel parent nm in
  let! s := sm_get in
  try! pnode := sm_ret (node s pnode_id) in
  let pnode_last_layer := last_layer_idx pnode in
  let! c := next_wd_counter in
  let wd_name := print_dec c in
  try! _ := sm_call (Mkdirat (workdir_fd s) wd_name mode) in
  let (host_uid, host_gid) := owner_ids req s in
  let! _ := sm_call (Fchownat (workdir_fd s) wd_name host_uid host_gid AT_SYMLINK_NOFOLLOW) in
  (if (0 <? pnode_last_layer)%nat then
     let! r := safe_openat (workdir_fd s) wd_name (Z.lor O_RDONLY O_DIRECTORY) 0 in
     match r with
     | Ok fd => let! _ := set_fd_opaque fd in sm_ret tt
     | Err _ => sm_ret tt
     end
   else sm_ret tt) ;;;
  let! r := safe_openat (workdir_fd s) wd_name (Z.lor O_RDONLY O_DIRECTORY) 0 in
  match r with
  | Ok fd => inherit_acl config pnode_id fd
  | Err _ => sm_ret tt
  end ;;;
  try! dst_dirfd := place_dir upper_fd wd_name path in
  finish_entry pnode_id pnode_path upper_fd dst_dirfd nm path.

Definition mkdir (req : Request) (parent : Z) (nm : bytes) (mode : Z) : HM Reply :=
  reply_entry (mkdir_inner req parent nm mode).

(** ** symlink *)
Definition symlink_inner (req : Request) (parent : Z) (nm link : bytes) : InnerM (FsResult FileAttr) :=
  try! _ := check_new_name parent nm in
  try! (pnode_id, pnode_path, upper_fd, path) := prepare_create_parent copy_fuel parent nm in
  let! c := next_wd_counter in
  let wd_name := print_dec c in
  let! s := sm_get in
  try! c_link := sm_ret (cstr_bytes link) in
  try! _ := sm_call (Symlinkat c_link (workdir_fd s) wd_name) in
  let (host_uid, host_gid) := owner_ids req s in
  let! _ := sm_call (Fchownat (workdir_fd s) wd_name host_uid host_gid AT_SYMLINK_NOFOLLOW) in
  try! dst_dirfd := place_file upper_fd wd_name path in
  finish_entry pnode_id pnode_path upper_fd dst_dirfd nm path.

Definition symlink (req : Request) (parent : Z) (nm link : bytes) : HM Reply :=
  reply_entry (symlink_inner req parent nm link).

(** ** create *)

(** Is the name free, and was it whited out? *)
Definition check_create (parent : Z) (nm : bytes) : InnerM (FsResult bool) :=
  let! namemax := get_fs_namemax in
  if namemax <? Z.of_nat (length nm) then sm_ret (Err ENAMETOOLONG)
  else
    let! r := do_lookup_file parent (Some nm) in
    let! s := sm_get in
    sm_ret (match r with
            | Some eid => if is_whiteout_or_missing s eid then Ok true else Err EEXIST
            | None =>
                Ok (default false (pid ← lookup_node_id s parent;
                                   p ← nodes_get s pid; Some (is_whiteout p nm)))
            end).

(** The file, created in place, or through the work directory over a
    whiteout. *)
Definition create_file (is_wh : bool) (upper_fd : RawFd) (pnode_path nm path : bytes)
    (open_flags mode : Z) : InnerM (FsResult RawFd) :=
  let! l0 := layer_at 0 in
  if negb is_wh then stateless (openat (ds l0) path open_flags mode)
  else
    let! c := next_wd_counter in
    let wd_name := print_dec c in
    let! s := sm_get in
    try! _ := safe_openat (workdir_fd s) wd_name open_flags mode in
    try! dst_dirfd := place_file upper_fd wd_name path in
    let! _ := do_delete_whiteout upper_fd (Some dst_dirfd) pnode_path nm in
    stateless (openat (ds l0) path (Z.lor (Z.land open_flags (Z.lnot O_CREAT)) O_RDWR) mode).

(** The open file, its inode and its attributes. *)
Definition create_inner (req : Request) (parent : Z) (nm : bytes) (mode flags : Z)
    : InnerM (FsResult (RawFd * Z * FileAttr)) :=
  try! is_wh := check_create parent nm in
  try! (pnode_id, pnode_path, upper_fd, path) := prepare_create_parent copy_fuel parent nm in
  let open_flags := adjust_flags (cfg_writeback config) (Z.lor (Z.lor flags O_CREAT) O_NOFOLLOW) in
  try! fd := create_file is_wh upper_fd pnode_path nm path open_flags mode in
  let! s := sm_get in
  let (host_uid, host_gid) := owner_ids req s in
  let! _ := sm_call (Fchown fd host_uid host_gid) in
  inherit_acl config pnode_id fd ;;;
  let! l0 := layer_at 0 in
  try! st := stateless (ds_fstat (ds l0) fd path STATX_BASIC_STATS) in
  let! r := create_and_register_child pnode_id nm st false in
  match r with
  | None => sm_ret (Err ENOMEM)
  | Some (child_id, fuse_ino) =>
      let! attr := sm_expect (stat_to_attr st) in
      sm_ret (Ok (fd, fuse_ino, set_attr_ino fuse_ino attr))
  end.

Definition create (req : Request) (parent : Z) (nm : bytes) (mode flags : Z) : HM Reply :=
  try! (fd, fuse_ino, attr) := on_inner (create_inner req parent nm mode flags) in
  let keep_cache := f64_positive (cfg_timeout config) in
  let plain : HM Reply :=
    let! fh := alloc_fh fd in
    let! ttl := timeout config in
    sm_ret (Ok (RCreated ttl attr fh keep_cache)) in
  let! s := sm_get in
  if passthrough_enabled s then
    let! r := sm_call (OpenBacking fd) in
    match r with
    | Ok backing_id =>
        let! fh := new_fh fd (<[fuse_ino := (backing_id, 1)]> (inode_backings s)) (Some fuse_ino) in
        let! ttl := timeout config in
        sm_ret (Ok (RCreatedPassthrough ttl attr fh backing_id))
    | Err _ => sm_modify (set_passthrough false) ;;; plain
    end
  else plain.

(** ** link *)
Definition link_inner (ino newparent : Z) (newname : bytes) : InnerM (FsResult FileAttr) :=
  let! namemax := get_fs_namemax in
  if namemax <? Z.of_nat (length newname) then sm_ret (Err ENAMETOOLONG)
  else
    let! r := do_lookup_file ino None in
    try! src_id := sm_ret (ok_or ENOENT r) in
    try! _ := get_node_up copy_fuel src_id in
    let! r := do_lookup_file newparent None in
    try! dparent_id := sm_ret (ok_or ENOENT r) in
    let! r := do_lookup_file newparent (Some newname) in
    let! s := sm_get in
    if match r with Some dst_id => negb (is_whiteout_or_missing s dst_id) | None => false end
    then sm_ret (Err EEXIST)
    else
      try! _ := get_node_up copy_fuel dparent_id in
      let! src_path := node_path src_id in
      let! dparent_path := node_path dparent_id in
      let! l0 := layer_at 0 in
      let upper_fd := root_fd (ds l0) in
      let new_path := child_path dparent_path newname in
      let! _ := do_delete_whiteout upper_fd None dparent_path newname in
      try! (src_guard, src_dirfd, c_old) := open_parent_safe_cstr upper_fd src_path in
      try! (dst_guard, dst_dirfd, c_new_link) := open_parent_safe_cstr upper_fd new_path in
      try! _ := sm_call (Linkat src_dirfd c_old dst_dirfd c_new_link 0) in
      try! st := stateless (statat (ds l0) new_path AT_SYMLINK_NOFOLLOW STATX_BASIC_STATS) in
      let! r := create_and_register_child dparent_id newname st false in
      match r with
      | Some (child_id, fuse_ino) =>
          let! attr := sm_expect (stat_to_attr st) in
          sm_ret (Ok (set_attr_ino fuse_ino attr))
      | None => sm_ret (Err ENOMEM)
      end.

Definition link (ino newparent : Z) (newname : bytes) : HM Reply :=
  reply_entry (link_inner ino newparent newname).

(** ** rename *)

(** Up to the copy-ups: the source node and the two parents. *)
Definition rename_resolve (parent : Z) (nm : bytes) (newparent : Z) (newname : bytes)
    : InnerM (FsResult (NodeId * NodeId * NodeId)) :=
  let! namemax := get_fs_namemax in
  if namemax <? Z.of_nat (length newname) then sm_ret (Err ENAMETOOLONG)
  else
    let! r := do_lookup_file parent (Some nm) in
    try! src_id := sm_ret (ok_or ENOENT r) in
    let! s := sm_get in
    if is_whiteout_or_missing s src_id then sm_ret (Err ENOENT)
    else
      try! _ :=
        (if default false (is_dir <$> nodes_get s src_id) then
           let! _ := reload_dir config src_id in
           let! s := sm_get in
           try! n := sm_ret (node s src_id) in
           (* a directory that lower layers contribute to *)
           sm_ret (if (0 <? layer_idx n)%nat || (0 <? last_layer_idx n)%nat
                   then Err EXDEV else Ok tt)
         else sm_ret (Ok tt)) in
      try! _ := get_node_up copy_fuel src_id in
      let! r := do_lookup_file parent None in
      try! sparent_id := sm_ret (ok_or ENOENT r) in
      try! _ := get_node_up copy_fuel sparent_id in
      let! r := do_lookup_file newparent None in
      try! dparent_id := sm_ret (ok_or ENOENT r) in
      try! _ := get_node_up copy_fuel dparent_id in
      sm_ret (Ok (src_id, sparent_id, dparent_id)).

(** Some child that is not hidden. *)
Definition has_visible (s : OverlayInner) (id : NodeId) : bool :=
  match nodes_get s id ≫= children with
  | Some ch => existsb (λ cid, default false ((λ c, negb (hidden c)) <$> nodes_get s cid))
                 (snd <$> map_to_list ch)
  | None => false
  end.

(** The destination's checks: RENAME_NOREPLACE, and an empty directory. *)
Definition rename_check_dst (newparent : Z) (newname : bytes) (flags : Z) : InnerM (FsResult unit) :=
  let! r := do_lookup_file newparent (Some newname) in
  let! s := sm_get in
  match r with
  | None => sm_ret (Ok tt)
  | Some dst_id =>
      if is_whiteout_or_missing s dst_id then sm_ret (Ok tt)
      else if negb (Z.land flags RENAME_NOREPLACE =? 0) then sm_ret (Err EEXIST)
      else if (Z.land flags RENAME_EXCHANGE =? 0) && default false (is_dir <$> nodes_get s dst_id)
      then
        let! _ := reload_dir config dst_id in
        let! s := sm_get in
        if has_visible s dst_id then sm_ret (Err ENOTEMPTY)
        else
          let! dst_path := node_path dst_id in
          let! l0 := layer_at 0 in
          let! _ := empty_upper_dir l0 dst_path in
          sm_ret (Ok tt)
      else sm_ret (Ok tt)
  end.

(** The rename on the upper layer. *)
Definition rename_disk (upper_fd : RawFd) (src_path new_path : bytes) (flags : Z)
    : InnerM (FsResult unit) :=
  try! (src_guard, src_dirfd, c_old) := open_parent_safe_cstr upper_fd src_path in
  try! (dst_guard, dst_dirfd, c_new) := open_parent_safe_cstr upper_fd new_path in
  if negb (flags =? 0) then sm_call (Renameat2 src_dirfd c_old dst_dirfd c_new flags)
  else sm_call (Renameat src_dirfd c_old dst_dirfd c_new).

(** [remove_child] through [get_mut]: the child that had the name. *)
Definition take_child (pid : NodeId) (nm : bytes) : InnerM (option NodeId) :=
  let! s := sm_get in
  match nodes_get s pid with
  | None => sm_ret None
  | Some p => alter_node (λ p, (remove_child nm p).2) pid ;;; sm_ret (remove_child nm p).1
  end.
Definition put_child (pid : NodeId) (nm : bytes) (id : NodeId) : InnerM unit :=
  alter_node (λ p, (insert_child nm id p).2) pid.

(** A node under a new name and parent. *)
Definition renamed (nm : bytes) (p : option NodeId) (n : OvlNode) : OvlNode :=
  set_parent p (set_name_hash (fnv1a_name_hash_pub nm) (set_name nm n)).
Definition unload_dir (n : OvlNode) : OvlNode := if is_dir n then mark_unloaded n else n.

(** RENAME_EXCHANGE in the tree: a failure is EIO after the fact. *)
Definition rename_exchange (sparent_id : NodeId) (nm : bytes) (dparent_id : NodeId) (newname : bytes)
    : InnerM (FsResult unit) :=
  let! src_child := take_child sparent_id nm in
  let! dst_child := take_child dparent_id newname in
  match src_child, dst_child with
  | Some sid, Some did =>
      let! s := sm_get in
      match nodes_get s sid, nodes_get s did with
      | Some sn, Some dn =>
          alter_node (λ n, unload_dir (renamed (name dn) (parent dn) n)) sid ;;;
          alter_node (λ n, unload_dir (renamed (name sn) (parent sn) n)) did ;;;
          put_child dparent_id newname sid ;;;
          put_child sparent_id nm did ;;;
          sm_ret (Ok tt)
      | _, _ => sm_ret (Err EIO)
      end
  | _, _ => sm_ret (Err EIO)
  end.

(** A plain rename in the tree: the replaced node goes, the source moves. *)
Definition rename_replace (sparent_id : NodeId) (nm : bytes) (newparent : Z) (dparent_id : NodeId)
    (newname : bytes) : InnerM unit :=
  let! r := do_lookup_file newparent (Some newname) in
  let! s := sm_get in
  match r with
  | Some dst_id =>
      if is_whiteout_or_missing s dst_id then sm_ret tt
      else
        match nodes_get s dst_id with
        | Some n =>
            sm_modify (λ s, set_inodes (remove_node_id (node_key n) dst_id (inodes s)) s)
        | None => sm_ret tt
        end ;;;
        alter_node (λ p, (remove_child newname p).2) dparent_id ;;;
        do_remove dst_id
  | None => sm_ret tt
  end ;;;
  let! removed := take_child sparent_id nm in
  match removed with
  | Some child_id =>
      alter_node (renamed newname (Some dparent_id)) child_id ;;;
      put_child dparent_id newname child_id
  | None => sm_ret tt
  end.

Definition rename_inner (parent : Z) (nm : bytes) (newparent : Z) (newname : bytes) (flags : Z)
    : InnerM (FsResult unit) :=
  try! (src_id, sparent_id, dparent_id) := rename_resolve parent nm newparent newname in
  let! l0 := layer_at 0 in
  let upper_fd := root_fd (ds l0) in
  let! src_path := node_path src_id in
  let! dparent_path := node_path dparent_id in
  let new_path := child_path dparent_path newname in
  try! _ := rename_check_dst newparent newname flags in
  let! s := sm_get in
  (if default false (is_dir <$> nodes_get s src_id) then
     let! _ := do_delete_whiteout upper_fd None dparent_path newname in sm_ret tt
   else sm_ret tt) ;;;
  try! _ := rename_disk upper_fd src_path new_path flags in
  let! s := sm_get in
  let src_last_layer := default 0%nat (last_layer_idx <$> nodes_get s src_id) in
  alter_node mark_unloaded sparent_id ;;;
  (if negb (dparent_id =? sparent_id) then alter_node mark_unloaded dparent_id else sm_ret tt) ;;;
  try! _ :=
    (if negb (Z.land flags RENAME_EXCHANGE =? 0)
     then rename_exchange sparent_id nm dparent_id newname
     else rename_replace sparent_id nm newparent dparent_id newname ;;; sm_ret (Ok tt)) in
  (if (Z.land flags RENAME_EXCHANGE =? 0) && (0 <? src_last_layer)%nat then
     let! sparent_path := node_path sparent_id in
     let! s := sm_get in
     let! _ := do_create_whiteout upper_fd sparent_path nm (can_mknod s) in
     sm_ret tt
   else sm_ret tt) ;;;
  sm_ret (Ok tt).

Definition rename (parent : Z) (nm : bytes) (newparent : Z) (newname : bytes) (flags : Z) : HM Reply :=
  try! _ := on_inner (rename_inner parent nm newparent newname flags) in
  sm_ret (Ok ROk).
End ops_tree.
