(* ===== verification/OpsFile.v ===== *)
(** * Requests on files and directories (src/src/overlay.rs)

    [setattr], [open] and the calls on an open file, the extended attributes,
    the directory handles and [ioctl]. *)

From S2P Require Import Prelude Libc Mapping Xattr ConfigData Sys Openat2 Node DataSource.
From S2P Require Import Whiteout Layer Copyup Overlay Ops OpsTree.
Local Open Scope Z_scope.

(** What [init] asks the kernel for. *)
Inductive InitFlag :=
| FUSE_DONT_MASK | FUSE_SPLICE_READ | FUSE_SPLICE_WRITE | FUSE_SPLICE_MOVE | FUSE_PARALLEL_DIROPS
| FUSE_HANDLE_KILLPRIV | FUSE_CACHE_SYMLINKS | FUSE_DO_READDIRPLUS | FUSE_READDIRPLUS_AUTO
| FUSE_PASSTHROUGH | FUSE_WRITEBACK_CACHE | FUSE_POSIX_ACL | FUSE_NO_EXPORT_SUPPORT.

Section ops_file.
Context `{F64, DevT, HashOrder} (copy_fuel : nat) (config : OverlayConfig).

(** ** setattr *)

Definition omit : timespec := {| tv_sec := 0; tv_nsec := UTIME_OMIT |}.

(** One of the two times of [setattr]; a time before the epoch is the
    epoch. *)
Definition set_time (t : option TimeOrNow) : timespec :=
  match t with
  | None => omit
  | Some Now => {| tv_sec := 0; tv_nsec := UTIME_NOW |}
  | Some (SpecificTime secs nsec) =>
      if secs <? 0 then {| tv_sec := 0; tv_nsec := 0 |}
      else {| tv_sec := wrap_i64 secs; tv_nsec := nsec |}
  end.

(** An operation on the open descriptor, or below the parent of [path]. *)
Definition fd_or_path {A} (fd root : RawFd) (path : bytes) (by_fd : SM OverlayFs (FsResult A))
    (by_path : RawFd → bytes → SM OverlayFs (FsResult A)) : SM OverlayFs (FsResult A) :=
  if 0 <=? fd then by_fd
  else
    try! (guard, dirfd, c_name) := open_parent_safe_cstr root path in
    by_path dirfd c_name.

(** The descriptor of [setattr]: of the handle, or opened by path, or -1. *)
Definition setattr_fd (l : OvlLayer) (path : bytes) (size : option Z) (fh : option Z)
    : SM OverlayFs RawFd :=
  let! fh_fd := match fh with
                | Some fh_val => get_file fh_val
                | None => sm_ret None
                end in
  match fh_fd with
  | Some fd => sm_ret fd
  | None =>
      let open_flags := Z.lor (Z.lor O_NOFOLLOW O_NONBLOCK)
                          (if is_Some_b size then O_WRONLY else O_RDONLY) in
      let! r := stateless (openat (ds l) path open_flags 0) in
      sm_ret (match r with Ok fd => fd | Err _ => -1 end)
  end.

Definition setattr_times (l : OvlLayer) (fd : RawFd) (path : bytes) (atime mtime : option TimeOrNow)
    : HM unit :=
  let times := (set_time atime, set_time mtime) in
  if negb (tv_nsec times.1 =? UTIME_OMIT) || negb (tv_nsec times.2 =? UTIME_OMIT) then
    fd_or_path fd (root_fd (ds l)) path (sm_call (Futimens fd times))
      (λ dirfd c_name, sm_call (Utimensat dirfd c_name times AT_SYMLINK_NOFOLLOW))
  else sm_ret (Ok tt).

(** Owner and mode as an attribute, for a layer with a stat override. *)
Definition setattr_override (l : OvlLayer) (xattr_name : bytes) (fd : RawFd) (path : bytes)
    (mode uid gid : option Z) : HM unit :=
  try! st := (if 0 <=? fd then sm_call (Fstat fd)
              else stateless (statat (ds l) path AT_SYMLINK_NOFOLLOW 0xfff)) in
  let current := (st_uid st, st_gid st, Z.land (st_mode st) PERM_MASK) in
  let! (cur_uid, cur_gid, cur_mode) :=
    (if 0 <=? fd then
       let! r := sm_call (Fgetxattr fd xattr_name 64) in
       sm_ret (match r with
               | Ok s => if valid_utf8 s then parse_override_fields s st else current
               | Err _ => current
               end)
     else sm_ret current) in
  let! s := get_inner in
  let new_uid := match uid with Some u => map_uid config s u | None => cur_uid end in
  let new_gid := match gid with Some g => map_gid config s g | None => cur_gid end in
  let new_mode := match mode with Some m => Z.land m PERM_MASK | None => cur_mode end in
  let override_val := override_value new_uid new_gid new_mode in
  if 0 <=? fd then sm_call (Fsetxattr fd xattr_name override_val 0)
  else
    let! l0 := on_inner (layer_at 0) in
    lsetxattr (proc_fd_path (root_fd (ds l0)) path) xattr_name override_val 0.

(** Mode, then owner, on the file itself. *)
Definition setattr_plain (l : OvlLayer) (fd : RawFd) (path : bytes) (mode uid gid : option Z)
    : HM unit :=
  try! _ := match mode with
            | Some new_mode =>
                fd_or_path fd (root_fd (ds l)) path (sm_call (Fchmod fd new_mode))
                  (λ dirfd c_name, sm_call (Fchmodat dirfd c_name new_mode 0))
            | None => sm_ret (Ok tt)
            end in
  if is_Some_b uid || is_Some_b gid then
    let! s := get_inner in
    let new_uid := match uid with Some u => map_uid config s u | None => 2 ^ 32 - 1 end in
    let new_gid := match gid with Some g => map_gid config s g | None => 2 ^ 32 - 1 end in
    fd_or_path fd (root_fd (ds l)) path (sm_call (Fchown fd new_uid new_gid))
      (λ dirfd c_name, sm_call (Fchownat dirfd c_name new_uid new_gid AT_SYMLINK_NOFOLLOW))
  else sm_ret (Ok tt).

Definition setattr_size (l : OvlLayer) (fd : RawFd) (path : bytes) (size : option Z) : HM unit :=
  match size with
  | Some new_size =>
      fd_or_path fd (root_fd (ds l)) path (sm_call (Ftruncate fd (wrap_i64 new_size)))
        (λ dirfd c_name,
           try! c := sm_ret (cstr_bytes (proc_fd_path dirfd c_name)) in
           sm_call (Truncate c (wrap_i64 new_size)))
  | None => sm_ret (Ok tt)
  end.

Definition setattr (ino : Z) (mode uid gid size : option Z) (atime mtime : option TimeOrNow)
    (fh : option Z) : HM Reply :=
  let! s := get_inner in
  try! node_id := sm_ret (resolve_node s ino) in
  try! _ := on_inner (get_node_up copy_fuel node_id) in
  let! path := on_inner (node_path node_id) in
  let! s := get_inner in
  try! (n, l) := sm_ret (node_and_layer s node_id) in
  let! fd := setattr_fd l path size fh in
  try! _ := setattr_times l fd path atime mtime in
  try! _ :=
    match override_xattr_name (layer_stat_override_mode l) with
    | Some xattr_name =>
        if is_Some_b mode || is_Some_b uid || is_Some_b gid
        then setattr_override l xattr_name fd path mode uid gid
        else sm_ret (Ok tt)
    | None => setattr_plain l fd path mode uid gid
    end in
  try! _ := setattr_size l fd path size in
  let! attr := on_inner (do_getattr config node_id) in
  match attr with
  | Some a => let! ttl := timeout config in sm_ret (Ok (RAttr ttl a))
  | None => sm_ret (Err EIO)
  end.

(** ** open and the calls on an open file *)

(** The read-lock section: [None] when a copy-up is needed. *)
Definition open_fast (ino flags_raw open_flags : Z) : InnerM (option (FsResult RawFd)) :=
  let! s := sm_get in
  match (let? node_id := resolve_node s ino in
         let? n := node s node_id in Ok (node_id, n)) with
  | Err e => sm_ret (Some (Err e))
  | Ok (node_id, n) =>
      let is_low := default false (low <$> layers s !! layer_idx n) in
      if negb (needs_write flags_raw) || negb is_low then
        let! path := node_path node_id in
        match layer s (layer_idx n) with
        | Err e => sm_ret (Some (Err e))
        | Ok l =>
            let! r := stateless (openat (ds l) path open_flags MODE_700) in sm_ret (Some r)
        end
      else sm_ret None
  end.

Definition open_slow (ino open_flags : Z) : InnerM (FsResult RawFd) :=
  let! s := sm_get in
  try! node_id := sm_ret (resolve_node s ino) in
  try! _ := get_node_up copy_fuel node_id in
  let! path := node_path node_id in
  let! s := sm_get in
  try! (n, l) := sm_ret (node_and_layer s node_id) in
  stateless (openat (ds l) path open_flags MODE_700).

Definition open (ino flags_raw : Z) : HM Reply :=
  let open_flags := adjust_flags (cfg_writeback config) (Z.lor flags_raw O_NOFOLLOW) in
  let! fast := on_inner (open_fast ino flags_raw open_flags) in
  try! fd := match fast with
             | Some r => sm_ret r
             | None => on_inner (open_slow ino open_flags)
             end in
  reply_open_maybe_passthrough config ino fd.

(** A call on the file of a handle. *)
Definition with_file {A} (fh : Z) (k : RawFd → HM A) : HM A :=
  let! f := get_file fh in
  match f with
  | Some fd => k fd
  | None => sm_ret (Err EBADF)
  end.

Definition read (fh offset size : Z) : HM Reply :=
  with_file fh (λ fd,
    try! data := sm_call (Pread fd (Z.min size (2 ^ 21)) (wrap_i64 offset)) in
    sm_ret (Ok (RData data))).

(** A write of the page cache keeps the set-id bits the kernel may clear. *)
Definition write (fh offset : Z) (data : bytes) (write_cache : bool) : HM Reply :=
  with_file fh (λ fd,
    let! restore_mode :=
      (if write_cache then
         let! r := sm_call (Fstat fd) in
         sm_ret (match r with
                 | Ok st => if negb (Z.land (st_mode st) (Z.lor S_ISUID S_ISGID) =? 0)
                            then Some (st_mode st) else None
                 | Err _ => None
                 end)
       else sm_ret None) in
    try! n := sm_call (Pwrite fd data (wrap_i64 offset)) in
    match restore_mode with
    | Some mode => let! _ := sm_call (Fchmod fd mode) in sm_ret tt
    | None => sm_ret tt
    end ;;;
    sm_ret (Ok (RWritten (wrap_u32 n)))).

Definition fsync (fh : Z) (datasync : bool) : HM Reply :=
  if negb (cfg_fsync config) then sm_ret (Err ENOSYS)
  else
    with_file fh (λ fd,
      try! _ := (if datasync then sm_call (Fdatasync fd) else sm_call (Fsync fd)) in
      sm_ret (Ok ROk)).

Definition fallocate (fh offset length mode : Z) : HM Reply :=
  with_file fh (λ fd,
    try! _ := sm_call (Fallocate fd mode (wrap_i64 offset) (wrap_i64 length)) in
    sm_ret (Ok ROk)).

Definition lseek (fh offset whence : Z) : HM Reply :=
  with_file fh (λ fd,
    try! pos := sm_call (Lseek fd offset whence) in
    sm_ret (Ok (ROffset pos))).

Definition copy_file_range (fh_in offset_in fh_out offset_out len : Z) : HM Reply :=
  with_file fh_in (λ fd_in, with_file fh_out (λ fd_out,
    let capped_len := Z.min len (2 ^ 32 - 1) in
    try! n := sm_call (CopyFileRange fd_in (wrap_i64 offset_in) fd_out (wrap_i64 offset_out)
                         capped_len) in
    sm_ret (Ok (RWritten (Z.min n (2 ^ 32 - 1)))))).

Definition access : HM Reply := sm_ret (Ok ROk).

Definition statfs : HM Reply :=
  let! s := get_inner in
  match layers s with
  | [] => sm_ret (Err ENOSYS)
  | l :: _ =>
      try! svfs := sm_call (Fstatvfs (layer_root_fd l)) in
      let name_max := if 4 <? f_namemax svfs then f_namemax svfs - 4 else f_namemax svfs in
      sm_ret (Ok (RStatfs (f_blocks svfs) (f_bfree svfs) (f_bavail svfs) (f_files svfs)
                    (f_ffree svfs) (wrap_u32 (f_bsize svfs)) (wrap_u32 name_max)
                    (wrap_u32 (f_frsize svfs))))
  end.

Definition fsyncdir (ino : Z) (datasync : bool) : HM Reply :=
  if negb (cfg_fsync config) then sm_ret (Err ENOSYS)
  else
    let! s := get_inner in
    try! node_id := sm_ret (resolve_node s ino) in
    try! n := sm_ret (node s node_id) in
    if negb (layer_idx n =? 0)%nat || default true (low <$> head (layers s)) then sm_ret (Ok ROk)
    else
      let! path := on_inner (node_path node_id) in
      try! l := sm_ret (layer s (layer_idx n)) in
      try! fd := safe_openat (layer_root_fd l) path (Z.lor O_NOFOLLOW O_DIRECTORY) 0 in
      try! _ := (if datasync then sm_call (Fdatasync fd) else sm_call (Fsync fd)) in
      sm_ret (Ok ROk).

(** ** Extended attributes *)

(** The node copied up, with its path and its layer. *)
Definition xattr_target (ino : Z) : InnerM (FsResult (bytes * OvlLayer)) :=
  let! s := sm_get in
  try! node_id := sm_ret (resolve_node_for_write s ino) in
  try! _ := get_node_up copy_fuel node_id in
  let! path := node_path node_id in
  let! s := sm_get in
  try! (n, l) := sm_ret (node_and_layer s node_id) in
  sm_ret (Ok (path, l)).

Definition setxattr (ino : Z) (name value : bytes) (flags : Z) : HM Reply :=
  if negb (valid_utf8 name) then sm_ret (Err EINVAL)
  else if cfg_disable_xattrs config then sm_ret (Err ENOSYS)
  else
    try! (path, l) := on_inner (xattr_target ino) in
    try! encoded := sm_ret (ok_or EPERM (encode_xattr_name name (layer_stat_override_mode l))) in
    let! l0 := on_inner (layer_at 0) in
    try! _ := lsetxattr (proc_fd_path (root_fd (ds l0)) path) encoded value flags in
    sm_ret (Ok ROk).

Definition removexattr (ino : Z) (name : bytes) : HM Reply :=
  if negb (valid_utf8 name) then sm_ret (Err EINVAL)
  else if cfg_disable_xattrs config then sm_ret (Err ENOSYS)
  else
    try! (path, l) := on_inner (xattr_target ino) in
    try! encoded := sm_ret (ok_or EPERM (encode_xattr_name name (layer_stat_override_mode l))) in
    let! l0 := on_inner (layer_at 0) in
    try! _ := lremovexattr (proc_fd_path (root_fd (ds l0)) path) encoded in
    sm_ret (Ok ROk).

Definition getxattr_request (ino : Z) (name : bytes) (size : Z) : HM Reply :=
  if negb (valid_utf8 name) then sm_ret (Err EINVAL)
  else if cfg_disable_xattrs config then sm_ret (Err ENOTSUP)
  else
    let! s := get_inner in
    try! node_id := sm_ret (resolve_node s ino) in
    let! path := on_inner (node_path node_id) in
    try! (n, l) := sm_ret (node_and_layer s node_id) in
    try! encoded := sm_ret (ok_or ENODATA (encode_xattr_name name (layer_stat_override_mode l))) in
    if size =? 0 then
      try! v := stateless (getxattr (ds l) path encoded 65536) in
      sm_ret (Ok (RSize (wrap_u32 (Z.of_nat (length v)))))
    else
      try! v := stateless (getxattr (ds l) path encoded (Z.min size 65536)) in
      sm_ret (Ok (RData v)).

Definition listxattr_request (ino size : Z) : HM Reply :=
  if cfg_disable_xattrs config then sm_ret (Err ENOTSUP)
  else
    let! s := get_inner in
    try! node_id := sm_ret (resolve_node s ino) in
    let! path := on_inner (node_path node_id) in
    try! (n, l) := sm_ret (node_and_layer s node_id) in
    try! buf := stateless (listxattr (ds l) path
                             (if size =? 0 then 65536 else Z.min size 65536)) in
    let filtered := filter_xattr_list buf (layer_stat_override_mode l) in
    sm_ret (if size =? 0 then Ok (RSize (wrap_u32 (Z.of_nat (length filtered))))
            else if size <? Z.of_nat (length filtered) then Err ERANGE
            else Ok (RData filtered)).

(** ** Directory handles *)

Definition opendir_request (ino : Z) : HM Reply :=
  (if ino =? 1 then on_inner (ensure_root_loaded config) else sm_ret tt) ;;;
  let! s := get_inner in
  try! node_id := sm_ret (ok_or ENOENT (lookup_node_id s ino)) in
  if negb (default false (is_dir <$> nodes_get s node_id)) then sm_ret (Err ENOTDIR)
  else
    (if negb (default true (is_loaded <$> nodes_get s node_id))
     then let! _ := on_inner (reload_dir config node_id) in sm_ret tt
     else sm_ret tt) ;;;
    let! entries := on_inner (build_dir_entries config node_id) in
    let! dh := alloc_dh entries in
    sm_ret (Ok (ROpened dh (f64_positive (cfg_timeout config)))).

Definition releasedir (fh : Z) : HM Reply :=
  sm_modify (λ s, set_dirs (delete fh (open_dirs s)) (next_dh s) s) ;;;
  sm_ret (Ok ROk).

(** The entries from [i] on, until the buffer is full. *)
Fixpoint emit_entries (full : nat → bool) (i : nat) (es : list DirEntry)
    : list (Z * Z * FileType * bytes) :=
  match es with
  | [] => []
  | e :: es' =>
      if full i then []
      else (de_ino e, Z.of_nat (i + 1), mode_to_filetype (de_mode e), de_name e)
           :: emit_entries full (Datatypes.S i) es'
  end.

Definition readdir (full : nat → bool) (fh offset : Z) : HM Reply :=
  let! s := sm_get in
  match open_dirs s !! fh with
  | None => sm_ret (Err EBADF)
  | Some es =>
      let off := Z.to_nat offset in
      sm_ret (Ok (RDirectory (emit_entries full off (drop off es))))
  end.

(** The attributes of an entry that could not be stat'ed. *)
Definition default_attr (ino mode : Z) : FileAttr := {|
  attr_ino := ino; attr_size := 0; attr_blocks := 0; attr_atime := UNIX_EPOCH;
  attr_mtime := UNIX_EPOCH; attr_ctime := UNIX_EPOCH; attr_crtime := UNIX_EPOCH;
  attr_kind := mode_to_filetype mode; attr_perm := MODE_755; attr_nlink := 1; attr_uid := 0;
  attr_gid := 0; attr_rdev := 0; attr_blksize := 4096; attr_flags := 0
|}.

(** The FUSE inode of an entry, registered and counted as a lookup. *)
Definition entry_ino (e : DirEntry) : InnerM Z :=
  let! s := sm_get in
  match de_node_id e ≫= λ nid, (λ n, (nid, n)) <$> nodes_get s nid with
  | None => sm_ret (de_ino e)
  | Some (nid, node) =>
      let! r := do_register nid (tmp_ino node) (tmp_dev node) (node_mode node) in
      match r with
      | Some ino_val => do_inc_lookup (node_key node) ;;; sm_ret ino_val
      | None => sm_ret (de_ino e)
      end
  end.

Fixpoint emit_plus (full : nat → bool) (i : nat) (es : list DirEntry)
    : InnerM (list (Z * Z * bytes * FileAttr)) :=
  match es with
  | [] => sm_ret []
  | e :: es' =>
      let! fuse_ino := entry_ino e in
      let a := set_attr_ino fuse_ino (default (default_attr fuse_ino (de_mode e)) (de_attr e)) in
      if full i then sm_ret []
      else
        let! rest := emit_plus full (Datatypes.S i) es' in
        sm_ret ((fuse_ino, Z.of_nat (i + 1), de_name e, a) :: rest)
  end.

Definition readdirplus (full : nat → bool) (fh offset : Z) : HM Reply :=
  let! s := sm_get in
  match open_dirs s !! fh with
  | None => sm_ret (Err EBADF)
  | Some es =>
      let off := Z.to_nat offset in
      let! _ := timeout config in
      let! out := on_inner (emit_plus full off (drop off es)) in
      sm_ret (Ok (RDirectoryPlus out))
  end.

(** ** ioctl *)

Definition ioctl_reply (out_size val : Z) : Reply :=
  RIoctl (if 0 <? out_size then le_bytes 8 val else []).

(** The custom command: clear the directory and load it again. *)
Definition refresh_dir (node_id : NodeId) : InnerM (FsResult unit) :=
  let! s := sm_get in
  try! n := sm_ret (node s node_id) in
  if negb (is_dir n) then sm_ret (Err ENOTDIR)
  else
    let! path := node_path node_id in
    alter_node clear_children node_id ;;;
    load_dir_impl config node_id path (Some (last_layer_idx n)) ;;;
    sm_ret (Ok tt).

Definition ioctl (ino fh : Z) (compat : bool) (cmd : Z) (in_data : bytes) (out_size : Z) : HM Reply :=
  if compat then sm_ret (Err ENOSYS)
  else
    let! s := get_inner in
    try! node_id := sm_ret (resolve_node s ino) in
    let is_set := (cmd =? FS_IOC_SETVERSION) || (cmd =? FS_IOC_SETFLAGS) in
    let is_get := (cmd =? FS_IOC_GETVERSION) || (cmd =? FS_IOC_GETFLAGS) in
    if cmd =? FUSE_OVFS_IOC_REFRESH_DIR then
      try! _ := on_inner (refresh_dir node_id) in
      sm_ret (Ok (RIoctl []))
    else if negb is_set && negb is_get then sm_ret (Err ENOSYS)
    else
      try! _ := (if is_set then on_inner (get_node_up copy_fuel node_id) else sm_ret (Ok tt)) in
      let val := if is_set && (8 <=? Z.of_nat (length in_data))
                 then wrap_i64 (le_value (take 8 in_data)) else 0 in
      let! path := on_inner (node_path node_id) in
      let! s := get_inner in
      try! n := sm_ret (node s node_id) in
      let! f := (if is_get && negb (is_dir n) && negb (fh =? 0) then get_file fh
                 else sm_ret None) in
      try! fd :=
        match f with
        | Some fd => sm_ret (Ok fd)
        | None =>
            try! l := sm_ret (layer s (layer_idx n)) in
            stateless (openat (ds l) path (Z.lor O_RDONLY O_NONBLOCK) MODE_755)
        end in
      try! val := sm_call (IoctlLong fd cmd val) in
      sm_ret (Ok (ioctl_reply out_size val)).

(** ** init *)

(** The capabilities requested, in order; [no_passthrough] says whether
    FUSE_OVERLAYFS_NO_PASSTHROUGH is set, [supported] what the kernel has
    after the request. *)
Definition init (no_passthrough supported : bool) : SM OverlayFs (list InitFlag) :=
  let base :=
    [FUSE_DONT_MASK; FUSE_SPLICE_READ; FUSE_SPLICE_WRITE; FUSE_SPLICE_MOVE; FUSE_PARALLEL_DIROPS;
     FUSE_HANDLE_KILLPRIV; FUSE_CACHE_SYMLINKS; FUSE_DO_READDIRPLUS; FUSE_READDIRPLUS_AUTO] in
  let ask := negb no_passthrough && cfg_fsync config in
  let passthrough := ask && supported in
  let! s := get_inner in
  sm_modify (set_passthrough passthrough) ;;;
  sm_ret (base
    ++ (if ask then [FUSE_PASSTHROUGH] else [])
    ++ (if negb passthrough && cfg_writeback config then [FUSE_WRITEBACK_CACHE] else [])
    ++ (if negb (cfg_noacl config) then [FUSE_POSIX_ACL] else [])
    ++ (if negb (ino_passthrough s) && (cfg_nfs_filehandles config =? 0)
        then [FUSE_NO_EXPORT_SUPPORT] else [])).
End ops_file.
