(* ===== verification/Requests.v ===== *)
(** * The requests of a session (src/src/overlay.rs, [impl Filesystem])

    The FUSE requests as data, [serve], which hands a request to its handler,
    and [session], which serves a list of them one after the other.  The kernel
    and the fuser crate decide which requests come; [full] says when fuser's
    reply buffer is full. *)

From S2P Require Import Prelude Libc Mapping ConfigData Sys Node DataSource Layer Overlay Ops.
From S2P Require Import OpsTree OpsFile.
Local Open Scope Z_scope.

Inductive FuseRequest :=
| RqInit (no_passthrough supported : bool)
| RqLookup (parent : Z) (nm : bytes)
| RqForget (ino nlookup : Z)
| RqGetattr (ino : Z)
| RqSetattr (ino : Z) (mode uid gid size : option Z) (atime mtime : option TimeOrNow) (fh : option Z)
| RqReadlink (ino : Z)
| RqMknod (req : Request) (parent : Z) (nm : bytes) (mode rdev : Z)
| RqMkdir (req : Request) (parent : Z) (nm : bytes) (mode : Z)
| RqUnlink (parent : Z) (nm : bytes)
| RqRmdir (parent : Z) (nm : bytes)
| RqSymlink (req : Request) (parent : Z) (nm link : bytes)
| RqRename (parent : Z) (nm : bytes) (newparent : Z) (newname : bytes) (flags : Z)
| RqLink (ino newparent : Z) (newname : bytes)
| RqOpen (ino flags : Z)
| RqRead (fh offset size : Z)
| RqWrite (fh offset : Z) (data : bytes) (write_cache : bool)
| RqRelease (fh : Z)
| RqStatfs
| RqSetxattr (ino : Z) (name value : bytes) (flags : Z)
| RqGetxattr (ino : Z) (name : bytes) (size : Z)
| RqListxattr (ino size : Z)
| RqRemovexattr (ino : Z) (name : bytes)
| RqAccess
| RqCreate (req : Request) (parent : Z) (nm : bytes) (mode flags : Z)
| RqOpendir (ino : Z)
| RqReaddir (full : nat → bool) (fh offset : Z)
| RqReaddirplus (full : nat → bool) (fh offset : Z)
| RqReleasedir (fh : Z)
| RqFsync (fh : Z) (datasync : bool)
| RqFsyncdir (ino : Z) (datasync : bool)
| RqFallocate (fh offset length mode : Z)
| RqLseek (fh offset whence : Z)
| RqCopyFileRange (fh_in offset_in fh_out offset_out len : Z)
| RqIoctl (ino fh : Z) (compat : bool) (cmd : Z) (in_data : bytes) (out_size : Z).

Section requests.
Context `{F64, DevT, HashOrder} (copy_fuel : nat) (config : OverlayConfig).

Definition serve (rq : FuseRequest) : HM Reply :=
  match rq with
  | RqInit no_passthrough supported =>
      let! _ := init config no_passthrough supported in sm_ret (Ok ROk)
  | RqLookup parent nm => lookup config parent nm
  | RqForget ino nlookup => forget_request ino nlookup ;;; sm_ret (Ok ROk)
  | RqGetattr ino => getattr config ino
  | RqSetattr ino mode uid gid size atime mtime fh =>
      setattr copy_fuel config ino mode uid gid size atime mtime fh
  | RqReadlink ino => readlink ino
  | RqMknod req parent nm mode rdev => mknod copy_fuel config req parent nm mode rdev
  | RqMkdir req parent nm mode => mkdir copy_fuel config req parent nm mode
  | RqUnlink parent nm => unlink copy_fuel config parent nm
  | RqRmdir parent nm => rmdir copy_fuel config parent nm
  | RqSymlink req parent nm link => symlink copy_fuel config req parent nm link
  | RqRename parent nm newparent newname flags =>
      rename copy_fuel config parent nm newparent newname flags
  | RqLink ino newparent newname => link copy_fuel config ino newparent newname
  | RqOpen ino flags => open copy_fuel config ino flags
  | RqRead fh offset size => read fh offset size
  | RqWrite fh offset data write_cache => write fh offset data write_cache
  | RqRelease fh => release fh
  | RqStatfs => statfs
  | RqSetxattr ino name value flags => setxattr copy_fuel config ino name value flags
  | RqGetxattr ino name size => getxattr_request config ino name size
  | RqListxattr ino size => listxattr_request config ino size
  | RqRemovexattr ino name => removexattr copy_fuel config ino name
  | RqAccess => access
  | RqCreate req parent nm mode flags => create copy_fuel config req parent nm mode flags
  | RqOpendir ino => opendir_request config ino
  | RqReaddir full fh offset => readdir full fh offset
  | RqReaddirplus full fh offset => readdirplus config full fh offset
  | RqReleasedir fh => releasedir fh
  | RqFsync fh datasync => fsync config fh datasync
  | RqFsyncdir ino datasync => fsyncdir config ino datasync
  | RqFallocate fh offset length mode => fallocate fh offset length mode
  | RqLseek fh offset whence => lseek fh offset whence
  | RqCopyFileRange fh_in offset_in fh_out offset_out len =>
      copy_file_range fh_in offset_in fh_out offset_out len
  | RqIoctl ino fh compat cmd in_data out_size => ioctl copy_fuel config ino fh compat cmd in_data out_size
  end.

(** The replies to a list of requests, in order. *)
Fixpoint session (rqs : list FuseRequest) : SM OverlayFs (list (FsResult Reply)) :=
  match rqs with
  | [] => sm_ret []
  | rq :: rqs => let! r := serve rq in let! rs := session rqs in sm_ret (r :: rs)
  end.
End requests.

(** The names of a request are path components: the kernel sends no other. *)
Definition request_names (rq : FuseRequest) : list bytes :=
  match rq with
  | RqLookup _ nm | RqMknod _ _ nm _ _ | RqMkdir _ _ nm _ | RqUnlink _ nm | RqRmdir _ nm
  | RqSymlink _ _ nm _ | RqLink _ _ nm | RqCreate _ _ nm _ _ => [nm]
  | RqRename _ nm _ newname _ => [nm; newname]
  | _ => []
  end.
