(* ===== verification/Locks.v ===== *)
(** * The locks of the handlers, and that they never deadlock

    [OverlayFs] has five read-write locks.  Of every handler this file has its
    lock paths: the sequences of acquisitions and releases on the ways control
    may take through it, with the guards that outlive a nested acquisition.
    A guard bound to a name is held to the end of its block or its [drop], a
    guard that is a temporary to the end of its statement, and the one in the
    scrutinee of an [if let] to the end of its first branch.

    Threads run the paths step by step.  A reader waits while a writer holds the
    lock, and also while one waits for it, which [parking_lot] may do.  The
    handlers take the locks in the order of [lock_rank], so some thread can always go
    on. *)

From S2P Require Import Prelude Sys Ops OpsTree OpsFile Requests.

(** ** Lock paths *)

(** The fields of [OverlayFs]. *)
Inductive LockName := Inner | OpenDirs | OpenFiles | FhToIno | Backings.
#[export] Instance LockName_eq_dec : EqDecision LockName.
Proof. solve_decision. Defined.
Inductive LockMode := ForRead | ForWrite.
#[export] Instance LockMode_eq_dec : EqDecision LockMode.
Proof. solve_decision. Defined.
Inductive LockOp := Take (l : LockName) (m : LockMode) | Drop (l : LockName).
#[export] Instance LockOp_eq_dec : EqDecision LockOp.
Proof. solve_decision. Defined.
Abbreviation LockPath := (list LockOp).

(** [body] under a guard. *)
Definition guarded (l : LockName) (m : LockMode) (body : LockPath) : LockPath := Take l m :: body ++ [Drop l].
(** A guard of one statement. *)
Definition brief (l : LockName) (m : LockMode) : LockPath := guarded l m [].

Definition alloc_fh_locks : LockPath := brief OpenFiles ForWrite.
Definition alloc_dh_locks : LockPath := brief OpenDirs ForWrite.
Definition get_file_locks : LockPath := brief OpenFiles ForRead.

(** [reply_open_maybe_passthrough]: a backing is there, one is made (whether
    another thread has been faster or not), none can be made, none is wanted. *)
Definition reply_open_locks : list LockPath :=
  let enter := brief OpenFiles ForWrite ++ brief FhToIno ForWrite in
  [brief Backings ForWrite ++ enter;
   brief Backings ForWrite ++ brief Backings ForWrite ++ enter;
   brief Backings ForWrite ++ alloc_fh_locks;
   alloc_fh_locks].

(** The slow path starts after the block of the fast one. *)
Definition lookup_locks : list LockPath :=
  [[]; brief Inner ForRead; brief Inner ForRead ++ brief Inner ForWrite].
Definition getattr_locks : list LockPath :=
  [brief Inner ForRead; brief Inner ForRead ++ brief Inner ForWrite].
(** With a handle its file is looked up under the guard. *)
Definition setattr_locks : list LockPath := [brief Inner ForWrite; guarded Inner ForWrite get_file_locks].
Definition open_locks : list LockPath :=
  let fast := brief Inner ForRead in
  let slow := fast ++ brief Inner ForWrite in
  [fast; slow] ++ (app fast <$> reply_open_locks) ++ (app slow <$> reply_open_locks).
(** The backing's count goes down under the guard on [fh_to_ino]. *)
Definition release_locks : list LockPath :=
  [guarded FhToIno ForWrite (brief Backings ForWrite) ++ brief OpenFiles ForWrite;
   brief FhToIno ForWrite ++ brief OpenFiles ForWrite].
(** The file is entered in the tables under the guard of the inner state. *)
Definition create_locks : list LockPath :=
  [[]; brief Inner ForWrite; guarded Inner ForWrite alloc_fh_locks;
   guarded Inner ForWrite (brief Backings ForWrite ++ brief OpenFiles ForWrite ++ brief FhToIno ForWrite)].
Definition opendir_locks : list LockPath := [brief Inner ForWrite; guarded Inner ForWrite alloc_dh_locks].
(** The guard on the directories is dropped before the inner state is taken. *)
Definition readdirplus_locks : list LockPath :=
  [brief OpenDirs ForRead; brief OpenDirs ForRead ++ brief Inner ForWrite].
Definition copy_file_range_locks : list LockPath := [get_file_locks; get_file_locks ++ get_file_locks].
(** A flag is read of an open file under the guard. *)
Definition ioctl_locks : list LockPath := [[]; brief Inner ForWrite; guarded Inner ForWrite get_file_locks].

Definition handler_locks (rq : FuseRequest) : list LockPath :=
  match rq with
  | RqInit _ _ | RqReadlink _ | RqStatfs => [brief Inner ForRead]
  | RqLookup _ _ => lookup_locks
  | RqGetattr _ => getattr_locks
  | RqSetattr _ _ _ _ _ _ _ _ => setattr_locks
  | RqForget _ _ | RqUnlink _ _ | RqRmdir _ _ => [brief Inner ForWrite]
  | RqMknod _ _ _ _ _ | RqMkdir _ _ _ _ | RqSymlink _ _ _ _ | RqRename _ _ _ _ _ | RqLink _ _ _
  | RqSetxattr _ _ _ _ | RqRemovexattr _ _ => [[]; brief Inner ForWrite]
  | RqGetxattr _ _ _ | RqListxattr _ _ | RqFsyncdir _ _ => [[]; brief Inner ForRead]
  | RqOpen _ _ => open_locks
  | RqRead _ _ _ | RqWrite _ _ _ _ | RqFallocate _ _ _ _ | RqLseek _ _ _ => [get_file_locks]
  | RqFsync _ _ => [[]; get_file_locks]
  | RqRelease _ => release_locks
  | RqAccess => [[]]
  | RqCreate _ _ _ _ _ => create_locks
  | RqOpendir _ => opendir_locks
  | RqReaddir _ _ _ => [brief OpenDirs ForRead]
  | RqReaddirplus _ _ _ => readdirplus_locks
  | RqReleasedir _ => [brief OpenDirs ForWrite]
  | RqCopyFileRange _ _ _ _ _ => copy_file_range_locks
  | RqIoctl _ _ _ _ _ _ => ioctl_locks
  end.

Definition takes (l : LockName) (p : LockPath) : bool :=
  existsb (λ o, match o with Take l' _ => bool_decide (l' = l) | Drop _ => false end) p.

(** ** Threads *)

Record LockThread := { todo : LockPath; held : list (LockName * LockMode) }.

Definition lock_start (p : LockPath) : LockThread := {| todo := p; held := [] |}.
Definition finished_thread (t : LockThread) : Prop := todo t = [] ∧ held t = [].

Definition holds (t : LockThread) (l : LockName) : Prop := l ∈ (held t).*1.
Definition wants (t : LockThread) (l : LockName) (m : LockMode) : Prop := head (todo t) = Some (Take l m).

(** A lock is given for writing when nobody holds it, not even the thread
    itself, and for reading when no writer holds or wants it. *)
Definition grants (ts : list LockThread) (l : LockName) (m : LockMode) : Prop :=
  match m with
  | ForWrite => Forall (λ t, ¬ holds t l) ts
  | ForRead => Forall (λ t, (¬ (l, ForWrite) ∈ held t) ∧ (¬ wants t l ForWrite)) ts
  end.

#[export] Instance holds_dec t l : Decision (holds t l).
Proof. unfold holds. apply _. Defined.

(** May the thread take its next step? *)
Definition enabled (ts : list LockThread) (t : LockThread) : Prop :=
  match todo t with [] => False | Take l m :: _ => grants ts l m | Drop _ :: _ => True end.

Definition step_thread (t : LockThread) : LockThread :=
  match todo t with
  | [] => t
  | Take l m :: p => {| todo := p; held := (l, m) :: held t |}
  | Drop l :: p => {| todo := p; held := filter (λ h, h.1 ≠ l) (held t) |}
  end.

Inductive lock_step (ts : list LockThread) : list LockThread → Prop :=
| step_one i t : ts !! i = Some t → enabled ts t → lock_step ts (<[i := step_thread t]> ts).

(** What is left to do. *)
Definition left_over (ts : list LockThread) : nat := sum_list_with (λ t, length (todo t)) ts.

(** ** The order *)

Definition lock_rank (l : LockName) : nat :=
  match l with Inner => 0 | OpenDirs => 1 | OpenFiles => 2 | FhToIno => 3 | Backings => 4 end.

(** A path takes each lock above those it holds, drops what it holds, and
    ends with nothing held. *)
Fixpoint orderly (hs : list (LockName * LockMode)) (p : LockPath) : bool :=
  match p with
  | [] => bool_decide (hs = [])
  | Take l m :: p => forallb (λ h, bool_decide ((lock_rank h.1 < lock_rank l)%nat)) hs && orderly ((l, m) :: hs) p
  | Drop l :: p => orderly (filter (λ h, h.1 ≠ l) hs) p
  end.

Lemma handlers_orderly rq : Forall (λ p, orderly [] p = true) (handler_locks rq).
Proof. destruct rq; repeat constructor. Qed.

Definition all_orderly (ts : list LockThread) : Prop := Forall (λ t, orderly (held t) (todo t) = true) ts.

Lemma step_thread_orderly t : orderly (held t) (todo t) = true → orderly (held (step_thread t)) (todo (step_thread t)) = true.
Proof.
  unfold step_thread. destruct (todo t) as [|[l m|l] p] eqn:E; cbn; [by rewrite E|..]; [|done].
  by intros [_ ?]%andb_true_iff.
Qed.

Lemma step_orderly ts ts' : lock_step ts ts' → all_orderly ts → all_orderly ts'.
Proof.
  intros [i t Hi _] Ht. apply Forall_insert; [exact Ht|]. by apply step_thread_orderly, (Forall_lookup_1 _ _ _ _ Ht Hi).
Qed.
Lemma steps_orderly ts ts' : rtc lock_step ts ts' → all_orderly ts → all_orderly ts'.
Proof. induction 1; eauto using step_orderly. Qed.

Lemma step_left_over ts ts' : lock_step ts ts' → (left_over ts' < left_over ts)%nat.
Proof.
  intros [i t Hi He]. assert (length (todo (step_thread t)) < length (todo t))%nat as Hl.
  { unfold enabled, step_thread in *. destruct (todo t) as [|[]]; cbn; [done|lia..]. }
  clear He. unfold left_over. revert i Hi. induction ts as [|t0 ts IH]; intros [|i] Hi; simplify_eq/=; [lia|].
  specialize (IH _ Hi). lia.
Qed.

(** The lock a thread wants is above those it holds. *)
Lemma wants_above t l m h : orderly (held t) (todo t) = true → wants t l m → holds t h → (lock_rank h < lock_rank l)%nat.
Proof.
  unfold wants. intros Ho E Hh. destruct (todo t) as [|o p]; simplify_eq/=.
  apply andb_true_iff in Ho as [Ho _]. rewrite forallb_forall in Ho.
  apply list_elem_of_fmap in Hh as (x & -> & Hx%list_elem_of_In). by apply Ho, bool_decide_eq_true in Hx.
Qed.

(** Who holds a lock is not finished. *)
Lemma holds_todo t h : orderly (held t) (todo t) = true → holds t h → todo t ≠ [].
Proof. unfold holds. intros Ho Hh E. rewrite E in Ho. apply bool_decide_eq_true in Ho. rewrite Ho in Hh. set_solver. Qed.

Section progress.
Context (ts : list LockThread) (Ho : all_orderly ts).

Lemma orderly_in t : t ∈ ts → orderly (held t) (todo t) = true.
Proof using Ho. intros Ht. by apply (proj1 (Forall_forall _ _) Ho). Qed.

(** ** Where nobody may step *)
Context (Hstuck : ∀ t, t ∈ ts → ¬ enabled ts t).

Lemma stuck_wants t : t ∈ ts → todo t ≠ [] → ∃ l m, wants t l m ∧ ¬ grants ts l m.
Proof using Hstuck.
  intros Ht Hne. specialize (Hstuck t Ht). unfold enabled, wants in *.
  destruct (todo t) as [|[l m|l] p]; [done| |by destruct Hstuck]. eauto.
Qed.

(** A lock that is wanted is held. *)
Lemma stuck_held t l m : t ∈ ts → wants t l m → ∃ t', t' ∈ ts ∧ holds t' l.
Proof using Hstuck.
  intros Ht Hw. destruct (decide (Exists (λ t, holds t l) ts)) as [H|Hno].
  { by apply Exists_exists in H. }
  exfalso. apply not_Exists_Forall in Hno; [|apply _].
  assert (∀ t m, t ∈ ts → wants t l m → ¬ grants ts l m) as Hng.
  { intros t' m' Ht' Hw' Hg. apply (Hstuck t' Ht'). unfold enabled, wants in *.
    destruct (todo t'); simplify_eq/=. done. }
  destruct m; [|exact (Hng t ForWrite Ht Hw Hno)]. apply (Hng t ForRead Ht Hw). apply Forall_forall. intros t' Ht'.
  pose proof (proj1 (Forall_forall _ _) Hno t' Ht') as Hn'. split.
  - intros Hh. apply Hn', list_elem_of_fmap. by exists (l, ForWrite).
  - intros Hw'. exact (Hng t' ForWrite Ht' Hw' Hno).
Qed.

(** From a wanted lock there is a higher one, so none is wanted. *)
Lemma stuck_nothing n : ∀ t l m, (5 - lock_rank l ≤ n)%nat → t ∈ ts → ¬ wants t l m.
Proof using Ho Hstuck.
  induction n as [|n IH]; intros t l m Hn Ht Hw; [destruct l; cbn in Hn; lia|].
  destruct (stuck_held t l m Ht Hw) as (t' & Ht' & Hh).
  destruct (stuck_wants t' Ht') as (l' & m' & Hw' & _); [by eapply holds_todo; [apply orderly_in|]|].
  pose proof (wants_above _ _ _ _ (orderly_in _ Ht') Hw' Hh). apply (IH t' l' m'); [lia|done..].
Qed.

Lemma stuck_finished : Forall finished_thread ts.
Proof using Ho Hstuck.
  apply Forall_forall. intros t Ht. pose proof (orderly_in t Ht) as Ho'. unfold finished_thread.
  destruct (decide (todo t = [])) as [E|Hne].
  - rewrite E in Ho'. by apply bool_decide_eq_true in Ho'.
  - destruct (stuck_wants t Ht Hne) as (l & m & Hw & _). by destruct (stuck_nothing 5 t l m ltac:(lia) Ht).
Qed.
End progress.

#[export] Instance enabled_dec ts t : Decision (enabled ts t).
Proof. unfold enabled, grants, wants. destruct (todo t) as [|[l []|l] p]; apply _. Defined.

Lemma lock_progress ts : all_orderly ts → Forall finished_thread ts ∨ ∃ ts', lock_step ts ts'.
Proof.
  intros Ho. destruct (decide (Exists (enabled ts) ts)) as [He|He].
  - right. apply Exists_exists in He as (t & [i Hi]%list_elem_of_lookup & He). eexists. by eapply step_one.
  - left. apply stuck_finished; [done|]. intros t Ht Hen. apply He, Exists_exists. eauto.
Qed.

(** ** The property *)

(** C17. The locks of the handlers never deadlock.  Any requests are served by a
    thread each, which takes and drops the five locks of [OverlayFs] along one
    of the paths of its handler, in any order the locks allow, where a reader
    may also have to wait for a waiting writer.  In every state they can come to,
    all threads have dropped all their locks and are done, or one of them can go
    on; and every step leaves less to do, so they all come to their end. *)
Theorem locks_never_deadlock (rqs : list FuseRequest) (ps : list LockPath) (ts : list LockThread)
    (Hps : Forall2 (λ rq p, p ∈ handler_locks rq) rqs ps) (Hts : rtc lock_step (lock_start <$> ps) ts) :
  (Forall finished_thread ts ∨ ∃ ts', lock_step ts ts') ∧
  (∀ ts', lock_step ts ts' → (left_over ts' < left_over ts)%nat).
Proof.
  split; [|intros; by apply step_left_over]. apply lock_progress. eapply steps_orderly; [exact Hts|].
  apply Forall_fmap, Forall_forall. intros p [i Hp]%list_elem_of_lookup.
  destruct (Forall2_lookup_r _ _ _ _ _ Hps Hp) as (rq & _ & Hin).
  by apply (proj1 (Forall_forall _ _) (handlers_orderly rq)).
Qed.

(** An opendir that holds the inner state against a readdirplus that has read
    its entries and wants it. *)
Definition readdirplus_first : list LockThread :=
  [lock_start (guarded Inner ForWrite alloc_dh_locks);
   {| todo := Drop OpenDirs :: brief Inner ForWrite; held := [(OpenDirs, ForRead)] |}].
Definition opendir_against_readdirplus : list LockThread :=
  [{| todo := alloc_dh_locks ++ [Drop Inner]; held := [(Inner, ForWrite)] |};
   {| todo := Drop OpenDirs :: brief Inner ForWrite; held := [(OpenDirs, ForRead)] |}].

Lemma locks_never_deadlock_witness :
  (Forall finished_thread opendir_against_readdirplus ∨ ∃ ts', lock_step opendir_against_readdirplus ts') ∧
  (∀ ts', lock_step opendir_against_readdirplus ts' → (left_over ts' < left_over opendir_against_readdirplus)%nat).
Proof.
  apply (locks_never_deadlock [RqOpendir 1; RqReaddirplus (λ _, false) 1 0]
    [guarded Inner ForWrite alloc_dh_locks; brief OpenDirs ForRead ++ brief Inner ForWrite]).
  - repeat constructor.
  - apply rtc_l with (y := readdirplus_first); [|apply rtc_once].
    + refine (step_one [_; _] 1 _ eq_refl _). apply (bool_decide_unpack _). vm_compute. exact I.
    + refine (step_one [_; _] 0 _ eq_refl _). apply (bool_decide_unpack _). vm_compute. exact I.
Defined.
