(* ===== verification/Replies.v ===== *)
(** * Every request is answered in its own kind

    fuser gives each request a reply object of one type; in the model the kind
    of a reply is its constructor. *)

From S2P Require Import Prelude Libc Mapping Xattr ConfigData Config Sys Openat2 Node DataSource.
From S2P Require Import Whiteout Layer Copyup Overlay Ops OpsTree OpsFile Requests.
Local Open Scope Z_scope.

(** The replies of the reply object of a request. *)
Definition fits (rq : FuseRequest) (r : Reply) : bool :=
  match rq, r with
  | (RqLookup _ _ | RqMknod _ _ _ _ _ | RqMkdir _ _ _ _ | RqSymlink _ _ _ _ | RqLink _ _ _), REntry _ _
  | (RqGetattr _ | RqSetattr _ _ _ _ _ _ _ _), RAttr _ _
  | (RqReadlink _ | RqRead _ _ _), RData _
  | (RqWrite _ _ _ _ | RqCopyFileRange _ _ _ _ _), RWritten _
  | (RqGetxattr _ _ _ | RqListxattr _ _), (RData _ | RSize _)
  | RqOpen _ _, (ROpened _ _ | ROpenedPassthrough _ _)
  | RqOpendir _, ROpened _ _
  | RqCreate _ _ _ _ _, (RCreated _ _ _ _ | RCreatedPassthrough _ _ _ _)
  | RqStatfs, RStatfs _ _ _ _ _ _ _ _
  | RqReaddir _ _ _, RDirectory _
  | RqReaddirplus _ _ _, RDirectoryPlus _
  | RqLseek _ _ _, ROffset _
  | RqIoctl _ _ _ _ _ _, RIoctl _
  | (RqInit _ _ | RqForget _ _ | RqUnlink _ _ | RqRmdir _ _ | RqRename _ _ _ _ _ | RqRelease _ | RqSetxattr _ _ _ _
    | RqRemovexattr _ _ | RqAccess | RqReleasedir _ | RqFsync _ _ | RqFsyncdir _ _ | RqFallocate _ _ _ _), ROk => true
  | _, _ => false
  end.

(** An error, or a reply of the kind [P]. *)
Definition good (P : Reply → bool) (r : FsResult Reply) : Prop :=
  match r with Ok a => P a = true | Err _ => True end.
Definition yields {S} (P : Reply → bool) (m : SM S (FsResult Reply)) : Prop := ∀ s, sm_always m s (λ r _, good P r).

Section yields.
Context {S : Type} (P : Reply → bool).
Implicit Types (m : SM S (FsResult Reply)).

Lemma yields_ret a : P a = true → yields P (sm_ret (S:=S) (Ok a)).
Proof using. by intros Ha s. Qed.
Lemma yields_err e : yields P (sm_ret (S:=S) (Err e)).
Proof using. done. Qed.
Lemma yields_bind {A} (m : SM S A) k : (∀ a, yields P (k a)) → yields P (sm_bind m k).
Proof using.
  intros Hk s. apply sm_always_bind, sm_always_true. intros a s'. apply Hk.
Qed.
Lemma yields_try {A} (m : SM S (FsResult A)) k : (∀ a, yields P (k a)) → yields P (sm_try m k).
Proof using. intros Hk. apply yields_bind. intros [a|e]; [apply Hk|apply yields_err]. Qed.
End yields.

(** Follow a handler to its answers. *)
Ltac yields :=
  repeat lazymatch goal with
    | |- ∀ _, _ => intros ?
    | |- yields _ (sm_try _ _) => apply yields_try
    | |- yields _ (sm_bind _ _) => apply yields_bind
    | |- yields _ (sm_ret (Err _)) => apply yields_err
    | |- yields _ (sm_ret (Ok _)) => apply yields_ret; reflexivity
    | |- yields _ (sm_ret (match ?x with _ => _ end)) => destruct x
    | |- yields _ (match ?x with _ => _ end) => destruct x
    end.

Lemma serve_yields `{F64, DevT, HashOrder} copy_fuel config rq : yields (fits rq) (serve copy_fuel config rq).
Proof.
  destruct rq; cbn [serve];
    unfold lookup, getattr, setattr, readlink, mknod, mkdir, unlink, rmdir, do_rm, symlink, rename, OpsTree.link,
      reply_entry, OpsFile.open, reply_open_maybe_passthrough, OpsFile.read, OpsFile.write, release, statfs,
      setxattr, getxattr_request, listxattr_request, removexattr, access, create, opendir_request, readdir,
      readdirplus, releasedir, fsync, fsyncdir, fallocate, lseek, copy_file_range, ioctl, ioctl_reply, with_file; cbv zeta;
    yields.
Qed.

(** Every request is answered in its kind.  Whatever the kernel answers
    and whatever state the file system is in, a request is answered with an
    error or with the reply its reply object takes: attributes for [getattr]
    and [setattr], an entry for the requests that find or create one, a handle
    for the opens, and so on. *)
Theorem reply_fits `{F64, DevT, HashOrder} (copy_fuel : nat) (config : OverlayConfig) (rq : FuseRequest)
    (s : OverlayFs) :
  sm_always (serve copy_fuel config rq) s (λ r _, match r with Ok a => fits rq a = true | Err _ => True end).
Proof. apply serve_yields. Qed.
