(* ===== verification/Limits.v ===== *)
(** * Where a handler panics

    A time before 1970 and a negative timeout are values the code takes in and
    then cannot convert. *)

From S2P Require Import Prelude Libc Mapping Xattr ConfigData Config Sys Openat2 Node DataSource.
From S2P Require Import Whiteout Layer Copyup Overlay Ops OpsTree OpsFile Requests.
Local Open Scope Z_scope.

Definition nsec_ok (n : Z) : Prop := 0 <= n < 10 ^ 9.

Lemma epoch_plus_None secs nsec : is_i64 secs → nsec_ok nsec → epoch_plus secs nsec = None ↔ secs < 0.
Proof.
  intros Hs Hn. unfold epoch_plus, is_i64, nsec_ok in *. cbv zeta.
  rewrite wrap_u32_id by (unfold is_u32; lia). rewrite (Z.div_small nsec), Z.add_0_r by lia. unfold wrap_u64. destruct (decide (0 <= secs)).
  - rewrite Z.mod_small by lia. destruct (Z.ltb_spec secs (2 ^ 63)); split; [done|lia|lia|lia].
  - assert (secs mod 2 ^ 64 = secs + 2 ^ 64) as ->.
    { rewrite <-(Z.mod_add secs 1) by lia. apply Z.mod_small. lia. }
    destruct (Z.ltb_spec (secs + 2 ^ 64) (2 ^ 63)); split; (done || lia).
Qed.

Lemma option_bind_None {A B} (o : option A) (f : A → option B) : (∀ a, o = Some a → is_Some (f a)) → o ≫= f = None ↔ o = None.
Proof. destruct o as [a|]; cbn; [|done]. intros Hf. destruct (Hf a eq_refl) as [b ->]. done. Qed.

(** C33. The attributes of a file can be given exactly when none of its times is
    before 1970: [stat_to_attr], which every reply with attributes goes through,
    panics on a negative time and on nothing else. A stat's times are numbers of
    64 bits and its nanoseconds less than a second. *)
Theorem stat_to_attr_panics_iff (st : stat)
    (Ha : is_i64 (st_atime st)) (Hm : is_i64 (st_mtime st)) (Hc : is_i64 (st_ctime st))
    (Han : nsec_ok (st_atime_nsec st)) (Hmn : nsec_ok (st_mtime_nsec st)) (Hcn : nsec_ok (st_ctime_nsec st)) :
  stat_to_attr st = None ↔ st_atime st < 0 ∨ st_mtime st < 0 ∨ st_ctime st < 0.
Proof.
  rewrite <-(epoch_plus_None _ _ Ha Han), <-(epoch_plus_None _ _ Hm Hmn), <-(epoch_plus_None _ _ Hc Hcn).
  unfold stat_to_attr.
  destruct (epoch_plus (st_atime st) _), (epoch_plus (st_mtime st) _), (epoch_plus (st_ctime st) _); cbn; naive_solver.
Qed.

(** A file of 31 December 1969. *)
Definition old_file : stat :=
  {| st_dev := 1; st_ino := 2; st_mode := 0x81a4; st_nlink := 1; st_uid := 0; st_gid := 0; st_rdev := 0; st_size := 0;
     st_blksize := 4096; st_blocks := 0; st_atime := 5; st_atime_nsec := 0; st_mtime := -1; st_mtime_nsec := 0;
     st_ctime := 5; st_ctime_nsec := 0 |}.
Lemma stat_to_attr_panics_iff_witness : stat_to_attr old_file = None.
Proof.
  apply stat_to_attr_panics_iff; [by vm_compute..|]. cbn. right. left. done.
Defined.

(** A negative timeout is accepted and then nothing can be looked up.  The
    command line takes any number for [timeout]; a duration is never negative,
    so with [-o timeout=-1] every [lookup] panics before it looks at
    anything, and so does every other request that gives a time to live. *)
Theorem negative_timeout_panics `{F64, DevT, HashOrder} (euid : Z) (t : f64)
    (Hparse : f64_parse (bs "-1") = Some t) (Hneg : f64_duration t = None) :
  ∃ c, parse_args euid [bs "fuse-overlayfs"; bs "-o"; bs "timeout=-1"] = Parsed (Ok c) ∧ cfg_timeout c = t ∧
    ∀ s parent nm, starts_with WH_PREFIX nm = false → lookup c parent nm s = Panic.
Proof.
  eexists. split; [|split].
  - unfold parse_args. cbn [drop parse_args_loop]. vm_compute. vm_compute in Hparse. rewrite Hparse. reflexivity.
  - reflexivity.
  - intros s parent nm Hnm. unfold lookup. rewrite Hnm. unfold sm_bind, timeout. cbn. by rewrite Hneg.
Qed.

Lemma negative_timeout_panics_witness :
  ∃ c, @parse_args F64_Z 0 [bs "fuse-overlayfs"; bs "-o"; bs "timeout=-1"] = Parsed (Ok c) ∧
    @lookup F64_Z DevT_halves HashOrder_elements c 1 (bs "f") (OverlayFs_new (OverlayInner_new [] (-1)
      {| o_uid := 65534; o_gid := 65534 |} false) true) = Panic.
Proof.
  destruct (@negative_timeout_panics F64_Z DevT_halves HashOrder_elements 0 (-1) eq_refl eq_refl) as (c & Hc & _ & Hp).
  exists c. split; [exact Hc|]. by apply Hp.
Defined.
