(* ===== verification/Flags.v ===== *)
(** * What init asks for and how files are opened

    With a writeback cache the kernel reads the pages it is about to write and
    places appended data itself: files must then be open for reading, and not
    for appending.  Passthrough and the writeback cache exclude each other. *)

From S2P Require Import Prelude Libc Mapping Xattr ConfigData Config Sys Openat2 Node DataSource.
From S2P Require Import Whiteout Layer Copyup Overlay Ops OpsTree OpsFile Requests.
Local Open Scope Z_scope.

(** ** Bits *)

Lemma testbit_pow n i : 0 <= n → Z.testbit (2 ^ n) i = (i =? n).
Proof.
  intros Hn. destruct (decide (0 <= i)); [rewrite Z.pow2_bits_eqb by done; apply Z.eqb_sym|].
  rewrite Z.testbit_neg_r by lia. symmetry. apply Z.eqb_neq. lia.
Qed.
Lemma testbit_accmode i : Z.testbit O_ACCMODE i = (i =? 0) || (i =? 1).
Proof.
  change O_ACCMODE with (Z.lor (2 ^ 0) (2 ^ 1)). by rewrite Z.lor_spec, !testbit_pow by lia.
Qed.

(** Clearing and setting one bit. *)
Lemma clear_bit x n i : 0 <= n → 0 <= i →
  Z.testbit (Z.land x (Z.lnot (2 ^ n))) i = Z.testbit x i && negb (i =? n).
Proof. intros Hn Hi. by rewrite Z.land_spec, Z.lnot_spec, testbit_pow by done. Qed.
Lemma set_bit x n i : 0 <= n → Z.testbit (Z.lor x (2 ^ n)) i = Z.testbit x i || (i =? n).
Proof. intros Hn. by rewrite Z.lor_spec, testbit_pow. Qed.
Lemma accmode_bits x b0 b1 : Z.testbit x 0 = b0 → Z.testbit x 1 = b1 →
  Z.land x O_ACCMODE = Z.b2z b0 + 2 * Z.b2z b1.
Proof.
  intros <- <-. change O_ACCMODE with (Z.ones 2). rewrite Z.land_ones by lia. change (2 ^ 2) with (2 * 2).
  rewrite Z.rem_mul_r by lia. rewrite !Z.testbit_spec' by lia. by rewrite Z.div_1_r.
Qed.

(** The bits of the flags a file is opened with. *)
Definition rw (x : Z) : Z := Z.lor (Z.land x (Z.lnot O_ACCMODE)) O_RDWR.
Lemma rw_bit x i : 0 <= i → Z.testbit (rw x) i = Z.testbit x i && negb (i =? 0) && negb (i =? 1) || (i =? 1).
Proof.
  intros Hi. unfold rw. change O_RDWR with (2 ^ 1).
  rewrite set_bit, Z.land_spec, Z.lnot_spec, testbit_accmode by lia. by rewrite negb_orb, andb_assoc.
Qed.

Definition opened_flags (writeback : bool) (flags : Z) : Z := adjust_flags writeback (Z.lor flags O_NOFOLLOW).

Lemma opened_bit writeback flags i : 0 <= i →
  Z.testbit (opened_flags writeback flags) i =
    let kept := (Z.testbit flags i || (i =? 17)) && negb (i =? 14) in
    if writeback then
      (if Z.land flags O_ACCMODE =? O_WRONLY then kept && negb (i =? 0) && negb (i =? 1) || (i =? 1) else kept)
      && negb (i =? 10)
    else kept.
Proof.
  intros Hi. unfold opened_flags, adjust_flags. cbv zeta.
  set (x := Z.land (Z.lor flags O_NOFOLLOW) (Z.lnot O_DIRECT)).
  assert (∀ j, 0 <= j → Z.testbit x j = (Z.testbit flags j || (j =? 17)) && negb (j =? 14)) as Hx.
  { intros j Hj. unfold x. change O_DIRECT with (2 ^ 14). change O_NOFOLLOW with (2 ^ 17).
    by rewrite clear_bit, set_bit by lia. }
  assert (Z.land x O_ACCMODE = Z.land flags O_ACCMODE) as Hacc.
  { rewrite (accmode_bits x (Z.testbit flags 0) (Z.testbit flags 1)), (accmode_bits flags _ _ eq_refl eq_refl); [done|..];
      rewrite Hx by lia; cbn; by rewrite orb_false_r, andb_true_r. }
  destruct writeback; [|by apply Hx]. rewrite Hacc. change (Z.lnot O_APPEND) with (Z.lnot (2 ^ 10)).
  rewrite clear_bit by lia. destruct (_ =? O_WRONLY); [|by rewrite Hx].
  change (Z.lor (Z.land x (Z.lnot O_ACCMODE)) O_RDWR) with (rw x). by rewrite rw_bit, Hx.
Qed.

(** Which flags reach the kernel. *)
Definition opens_well (writeback : bool) (flags f : Z) : Prop :=
  Z.testbit f 17 = true ∧ Z.testbit f 14 = false ∧
  (∀ i, 0 <= i → i ∉ [0; 1; 10; 14; 17] → Z.testbit f i = Z.testbit flags i) ∧
  if writeback then
    Z.testbit f 10 = false ∧
    Z.land f O_ACCMODE = (if Z.land flags O_ACCMODE =? O_WRONLY then O_RDWR else Z.land flags O_ACCMODE)
  else
    Z.testbit f 10 = Z.testbit flags 10 ∧ Z.land f O_ACCMODE = Z.land flags O_ACCMODE.

Lemma opened_flags_well writeback flags : opens_well writeback flags (opened_flags writeback flags).
Proof.
  pose proof (accmode_bits flags _ _ eq_refl eq_refl) as Hacc. split_and!.
  - rewrite opened_bit by lia. cbv zeta. rewrite orb_true_r. by destruct writeback, (Z.land flags O_ACCMODE =? O_WRONLY).
  - rewrite opened_bit by lia. cbv zeta. rewrite andb_false_r. by destruct writeback, (Z.land flags O_ACCMODE =? O_WRONLY).
  - intros i Hi Hn. rewrite opened_bit by done. cbv zeta.
    rewrite !not_elem_of_cons in Hn. destruct Hn as (?&?&?&?&?&_).
    rewrite (proj2 (Z.eqb_neq i 0)), (proj2 (Z.eqb_neq i 1)), (proj2 (Z.eqb_neq i 10)), (proj2 (Z.eqb_neq i 14)),
      (proj2 (Z.eqb_neq i 17)) by done. cbn. rewrite orb_false_r, !andb_true_r, orb_false_r.
    by destruct writeback, (Z.land flags O_ACCMODE =? O_WRONLY).
  - pose proof (opened_bit writeback flags 0 ltac:(lia)) as H0. pose proof (opened_bit writeback flags 1 ltac:(lia)) as H1.
    pose proof (opened_bit writeback flags 10 ltac:(lia)) as H10. cbv zeta in *. cbn [Z.eqb Pos.eqb negb] in H0, H1, H10.
    rewrite ?andb_true_r, ?andb_false_r in H0, H1, H10. rewrite !orb_false_r in H0, H10. rewrite ?orb_false_r in H1.
    destruct writeback; [split; [done|]|split; [done|]].
    + rewrite (accmode_bits _ _ _ H0 H1). destruct (_ =? O_WRONLY); [done|by rewrite Hacc, orb_false_r].
    + by rewrite (accmode_bits _ _ _ H0 H1), Hacc, ?orb_false_r.
Qed.

#[export] Instance InitFlag_eq_dec : EqDecision InitFlag.
Proof. solve_decision. Defined.

