(* ===== verification/Divergences.v ===== *)
(** * Where the code departs from the overlay rules

    What a lookup finds below an opaque directory, and what backing a second
    open is given, for any state; and whole requests that show it, evaluated on
    the in-memory layers of MemLayer.v. *)

From S2P Require Import Prelude Libc Mapping Xattr ConfigData Config Sys Openat2 Node DataSource.
From S2P Require Import Whiteout Layer Copyup Overlay Merge LoadDir MemLayer Ops OpsTree OpsFile Requests.
Local Open Scope Z_scope.

(** The FUSE inode a reply carries. *)
Definition reply_ino (r : FsResult Reply) : FsResult Z :=
  match r with
  | Ok (REntry _ attr) => Ok (attr_ino attr)
  | Ok _ => Err 0
  | Err e => Err e
  end.

(** A mount of the layers [d] opaque over [d/x]; look [d] up in the root, and
    [x] in what that found. *)
Definition opaque_fs : OverlayFs := OverlayFs_new opaque_mount true.
Definition lookup_d_x (static_nlink : bool) : SM OverlayFs (FsResult Z * FsResult Z) :=
  let config := set_cfg_static_nlink static_nlink (@OverlayConfig_default F64_Z 0) in
  let look p nm := @lookup F64_Z DevT_halves HashOrder_elements config p nm in
  let! r1 := look 1 (bs "d") in
  match reply_ino r1 with
  | Ok ino => let! r2 := look ino (bs "x") in sm_ret (Ok ino, reply_ino r2)
  | Err e => sm_ret (Err e, Err e)
  end.

(** C36. An opaque directory does not hide what is below it from the lookup of a
    single name.  A directory that is on the first layer alone, as an opaque one
    of the upper layer is, has 0 as its last layer, and [do_lazy_lookup] takes 0
    for no bound.  Whatever the layers are: if the directory is opaque there and
    has nothing at the name, and layer [k] is the first below that shows
    something at it, a node of layer [k] is found and linked into the directory,
    though of the layers the directory is merged from none says anything.  It
    takes that the directory is not loaded, as with [static_nlink]; a directory
    that was listed has its names already. *)
Theorem lazy_lookup_ignores_opaque `{F64, DevT, HashOrder} (o : ∀ c, resp c) (vs : list View)
    (s : OverlayInner) (pid : NodeId) (n : OvlNode) (p nm : bytes) (v0 v : View) (k : nat) (st : stat)
    (Hviews : Forall2 (shows o) (layers s) vs) (Htables : tables_ok s)
    (Hn : nodes_get s pid = Some n) (Hdir : is_dir n = true) (Hp : compute_path (nodes s) pid = Some p)
    (Hsane : sane vs p nm) (Hroot : pid ≠ root_id s) (Hlast : last_layer_idx n = 0%nat)
    (Hv0 : vs !! 0%nat = Some v0) (Hopaque : v_opaque v0 p = Ok true) (Hk : (0 < k)%nat)
    (Habove : ∀ j w, (j < k)%nat → vs !! j = Some w → verdict_at w p nm = Absent)
    (Hv : vs !! k = Some v) (Hst : verdict_at v p nm = Shows st) :
  (∀ j d, ¬ first_says vs (merged_from s pid n) p nm j d) ∧
  ∃ id s' c, runs o (do_lazy_lookup pid nm) s (Some id) s' ∧
    nodes_get s' id = Some c ∧ layer_idx c = k ∧ name c = nm ∧
    (nodes_get s' pid ≫= λ p, get_child p nm) = Some id.
Proof.
  assert (decides vs (last_layer_idx n) p nm k (Shows st)) as Hd.
  { split_and!; [done|by left|by exists v|done]. }
  split.
  - intros j d (Hne & [?|Hj] & (w & Hw & Hwd) & _); [done|]. rewrite Hlast in Hj.
    apply Hne. rewrite <-Hwd. apply (Habove j); [lia|done].
  - destruct (do_lazy_lookup_spec o vs s pid n p nm) as (r & s' & Hr & Hcase); [done..|].
    destruct Hcase as [(k' & st' & id & c & Hd' & -> & Hc & Hl & Hnm & _ & _ & _ & Hch & _)|[(k' & w & Hd' & _)|(Habs & _)]].
    + exists id, s', c. destruct (first_says_unique _ _ _ _ _ _ _ _ Hd Hd') as [-> _]. done.
    + by destruct (first_says_unique _ _ _ _ _ _ _ _ Hd Hd').
    + rewrite (Habs k v Hv) in Hst; [done|by left].
Qed.

(** [d] of [opaque_mount], as a lookup leaves it: on the first layer alone. *)
Definition opaque_d : OvlNode := set_parent (Some 1) (OvlNode_new (bs "d") 0 0 0 true).
Definition opaque_d_mount : OverlayInner := set_nodes (arena_insert opaque_d (nodes opaque_mount)).2 opaque_mount.

Lemma opaque_d_tables_ok : tables_ok opaque_d_mount.
Proof.
  split; [apply wf_table_new|vm_compute; reflexivity| |done|].
  - exists (λ id, Z.to_nat id). intros id n pid. unfold arena_get. cbn.
    rewrite !lookup_insert_Some, lookup_empty. intros [[<- <-]|[_ [[_ <-]|[_ [=]]]]]; cbn; [|done].
    intros [= <-]. vm_compute. lia.
  - intros id n. unfold nodes_get, arena_get. cbn.
    rewrite !lookup_insert_Some, lookup_empty. intros [[_ <-]|[_ [[_ <-]|[_ [=]]]]]; done.
Qed.

Lemma lazy_lookup_ignores_opaque_witness :
  ∃ id s', runs no_kernel (@do_lazy_lookup DevT_halves HashOrder_elements 2 (bs "x")) opaque_d_mount (Some id) s' ∧
    (layer_idx <$> nodes_get s' id) = Some 1%nat.
Proof.
  destruct (@lazy_lookup_ignores_opaque F64_Z DevT_halves HashOrder_elements no_kernel opaque_views opaque_d_mount 2
    opaque_d (bs "d") (bs "x") (mem_view opaque_upper) (mem_view opaque_lower) 1 (match mem_stat opaque_lower (bs "d/x") with Ok st => st | Err _ => zeroed_stat end)
    opaque_views_ok opaque_d_tables_ok eq_refl eq_refl eq_refl)
    as (_ & id & s' & c & Hr & Hc & Hl & _).
  - intros k v Hv. apply list_elem_of_lookup_2 in Hv. each_view Hv; vm_compute; discriminate.
  - discriminate.
  - reflexivity.
  - reflexivity.
  - vm_compute. reflexivity.
  - lia.
  - intros [|j] w Hj Hw; [|lia]. injection Hw as <-. vm_compute. reflexivity.
  - reflexivity.
  - vm_compute. reflexivity.
  - exists id, s'. split; [exact Hr|]. rewrite Hc. simpl. by rewrite Hl.
Defined.

(** The whole way on that mount: with the default options looking [d] up loads
    it, and [x] is not found; with [static_nlink] it is. *)
Theorem static_nlink_shows_below_opaque :
  v_opaque (mem_view opaque_upper) (bs "d") = Ok true ∧
  fst <$> exec no_kernel (lookup_d_x false opaque_fs) = Some (Ok 100, Err ENOENT) ∧
  fst <$> exec no_kernel (lookup_d_x true opaque_fs) = Some (Ok 100, Ok 97677).
Proof. split_and!; vm_compute; reflexivity. Qed.

(** ** The lookup counts of [readdirplus] *)

#[local] Existing Instances F64_Z DevT_halves HashOrder_elements.

Definition lookups_of (ino : Z) (s : OverlayFs) : option Z :=
  lookups <$> fuse_to_ino (inodes (inner s)) ino.

(** The inodes and names a reply of [readdirplus] gives. *)
Definition sent (r : FsResult Reply) : list (Z * bytes) :=
  match r with
  | Ok (RDirectoryPlus es) => (λ e : Z * Z * bytes * FileAttr, (e.1.1.1, e.1.2)) <$> es
  | _ => []
  end.

(** Read the root in two buffers, the first with room for two entries; then
    the kernel forgets the one lookup of [d] it was given. *)
Definition read_root_plus : SM OverlayFs (list (Z * bytes) * list (Z * bytes)) :=
  let config := @OverlayConfig_default F64_Z 0 in
  let! _ := opendir_request config 1 in
  let! r1 := readdirplus config (λ i, 2 <=? i)%nat 1 0 in
  let! r2 := readdirplus config (λ i, false) 1 2 in
  forget_request 100 1 ;;;
  sm_ret (sent r1, sent r2).

(** [readdirplus] counts a lookup for the entry that did not fit in the
    buffer: the kernel is given [d] (inode 100) once, in the second reply, and
    forgets that one lookup, but the entry is still held with a count of 1; it
    was counted when it did not fit in the first reply, too.  Nothing will
    forget it any more.  [y], which was not cut off, is counted once. *)
Theorem readdirplus_counts_unsent :
  (λ '(out, s), (out.1.*2, out.2, lookups_of 100 s, lookups_of 121 s)) <$> exec no_kernel (read_root_plus opaque_fs)
  = Some ([bs "."; bs ".."], [(100, bs "d"); (121, bs "y")], Some 1, Some 1).
Proof. vm_compute. reflexivity. Qed.

(** ** The backing of a file that is copied up *)

(** The layers of [opaque_mount] with files that can be opened: each source
    answers with a descriptor of its own. *)
Definition mem_source_open (m : MemLayer) (fd : RawFd) : DataSource :=
  let src := mem_source m in
  {| file_exists := file_exists src; statat := statat src; ds_fstat := ds_fstat src; opendir := opendir src;
     openat _ _ _ := sm_ret (Ok fd);
     listxattr := listxattr src; getxattr := getxattr src; ds_readlinkat := ds_readlinkat src;
     get_nfs_filehandle := get_nfs_filehandle src; root_fd := root_fd src; ds_st_dev := ds_st_dev src;
     stat_override_mode := stat_override_mode src; nfs_filehandles := nfs_filehandles src |}.
Definition copyup_fs : OverlayFs :=
  set_passthrough true
    (OverlayFs_new
       (OverlayInner_new [from_datasource (mem_source_open opaque_upper 40) false;
                          from_datasource (mem_source_open opaque_lower 41) true]
          5 {| o_uid := 65534; o_gid := 65534 |} false) true).

(** A kernel where every call succeeds; the backing of descriptor [fd] is
    [1000 + fd]. *)
Definition yes_kernel (c : sys) : resp c :=
  match c with
  | Openat2 _ _ _ _ _ | OpenPath _ _ _ => Ok 50
  | OpenBacking fd => Ok (1000 + fd)
  | Fstat _ | Fstatat _ _ _ | Statx _ _ _ _ => Ok zeroed_stat
  | Fstatvfs _ => Err ENOSYS
  | Readlinkat _ _ | Realpath _ => Ok []
  | ReadDir _ | ReadDirDup _ => Ok []
  | Fgetxattr _ _ _ | Lgetxattr _ _ _ => Err ENODATA
  | Llistxattr _ _ | Flistxattr _ _ => Ok []
  | NameToHandleAt _ _ _ => Err ENOTSUP
  | Read _ _ | Pread _ _ _ => Ok []
  | Write _ _ | Sendfile _ _ _ | Pwrite _ _ _ | Lseek _ _ _ | CopyFileRange _ _ _ _ _ => Ok 0
  | IoctlLong _ _ _ => Ok 0
  | _ => Ok tt
  end.

(** Look [y] up, which is in the lower layer only, open it for reading and
    then for writing. *)
Definition read_then_write : SM OverlayFs (FsResult Reply * FsResult Reply * option nat) :=
  let config := @OverlayConfig_default F64_Z 0 in
  let! _ := @lookup F64_Z DevT_halves HashOrder_elements config 1 (bs "y") in
  let! r1 := OpsFile.open 8 config 121 O_RDONLY in
  let! r2 := OpsFile.open 8 config 121 O_RDWR in
  let! s := get_inner in
  sm_ret (r1, r2, layer_idx <$> (lookup_node_id s 121 ≫= nodes_get s)).

Section reuse.
Context `{F64, DevT, HashOrder} (copy_fuel : nat) (config : OverlayConfig).

Lemma on_inner_keeps {A B} (m : InnerM A) (k : A → SM OverlayFs B) s (Q : B → OverlayFs → Prop) :
  (∀ a i, sm_always (k a) (set_inner i s) Q) → sm_always (sm_bind (on_inner m) k) s Q.
Proof using. intros Hk. apply sm_always_bind, sm_always_zoom, sm_always_true. intros a i. apply Hk. Qed.

(** While an inode has a backing, every open of it is answered with that one. *)
Lemma open_keeps_backing ino flags s b c :
  passthrough_enabled s = true → inode_backings s !! ino = Some (b, c) →
  sm_always (OpsFile.open copy_fuel config ino flags) s
    (λ r s', match r with Ok (ROpenedPassthrough _ b') => b' = b | Ok _ => False | Err _ => True end).
Proof using.
  intros Hp Hb. unfold OpsFile.open. cbv zeta. apply on_inner_keeps. intros fast i1. unfold sm_try.
  assert (∀ i r, sm_always
    (match r with Ok fd => reply_open_maybe_passthrough config ino fd | Err e => sm_ret (Err e) end) (set_inner i s)
    (λ r s', match r with Ok (ROpenedPassthrough _ b') => b' = b | Ok _ => False | Err _ => True end)) as Hk.
  { intros i [fd|e]; [|done]. unfold reply_open_maybe_passthrough, sm_bind, sm_get. cbn. by rewrite Hp, Hb. }
  destruct fast as [r|]; [apply Hk|]. apply on_inner_keeps. intros r i2. apply (Hk i2 r).
Qed.
End reuse.

(** C35. A file that is open for reading and is then opened for writing is
    copied up, but the new handle is answered with the backing of the old one,
    since an open of an inode that has a backing is always answered with that
    backing.  [y] is in the lower layer: the first open has descriptor 41, of
    the lower file, and makes the backing 1041 of it; the second copies [y] up
    and holds descriptor 40, of the upper file, and yet it gives the kernel
    1041, so the writes of the new handle, which the kernel passes through, are
    for the file of the lower layer. *)
Theorem write_reuses_lower_backing :
  (∀ `{F64, DevT, HashOrder} copy_fuel config ino flags s b c,
     passthrough_enabled s = true → inode_backings s !! ino = Some (b, c) →
     sm_always (OpsFile.open copy_fuel config ino flags) s
       (λ r s', match r with Ok (ROpenedPassthrough _ b') => b' = b | Ok _ => False | Err _ => True end)) ∧
  (λ '(out, s), (out, open_files s !! 1, open_files s !! 2, inode_backings s !! 121)) <$>
    exec yes_kernel (read_then_write copyup_fs) =
  Some ((Ok (ROpenedPassthrough 1 1041), Ok (ROpenedPassthrough 2 1041), Some 0%nat),
        Some 41, Some 40, Some (1041, 2)).
Proof. split; [intros; by eapply open_keeps_backing|vm_compute; reflexivity]. Qed.
