(* ===== verification/Handles.v ===== *)
(** * Open files and their passthrough backings

    The tables of open files across a session: every request but [open],
    [create] and [release] leaves them alone, a handle that is given out is
    new, and a passthrough backing is counted by the handles that use it.
    Everything here holds whatever the kernel answers. *)

From S2P Require Import Prelude Libc Mapping Xattr ConfigData Config Sys Openat2 Node DataSource.
From S2P Require Import Whiteout Layer Copyup Overlay Ops OpsTree OpsFile Requests.
Local Open Scope Z_scope.

(** ** Requests that leave the tables of open files alone *)

Definition file_tables (s : OverlayFs) : gmap Z RawFd * Z * gmap Z (Z * Z) * gmap Z Z :=
  (open_files s, next_fh s, inode_backings s, fh_to_ino s).

Definition steady {A} (m : SM OverlayFs A) : Prop :=
  ∀ s, sm_always m s (λ _ s', file_tables s' = file_tables s).

Section steady_rules.
Lemma steady_ret {A} (a : A) : steady (sm_ret a).
Proof. done. Qed.
Lemma steady_panic {A} : steady (A:=A) sm_panic.
Proof. done. Qed.
Lemma steady_expect {A} (o : option A) : steady (sm_expect o).
Proof. by destruct o. Qed.
Lemma steady_get : steady sm_get.
Proof. done. Qed.
Lemma steady_gets {A} (f : OverlayFs → A) : steady (sm_gets f).
Proof. done. Qed.
Lemma steady_call c : steady (sm_call c).
Proof. done. Qed.
Lemma steady_modify f : (∀ s, file_tables (f s) = file_tables s) → steady (sm_modify f).
Proof. intros Hf s. apply Hf. Qed.
Lemma steady_bind {A B} (m : SM OverlayFs A) (k : A → SM OverlayFs B) :
  steady m → (∀ a, steady (k a)) → steady (sm_bind m k).
Proof.
  intros Hm Hk s. apply sm_always_bind. eapply sm_always_mono; [apply Hm|]. intros a s' E.
  eapply sm_always_mono; [apply Hk|]. intros b s'' E'. by rewrite E'.
Qed.
Lemma steady_try {A B} (m : HM A) (k : A → HM B) :
  steady m → (∀ a, steady (k a)) → steady (sm_try m k).
Proof. intros Hm Hk. apply steady_bind; [done|]. intros [a|e]; [apply Hk|done]. Qed.
Lemma steady_inner {A} (m : InnerM A) : steady (on_inner m).
Proof. intros s. apply sm_always_zoom, sm_always_true. done. Qed.
Lemma steady_stateless {A} (m : SM unit A) : steady (stateless m).
Proof.
  intros s. unfold sm_always, stateless. apply always_bind.
  induction (m tt) as [[a []]| | |c k IH]; cbn; auto.
Qed.
End steady_rules.

Create HintDb steady.
#[export] Hint Resolve steady_ret steady_panic steady_expect steady_get steady_gets steady_inner
  steady_stateless : steady.
#[export] Hint Extern 1 (steady (sm_call ?c)) => exact (steady_call c) : steady.

(** Follow the shape of a handler. *)
Ltac steady_step :=
  lazymatch goal with
  | |- ∀ _, _ => intros ?
  | |- steady (sm_try _ _) => apply steady_try
  | |- steady (sm_bind _ _) => apply steady_bind
  | |- steady (sm_modify _) => apply steady_modify; intros ?; reflexivity
  | |- steady (match ?x with _ => _ end) => destruct x
  end.
Ltac steady := repeat first [solve [eauto with steady]|steady_step].

Section steady_handlers.
Context `{F64, DevT, HashOrder} (copy_fuel : nat) (config : OverlayConfig).

Lemma steady_safe_openat dirfd path flags mode : steady (safe_openat dirfd path flags mode).
Proof using. unfold safe_openat, syscall_openat2. steady. Qed.
Lemma steady_open_parent dirfd path : steady (open_parent_safe_cstr dirfd path).
Proof using. unfold open_parent_safe_cstr, open_parent_safe, safe_openat, syscall_openat2. steady. Qed.
Hint Resolve steady_safe_openat steady_open_parent : steady.

Lemma steady_fd_or_path {A} fd root path (by_fd : HM A) by_path :
  steady by_fd → (∀ d p, steady (by_path d p)) → steady (fd_or_path fd root path by_fd by_path).
Proof using. intros. unfold fd_or_path. steady. Qed.
Lemma steady_with_file {A} fh (k : RawFd → HM A) : (∀ fd, steady (k fd)) → steady (with_file fh k).
Proof using. intros. unfold with_file, get_file. steady. Qed.

(** The requests that may change the tables. *)
Definition opens_or_closes (rq : FuseRequest) : bool :=
  match rq with RqOpen _ _ | RqCreate _ _ _ _ _ | RqRelease _ => true | _ => false end.

Lemma steady_setattr ino mode uid gid size at_ mt fh :
  steady (setattr copy_fuel config ino mode uid gid size at_ mt fh).
Proof using.
  unfold setattr, setattr_fd, setattr_times, setattr_override, setattr_plain, setattr_size, get_inner, get_file,
    timeout, lsetxattr. cbv zeta.
  repeat first [apply steady_fd_or_path|progress steady].
Qed.

Lemma serve_steady rq : opens_or_closes rq = false → steady (serve copy_fuel config rq).
Proof using.
  destruct rq; intros [=]; cbn [serve];
    unfold init, lookup, forget_request, getattr, readlink, mknod, mkdir, unlink, rmdir, do_rm, symlink, rename,
      OpsTree.link, reply_entry, OpsFile.read, OpsFile.write, statfs, setxattr, getxattr_request, listxattr_request, removexattr,
      access, opendir_request, readdir, readdirplus, releasedir, fsync, fsyncdir, fallocate, lseek,
      copy_file_range, ioctl, get_inner, get_file, timeout, alloc_dh, lsetxattr, lremovexattr; cbv zeta;
    try apply steady_setattr; repeat first [apply steady_with_file|progress steady].
Qed.
End steady_handlers.

(** ** The invariant *)

(** How many open handles use the backing of an inode. *)
Definition users (owners : gmap Z Z) (ino : Z) : Z :=
  Z.of_nat (size (filter (λ p, p.2 = ino) owners)).

Lemma users_insert owners fh ino ino' : owners !! fh = None →
  users (<[fh := ino]> owners) ino' = users owners ino' + (if decide (ino = ino') then 1 else 0).
Proof.
  intros Hfh. unfold users. rewrite map_filter_insert. cbn. case_decide as E; cbn.
  - rewrite map_size_insert_None by (rewrite map_lookup_filter_None; by left). lia.
  - rewrite delete_id by done. lia.
Qed.

Lemma users_delete owners fh ino ino' : owners !! fh = Some ino →
  users (delete fh owners) ino' = users owners ino' - (if decide (ino = ino') then 1 else 0).
Proof.
  intros Hfh. rewrite <-(insert_delete_id owners fh ino Hfh) at 2.
  rewrite users_insert by apply lookup_delete_eq. lia.
Qed.

Lemma users_pos owners fh ino : owners !! fh = Some ino → 1 <= users owners ino.
Proof.
  intros Hfh. pose proof (users_delete owners fh ino ino Hfh) as E. rewrite decide_True in E by done.
  unfold users in *. lia.
Qed.

Lemma users_none owners ino : (∀ fh, owners !! fh ≠ Some ino) → users owners ino = 0.
Proof.
  intros Hno. unfold users. replace (filter _ _) with (∅ : gmap Z Z); [done|].
  symmetry. apply map_empty. intros fh. apply map_lookup_filter_None_2. right.
  intros ino' Hfh E. cbn in E. subst. by eapply Hno.
Qed.

(** [exact] asks for the count of a backing to be the number of its handles;
    [bound] limits the next handle. *)
Record handles_ok (exact : bool) (bound : Z) (s : OverlayFs) : Prop := {
  ho_next : 1 <= next_fh s <= bound;
  ho_open fh : is_Some (open_files s !! fh) → 1 <= fh < next_fh s;
  ho_owner fh : is_Some (fh_to_ino s !! fh) → is_Some (open_files s !! fh);
  ho_count ino b c : inode_backings s !! ino = Some (b, c) →
    1 <= c <= users (fh_to_ino s) ino ∧ (exact = true → c = users (fh_to_ino s) ino);
  ho_backing fh ino : exact = true → fh_to_ino s !! fh = Some ino → is_Some (inode_backings s !! ino)
}.

Lemma handles_ok_tables exact bound s s' :
  file_tables s' = file_tables s → handles_ok exact bound s → handles_ok exact bound s'.
Proof.
  intros [= E1 E2 E3 E4] [H1 H2 H3 H4 H5]. split; rewrite ?E1, ?E2, ?E3, ?E4; auto.
Qed.

Lemma handles_ok_weaken exact bound bound' s :
  bound <= bound' → handles_ok exact bound s → handles_ok exact bound' s.
Proof. intros Hb [? ? ? ? ?]. split; auto. lia. Qed.

(** A handle without a backing. *)
Lemma handles_plain exact bound s fd :
  handles_ok exact bound s → bound < 2 ^ 64 - 1 →
  handles_ok exact (bound + 1)
    (set_files (<[next_fh s := fd]> (open_files s)) (wrap_u64 (next_fh s + 1)) (inode_backings s) (fh_to_ino s) s).
Proof.
  intros [H1 H2 H3 H4 H5] Hb. assert (wrap_u64 (next_fh s + 1) = next_fh s + 1) as E.
  { unfold wrap_u64. apply Z.mod_small. lia. }
  split; cbn [set_files open_files next_fh inode_backings fh_to_ino]; rewrite ?E; [lia| | |done..].
  - intros fh. rewrite lookup_insert_is_Some. intros [<-|[_ Hfh]]; [lia|]. specialize (H2 fh Hfh). lia.
  - intros fh Hfh. rewrite lookup_insert_is_Some. destruct (decide (next_fh s = fh)); [by left|]. right. auto.
Qed.

(** A handle that uses a backing: the count is one more, or one for a new
    backing. *)
Lemma handles_backed exact bound s fd ino b c :
  handles_ok exact bound s → bound < 2 ^ 64 - 1 →
  1 <= c <= users (fh_to_ino s) ino + 1 → (exact = true → c = users (fh_to_ino s) ino + 1) →
  handles_ok exact (bound + 1)
    (set_files (<[next_fh s := fd]> (open_files s)) (wrap_u64 (next_fh s + 1))
       (<[ino := (b, c)]> (inode_backings s)) (<[next_fh s := ino]> (fh_to_ino s)) s).
Proof.
  intros Hok Hb Hc Hex. pose proof (handles_plain exact bound s fd Hok Hb) as [P1 P2 _ _ _].
  destruct Hok as [H1 H2 H3 H4 H5].
  assert (fh_to_ino s !! next_fh s = None) as Hnew.
  { apply eq_None_not_Some. intros Hs%H3%H2. lia. }
  split; cbn [set_files open_files next_fh inode_backings fh_to_ino] in *; [done..| | |].
  - intros fh. rewrite !lookup_insert_is_Some. naive_solver.
  - intros ino' b' c'. rewrite (users_insert _ _ _ _ Hnew), lookup_insert_Some.
    intros [[<- [= <- <-]]|[Hne Hl]]; [by rewrite decide_True|].
    rewrite decide_False by done. rewrite Z.add_0_r. by eapply H4.
  - intros fh ino' Hx. rewrite lookup_insert_Some, lookup_insert_is_Some.
    intros [[<- <-]|[Hne Hl]]; [by left|]. destruct (decide (ino = ino')); [by left|]. right. eauto.
Qed.

(** Releasing a handle. *)
Definition drop_backing (owners : gmap Z Z) (backings : gmap Z (Z * Z)) (fh : Z) : gmap Z (Z * Z) :=
  match owners !! fh with
  | Some ino =>
      match backings !! ino with
      | Some (b, count) =>
          if count - 1 =? 0 then delete ino backings else <[ino := (b, count - 1)]> backings
      | None => backings
      end
  | None => backings
  end.

Lemma drop_backing_lookup owners backings fh ino ino' :
  owners !! fh = Some ino →
  drop_backing owners backings fh !! ino' =
    if decide (ino' = ino)
    then backings !! ino ≫= λ '(b, c), if c - 1 =? 0 then None else Some (b, c - 1)
    else backings !! ino'.
Proof.
  intros Hfh. unfold drop_backing. rewrite Hfh. case_decide as E; subst.
  - destruct (backings !! ino) as [[b c]|] eqn:Hb; cbn; [|done].
    destruct (_ =? 0); [by rewrite lookup_delete_eq|by rewrite lookup_insert_eq].
  - destruct (backings !! ino) as [[b c]|]; [|done].
    destruct (_ =? 0); [by rewrite lookup_delete_ne|by rewrite lookup_insert_ne].
Qed.

Lemma handles_release exact bound s fh :
  handles_ok exact bound s →
  handles_ok exact bound
    (set_files (delete fh (open_files s)) (next_fh s) (drop_backing (fh_to_ino s) (inode_backings s) fh)
       (delete fh (fh_to_ino s)) s).
Proof.
  intros [H1 H2 H3 H4 H5]. split; cbn [set_files open_files next_fh inode_backings fh_to_ino]; [done|..].
  - intros fh'. rewrite lookup_delete_is_Some. intros [_ ?]. auto.
  - intros fh'. rewrite !lookup_delete_is_Some. naive_solver.
  - intros ino' b c. destruct (fh_to_ino s !! fh) as [ino|] eqn:Hfh.
    + rewrite (drop_backing_lookup _ _ _ _ _ Hfh), (users_delete _ _ _ _ Hfh).
      destruct (decide (ino' = ino)) as [->|Hne].
      * rewrite decide_True by done. destruct (inode_backings s !! ino) as [[b0 c0]|] eqn:Hb; [|done]. cbn.
        destruct (Z.eqb_spec (c0 - 1) 0) as [|Hc]; [done|]. intros [= <- <-].
        destruct (H4 _ _ _ Hb) as [Hr Hx]. split; [lia|]. intros E. specialize (Hx E). lia.
      * rewrite decide_False by congruence. rewrite Z.sub_0_r. by apply H4.
    + unfold drop_backing. rewrite Hfh, (delete_id _ _ Hfh). by apply H4.
  - intros fh' ino' Hx. rewrite lookup_delete_Some. intros [Hne Hl].
    pose proof (H5 _ _ Hx Hl) as [[b c] Hb]. destruct (fh_to_ino s !! fh) as [ino|] eqn:Hfh.
    + rewrite (drop_backing_lookup _ _ _ _ _ Hfh). case_decide as E; [|by eexists]. subst ino'. rewrite Hb. cbn.
      (* two handles: the count is at least two *)
      pose proof (users_delete _ _ _ ino Hfh) as Hu. rewrite decide_True in Hu by done.
      assert (delete fh (fh_to_ino s) !! fh' = Some ino) as Hl' by (by rewrite lookup_delete_ne).
      apply users_pos in Hl'. destruct (H4 _ _ _ Hb) as [_ Hx']. specialize (Hx' Hx).
      destruct (Z.eqb_spec (c - 1) 0); [lia|by eexists].
    + unfold drop_backing. rewrite Hfh. by eexists.
Qed.

(** ** Requests *)

(** The handle a reply gives out. *)
Definition reply_handle (r : FsResult Reply) : option Z :=
  match r with
  | Ok (ROpened fh _) | Ok (ROpenedPassthrough fh _) | Ok (RCreated _ _ fh _)
  | Ok (RCreatedPassthrough _ _ fh _) => Some fh
  | _ => None
  end.

(** The handle of the table of open files a request is answered with; a
    directory's handle is of a table of its own. *)
Definition given_handle (rq : FuseRequest) (r : FsResult Reply) : option Z :=
  match rq with RqOpen _ _ | RqCreate _ _ _ _ _ => reply_handle r | _ => None end.
Definition given_handles (rqs : list FuseRequest) (rs : list (FsResult Reply)) : list Z :=
  omap (λ '(rq, r), given_handle rq r) (zip rqs rs).

Definition is_create (rq : FuseRequest) : bool :=
  match rq with RqCreate _ _ _ _ _ => true | _ => false end.

(** What a reply does with the tables: the handle it gives out is the next
    one. *)
Definition gives (exact : bool) (bound : Z) (s : OverlayFs) (r : FsResult Reply) (s' : OverlayFs) : Prop :=
  handles_ok exact bound s' ∧
  match reply_handle r with
  | Some fh => fh = next_fh s ∧ next_fh s' = next_fh s + 1 ∧ is_Some (open_files s' !! fh)
  | None => next_fh s <= next_fh s'
  end.

Section sessions.
Context `{F64, DevT, HashOrder} (copy_fuel : nat) (config : OverlayConfig).

Lemma always_steady {A B} (m : SM OverlayFs A) (k : A → SM OverlayFs B) s Q :
  steady m → (∀ a s', file_tables s' = file_tables s → sm_always (k a) s' Q) → sm_always (sm_bind m k) s Q.
Proof using. intros Hm Hk. apply sm_always_bind. eapply sm_always_mono; [apply Hm|]. auto. Qed.
Lemma always_steady_try {A B} (m : HM A) (k : A → HM B) s Q :
  steady m → (∀ a s', file_tables s' = file_tables s → sm_always (k a) s' Q) →
  (∀ e s', file_tables s' = file_tables s → Q (Err e) s') → sm_always (sm_try m k) s Q.
Proof using. intros Hm Hk HErr. apply always_steady; [done|]. intros [a|e] s' E; [by apply Hk|by apply HErr]. Qed.

Lemma gives_tables exact bound s0 s r s' :
  file_tables s0 = file_tables s → gives exact bound s0 r s' → gives exact bound s r s'.
Proof using. unfold gives. by intros [= _ -> _ _]. Qed.
Lemma gives_error exact bound s e s' :
  file_tables s' = file_tables s → handles_ok exact bound s → gives exact (bound + 1) s (Err e) s'.
Proof using.
  intros E Hok. split; [eapply handles_ok_tables; [exact E|]; eapply handles_ok_weaken; [|done]; lia|].
  cbn. injection E as _ -> _ _. done.
Qed.

(** The last steps of [open] and [create]: a new handle and its reply. *)
Lemma always_new_fh exact bound s fd backings owner (k : Z → HM Reply) s0 :
  file_tables s0 = file_tables s → bound < 2 ^ 64 - 1 →
  handles_ok exact (bound + 1)
    (set_files (<[next_fh s := fd]> (open_files s)) (wrap_u64 (next_fh s + 1)) backings
       (match owner with Some ino => <[next_fh s := ino]> (fh_to_ino s) | None => fh_to_ino s end) s) →
  handles_ok exact bound s →
  (∀ s', sm_always (k (next_fh s)) s' (λ r s'', s'' = s' ∧ reply_handle r = Some (next_fh s))) →
  sm_always (let! fh := new_fh fd backings owner in k fh) s0 (gives exact (bound + 1) s).
Proof using.
  intros E Hb Hnew Hok Hk. apply sm_always_bind. cbn [new_fh sm_bind sm_get sm_modify sm_ret bind sm_always always].
  change (sm_always (k (next_fh s0))
    (set_files (<[next_fh s0 := fd]> (open_files s0)) (wrap_u64 (next_fh s0 + 1)) backings
       (match owner with Some ino => <[next_fh s0 := ino]> (fh_to_ino s0) | None => fh_to_ino s0 end) s0)
    (gives exact (bound + 1) s)).
  injection E as E1 E2 E3 E4. rewrite E1, E2, E4.
  eapply sm_always_mono; [apply Hk|]. intros r s'' [-> Hr]. split.
  - eapply handles_ok_tables; [|exact Hnew]. reflexivity.
  - rewrite Hr. split; [done|]. cbn. split; [|by rewrite lookup_insert_eq].
    destruct (ho_next _ _ _ Hok). unfold wrap_u64. apply Z.mod_small. lia.
Qed.

Lemma always_alloc exact bound s fd (k : Z → HM Reply) s0 :
  file_tables s0 = file_tables s → bound < 2 ^ 64 - 1 → handles_ok exact bound s →
  (∀ s', sm_always (k (next_fh s)) s' (λ r s'', s'' = s' ∧ reply_handle r = Some (next_fh s))) →
  sm_always (let! fh := alloc_fh fd in k fh) s0 (gives exact (bound + 1) s).
Proof using.
  intros E Hb Hok Hk. assert (inode_backings s0 = inode_backings s) as Eb by (by injection E).
  refine (always_new_fh exact bound s fd (inode_backings s0) None k s0 E Hb _ Hok Hk).
  rewrite Eb. by apply handles_plain.
Qed.

Lemma always_backed exact bound s fd ino b c (k : Z → HM Reply) s0 :
  file_tables s0 = file_tables s → bound < 2 ^ 64 - 1 → handles_ok exact bound s →
  1 <= c <= users (fh_to_ino s) ino + 1 → (exact = true → c = users (fh_to_ino s) ino + 1) →
  (∀ s', sm_always (k (next_fh s)) s' (λ r s'', s'' = s' ∧ reply_handle r = Some (next_fh s))) →
  sm_always (let! fh := new_fh fd (<[ino := (b, c)]> (inode_backings s)) (Some ino) in k fh) s0
    (gives exact (bound + 1) s).
Proof using.
  intros E Hb Hok Hc Hx Hk. eapply always_new_fh; [done..| |done|done]. by apply handles_backed.
Qed.

Lemma always_get {B} (k : OverlayFs → SM OverlayFs B) s Q :
  sm_always (k s) s Q → sm_always (sm_bind sm_get k) s Q.
Proof using. done. Qed.
Lemma always_modify {B} (f : OverlayFs → OverlayFs) (k : unit → SM OverlayFs B) s Q :
  sm_always (k tt) (f s) Q → sm_always (sm_bind (sm_modify f) k) s Q.
Proof using. done. Qed.
Lemma always_call {B} c (k : resp c → SM OverlayFs B) s Q :
  (∀ r, sm_always (k r) s Q) → sm_always (sm_bind (sm_call c) k) s Q.
Proof using. done. Qed.
Lemma always_expect {A B} (o : option A) (k : A → SM OverlayFs B) s Q :
  (∀ a, sm_always (k a) s Q) → sm_always (sm_bind (sm_expect o) k) s Q.
Proof using. destruct o; cbn; [|done]. intros Hk. apply (Hk a). Qed.

Lemma reply_open_gives exact bound ino fd s s0 :
  file_tables s0 = file_tables s → handles_ok exact bound s → bound < 2 ^ 64 - 1 →
  sm_always (reply_open_maybe_passthrough config ino fd) s0 (gives exact (bound + 1) s).
Proof using.
  intros E Hok Hb. unfold reply_open_maybe_passthrough. cbv zeta. apply always_get.
  assert (inode_backings s0 = inode_backings s) as -> by (by injection E).
  destruct (passthrough_enabled s0); [|by apply (always_alloc _ _ s)].
  destruct (inode_backings s !! ino) as [[b c]|] eqn:Hino.
  - destruct (ho_count _ _ _ Hok _ _ _ Hino) as [Hc Hx].
    apply always_backed; [done..|lia| |done]. intros Hex. specialize (Hx Hex). lia.
  - apply always_call. intros [b|e].
    + apply always_backed; [done..| | |done].
      * unfold users. lia.
      * intros Hex. rewrite users_none; [done|]. intros fh Hfh.
        destruct (ho_backing _ _ _ Hok fh ino Hex Hfh) as [? ?]. congruence.
    + apply always_modify. by apply (always_alloc _ _ s).
Qed.

Lemma open_gives exact bound ino flags s :
  handles_ok exact bound s → bound < 2 ^ 64 - 1 →
  sm_always (OpsFile.open copy_fuel config ino flags) s (gives exact (bound + 1) s).
Proof using.
  intros Hok Hb. unfold OpsFile.open. cbv zeta. apply always_steady; [apply steady_inner|]. intros fast s1 E1.
  apply always_steady_try; [destruct fast; steady| |].
  - intros fd s2 E2. apply reply_open_gives; [congruence|done..].
  - intros e s2 E2. apply gives_error; [congruence|done].
Qed.

Lemma create_gives bound req parent nm mode flags s :
  handles_ok false bound s → bound < 2 ^ 64 - 1 →
  sm_always (create copy_fuel config req parent nm mode flags) s (gives false (bound + 1) s).
Proof using.
  intros Hok Hb. unfold create. cbv zeta. apply always_steady_try; [apply steady_inner| |].
  2:{ intros e s1 E1. by apply gives_error. }
  intros [[fd ino] attr] s1 E1. apply always_get.
  assert (inode_backings s1 = inode_backings s) as -> by (by injection E1).
  assert (∀ (r : Z → FsResult Reply) ttl s', reply_handle (r ttl) = Some (next_fh s) →
    sm_always (S:=OverlayFs) (sm_ret (r ttl)) s' (λ r s'', s'' = s' ∧ reply_handle r = Some (next_fh s)))
    as Hret by done.
  destruct (passthrough_enabled s1);
    [apply always_call; intros [b|e]|].
  - apply always_backed; [done..| |done|].
    + unfold users. lia.
    + intros s'. by apply always_expect.
  - apply always_modify, (always_alloc _ _ s); [done..|]. intros s'. by apply always_expect.
  - apply (always_alloc _ _ s); [done..|]. intros s'. by apply always_expect.
Qed.

Lemma release_gives exact bound fh s :
  handles_ok exact bound s → sm_always (release fh) s (gives exact (bound + 1) s).
Proof using.
  intros Hok. split; [|cbn; lia]. eapply handles_ok_weaken; [|apply (handles_release exact bound s fh Hok)]. lia.
Qed.

(** One request. *)
Lemma serve_handles exact bound rq s :
  handles_ok exact bound s → bound < 2 ^ 64 - 1 → (exact = true → is_create rq = false) →
  sm_always (serve copy_fuel config rq) s (λ r s',
    handles_ok exact (bound + 1) s' ∧
    match given_handle rq r with
    | Some fh => fh = next_fh s ∧ next_fh s' = next_fh s + 1 ∧ is_Some (open_files s' !! fh)
    | None => next_fh s <= next_fh s'
    end).
Proof using.
  intros Hok Hb Hx. destruct (opens_or_closes rq) eqn:Hrq.
  - destruct rq; try done; cbn [serve given_handle].
    + by apply open_gives.
    + eapply sm_always_mono; [by apply (release_gives exact bound)|]. intros r s' [Hok' Hr]. split; [done|].
      destruct (reply_handle r); lia.
    + destruct exact; [by specialize (Hx eq_refl)|]. by apply create_gives.
  - eapply sm_always_mono; [by apply serve_steady|]. intros r s' E. split.
    + eapply handles_ok_tables; [exact E|]. eapply handles_ok_weaken; [|done]. lia.
    + injection E as _ -> _ _. destruct rq; try done; cbn; lia.
Qed.

Lemma session_handles_from exact rqs : ∀ bound s,
  handles_ok exact bound s → bound + Z.of_nat (length rqs) < 2 ^ 64 →
  (exact = true → Forall (λ rq, is_create rq = false) rqs) →
  sm_always (session copy_fuel config rqs) s (λ rs s',
    handles_ok exact (bound + Z.of_nat (length rqs)) s' ∧
    Forall (λ fh, next_fh s <= fh) (given_handles rqs rs) ∧ NoDup (given_handles rqs rs)).
Proof using.
  induction rqs as [|rq rqs IH]; intros bound s Hok Hb Hx; cbn [session length].
  { split; [by rewrite Z.add_0_r|]. split; constructor. }
  cbn [length] in Hb. apply sm_always_bind. eapply sm_always_mono.
  { apply (serve_handles exact bound); [done|lia|]. intros E. by apply Forall_inv in Hx. }
  intros r s1 [Hok1 Hr]. apply sm_always_bind. eapply sm_always_mono.
  { apply (IH (bound + 1) s1 Hok1); [lia|]. intros E. by eapply Forall_inv_tail, Hx. }
  intros rs s2 (Hok2 & Hge & Hnd). apply sm_always_ret.
  split; [by replace (bound + Z.of_nat (S (length rqs))) with (bound + 1 + Z.of_nat (length rqs)) by lia|].
  unfold given_handles. cbn [zip zip_with omap list_omap]. fold (given_handles rqs rs).
  destruct (given_handle rq r) as [fh|].
  - destruct Hr as (-> & Hn & _). split.
    + constructor; [done|]. eapply Forall_impl; [exact Hge|]. cbn. lia.
    + constructor; [|done]. intros Hin. rewrite Forall_forall in Hge. specialize (Hge _ Hin). cbn in Hge. lia.
  - split; [|done]. eapply Forall_impl; [exact Hge|]. cbn. lia.
Qed.

Lemma handles_ok_new exact i nt : handles_ok exact 1 (OverlayFs_new i nt).
Proof using. split; cbn; [lia|..]; try (intros ? [? [=]]); naive_solver. Qed.
End sessions.

(** C15. Handles and backings of a session.  From a mount on, whatever is asked
    for and whatever the kernel answers (fewer than 2^64 requests): the handles
    given out for files are all different; every handle of the passthrough
    tables is open; a backing has a count of at least one and at most the
    number of open handles that use it, so that it never outlives the last of
    them and the subtraction in [release] never wraps; and in a session without
    [create] the count is that number, and every handle opened with a backing
    keeps it. *)
Theorem session_handles `{F64, DevT, HashOrder} (copy_fuel : nat) (config : OverlayConfig)
    (i : OverlayInner) (notifier : bool) (rqs : list FuseRequest)
    (Hlen : Z.of_nat (length rqs) < 2 ^ 64 - 1) :
  sm_always (session copy_fuel config rqs) (OverlayFs_new i notifier) (λ rs s',
    NoDup (given_handles rqs rs) ∧
    handles_ok (negb (existsb is_create rqs)) (1 + Z.of_nat (length rqs)) s').
Proof.
  eapply sm_always_mono.
  - apply (session_handles_from _ _ (negb (existsb is_create rqs))); [apply handles_ok_new|lia|].
    intros E%negb_true_iff. apply Forall_forall. intros rq Hrq. apply not_true_iff_false. intros Hc.
    apply not_true_iff_false in E. apply E, existsb_exists. exists rq. by rewrite <-list_elem_of_In.
  - by intros rs s' (? & _ & ?).
Qed.

Lemma session_handles_witness :
  let rqs := [RqOpen 1 O_RDWR; RqOpen 1 O_RDONLY; RqRelease 1; RqRelease 2] in
  sm_always (@session F64_Z DevT_halves HashOrder_elements 8 (@OverlayConfig_default F64_Z 0) rqs)
    (OverlayFs_new (OverlayInner_new [] (-1) {| o_uid := 65534; o_gid := 65534 |} false) true)
    (λ rs s', NoDup (given_handles rqs rs) ∧ handles_ok true 5 s').
Proof. intros rqs. exact (@session_handles F64_Z DevT_halves HashOrder_elements 8 _ _ true rqs eq_refl). Defined.
