(* ===== verification/Threads.v ===== *)
(** * Opens, creates and releases served by several threads

    FUSE requests are served by a pool of threads, and the end of [open], the
    end of [create] and [release] take the locks of the handle tables one
    section at a time.  Here each request is a thread between two of its
    sections, and the sections of the threads run in any order.  Alone, a
    thread does what the handler of Ops.v does. *)

From S2P Require Import Prelude Libc Mapping Xattr ConfigData Config Sys Openat2 Node DataSource.
From S2P Require Import Whiteout Layer Copyup Overlay MemLayer Ops OpsTree OpsFile Requests Handles.
From Stdlib Require Import FunctionalExtensionality.
Local Open Scope Z_scope.

(** ** Threads *)

(** Which handler runs the section: [create] holds the lock of [inner] until
    it has replied, [open] has dropped it. *)
Inductive Who := ForOpen | ForCreate (attr : FileAttr).

(** What a thread does next.  [Answered] and [Released] have replied, the
    first with the handle [fh] and maybe the backing of an inode; [r] is
    [None] when computing the reply panicked. *)
Inductive Pc :=
| LoadEnabled (w : Who) (ino : Z) (fd : RawFd)
| CheckBacking (w : Who) (ino : Z) (fd : RawFd)
| AskBacking (w : Who) (ino : Z) (fd : RawFd)
| TakeHandle (w : Who) (ino : Z) (fd : RawFd) (b : Z)
| EnterBacking (w : Who) (ino : Z) (fd : RawFd) (b fh : Z)
| EnterFile (w : Who) (ino : Z) (fd : RawFd) (b fh : Z)
| EnterOwner (w : Who) (ino : Z) (b fh : Z)
| Disable (w : Who) (fd : RawFd)
| TakePlainHandle (w : Who) (fd : RawFd)
| EnterPlainFile (w : Who) (fd : RawFd) (fh : Z)
| Answered (fh : Z) (backing : option (Z * Z)) (r : option Reply)
| RemoveOwner (fh : Z)
| DropBacking (ino fh : Z)
| RemoveFile (fh : Z)
| Released (fh : Z).

Definition finished (pc : Pc) : bool :=
  match pc with Answered _ _ _ | Released _ => true | _ => false end.

(** The section that changes or looks at [fh_to_ino] waits for the guard on
    it, which [release] keeps while it counts its backing down. *)
Definition uses_owners (pc : Pc) : bool :=
  match pc with EnterOwner _ _ _ _ | RemoveOwner _ => true | _ => false end.
Definition holds_owners (pc : Pc) : bool :=
  match pc with DropBacking _ _ => true | _ => false end.

Definition pc_who (pc : Pc) : option Who :=
  match pc with
  | LoadEnabled w _ _ | CheckBacking w _ _ | AskBacking w _ _ | TakeHandle w _ _ _ | EnterBacking w _ _ _ _
  | EnterFile w _ _ _ _ | EnterOwner w _ _ _ | Disable w _ | TakePlainHandle w _ | EnterPlainFile w _ _ => Some w
  | _ => None
  end.
Definition holds_inner (pc : Pc) : bool :=
  match pc_who pc with Some (ForCreate _) => true | _ => false end.

Abbreviation Pool := (list Pc * OverlayFs)%type.

Section threads.
Context `{F64} (config : OverlayConfig).

(** The reply of the handler. *)
Definition pc_reply (w : Who) (fh : Z) (backing : option Z) : option Reply :=
  let keep_cache := f64_positive (cfg_timeout config) in
  match w, backing with
  | ForOpen, Some b => Some (ROpenedPassthrough fh b)
  | ForOpen, None => Some (ROpened fh keep_cache)
  | ForCreate attr, Some b => (λ ttl, RCreatedPassthrough ttl attr fh b) <$> f64_duration (cfg_timeout config)
  | ForCreate attr, None => (λ ttl, RCreated ttl attr fh keep_cache) <$> f64_duration (cfg_timeout config)
  end.

(** The sections of [release]: the guard on [fh_to_ino] is kept while the
    backing is counted down. *)
Definition release_section (pc : Pc) (s : OverlayFs) : Pc * OverlayFs :=
  let tables files nfh backings owners := set_files files nfh backings owners s in
  match pc with
  | RemoveOwner fh =>
      (match fh_to_ino s !! fh with Some ino => DropBacking ino fh | None => RemoveFile fh end,
       tables (open_files s) (next_fh s) (inode_backings s) (delete fh (fh_to_ino s)))
  | DropBacking ino fh =>
      (RemoveFile fh,
       match inode_backings s !! ino with
       | Some (b, count) =>
           tables (open_files s) (next_fh s)
             (if count - 1 =? 0 then delete ino (inode_backings s)
              else <[ino := (b, count - 1)]> (inode_backings s)) (fh_to_ino s)
       | None => s
       end)
  | RemoveFile fh =>
      (Released fh, tables (delete fh (open_files s)) (next_fh s) (inode_backings s) (fh_to_ino s))
  | _ => (pc, s)
  end.

(** One section, with the kernel's answer for the one that asks for a
    backing: what is next, and the tables after it. *)
Definition section (answer : FsResult Z) (pc : Pc) (s : OverlayFs) : Pc * OverlayFs :=
  let tables files nfh backings owners := set_files files nfh backings owners s in
  match pc with
  | LoadEnabled w ino fd =>
      (if passthrough_enabled s then
         match w with ForOpen => CheckBacking w ino fd | ForCreate _ => AskBacking w ino fd end
       else TakePlainHandle w fd, s)
  | CheckBacking w ino fd =>
      match inode_backings s !! ino with
      | Some (b, count) =>
          (EnterFile w ino fd b (next_fh s),
           tables (open_files s) (wrap_u64 (next_fh s + 1))
             (<[ino := (b, count + 1)]> (inode_backings s)) (fh_to_ino s))
      | None => (AskBacking w ino fd, s)
      end
  | AskBacking w ino fd =>
      match answer with Ok b => (TakeHandle w ino fd b, s) | Err _ => (Disable w fd, s) end
  | TakeHandle w ino fd b =>
      (EnterBacking w ino fd b (next_fh s),
       tables (open_files s) (wrap_u64 (next_fh s + 1)) (inode_backings s) (fh_to_ino s))
  | EnterBacking w ino fd b fh =>
      let fresh := (EnterFile w ino fd b fh,
                    tables (open_files s) (next_fh s) (<[ino := (b, 1)]> (inode_backings s)) (fh_to_ino s)) in
      match w with
      | ForOpen =>
          match inode_backings s !! ino with
          | Some (existing, count) =>
              (EnterFile w ino fd existing fh,
               tables (open_files s) (next_fh s) (<[ino := (existing, count + 1)]> (inode_backings s)) (fh_to_ino s))
          | None => fresh
          end
      | ForCreate _ => fresh
      end
  | EnterFile w ino fd b fh =>
      (EnterOwner w ino b fh, tables (<[fh := fd]> (open_files s)) (next_fh s) (inode_backings s) (fh_to_ino s))
  | EnterOwner w ino b fh =>
      (Answered fh (Some (ino, b)) (pc_reply w fh (Some b)),
       tables (open_files s) (next_fh s) (inode_backings s) (<[fh := ino]> (fh_to_ino s)))
  | Disable w fd => (TakePlainHandle w fd, set_passthrough false s)
  | TakePlainHandle w fd =>
      (EnterPlainFile w fd (next_fh s),
       tables (open_files s) (wrap_u64 (next_fh s + 1)) (inode_backings s) (fh_to_ino s))
  | EnterPlainFile w fd fh =>
      (Answered fh None (pc_reply w fh None),
       tables (<[fh := fd]> (open_files s)) (next_fh s) (inode_backings s) (fh_to_ino s))
  | RemoveOwner _ | DropBacking _ _ | RemoveFile _ => release_section pc s
  | Answered _ _ _ | Released _ => (pc, s)
  end.

(** ** The pool *)

Definition free (holds : Pc → bool) (ts : list Pc) : Prop := Forall (λ pc, holds pc = false) ts.

(** The next section of one of the threads. *)
Inductive sections : Pool → Pool → Prop :=
| section_step ts s i pc answer :
    ts !! i = Some pc → finished pc = false → (uses_owners pc = true → free holds_owners ts) →
    sections (ts, s) (<[i := (section answer pc s).1]> ts, (section answer pc s).2).

(** The handle a thread releases. *)
Definition releases (pc : Pc) : option Z :=
  match pc with
  | RemoveOwner fh | DropBacking _ fh | RemoveFile fh | Released fh => Some fh
  | _ => None
  end.

(** The next request: an [open] that has its file; a [create] that has its
    file and the lock of [inner], when they are served at all; the release,
    which the kernel asks for once, of a handle it was given. *)
Inductive arrives (creates : bool) (ts : list Pc) : Pc → Prop :=
| arrives_open ino fd : arrives creates ts (LoadEnabled ForOpen ino fd)
| arrives_create attr ino fd :
    creates = true → free holds_inner ts → arrives creates ts (LoadEnabled (ForCreate attr) ino fd)
| arrives_release fh backing r :
    Answered fh backing (Some r) ∈ ts → (∀ pc, pc ∈ ts → releases pc ≠ Some fh) →
    arrives creates ts (RemoveOwner fh).

Inductive serving (creates : bool) : Pool → Pool → Prop :=
| serving_section P Q : sections P Q → serving creates P Q
| serving_request ts s pc : arrives creates ts pc → serving creates (ts, s) (ts ++ [pc], s).

(** ** One thread alone *)

(** At most eight sections of one thread, with the kernel's answer to the one
    that asks. *)
Fixpoint alone (n : nat) (pc : Pc) : SM OverlayFs (FsResult Reply) :=
  match n, pc with
  | _, Answered _ _ r => let! r := sm_expect r in sm_ret (Ok r)
  | _, Released _ => sm_ret (Ok ROk)
  | O, _ => λ _, NoFuel
  | Datatypes.S n, AskBacking w ino fd =>
      let! answer := sm_call (OpenBacking fd) in
      let! s := sm_get in
      alone n (section answer pc s).1
  | Datatypes.S n, _ =>
      let! s := sm_get in
      sm_modify (λ s, (section (Err 0) pc s).2) ;;;
      alone n (section (Err 0) pc s).1
  end.
End threads.

(** ** Alone, a thread is the handler *)
Section alone.
Context `{F64, DevT, HashOrder} (copy_fuel : nat) (config : OverlayConfig).

Definition asks (pc : Pc) : bool := match pc with AskBacking _ _ _ => true | _ => false end.

Lemma alone_section n pc s : asks pc = false → finished pc = false →
  alone config (Datatypes.S n) pc s = alone config n (section config (Err 0) pc s).1 (section config (Err 0) pc s).2.
Proof using. by destruct pc. Qed.
Lemma alone_ask n w ino fd s :
  alone config (Datatypes.S n) (AskBacking w ino fd) s =
  Call (OpenBacking fd) (λ answer, alone config n (section config answer (AskBacking w ino fd) s).1 s).
Proof using. done. Qed.
Lemma alone_answered n fh backing r s :
  alone config n (Answered fh backing r) s = match r with Some r => Ret (Ok r, s) | None => Panic end.
Proof using. by destruct n, r. Qed.
Lemma alone_released n fh s : alone config n (Released fh) s = Ret (Ok ROk, s).
Proof using. by destruct n. Qed.

(** The sections one by one, with the fields of the state computed. *)
Ltac alone_fields :=
  cbn [section release_section pc_reply sm_bind sm_get sm_modify sm_ret sm_expect sm_call sm_panic bind fst snd set_files set_passthrough
       inner open_files next_fh open_dirs next_dh inode_backings fh_to_ino passthrough_enabled notifier].
Ltac alone :=
  alone_fields;
  repeat
    (first
       [rewrite alone_section by reflexivity|rewrite alone_ask|rewrite alone_answered|rewrite alone_released];
     alone_fields).

Lemma alone_open ino fd :
  alone config 8 (LoadEnabled ForOpen ino fd) = reply_open_maybe_passthrough config ino fd.
Proof using.
  apply functional_extensionality. intros s. unfold reply_open_maybe_passthrough, alloc_fh, new_fh. cbv zeta.
  alone. destruct (passthrough_enabled s) eqn:Hp; alone; [|reflexivity].
  destruct (inode_backings s !! ino) as [[b c]|] eqn:Hb; alone; [reflexivity|].
  f_equal. apply functional_extensionality. intros [b|e]; alone; [rewrite Hb; alone|]; reflexivity.
Qed.

(** The end of [create]. *)
Definition reply_created (ino : Z) (fd : RawFd) (attr : FileAttr) : HM Reply :=
  let keep_cache := f64_positive (cfg_timeout config) in
  let plain : HM Reply :=
    let! fh := alloc_fh fd in
    let! ttl := timeout config in
    sm_ret (Ok (RCreated ttl attr fh keep_cache)) in
  let! s := sm_get in
  if passthrough_enabled s then
    let! r := sm_call (OpenBacking fd) in
    match r with
    | Ok backing_id =>
        let! fh := new_fh fd (<[ino := (backing_id, 1)]> (inode_backings s)) (Some ino) in
        let! ttl := timeout config in
        sm_ret (Ok (RCreatedPassthrough ttl attr fh backing_id))
    | Err _ => sm_modify (set_passthrough false) ;;; plain
    end
  else plain.

Lemma alone_create ino fd attr :
  alone config 8 (LoadEnabled (ForCreate attr) ino fd) = reply_created ino fd attr.
Proof using.
  apply functional_extensionality. intros s. unfold reply_created, timeout, alloc_fh, new_fh. cbv zeta.
  alone. destruct (passthrough_enabled s); alone.
  - f_equal. apply functional_extensionality.
    intros [b|e]; alone; destruct (f64_duration (cfg_timeout config)); reflexivity.
  - destruct (f64_duration (cfg_timeout config)); reflexivity.
Qed.

Lemma alone_release fh : alone config 3 (RemoveOwner fh) = release fh.
Proof using.
  apply functional_extensionality. intros s. unfold release. cbv zeta. alone.
  destruct (fh_to_ino s !! fh) as [ino|]; alone; [|reflexivity].
  destruct (inode_backings s !! ino) as [[b c]|]; alone; reflexivity.
Qed.

(** So [create] is the making of its file and then the thread. *)
Lemma create_is_alone req parent nm mode flags :
  create copy_fuel config req parent nm mode flags =
  try! (fd, ino, attr) := on_inner (create_inner copy_fuel config req parent nm mode flags) in
  alone config 8 (LoadEnabled (ForCreate attr) ino fd).
Proof using.
  unfold create, sm_try. f_equal. apply functional_extensionality. intros [[[fd ino] attr]|e]; [|done].
  symmetry. apply alone_create.
Qed.
End alone.

(** ** The invariant of the pool *)

(** The handle a thread has taken. *)
Definition opener_fh (pc : Pc) : option Z :=
  match pc with
  | EnterBacking _ _ _ _ fh | EnterFile _ _ _ _ fh | EnterOwner _ _ _ fh | EnterPlainFile _ _ fh
  | Answered fh _ _ => Some fh
  | _ => None
  end.

(** The inode whose backing counts the thread, though no entry of
    [fh_to_ino] says so. *)
Definition pc_ref (pc : Pc) : option Z :=
  match pc with
  | EnterFile _ ino _ _ _ | EnterOwner _ ino _ _ | DropBacking ino _ => Some ino
  | _ => None
  end.

Definition tally (f : Pc → bool) (ts : list Pc) : Z := Z.of_nat (length (List.filter f ts)).
Definition pending (ts : list Pc) (ino : Z) : Z := tally (λ pc, bool_decide (pc_ref pc = Some ino)) ts.
Definition took (ts : list Pc) : Z := tally (λ pc, bool_decide (is_Some (opener_fh pc))) ts.

Section tally.
Implicit Types (f : Pc → bool) (ts : list Pc).

Lemma tally_app f ts pc : tally f (ts ++ [pc]) = tally f ts + Z.b2z (f pc).
Proof. unfold tally. rewrite List.filter_app, length_app. cbn. destruct (f pc); cbn; lia. Qed.
Lemma tally_insert f ts i pc pc' :
  ts !! i = Some pc → tally f (<[i := pc']> ts) = tally f ts - Z.b2z (f pc) + Z.b2z (f pc').
Proof.
  intros Hi. rewrite (insert_take_drop _ _ _ (lookup_lt_Some _ _ _ Hi)).
  rewrite <-(take_drop_middle _ _ _ Hi) at 3. unfold tally.
  rewrite !List.filter_app, !length_app. cbn. destruct (f pc), (f pc'); cbn; lia.
Qed.
Lemma tally_elem f ts i pc : ts !! i = Some pc → f pc = true → 1 <= tally f ts.
Proof.
  intros Hi Hf. rewrite <-(take_drop_middle _ _ _ Hi). unfold tally.
  rewrite List.filter_app, length_app. cbn. rewrite Hf. cbn. lia.
Qed.
Lemma tally_length f ts : 0 <= tally f ts <= Z.of_nat (length ts).
Proof. unfold tally. pose proof (List.filter_length_le f ts). lia. Qed.
End tally.

(** What a thread knows of the tables, whatever the others do. *)
Definition thread_ok (creates : bool) (s : OverlayFs) (pc : Pc) : Prop :=
  (∀ fh, opener_fh pc = Some fh ∨ releases pc = Some fh → 1 <= fh < next_fh s) ∧
  (creates = false → holds_inner pc = false) ∧
  match pc with
  | EnterBacking _ _ _ _ fh | EnterFile _ _ _ _ fh | EnterPlainFile _ _ fh
  | DropBacking _ fh | RemoveFile fh | Released fh => fh_to_ino s !! fh = None
  | EnterOwner _ _ _ fh => fh_to_ino s !! fh = None ∧ is_Some (open_files s !! fh)
  | Answered fh _ _ => is_Some (fh_to_ino s !! fh) → is_Some (open_files s !! fh)
  | _ => True
  end.

(** A handle is taken once and released once, after it was given. *)
Definition apart (p q : Pc) : Prop :=
  ∀ fh, (opener_fh p = Some fh → opener_fh q ≠ Some fh) ∧
        (releases p = Some fh → releases q ≠ Some fh ∧ (opener_fh q = Some fh → finished q = true)).

(** The backing the thread has, or has replied with, is that of the table. *)
Definition backing_ok (s : OverlayFs) (pc : Pc) : Prop :=
  match pc with
  | EnterFile _ ino _ b _ | EnterOwner _ ino b _ => fst <$> inode_backings s !! ino = Some b
  | Answered fh (Some (ino, b)) _ => fh_to_ino s !! fh = Some ino → fst <$> inode_backings s !! ino = Some b
  | _ => True
  end.

Lemma apart_fh p q fh : apart p q →
  (opener_fh p = Some fh → opener_fh q ≠ Some fh) ∧
  (releases p = Some fh → releases q ≠ Some fh ∧ (opener_fh q = Some fh → finished q = true)).
Proof. by intros Ha. Qed.

(** No thread has begun to release the handle. *)
Definition unreleased (ts : list Pc) (fh : Z) : Prop :=
  ∀ pc, pc ∈ ts → releases pc = Some fh → pc = RemoveOwner fh.

Record handles_pool (creates : bool) (ts : list Pc) (s : OverlayFs) : Prop := {
  hp_thread i pc : ts !! i = Some pc → thread_ok creates s pc;
  hp_apart i j p q : i ≠ j → ts !! i = Some p → ts !! j = Some q → apart p q;
  hp_next : 1 <= next_fh s <= 1 + took ts;
  hp_files fh : is_Some (open_files s !! fh) → 1 <= fh < next_fh s;
  hp_owner fh ino : fh_to_ino s !! fh = Some ino → ∃ b r, Answered fh (Some (ino, b)) r ∈ ts;
  hp_given fh ino b r : Answered fh (Some (ino, b)) r ∈ ts → unreleased ts fh → fh_to_ino s !! fh = Some ino;
  hp_file fh backing r : Answered fh backing r ∈ ts → Released fh ∈ ts ∨ is_Some (open_files s !! fh)
}.

Definition references (ts : list Pc) (s : OverlayFs) (ino : Z) : Z := users (fh_to_ino s) ino + pending ts ino.

Record backings_pool (creates : bool) (ts : list Pc) (s : OverlayFs) : Prop := {
  bp_count ino b c : inode_backings s !! ino = Some (b, c) →
    1 <= c <= references ts s ino ∧ (creates = false → c = references ts s ino);
  bp_backed ino : creates = false → 0 < references ts s ino → is_Some (inode_backings s !! ino);
  bp_same pc : creates = false → pc ∈ ts → backing_ok s pc
}.

(** ** A section keeps it *)
Section sections.
Context `{F64} (config : OverlayConfig) (creates : bool).

(** The fields of the tables after a section. *)
Ltac fields :=
  cbn [section release_section set_files set_passthrough fst snd open_files next_fh inode_backings fh_to_ino passthrough_enabled].
Ltac fields_in H :=
  cbn [section release_section set_files set_passthrough fst snd open_files next_fh inode_backings fh_to_ino passthrough_enabled] in H.
(** The cases of a section. *)
Ltac section_cases :=
  repeat match goal with
    | |- context [if passthrough_enabled ?s then _ else _] => destruct (passthrough_enabled s)
    | |- context [match ?w with ForOpen => _ | _ => _ end] => is_var w; destruct w
    | |- context [match ?a with Ok _ => _ | Err _ => _ end] => is_var a; destruct a
    | |- context [match inode_backings ?s !! ?i with _ => _ end] =>
        destruct (inode_backings s !! i) as [[? ?]|] eqn:?
    | |- context [match fh_to_ino ?s !! ?i with _ => _ end] => destruct (fh_to_ino s !! i) eqn:?
    end.

Lemma wrap_next ts s : handles_pool creates ts s → 1 + took ts < u64_max → wrap_u64 (next_fh s + 1) = next_fh s + 1.
Proof using. intros Hok Hb. destruct (hp_next _ _ _ Hok). apply wrap_u64_id. unfold is_u64, u64_max in *. lia. Qed.

(** Another thread's knowledge survives a section. *)
Lemma thread_ok_other answer s pc q :
  wrap_u64 (next_fh s + 1) = next_fh s + 1 → finished pc = false →
  thread_ok creates s pc → thread_ok creates s q → apart pc q → apart q pc →
  thread_ok creates (section config answer pc s).2 q.
Proof using.
  intros Hw Hf Hpc (Hr & Hc & Hq) Ha1 Ha2. split; [|split; [done|]].
  - assert (next_fh s <= next_fh (section config answer pc s).2) as Hn.
    { destruct pc; fields; section_cases; fields; rewrite ?Hw; lia. }
    intros fh Hfh. specialize (Hr fh Hfh). lia.
  - destruct Hpc as (_ & _ & Hpc).
    destruct pc; fields; section_cases; fields; try exact Hq.
    all: destruct q; cbn in Hq |- *; try done.
    all: revert Ha1 Ha2; intros Ha1%(apart_fh _ _ fh) Ha2%(apart_fh _ _ fh); cbn in Ha1, Ha2.
    all: destruct Ha1 as [Ha1 Ha1'], Ha2 as [Ha2 Ha2'].
    all: destruct (decide (fh = fh0)) as [->|Hne];
      [try by destruct (Ha1 eq_refl)|rewrite ?lookup_insert_ne, ?lookup_delete_ne by done; exact Hq].
    all: try by destruct (Ha2' eq_refl) as [_ Hfin]; specialize (Hfin eq_refl).
    all: try by destruct (Ha1' eq_refl) as [_ Hfin]; specialize (Hfin eq_refl).
    all: rewrite ?lookup_delete_eq, ?Hpc; try done; by intros [? ?].
Qed.

(** The thread's own knowledge after its section. *)
Lemma thread_ok_self answer s pc :
  wrap_u64 (next_fh s + 1) = next_fh s + 1 → 1 <= next_fh s → fh_to_ino s !! next_fh s = None →
  finished pc = false → thread_ok creates s pc →
  thread_ok creates (section config answer pc s).2 (section config answer pc s).1.
Proof using.
  intros Hw Hn Hnew Hf (Hr & Hc & Hpc). unfold thread_ok.
  destruct pc; cbn [opener_fh releases] in *; try done; fields; section_cases; fields; cbn in *;
    rewrite ?Hw; (split; [|split]); try done.
  all: try (intros fh' [[= <-]|[= <-]]; first [lia|by apply Hr; auto]).
  all: try (intros fh' [?|?]; by apply Hr; auto).
  all: rewrite ?lookup_insert_eq, ?lookup_delete_eq; try done.
  by intros _; apply Hpc.
Qed.

(** A section takes the next handle, or leaves it. *)
Lemma section_fh answer s pc :
  wrap_u64 (next_fh s + 1) = next_fh s + 1 → finished pc = false →
  releases (section config answer pc s).1 = releases pc ∧
  ((opener_fh (section config answer pc s).1 = opener_fh pc ∧ next_fh (section config answer pc s).2 = next_fh s) ∨
   (opener_fh pc = None ∧ opener_fh (section config answer pc s).1 = Some (next_fh s) ∧
    next_fh (section config answer pc s).2 = next_fh s + 1)).
Proof using.
  intros Hw Hf. destruct pc; try done; fields; section_cases; fields; rewrite ?Hw; cbn; naive_solver.
Qed.

Lemma apart_section answer s pc q :
  wrap_u64 (next_fh s + 1) = next_fh s + 1 → finished pc = false → thread_ok creates s q →
  apart pc q → apart q pc →
  apart (section config answer pc s).1 q ∧ apart q (section config answer pc s).1.
Proof using.
  intros Hw Hf (Hr & _ & _) H1 H2. destruct (section_fh answer s pc Hw Hf) as [Erel Hop].
  assert (∀ fh, opener_fh q = Some fh ∨ releases q = Some fh → fh ≠ next_fh s) as Hne.
  { intros fh Hfh. specialize (Hr fh Hfh). lia. }
  split; intros fh; specialize (H1 fh); specialize (H2 fh); specialize (Hne fh);
    destruct Hop as [[-> _]|(E1 & -> & _)]; rewrite ?Erel in *; naive_solver congruence.
Qed.

(** A thread of the pool after a section is the one that ran, or another. *)
Lemma lookup_section {A} (ts : list A) i j pc q :
  <[i := pc]> ts !! j = Some q → (j = i ∧ q = pc) ∨ (j ≠ i ∧ ts !! j = Some q).
Proof using. rewrite list_lookup_insert_Some. naive_solver. Qed.
Lemma elem_section (ts : list Pc) (i : nat) pc pc' q :
  ts !! i = Some pc → finished pc = false → finished q = true → q ∈ ts → q ∈ <[i := pc']> ts.
Proof using.
  intros Hi Hf Hq [j Hj]%list_elem_of_lookup. apply list_elem_of_lookup. exists j.
  rewrite list_lookup_insert_ne; [done|]. intros ->. congruence.
Qed.

Lemma owner_below ts s fh : handles_pool creates ts s → next_fh s <= fh → fh_to_ino s !! fh = None.
Proof using.
  intros Hok Hfh. apply eq_None_not_Some. intros [ino Hino].
  destruct (hp_owner _ _ _ Hok _ _ Hino) as (b & r & [j Hj]%list_elem_of_lookup).
  destruct (hp_thread _ _ _ Hok _ _ Hj) as [Hr _]. specialize (Hr fh (or_introl eq_refl)). lia.
Qed.

Lemma elem_other (ts : list Pc) (i : nat) pc q : q ∈ <[i := pc]> ts → q = pc ∨ (∃ j, j ≠ i ∧ ts !! j = Some q).
Proof using. intros [j [[-> ->]|[? ?]]%lookup_section]%list_elem_of_lookup; eauto. Qed.
Lemma elem_self (ts : list Pc) (i : nat) pc pc' : ts !! i = Some pc → pc' ∈ <[i := pc']> ts.
Proof using.
  intros Hi. apply list_elem_of_lookup. exists i. apply list_lookup_insert_eq. by eapply lookup_lt_Some.
Qed.

(** A handle stays with its inode until a release takes it off. *)
Lemma given_section answer ts s i pc fh ino b r :
  handles_pool creates ts s → ts !! i = Some pc → finished pc = false →
  Answered fh (Some (ino, b)) r ∈ <[i := (section config answer pc s).1]> ts →
  unreleased (<[i := (section config answer pc s).1]> ts) fh →
  fh_to_ino (section config answer pc s).2 !! fh = Some ino.
Proof using.
  intros Hok Hi Hf [E|(j & Hne & Hj)]%elem_other Hun.
  - clear -E Hf. destruct pc; try done; revert E; fields; section_cases; fields; try done.
    intros [= -> -> _ _]. apply lookup_insert_eq.
  - pose proof (Hun _ (elem_self _ _ _ _ Hi)) as Hself.
    assert (fh_to_ino s !! fh = Some ino) as Hold.
    { eapply (hp_given _ _ _ Hok); [by eapply list_elem_of_lookup_2|]. intros q [k Hk]%list_elem_of_lookup Hq.
      destruct (decide (k = i)) as [->|Hki].
      - rewrite Hk in Hi. injection Hi as ->. clear -Hself Hq Hf.
        destruct pc; try done; revert Hself; fields; section_cases; fields; cbn in *; naive_solver.
      - apply Hun; [|done]. apply list_elem_of_lookup. exists k. by rewrite list_lookup_insert_ne. }
    pose proof (hp_apart _ _ _ Hok i j _ _ ltac:(done) Hi Hj fh) as [Hap _].
    clear -Hold Hself Hap Hf. destruct pc; try done; revert Hself; fields; section_cases; fields; try done.
    + intros _. rewrite lookup_insert_ne; [done|]. intros ->. by apply Hap.
    + intros Hself. rewrite lookup_delete_ne; [done|]. intros ->. by specialize (Hself eq_refl).
    + intros Hself. rewrite lookup_delete_ne; [done|]. intros ->. by specialize (Hself eq_refl).
Qed.

(** The file of a handle is there until its release is done. *)
Lemma file_section answer ts s i pc fh backing r :
  handles_pool creates ts s → ts !! i = Some pc → finished pc = false →
  Answered fh backing r ∈ <[i := (section config answer pc s).1]> ts →
  Released fh ∈ <[i := (section config answer pc s).1]> ts ∨
  is_Some (open_files (section config answer pc s).2 !! fh).
Proof using.
  intros Hok Hi Hf [E|(j & Hne & Hj)]%elem_other.
  - right. pose proof (hp_thread _ _ _ Hok _ _ Hi) as (_ & _ & Hpc). clear -E Hf Hpc.
    destruct pc; try done; revert E; fields; section_cases; fields; try done.
    + intros [= -> _ _]. apply Hpc.
    + intros [= -> _ _]. rewrite lookup_insert_eq. by eexists.
  - destruct (hp_file _ _ _ Hok fh backing r) as [Hr|Hfile]; [by eapply list_elem_of_lookup_2|..].
    { left. by eapply elem_section. }
    assert (pc = RemoveFile fh ∨ pc ≠ RemoveFile fh) as [->|Hpc].
    { destruct pc as [| | | | | | | | | | | | |fh0|]; try by right. destruct (decide (fh0 = fh)); [left|right]; congruence. }
    { left. by eapply elem_self. }
    right.
    clear -Hfile Hpc Hf. destruct pc; try done; fields; section_cases; fields; try done.
    + rewrite lookup_insert_is_Some. destruct (decide (fh0 = fh)); auto.
    + rewrite lookup_insert_is_Some. destruct (decide (fh0 = fh)); auto.
    + rewrite lookup_delete_ne by congruence. done.
Qed.

Lemma handles_section answer ts s i pc :
  handles_pool creates ts s → 1 + took ts < u64_max → ts !! i = Some pc → finished pc = false →
  handles_pool creates (<[i := (section config answer pc s).1]> ts) (section config answer pc s).2.
Proof using.
  intros Hok Hb Hi Hf. pose proof (wrap_next _ _ Hok Hb) as Hw.
  pose proof (hp_thread _ _ _ Hok _ _ Hi) as Hpc. pose proof (hp_next _ _ _ Hok) as Hn.
  assert (∀ j q, j ≠ i → ts !! j = Some q → thread_ok creates s q ∧ apart pc q ∧ apart q pc) as Hother.
  { intros j q Hne Hj. split_and!.
    - by eapply hp_thread.
    - by apply (hp_apart _ _ _ Hok i j).
    - by apply (hp_apart _ _ _ Hok j i). }
  split.
  - intros j q [[-> ->]|[Hne Hj]]%lookup_section.
    + apply thread_ok_self; try done; [lia|]. eapply owner_below; [done|lia].
    + destruct (Hother j q Hne Hj) as (? & ? & ?). by apply thread_ok_other.
  - intros j k p q Hjk [[-> ->]|[Hj1 Hj]]%lookup_section [[-> ->]|[Hk1 Hk]]%lookup_section; [done|..].
    + destruct (Hother k q Hk1 Hk) as (? & ? & ?). by apply apart_section.
    + destruct (Hother j p Hj1 Hj) as (? & ? & ?). by apply apart_section.
    + by apply (hp_apart _ _ _ Hok j k).
  - unfold took. rewrite (tally_insert _ _ _ _ _ Hi). fold (took ts).
    destruct (section_fh answer s pc Hw Hf) as [_ [[-> ->]|(-> & -> & ->)]]; [lia|].
    rewrite bool_decide_eq_false_2, bool_decide_eq_true_2 by (done || intros [? ?]; done). cbn. lia.
  - assert (∀ fh, opener_fh pc = Some fh → 1 <= fh < next_fh s) as Hr by (intros fh ?; apply Hpc; auto).
    pose proof (hp_files _ _ _ Hok) as Hfs. clear Hpc.
    destruct pc; try done; cbn in Hr; fields; section_cases; fields; rewrite ?Hw; intros fh';
      rewrite ?lookup_insert_is_Some, ?lookup_delete_is_Some; naive_solver lia.
  - intros fh' ino' Hfh'.
    assert (fh_to_ino s !! fh' = Some ino' ∨
            ∃ b r, (section config answer pc s).1 = Answered fh' (Some (ino', b)) r) as [Hold|(b & r & E)].
    { revert Hfh'. clear -Hf.
      destruct pc; try done; fields; section_cases; fields;
        rewrite ?lookup_insert_Some, ?lookup_delete_Some; naive_solver. }
    + destruct (hp_owner _ _ _ Hok _ _ Hold) as (b & r & Hin). exists b, r. by eapply elem_section.
    + exists b, r. rewrite <-E. by eapply elem_self.
  - intros fh ino b r. by apply given_section.
  - intros fh backing r. by apply file_section.
Qed.

(** ** The counts of the backings *)

Definition one (ino ino' : Z) : Z := if decide (ino = ino') then 1 else 0.

Lemma pending_insert ts i pc pc' ino : ts !! i = Some pc →
  pending (<[i := pc']> ts) ino =
  pending ts ino - Z.b2z (bool_decide (pc_ref pc = Some ino)) + Z.b2z (bool_decide (pc_ref pc' = Some ino)).
Proof using. apply tally_insert. Qed.
Lemma pending_pos (ts : list Pc) pc ino : pc ∈ ts → pc_ref pc = Some ino → 1 <= pending ts ino.
Proof using.
  intros [j Hj]%list_elem_of_lookup Hr. eapply tally_elem; [exact Hj|]. by apply bool_decide_eq_true_2.
Qed.
Lemma bool_one ino ino' : Z.b2z (bool_decide (Some ino = Some ino')) = one ino ino'.
Proof using.
  unfold one. case_decide as E; [by rewrite bool_decide_eq_true_2 by congruence|].
  by rewrite bool_decide_eq_false_2 by congruence.
Qed.

(** What a section adds to the references of an inode. *)
Definition gain (pc : Pc) (s : OverlayFs) (ino' : Z) : Z :=
  match pc with
  | CheckBacking _ ino _ => match inode_backings s !! ino with Some _ => one ino ino' | None => 0 end
  | EnterBacking _ ino _ _ _ => one ino ino'
  | DropBacking ino _ => - one ino ino'
  | _ => 0
  end.

Lemma references_section answer ts s i pc ino' :
  ts !! i = Some pc → finished pc = false → thread_ok creates s pc →
  references (<[i := (section config answer pc s).1]> ts) (section config answer pc s).2 ino' =
  references ts s ino' + gain pc s ino'.
Proof using.
  intros Hi Hf (_ & _ & Hpc). unfold references. rewrite (pending_insert _ _ _ _ _ Hi).
  destruct pc; try done; cbn [gain]; fields; section_cases; fields; cbn [pc_ref]; rewrite ?bool_one;
    rewrite ?(bool_decide_eq_false_2 (None = Some ino')) by done; cbn [Z.b2z]; try lia.
  - rewrite (users_insert _ _ _ _ (proj1 Hpc)). unfold one. case_decide; lia.
  - erewrite (users_delete (fh_to_ino s)) by done. unfold one. case_decide; lia.
  - rewrite delete_id by done. lia.
Qed.

Lemma references_ref (ts : list Pc) s pc ino : pc ∈ ts → pc_ref pc = Some ino → 0 < references ts s ino.
Proof using. intros Hin Hr. pose proof (pending_pos _ _ _ Hin Hr). unfold references, users. lia. Qed.
Lemma references_owner ts s fh ino : fh_to_ino s !! fh = Some ino → 0 < references ts s ino.
Proof using.
  intros Hfh%users_pos. unfold references, pending.
  pose proof (tally_length (λ pc, bool_decide (pc_ref pc = Some ino)) ts). lia.
Qed.

(** The entry of an inode after a section. *)
Lemma backings_section answer s pc ino' :
  finished pc = false →
  inode_backings (section config answer pc s).2 !! ino' =
  match pc with
  | CheckBacking _ ino _ =>
      if decide (ino = ino') then (λ '(b, c), (b, c + 1)) <$> inode_backings s !! ino
      else inode_backings s !! ino'
  | EnterBacking w ino _ b _ =>
      if decide (ino = ino') then
        match w, inode_backings s !! ino with
        | ForOpen, Some (b', c) => Some (b', c + 1)
        | _, _ => Some (b, 1)
        end
      else inode_backings s !! ino'
  | DropBacking ino _ =>
      if decide (ino = ino')
      then inode_backings s !! ino ≫= λ '(b, c), if c - 1 =? 0 then None else Some (b, c - 1)
      else inode_backings s !! ino'
  | _ => inode_backings s !! ino'
  end.
Proof using.
  intros Hf. destruct pc; try done; fields; section_cases; fields; repeat case_decide; subst; cbn;
    rewrite ?lookup_insert_eq, ?lookup_insert_ne by done; try congruence.
  all: repeat match goal with E : inode_backings _ !! _ = _ |- _ => rewrite E end; cbn; try done.
  all: destruct (_ =? 0); rewrite ?lookup_insert_eq, ?lookup_insert_ne, ?lookup_delete_eq, ?lookup_delete_ne by done;
    congruence.
Qed.

Lemma count_section answer ts s i pc ino b c :
  thread_ok creates s pc → backings_pool creates ts s → ts !! i = Some pc → finished pc = false →
  inode_backings (section config answer pc s).2 !! ino = Some (b, c) →
  1 <= c <= references ts s ino + gain pc s ino ∧ (creates = false → c = references ts s ino + gain pc s ino).
Proof using.
  intros (_ & Hc & _) [Hn Hbk _] Hi Hf. rewrite backings_section by done.
  assert (0 <= references ts s ino) as Hr0.
  { unfold references, users, pending. pose proof (tally_length (λ pc, bool_decide (pc_ref pc = Some ino)) ts). lia. }
  assert (inode_backings s !! ino = None → creates = false → references ts s ino = 0) as Hno.
  { intros HN HF. destruct (decide (0 < references ts s ino)) as [Hp|]; [|lia].
    destruct (Hbk ino HF Hp). congruence. }
  destruct pc; cbn [gain]; try (intros Hb%Hn; by rewrite Z.add_0_r); unfold one; repeat case_decide; subst.
  all: try (repeat case_match; intros Hb%Hn; rewrite ?Z.add_0_r; exact Hb).
  all: destruct (inode_backings s !! ino) as [[b1 c1]|] eqn:Hb1; cbn; try done.
  all: try (destruct (Hn _ _ _ Hb1) as [Hc1 Hx1]).
  - intros [= <- <-]. split; [lia|]. intros HF. specialize (Hx1 HF). lia.
  - destruct w; intros [= <- <-]; (split; [lia|]); intros HF; [specialize (Hx1 HF); lia|by specialize (Hc HF)].
  - specialize (Hno eq_refl).
    assert (Some (b0, 1) = Some (b, c) → 1 <= c <= references ts s ino + 1 ∧
            (creates = false → c = references ts s ino + 1)) as Hnew.
    { intros [= <- <-]. split; [lia|]. intros HF. rewrite (Hno HF). done. }
    by destruct w.
  - destruct (Z.eqb_spec (c1 - 1) 0); [done|]. intros [= <- <-]. split; [lia|].
    intros HF. specialize (Hx1 HF). lia.
Qed.

Lemma backed_section answer ts s i pc ino :
  thread_ok creates s pc → backings_pool creates ts s → ts !! i = Some pc → finished pc = false →
  creates = false → 0 < references ts s ino + gain pc s ino →
  is_Some (inode_backings (section config answer pc s).2 !! ino) ∧
  (∀ b, fst <$> inode_backings s !! ino = Some b →
        fst <$> inode_backings (section config answer pc s).2 !! ino = Some b).
Proof using.
  intros (_ & Hc & _) [Hn Hbk _] Hi Hf HF. specialize (Hc HF). rewrite backings_section by done.
  specialize (Hbk ino HF).
  destruct pc; cbn [gain]; try (rewrite Z.add_0_r; intros Hb%Hbk; done); unfold one; repeat case_decide; subst.
  all: try (repeat case_match; rewrite ?Z.add_0_r; intros Hb%Hbk; done).
  all: destruct (inode_backings s !! ino) as [[b1 c1]|] eqn:Hb1; cbn; try done.
  - rewrite Z.add_0_r. by intros [? ?]%Hbk.
  - by destruct w.
  - by destruct w.
  - destruct (Hn _ _ _ Hb1) as [_ Hx]. specialize (Hx eq_refl). intros Hp.
    destruct (Z.eqb_spec (c1 - 1) 0); [lia|done].
  - intros Hp. destruct Hbk as [? ?]; [lia|done].
Qed.

Lemma backings_section_ok answer ts s i pc :
  handles_pool creates ts s → backings_pool creates ts s → ts !! i = Some pc → finished pc = false →
  backings_pool creates (<[i := (section config answer pc s).1]> ts) (section config answer pc s).2.
Proof using.
  intros Hh Hok Hi Hf. pose proof (hp_thread _ _ _ Hh _ _ Hi) as Hpc.
  pose proof (λ ino, references_section answer ts s i pc ino Hi Hf Hpc) as Hrefs.
  pose proof (λ ino, backed_section answer ts s i pc ino Hpc Hok Hi Hf) as Hbk.
  set (ts' := <[i := _]> ts) in *. set (s' := (section config answer pc s).2) in *.
  assert (∀ q ino b, creates = false → q ∈ ts' → pc_ref q = Some ino ∨ (∃ fh, fh_to_ino s' !! fh = Some ino) →
    fst <$> inode_backings s !! ino = Some b → fst <$> inode_backings s' !! ino = Some b) as Hkeep.
  { intros q ino b HF Hq Huse. apply Hbk; [done|]. rewrite <-Hrefs.
    destruct Huse as [Hr|[fh Hfh]]; [by eapply references_ref|by eapply references_owner]. }
  split.
  - intros ino b c Hb. rewrite Hrefs. by eapply count_section.
  - intros ino HF Hp. rewrite Hrefs in Hp. by apply Hbk.
  - intros q HF Hq. pose proof (bp_same _ _ _ Hok) as Hsame.
    pose proof Hq as [j [[-> ->]|[Hne Hj]]%lookup_section]%list_elem_of_lookup.
    + (* the thread itself *)
      specialize (Hsame pc HF (list_elem_of_lookup_2 _ _ _ Hi)). unfold s'. clear -Hf Hsame.
      destruct pc; try done; fields; section_cases; cbn in *; rewrite ?lookup_insert_eq; try done.
    + specialize (Hsame q HF (list_elem_of_lookup_2 _ _ _ Hj)).
      pose proof (hp_apart _ _ _ Hh i j _ _ ltac:(done) Hi Hj) as Hap.
      destruct q as [| | | | |w ino fd b fh|w ino b fh| | | |fh [[ino b]|] r| | | |]; cbn in Hsame |- *; try done;
        [by eapply Hkeep; [| |left|]..|].
      intros Hfh. eapply Hkeep; [done..|right; by eexists|]. apply Hsame. revert Hfh Hap. clear -Hf.
      subst s'. destruct pc; try done; fields; section_cases; fields; try done.
      * intros [[-> ->]|[_ ?]]%lookup_insert_Some Hap%(apart_fh _ _ fh); [by destruct (proj1 Hap eq_refl)|done].
      * by intros [_ ?]%lookup_delete_Some.
Qed.

(** ** A request keeps it *)

Lemma arrives_new ts pc : arrives creates ts pc → opener_fh pc = None ∧ pc_ref pc = None ∧ finished pc = false.
Proof using. by destruct 1. Qed.

(** A request for a release finds the thread that was given the handle. *)
Lemma arrives_releases ts s pc fh :
  handles_pool creates ts s → arrives creates ts pc → releases pc = Some fh →
  1 <= fh < next_fh s ∧ ∀ q, q ∈ ts → releases q ≠ Some fh ∧ (opener_fh q = Some fh → finished q = true).
Proof using.
  intros Hok [| |fh' backing r [k Hk]%list_elem_of_lookup Hno] [= <-].
  split; [by apply (hp_thread _ _ _ Hok _ _ Hk); left|].
  intros q Hq. split; [by apply Hno|]. intros Ho. apply list_elem_of_lookup in Hq as [j Hj].
  destruct (decide (j = k)) as [->|Hne]; [by simplify_eq|].
  by destruct (proj1 (hp_apart _ _ _ Hok j k _ _ Hne Hj Hk fh') Ho).
Qed.

Lemma apart_arrives ts s pc q :
  handles_pool creates ts s → arrives creates ts pc → q ∈ ts → apart pc q ∧ apart q pc.
Proof using.
  intros Hok Ha Hq. destruct (arrives_new _ _ Ha) as [Eo _].
  split; intros fh; rewrite Eo; (split; [done|]).
  - intros Hr. by apply (proj2 (arrives_releases _ _ _ _ Hok Ha Hr)).
  - intros Hr. split; [|done]. intros Hr'. by apply (proj2 (arrives_releases _ _ _ _ Hok Ha Hr') _ Hq).
Qed.

Lemma handles_arrives ts s pc :
  handles_pool creates ts s → arrives creates ts pc → handles_pool creates (ts ++ [pc]) s.
Proof using.
  intros Hok Ha. destruct (arrives_new _ _ Ha) as (Eo & _ & _). split.
  - intros i q [[_ Hi]|[-> <-]]%lookup_snoc_Some; [by eapply hp_thread; [|apply Hi]|]. split; [|split].
    + rewrite Eo. intros fh [?|Hr]; [done|]. by apply (arrives_releases _ _ _ _ Hok Ha).
    + intros HF. destruct Ha; [done|congruence|done].
    + by destruct Ha.
  - intros i j p q Hij [[_ Hi]|[-> <-]]%lookup_snoc_Some [[_ Hj]|[-> <-]]%lookup_snoc_Some; [..|done].
    + by apply (hp_apart _ _ _ Hok i j).
    + by apply list_elem_of_lookup_2, (apart_arrives _ _ _ _ Hok Ha) in Hi as [_ ?].
    + by apply list_elem_of_lookup_2, (apart_arrives _ _ _ _ Hok Ha) in Hj as [? _].
  - destruct (hp_next _ _ _ Hok). unfold took. rewrite tally_app, Eo. cbn. fold (took ts). lia.
  - apply Hok.
  - intros fh ino (b & r & Hin)%(hp_owner _ _ _ Hok). exists b, r. apply elem_of_app. by left.
  - intros fh ino b r [Hin|Hin%list_elem_of_singleton]%elem_of_app Hun; [|subst pc; by destruct (arrives_new _ _ Ha)].
    eapply (hp_given _ _ _ Hok); [done|]. intros q Hq. apply Hun, elem_of_app. by left.
  - intros fh backing r [Hin|Hin%list_elem_of_singleton]%elem_of_app; [|subst pc; by destruct (arrives_new _ _ Ha)].
    rewrite elem_of_app. destruct (hp_file _ _ _ Hok _ _ _ Hin); auto.
Qed.

Lemma backings_arrives ts s pc :
  backings_pool creates ts s → arrives creates ts pc → backings_pool creates (ts ++ [pc]) s.
Proof using.
  intros Hok Ha. destruct (arrives_new _ _ Ha) as (_ & Er & _).
  assert (∀ ino, references (ts ++ [pc]) s ino = references ts s ino) as E.
  { intros ino. unfold references, pending. rewrite tally_app, Er, bool_decide_eq_false_2 by done. cbn. lia. }
  split.
  - intros ino b c. rewrite E. apply Hok.
  - intros ino. rewrite E. by apply Hok.
  - intros q HF [Hq|Hq%list_elem_of_singleton]%elem_of_app; [|subst q];
      [by apply (bp_same _ _ _ Hok)|by destruct Ha].
Qed.

(** ** Every pool that serves requests *)

(** A mount that serves no request yet. *)
Definition idle (s : OverlayFs) : Prop :=
  open_files s = ∅ ∧ next_fh s = 1 ∧ inode_backings s = ∅ ∧ fh_to_ino s = ∅.

Definition served (s0 : OverlayFs) (P : Pool) : Prop := rtc (serving config creates) ([], s0) P.

Lemma serving_length P Q : serving config creates P Q → (length P.1 ≤ length Q.1)%nat.
Proof using. destruct 1 as [? ? []|]; cbn; rewrite ?length_insert, ?length_app; lia. Qed.

Lemma served_ok s0 P :
  idle s0 → served s0 P → Z.of_nat (length P.1) < u64_max - 1 →
  handles_pool creates P.1 P.2 ∧ backings_pool creates P.1 P.2.
Proof using.
  intros (Ef & En & Eb & Eo). revert P.
  apply (rtc_ind_r (λ P, Z.of_nat (length P.1) < u64_max - 1 → handles_pool creates P.1 P.2 ∧ backings_pool creates P.1 P.2)).
  - intros _. split; split; cbn; rewrite ?Ef, ?En, ?Eb, ?Eo; try done; try lia.
    + by intros fh [? ?].
    + by intros fh ino b r ?%not_elem_of_nil.
    + by intros fh backing r ?%not_elem_of_nil.
    + intros ino _. unfold references. cbn. rewrite Eo. done.
    + by intros pc _ ?%not_elem_of_nil.
  - intros P Q _ HPQ IH Hlen. pose proof (serving_length _ _ HPQ). destruct IH as [Hh Hb]; [lia|].
    destruct HPQ as [? ? [ts s i pc answer Hi Hf _]|ts s pc Ha]; cbn in *.
    + pose proof (tally_length (λ pc, bool_decide (is_Some (opener_fh pc))) ts) as Ht. fold (took ts) in Ht.
      rewrite length_insert in Hlen. split; [apply handles_section; [done|lia|done..]|by apply backings_section_ok].
    + split; [by apply handles_arrives|by apply backings_arrives].
Qed.

(** ** What the threads guarantee *)

Lemma idle_handles_ok ts s :
  handles_pool creates ts s → backings_pool creates ts s → Forall (λ pc, finished pc = true) ts →
  handles_ok (negb creates) (1 + Z.of_nat (length ts)) s.
Proof using.
  intros Hh Hb Hfin.
  assert (∀ ino, references ts s ino = users (fh_to_ino s) ino) as Erefs.
  { intros ino. unfold references, pending, tally.
    replace (List.filter _ ts) with (@nil Pc); [cbn; lia|]. clear -Hfin.
    induction Hfin as [|pc ts Hpc _ IH]; [done|]. cbn. rewrite bool_decide_eq_false_2; [done|].
    by destruct pc. }
  split.
  - pose proof (tally_length (λ pc, bool_decide (is_Some (opener_fh pc))) ts) as Ht. fold (took ts) in Ht.
    destruct (hp_next _ _ _ Hh). lia.
  - apply Hh.
  - intros fh [ino Hino]. destruct (hp_owner _ _ _ Hh _ _ Hino) as (b & r & [j Hj]%list_elem_of_lookup).
    destruct (hp_thread _ _ _ Hh _ _ Hj) as (_ & _ & Hopen). apply Hopen. by eexists.
  - intros ino b c Hc%(bp_count _ _ _ Hb). rewrite Erefs in Hc. destruct Hc as [? Hx]. split; [done|].
    intros ?%negb_true_iff. auto.
  - intros fh ino ?%negb_true_iff Hfh. apply (bp_backed _ _ _ Hb); [done|]. by eapply references_owner.
Qed.

Lemma unreleased_backing ts s fh ino b r :
  handles_pool creates ts s → backings_pool creates ts s → creates = false →
  Answered fh (Some (ino, b)) r ∈ ts → unreleased ts fh → fst <$> inode_backings s !! ino = Some b.
Proof using.
  intros Hh Hb HF Hin Hun. apply (bp_same _ _ _ Hb _ HF Hin). by eapply hp_given.
Qed.

(** C16. However the threads that serve [open], [create] and [release]
    interleave, the handles given out differ, and a handle has its open file
    until its release is done; no count of a backing runs down to zero in the
    table. When all threads have replied, the tables satisfy the invariant
    [handles_ok] of requests served one by one: every handle of an inode's
    backing is open, and a backing's count is at least one and at most the
    number of its handles. Without [create], whose insertion does not look for
    an entry, more holds: all handles of an inode that are not yet being
    released were given the same backing, the one of the table, as the kernel
    requires, also when their threads raced for it; and in the end a backing is
    counted exactly by its handles. With [create] neither is claimed: see the
    finding at overlay.rs:3214. There are fewer threads than numbers of handles.
    *)
Theorem threads_handles s0 ts s :
  idle s0 → served s0 (ts, s) → Z.of_nat (length ts) < u64_max - 1 →
  (∀ i j fh b1 r1 b2 r2, ts !! i = Some (Answered fh b1 r1) → ts !! j = Some (Answered fh b2 r2) → i = j) ∧
  (∀ fh b r, Answered fh b r ∈ ts → Released fh ∈ ts ∨ is_Some (open_files s !! fh)) ∧
  (∀ ino b c, inode_backings s !! ino = Some (b, c) → 1 <= c) ∧
  (creates = false → ∀ ino fh1 b1 r1 fh2 b2 r2,
     Answered fh1 (Some (ino, b1)) r1 ∈ ts → unreleased ts fh1 →
     Answered fh2 (Some (ino, b2)) r2 ∈ ts → unreleased ts fh2 →
     b1 = b2 ∧ fst <$> inode_backings s !! ino = Some b1) ∧
  (Forall (λ pc, finished pc = true) ts → handles_ok (negb creates) (1 + Z.of_nat (length ts)) s).
Proof using.
  intros Hidle Hs Hlen. destruct (served_ok _ _ Hidle Hs Hlen) as [Hh Hb]. cbn in *. split_and!.
  - intros i j fh b1 r1 b2 r2 Hi Hj. destruct (decide (i = j)) as [|Hne]; [done|].
    by destruct (proj1 (hp_apart _ _ _ Hh i j _ _ Hne Hi Hj fh) eq_refl).
  - intros fh b r. apply (hp_file _ _ _ Hh).
  - intros ino b c Hc%(bp_count _ _ _ Hb). lia.
  - intros HF ino fh1 b1 r1 fh2 b2 r2 H1 U1 H2 U2.
    pose proof (unreleased_backing _ _ _ _ _ _ Hh Hb HF H1 U1).
    pose proof (unreleased_backing _ _ _ _ _ _ Hh Hb HF H2 U2). split; [congruence|done].
  - by apply idle_handles_ok.
Qed.

(** ** Every schedule ends *)

Definition work (pc : Pc) : nat :=
  match pc with
  | LoadEnabled _ _ _ => 7 | CheckBacking _ _ _ => 6 | AskBacking _ _ _ => 5 | TakeHandle _ _ _ _ => 4
  | EnterBacking _ _ _ _ _ | Disable _ _ | RemoveOwner _ => 3
  | EnterFile _ _ _ _ _ | TakePlainHandle _ _ | DropBacking _ _ => 2
  | EnterOwner _ _ _ _ | EnterPlainFile _ _ _ | RemoveFile _ => 1
  | Answered _ _ _ | Released _ => 0
  end.

Lemma work_section answer pc s : finished pc = false → (work (section config answer pc s).1 < work pc)%nat.
Proof using. intros Hf. destruct pc; try done; fields; section_cases; cbn; lia. Qed.

Lemma sections_work P Q : sections config P Q → (sum_list_with work Q.1 < sum_list_with work P.1)%nat.
Proof using.
  destruct 1 as [ts s i pc answer Hi Hf _]. pose proof (work_section answer pc s Hf) as Hw.
  cbn [fst]. rewrite (insert_take_drop _ _ _ (lookup_lt_Some _ _ _ Hi)).
  rewrite <-(take_drop_middle _ _ _ Hi) at 3. rewrite !sum_list_with_app. cbn. lia.
Qed.

Lemma sections_progress ts s : Forall (λ pc, finished pc = true) ts ∨ ∃ Q, sections config (ts, s) Q.
Proof using.
  destruct (decide (Forall (λ pc, finished pc = true) ts)) as [|Hun%not_Forall_Exists]; [by left| |apply _].
  right. destruct (decide (free holds_owners ts)) as [Hfree|Hheld%not_Forall_Exists]; [| |apply _].
  - apply Exists_exists in Hun as (pc & [i Hi]%list_elem_of_lookup & Hf%not_true_is_false).
    eexists. by apply (section_step config ts s i pc (Err 0)).
  - apply Exists_exists in Hheld as (pc & [i Hi]%list_elem_of_lookup & Hh).
    apply not_false_is_true in Hh. eexists. by apply (section_step config ts s i pc (Err 0) Hi); destruct pc.
Qed.

End sections.

(** ** A race *)
Section schedules.
Context `{F64} (config : OverlayConfig).

(** Run the given threads one section each, in the given order. *)
Fixpoint play (schedule : list (nat * FsResult Z)) (P : Pool) : option Pool :=
  match schedule with
  | [] => Some P
  | (i, answer) :: schedule =>
      pc ← P.1 !! i;
      if finished pc || (uses_owners pc && existsb holds_owners P.1) then None
      else play schedule (<[i := (section config answer pc P.2).1]> P.1, (section config answer pc P.2).2)
  end.

Lemma play_sections schedule P Q : play schedule P = Some Q → rtc (sections config) P Q.
Proof using.
  revert P. induction schedule as [|[i answer] schedule IH]; intros [ts s]; cbn [play fst snd]; [by intros [= <-]|].
  destruct (ts !! i) as [pc|] eqn:Hi; [|done]. cbn.
  destruct (finished pc || _) eqn:Hg; [done|]. apply orb_false_iff in Hg as [Hf Hg]. intros HQ%IH.
  eapply rtc_l; [|exact HQ]. apply (section_step config ts s i pc answer Hi Hf).
  intros Hu. rewrite Hu in Hg. cbn in Hg. apply Forall_forall. intros q Hq. apply not_true_is_false. intros Hh.
  apply not_true_iff_false in Hg. apply Hg, existsb_exists. exists q. split; [by apply list_elem_of_In|done].
Qed.

Lemma play_served creates schedule s0 P Q :
  served config creates s0 P → play schedule P = Some Q → served config creates s0 Q.
Proof using.
  intros HP HQ%play_sections. unfold served. eapply rtc_trans; [exact HP|].
  clear HP. induction HQ as [|P1 P2 P3 H12 _ IH]; [done|]. eapply rtc_l; [by apply serving_section|done].
Qed.
End schedules.


(** Two opens of inode 7 race for a backing: both find none and ask for one,
    the second is faster and enters its own, and the first uses that one. *)
#[local] Existing Instance F64_Z.
Definition race_mount : OverlayFs := set_passthrough true (OverlayFs_new opaque_mount true).
Definition race_start : Pool := ([LoadEnabled ForOpen 7 30; LoadEnabled ForOpen 7 31], race_mount).
Definition race_schedule : list (nat * FsResult Z) :=
  zip [0; 1; 0; 1; 0; 1; 1; 0; 1; 0; 0; 0; 1; 1]%nat
      [Err 0; Err 0; Err 0; Err 0; Ok 100; Ok 101; Err 0; Err 0; Err 0; Err 0; Err 0; Err 0; Err 0; Err 0].

Lemma race_runs :
  (λ '(ts, s), (ts, inode_backings s, fh_to_ino s)) <$> play (OverlayConfig_default 0) race_schedule race_start =
  Some ([Answered 2 (Some (7, 101)) (Some (ROpenedPassthrough 2 101));
         Answered 1 (Some (7, 101)) (Some (ROpenedPassthrough 1 101))],
        {[ 7 := (101, 2) ]}, {[ 1 := 7; 2 := 7 ]}).
Proof. vm_compute. reflexivity. Qed.

Lemma race_served : served (OverlayConfig_default 0) false race_mount race_start.
Proof.
  eapply rtc_l; [apply (serving_request _ _ [] _ (LoadEnabled ForOpen 7 30)); constructor|].
  eapply rtc_l; [apply (serving_request _ _ [LoadEnabled ForOpen 7 30] _ (LoadEnabled ForOpen 7 31)); constructor|].
  apply rtc_refl.
Qed.

Lemma race_reached : ∃ s,
  served (OverlayConfig_default 0) false race_mount
    ([Answered 2 (Some (7, 101)) (Some (ROpenedPassthrough 2 101));
      Answered 1 (Some (7, 101)) (Some (ROpenedPassthrough 1 101))], s).
Proof.
  pose proof race_runs as Hrun.
  destruct (play _ _ _) as [[ts s]|] eqn:Hplay; [|done]. injection Hrun as -> _ _.
  exists s. eapply play_served; [apply race_served|exact Hplay].
Qed.

Lemma race_idle : idle race_mount.
Proof. repeat split. Qed.

Lemma threads_handles_witness :
  ∃ s, fst <$> inode_backings s !! 7 = Some 101 ∧ handles_ok true 3 s.
Proof.
  destruct race_reached as [s Hs]. exists s.
  destruct (threads_handles (OverlayConfig_default 0) false race_mount _ s race_idle Hs) as (_ & _ & _ & Hsame & Hquiet);
    [done|]. split.
  - refine (proj2 (Hsame eq_refl 7 1 101 _ 2 101 _ _ _ _ _)).
    + by apply elem_of_cons; right; apply elem_of_cons; left.
    + intros pc. rewrite !elem_of_cons, elem_of_nil. by intros [->|[->|[]]].
    + by apply elem_of_cons; left.
    + intros pc. rewrite !elem_of_cons, elem_of_nil. by intros [->|[->|[]]].
  - apply Hquiet. by repeat constructor.
Defined.
