(* ===== verification/Listing.v ===== *)
(** * Reading an open directory page by page

    [readdir] numbers the entries of the listing taken at [opendir]; the
    kernel reads them a buffer at a time, each time from the offset of the
    last entry it was given. *)

From S2P Require Import Prelude Libc Mapping Xattr ConfigData Config Sys Openat2 Node DataSource.
From S2P Require Import Whiteout Layer Copyup Overlay Ops OpsTree OpsFile Requests.
Local Open Scope Z_scope.

Abbreviation PageEntry := (Z * Z * FileType * bytes)%type.

(** An entry as it is sent, with the offset to go on from. *)
Definition page_entry (i : nat) (e : DirEntry) : PageEntry :=
  (de_ino e, Z.of_nat (i + 1), mode_to_filetype (de_mode e), de_name e).
Definition numbered (i : nat) (es : list DirEntry) : list PageEntry :=
  imap (λ j, page_entry (i + j)) es.

Lemma numbered_cons i e es : numbered i (e :: es) = page_entry i e :: numbered (S i) es.
Proof.
  unfold numbered. rewrite imap_cons. f_equal; [by rewrite Nat.add_0_r|].
  apply imap_ext. intros j e' _. cbn. f_equal. lia.
Qed.
Lemma length_numbered i es : length (numbered i es) = length es.
Proof. apply length_imap. Qed.

(** A page is a prefix of what is left, of at least one entry when the first
    fits. *)
Lemma emit_prefix full es : ∀ i, ∃ k,
  (k <= length es)%nat ∧ emit_entries full i es = take k (numbered i es) ∧
  (full i = false → es ≠ [] → (1 <= k)%nat).
Proof.
  induction es as [|e es IH]; intros i; cbn [emit_entries]; [by exists 0%nat|].
  destruct (full i) eqn:Hf; [exists 0%nat; repeat split; [lia|done]|].
  destruct (IH (S i)) as (k & Hk & -> & _). exists (S k). rewrite numbered_cons. cbn [length take].
  repeat split; [lia|intros; lia].
Qed.

(** The offset the kernel reads on from: of the last entry it has. *)
Definition resume_offset (offset : Z) (out : list PageEntry) : Z :=
  default offset ((λ e : PageEntry, e.1.1.2) <$> last out).

Lemma resume_after i k es : (k <= length es)%nat →
  resume_offset (Z.of_nat i) (take k (numbered i es)) = Z.of_nat (i + k).
Proof.
  intros Hk. unfold resume_offset. rewrite last_lookup, length_take, length_numbered, Nat.min_l by done.
  destruct k as [|k]; [by rewrite Nat.add_0_r|]. cbn [Nat.pred]. rewrite lookup_take_lt by lia.
  unfold numbered. rewrite list_lookup_imap.
  destruct (lookup_lt_is_Some_2 es k) as [e ->]; [lia|]. cbn. lia.
Qed.

(** The kernel's loop: a buffer per call, until a reply is empty.  A buffer is
    given the offset it starts at. *)
Fixpoint read_pages (fh : Z) (buffers : list (nat → nat → bool)) (offset : Z)
    : SM OverlayFs (list PageEntry) :=
  match buffers with
  | [] => sm_ret []
  | full :: buffers =>
      let! r := readdir (full (Z.to_nat offset)) fh offset in
      match r with
      | Ok (RDirectory ((_ :: _) as out)) =>
          let! rest := read_pages fh buffers (resume_offset offset out) in
          sm_ret (out ++ rest)
      | _ => sm_ret []
      end
  end.

Lemma read_pages_from fh es s : open_dirs s !! fh = Some es →
  ∀ buffers i, Forall (λ full, ∀ off, full off off = false) buffers →
  (length es - i < length buffers)%nat →
  read_pages fh buffers (Z.of_nat i) s = Ret (numbered i (drop i es), s).
Proof.
  intros Hes. induction buffers as [|full buffers IH]; intros i Hfull Hlen; [cbn in Hlen; lia|].
  apply Forall_cons in Hfull as [Hf Hfull]. cbn [read_pages length] in *. rewrite Nat2Z.id.
  unfold readdir, sm_bind, sm_get, sm_ret. cbn [bind]. rewrite Hes, Nat2Z.id. cbn [bind].
  destruct (emit_prefix (full i) (drop i es) i) as (k & Hk & -> & Hpos).
  rewrite length_drop in Hk. destruct (decide (drop i es = [])) as [Hnil|Hne].
  { rewrite Hnil. change (numbered i []) with (@nil PageEntry). by rewrite take_nil. }
  specialize (Hpos (Hf i) Hne).
  destruct (take k (numbered i (drop i es))) as [|e out] eqn:Etake.
  { apply (f_equal length) in Etake. rewrite length_take, length_numbered, length_drop in Etake.
    cbn in Etake. assert (0 < length (drop i es))%nat by (destruct (drop i es); [done|cbn; lia]).
    rewrite length_drop in *. lia. }
  rewrite <-Etake, resume_after by (rewrite length_drop; lia). rewrite IH by (done || lia). cbn [bind].
  do 2 f_equal. rewrite <-(take_drop k (numbered i (drop i es))) at 2. f_equal.
  apply list_eq. intros j. rewrite lookup_drop. unfold numbered. rewrite !list_lookup_imap, !lookup_drop.
  rewrite Nat.add_assoc. by destruct (es !! _).
Qed.

(** C18. A directory is read completely and once.  Whatever the buffers of the
    single calls, as long as each has room for one entry and there is a call
    per entry and one more, reading on from the offset of the last entry ends
    and gives every entry of the listing taken at [opendir], in its order and
    each once, numbered from 1; the state is left alone, and changes of the
    directory in the meantime make no difference. *)
Theorem readdir_complete (fh : Z) (es : list DirEntry) (s : OverlayFs) (buffers : list (nat → nat → bool))
    (Hes : open_dirs s !! fh = Some es) (Hroom : Forall (λ full, ∀ off, full off off = false) buffers)
    (Hcalls : (length es < length buffers)%nat) :
  read_pages fh buffers 0 s = Ret (numbered 0 es, s).
Proof. apply (read_pages_from fh es s Hes buffers 0); [done|lia]. Qed.

Definition listing_fs : OverlayFs :=
  let entry nm := {| de_name := bs nm; de_ino := 7; de_mode := S_IFREG; de_attr := None; de_node_id := None |} in
  set_dirs {[ 1 := entry <$> ["a"; "b"; "c"]%string ]} 2
    (OverlayFs_new (OverlayInner_new [] (-1) {| o_uid := 65534; o_gid := 65534 |} false) true).

(** Buffers of two entries. *)
Lemma readdir_complete_witness :
  read_pages 1 (repeat (λ off i, off + 2 <=? i)%nat 4) 0 listing_fs =
    Ret ([(7, 1, RegularFile, bs "a"); (7, 2, RegularFile, bs "b"); (7, 3, RegularFile, bs "c")], listing_fs).
Proof.
  rewrite (readdir_complete 1 _ listing_fs (repeat (λ off i, off + 2 <=? i)%nat 4) eq_refl).
  - reflexivity.
  - apply Forall_forall. intros f Hf off. apply list_elem_of_In, repeat_spec in Hf as ->.
    apply Nat.leb_gt. lia.
  - cbn. lia.
Defined.
