(* ===== verification/Overrides.v ===== *)
(** * The owner and mode kept in an attribute

    What [setattr] stores for a layer with a stat override is read back by
    every stat of the file; a file type that was stored with it is lost. *)

From S2P Require Import Prelude Libc Mapping Xattr ConfigData Config Sys Openat2 Node DataSource.
From S2P Require Import Whiteout Layer Copyup Overlay Ops OpsTree OpsFile.
Local Open Scope Z_scope.

Lemma no_colon_dec n : 0 <= n → COLON ∉ print_dec n.
Proof. intros Hn. apply (print_radix_no_char 10); [lia|done|done]. Qed.
Lemma no_colon_oct n : 0 <= n → COLON ∉ print_oct n.
Proof. intros Hn. apply (print_radix_no_char 8); [lia|done|done]. Qed.

(** The fields of a stored value, with and without a type. *)
Lemma override_value_fields uid gid mode :
  is_u32 uid → is_u32 gid → is_u32 mode →
  splitn_on 4 COLON (override_value uid gid mode) = [print_dec uid; print_dec gid; print_oct mode].
Proof.
  intros [? _] [? _] [? _]. unfold override_value.
  do 2 rewrite splitn_on_app by (by apply no_colon_dec). by rewrite splitn_on_none by (by apply no_colon_oct).
Qed.
Lemma typed_value_fields uid gid mode ty :
  is_u32 uid → is_u32 gid → is_u32 mode →
  splitn_on 4 COLON (override_value uid gid mode ++ COLON :: ty) =
    [print_dec uid; print_dec gid; print_oct mode; ty].
Proof.
  intros [? _] [? _] [? _]. unfold override_value. rewrite <-!app_assoc. cbn [app]. rewrite <-app_assoc. cbn [app].
  do 2 rewrite splitn_on_app by (by apply no_colon_dec). by rewrite splitn_on_app by (by apply no_colon_oct).
Qed.

(** What a value without a type makes of a [stat]. *)
Definition overridden (uid gid mode : Z) (st : stat) : stat :=
  set_st_mode (Z.lor mode (file_type (st_mode st))) (set_st_gid gid (set_st_uid uid st)).

Lemma apply_override_value `{DevT} uid gid mode st :
  is_u32 uid → is_u32 gid → is_u32 mode →
  parse_and_apply_override (override_value uid gid mode) st = (Ok tt, overridden uid gid mode st).
Proof.
  intros Hu Hg Hm. unfold parse_and_apply_override. rewrite override_value_fields by done.
  by rewrite !parse_print_u32, parse_print_u32_oct by done.
Qed.

(** C34. What [setattr] stores is what a stat gives: the owner, the group and
    the permission bits of the stored value, with the type and everything
    else of the file itself; and a later [setattr] that changes only some of
    the three reads the others back. *)
Theorem override_round_trip `{DevT} (uid gid mode : Z) (st : stat)
    (Hu : is_u32 uid) (Hg : is_u32 gid) (Hm : is_u32 mode) :
  parse_and_apply_override (override_value uid gid mode) st = (Ok tt, overridden uid gid mode st) ∧
  parse_override_fields (override_value uid gid mode) st = (uid, gid, mode).
Proof.
  split; [by apply apply_override_value|]. unfold parse_override_fields.
  rewrite override_value_fields by done. by rewrite !parse_print_u32, parse_print_u32_oct by done.
Qed.

Lemma override_round_trip_witness :
  @parse_and_apply_override DevT_halves (override_value 1000 100 420) (set_st_mode 0x8180 zeroed_stat) =
    (Ok tt, overridden 1000 100 420 (set_st_mode 0x8180 zeroed_stat)).
Proof. refine (proj1 (@override_round_trip DevT_halves 1000 100 420 _ _ _ _)); done. Defined.

(** The value of a block device, and what a [setattr] of its mode makes of
    it. *)
Definition block_value (uid gid perm M m : Z) : bytes :=
  override_value uid gid perm ++ COLON :: bs "block" ++ print_dec M ++ COLON :: print_dec m.
Definition chmod_value (old : bytes) (st : stat) (mode : Z) : bytes :=
  let '(uid, gid, _) := parse_override_fields old st in override_value uid gid (Z.land mode PERM_MASK).

Lemma perm_u32 mode : is_u32 (Z.land mode PERM_MASK).
Proof.
  unfold is_u32, PERM_MASK. change 4095 with (Z.ones 12). rewrite Z.land_ones by lia.
  pose proof (Z.mod_pos_bound mode (2 ^ 12) ltac:(lia)). lia.
Qed.

Lemma override_type_block `{DevT} M m : is_u32 M → is_u32 m →
  override_type (bs "block" ++ print_dec M ++ COLON :: print_dec m) = Some (S_IFBLK, Some (makedev M m)).
Proof.
  intros [HM ?] [? ?]. assert (∀ t, override_type (bs "block" ++ t) = Some (S_IFBLK, parse_device t)) as -> by done.
  unfold parse_device.
  rewrite splitn_on_app by (by apply no_colon_dec). cbn [splitn_on].
  by rewrite !parse_print_u32.
Qed.

(** The calls of a [setattr] of the mode through an open descriptor: the file
    is [st], its attribute [old], and only [value] may be stored. *)
Definition STORES (st : stat) (old value : bytes) : policy := {|
  ghost := unit;
  pol_pre _ c := match c with
                 | Fstat _ | Fgetxattr _ _ _ => True
                 | Fsetxattr _ _ v _ => v = value
                 | _ => False
                 end;
  pol_post _ c := match c with
                  | Fstat _ => λ r _, r = Ok st
                  | Fgetxattr _ _ _ => λ r _, r = Ok old
                  | _ => λ _ _, True
                  end;
  pol_diverge := False;
  pol_panic := False
|}.

Lemma setattr_stores `{F64, DevT} config l xattr_name fd path mode st old s :
  0 <= fd → valid_utf8 old = true →
  sm_wp (STORES st old (chmod_value old st mode))
    (setattr_override config l xattr_name fd path (Some mode) None None) s tt (λ _ _ _, True).
Proof.
  intros Hfd Hutf. unfold setattr_override. rewrite (proj2 (Z.leb_le 0 fd) Hfd).
  apply sm_wp_try, sm_wp_call; [done|]. intros ? [] ->. cbv zeta. apply sm_wp_bind, sm_wp_bind, sm_wp_call; [done|].
  intros ? [] ->. cbv beta iota. rewrite Hutf. apply sm_wp_ret.
  assert (chmod_value old st mode = let '(u, g, _) := parse_override_fields old st in
    override_value u g (Z.land mode PERM_MASK)) as E by done.
  destruct (parse_override_fields old st) as [[u g] m]. apply sm_wp_bind, sm_wp_gets, sm_wp_call; done.
Qed.

(** A chmod turns a stored device into an ordinary file.  A regular file
    whose attribute says it is a block device is given by a stat as that
    device; [setattr] of its mode stores a value without a type, and from then
    on a stat gives the type of the file that holds the attribute. *)
Theorem chmod_loses_type `{F64, DevT} (config : OverlayConfig) (l : OvlLayer) (xattr_name path : bytes)
    (fd : RawFd) (uid gid perm M m mode : Z) (st : stat) (s : OverlayFs)
    (Hu : is_u32 uid) (Hg : is_u32 gid) (Hp : is_u32 perm) (HM : is_u32 M) (Hm : is_u32 m) (Hfd : 0 <= fd)
    (Hutf : valid_utf8 (block_value uid gid perm M m) = true) :
  let old := block_value uid gid perm M m in
  parse_and_apply_override old st =
    (Ok tt, set_st_mode (Z.lor perm S_IFBLK) (set_st_gid gid (set_st_uid uid (set_st_rdev (makedev M m) st)))) ∧
  ∃ new,
    sm_wp (STORES st old new) (setattr_override config l xattr_name fd path (Some mode) None None) s tt
      (λ _ _ _, True) ∧
    parse_and_apply_override new st = (Ok tt, overridden uid gid (Z.land mode PERM_MASK) st).
Proof.
  cbv zeta. assert (splitn_on 4 COLON (block_value uid gid perm M m) =
    [print_dec uid; print_dec gid; print_oct perm; bs "block" ++ print_dec M ++ COLON :: print_dec m]) as E.
  { by apply typed_value_fields. }
  split.
  - unfold parse_and_apply_override. rewrite E, !parse_print_u32, parse_print_u32_oct by done.
    by rewrite override_type_block.
  - eexists. split; [by apply setattr_stores|].
    unfold chmod_value, parse_override_fields. rewrite E, !parse_print_u32 by done. cbn [default].
    apply apply_override_value; [done..|apply perm_u32].
Qed.

Definition demo_layer : OvlLayer :=
  from_datasource (Direct.direct_source {| Direct.resolved_path := bs "/"; Direct.da_fd := Some 3; Direct.dev := 7;
    Direct.stat_override := ModeContainers; Direct.nfs_fh := 0; Direct.fh_size := 0 |}) false.

Lemma chmod_loses_type_witness :
  let st := set_st_mode 0x8180 zeroed_stat in
  st_mode (@parse_and_apply_override DevT_halves (bs "0:6:660:block8:1") st).2 = Z.lor 432 S_IFBLK.
Proof.
  intros st. refine (f_equal (λ p, st_mode p.2) (proj1 (@chmod_loses_type F64_Z DevT_halves
    (@OverlayConfig_default F64_Z 0) demo_layer [] [] 3 0 6 432 8 1 420 st
    (OverlayFs_new (OverlayInner_new [] (-1) {| o_uid := 65534; o_gid := 65534 |} false) true) _ _ _ _ _ _ _))); done.
Defined.
