(* ===== verification/Provenance.v ===== *)
(** * Where a descriptor comes from

    The policy [SAFE]: what the file system promises about the calls it makes.
    Its ghost state remembers, for every open descriptor, whether it was opened
    in the upper layer, the work directory or a lower layer, and whether it was
    opened for writing.  A call that changes something must be on the upper
    layer or the work directory; an open must be confined to the layer
    ([RESOLVE_IN_ROOT]) and by name below a known descriptor; a call that takes
    a directory and a name takes one path component and does not follow a link
    there.

    Four calls of the code do not keep to that, and the policy lets them pass
    by what they start from: [Fchmodat], which follows a link at the name, and
    [Truncate], [Lsetxattr] and [Lremovexattr], which resolve a path below
    [/proc/self/fd/N].  Where they start is the upper layer or the work
    directory; where a link on the way leads is not known.

    [Epoch] says whether the kernel gives times that the attributes of an answer
    can hold ([times_ok]).  If it need not, a panic is allowed, else it is not;
    the theorems hold either way.

    A data source is [Lawful] when its operations only read, with [openat] the
    one exception: clients use the class, and [DirectAccess] has an
    instance. *)

From S2P Require Import Prelude Libc Sys Xattr Openat2 Node DataSource.
Local Open Scope Z_scope.

(** Are the times of every [stat] in the range of an attribute? *)
Class Epoch := epoch : bool.

Inductive Prov := PUpper | PWork | PLower.
#[export] Instance Prov_eq_dec : EqDecision Prov.
Proof. solve_decision. Defined.

Record fdinfo := { fd_prov : Prov; fd_write : bool }.
Abbreviation fds := (gmap Z fdinfo).

(** Flags that open for writing, or create or truncate. *)
Definition WRITE_FLAGS : Z := Z.lor O_WRONLY (Z.lor O_RDWR (Z.lor O_CREAT O_TRUNC)).
Definition opens_write (flags : Z) : bool := negb (Z.land flags WRITE_FLAGS =? 0).

(** A descriptor whose file may be changed. *)
Definition changeable (g : fds) (fd : RawFd) : Prop :=
  ∃ i, g !! fd = Some i ∧ fd_prov i ≠ PLower.
(** A descriptor that may be written to: one of a lower layer was opened for
    reading only, and the kernel refuses the write. *)
Definition write_safe (g : fds) (fd : RawFd) : Prop :=
  ∃ i, g !! fd = Some i ∧ (fd_prov i = PLower → fd_write i = false).
(** One name below a directory that may be changed. *)
Definition entry_safe (g : fds) (dirfd : RawFd) (nm : bytes) : Prop :=
  changeable g dirfd ∧ simple_name nm.
(** A path below such a directory. *)
Definition path_safe (g : fds) (path : bytes) : Prop :=
  ∃ fd b, path = proc_fd_path fd b ∧ changeable g fd.

Definition is_set_ioctl (cmd : Z) : bool := (cmd =? 0x40086602) || (cmd =? 0x40087602).

Definition safe_pre (g : fds) (s : sys) : Prop :=
  match s with
  | Openat2 dirfd path flags mode resolve =>
      resolve = RESOLVE_IN_ROOT ∧
      ∃ i, g !! dirfd = Some i ∧ (opens_write flags = true → fd_prov i ≠ PLower)
  | OpenPath _ _ _ | Realpath _ => False
  | Fchown fd _ _ | Fchmod fd _ | Futimens fd _ | Fsetxattr fd _ _ _ | Ficlone fd _ => changeable g fd
  | Ftruncate fd _ | Write fd _ | Pwrite fd _ _ | Fallocate fd _ _ _ | Sendfile fd _ _
  | CopyFileRange _ _ fd _ _ => write_safe g fd
  | Mkdirat d nm _ | Mknodat d nm _ _ | Unlinkat d nm _ | Symlinkat _ d nm => entry_safe g d nm
  | Fchownat d nm _ _ flags | Utimensat d nm _ flags => entry_safe g d nm ∧ flags = AT_SYMLINK_NOFOLLOW
  | Renameat d nm d' nm' | Renameat2 d nm d' nm' _ => entry_safe g d nm ∧ entry_safe g d' nm'
  | Linkat d nm d' nm' flags => entry_safe g d nm ∧ entry_safe g d' nm' ∧ flags = 0
  (* these may follow a link on the way *)
  | Fchmodat d nm _ _ => entry_safe g d nm
  | Truncate path _ | Lsetxattr path _ _ _ | Lremovexattr path _ => path_safe g path
  | IoctlLong fd cmd _ => is_set_ioctl cmd = true → changeable g fd
  | _ => True
  end.

(** What is known of the answers.  A descriptor is new; an entry's name is one
    path component; a write succeeds only on a descriptor opened for writing;
    and under [Epoch] a [stat] has times since the epoch. *)
Definition time_ok (secs nsec : Z) : Prop := 0 <= secs < 2 ^ 63 ∧ 0 <= nsec < 10 ^ 9.
Definition times_ok (st : stat) : Prop :=
  time_ok (st_atime st) (st_atime_nsec st) ∧ time_ok (st_mtime st) (st_mtime_nsec st) ∧
  time_ok (st_ctime st) (st_ctime_nsec st).
Definition stat_ok (r : FsResult stat) : Prop := ∀ st, r = Ok st → times_ok st.
Definition times_in `{Epoch} (st : stat) : Prop := epoch = true → times_ok st.
Definition stat_in `{Epoch} (r : FsResult stat) : Prop := ∀ st, r = Ok st → times_in st.
Definition entries_ok (r : FsResult (list RawDirEntry)) : Prop :=
  ∀ es, r = Ok es → Forall (λ e, simple_name (rde_name e)) es.

Definition written_ok {A} (g : fds) (fd : RawFd) (r : FsResult A) : Prop :=
  ∀ n, r = Ok n → ∃ i, g !! fd = Some i ∧ fd_write i = true.

Definition safe_post `{Epoch} (g : fds) (s : sys) : resp s → fds → Prop :=
  match s with
  | Openat2 dirfd path flags mode resolve => λ r g',
      match r with
      | Ok fd => g !! fd = None ∧
                 ∃ i, g !! dirfd = Some i ∧
                      g' = <[fd := {| fd_prov := fd_prov i; fd_write := opens_write flags |}]> g
      | Err _ => g' = g
      end
  | Fstat _ | Fstatat _ _ _ | Statx _ _ _ _ => λ r g', stat_in r ∧ g' = g
  | ReadDir _ | ReadDirDup _ => λ r g', entries_ok r ∧ g' = g
  | Write fd _ | Pwrite fd _ _ | Fallocate fd _ _ _ | CopyFileRange _ _ fd _ _ => λ r g',
      written_ok g fd r ∧ g' = g
  | _ => λ _ g', g' = g
  end.

(** Loops may run on: termination is proved where it holds. *)
Definition SAFE `{Epoch} : policy :=
  {| ghost := fds; pol_pre := safe_pre; pol_post := safe_post; pol_diverge := True;
     pol_panic := epoch = false |}.

(** ** Knowledge only grows *)

Lemma changeable_mono g g' fd : g ⊆ g' → changeable g fd → changeable g' fd.
Proof. intros Hg (i & Hi & ?). exists i. split; [by eapply lookup_weaken|done]. Qed.
Lemma write_safe_mono g g' fd : g ⊆ g' → write_safe g fd → write_safe g' fd.
Proof. intros Hg (i & Hi & ?). exists i. split; [by eapply lookup_weaken|done]. Qed.
Lemma entry_safe_mono g g' fd nm : g ⊆ g' → entry_safe g fd nm → entry_safe g' fd nm.
Proof. intros Hg []. split; [by eapply changeable_mono|done]. Qed.
Lemma changeable_write_safe g fd : changeable g fd → write_safe g fd.
Proof. intros (i & Hi & ?). by exists i. Qed.
Lemma written_changeable {A} g fd (r : FsResult A) n :
  write_safe g fd → written_ok g fd r → r = Ok n → changeable g fd.
Proof.
  intros (i & Hi & Hw) Hr Hn. destruct (Hr n Hn) as (i' & Hi' & Hw'). exists i. split; [done|].
  intros Hp. simplify_eq. rewrite Hw in Hw'; done.
Qed.
#[export] Hint Resolve changeable_mono write_safe_mono entry_safe_mono changeable_write_safe : ovl.

Lemma opens_write_valid flags : opens_write (Z.land flags VALID_OPEN_FLAGS) = opens_write flags.
Proof.
  unfold opens_write. pose proof (Z.land_assoc flags VALID_OPEN_FLAGS WRITE_FLAGS) as Ha.
  change (Z.land VALID_OPEN_FLAGS WRITE_FLAGS) with WRITE_FLAGS in Ha. by rewrite Ha.
Qed.

(** ** Rules of the calls *)
Section rules.
Context `{Epoch} {S : Type}.
Implicit Types (s : S) (g : fds).

(** A call that opens nothing. *)
Lemma safe_call (c : sys) s g (Q : resp c → S → fds → Prop) :
  safe_pre g c →
  (match c with Openat2 _ _ _ _ _ => False | _ => True end) →
  (∀ r, match c return resp c → Prop with
        | Fstat _ | Fstatat _ _ _ | Statx _ _ _ _ => stat_in
        | ReadDir _ | ReadDirDup _ => entries_ok
        | Write fd _ | Pwrite fd _ _ | Fallocate fd _ _ _ | CopyFileRange _ _ fd _ _ => written_ok g fd
        | _ => λ _, True
        end r → Q r s g) →
  sm_wp SAFE (sm_call c) s g Q.
Proof.
  intros Hpre Hno HQ. apply sm_wp_call; [done|].
  intros r g'. destruct c; try done; simpl; (intros [? ->] || intros ->); auto.
Qed.

(** [safe_openat]: the new descriptor has the directory's origin. *)
Lemma wp_safe_openat dirfd path flags mode i s g (Q : FsResult RawFd → S → fds → Prop) :
  g !! dirfd = Some i → (opens_write flags = true → fd_prov i ≠ PLower) →
  (∀ fd g', g ⊆ g' → g' !! fd = Some {| fd_prov := fd_prov i; fd_write := opens_write flags |} →
     Q (Ok fd) s g') →
  (∀ e, Q (Err e) s g) →
  sm_wp SAFE (safe_openat dirfd path flags mode) s g Q.
Proof.
  intros Hi Hw HOk HErr. unfold safe_openat. apply sm_wp_try, sm_wp_ret.
  destruct (cstr_bytes path) as [c|e]; [|by apply HErr].
  apply sm_wp_call; [split; [done|]; exists i; rewrite opens_write_valid; done|].
  intros [fd|e] g' Hpost; [|by destruct Hpost; apply HErr].
  destruct Hpost as (Hfresh & i' & Hi' & ->). rewrite opens_write_valid.
  assert (i' = i) as -> by congruence.
  apply HOk; [by apply insert_subseteq|by rewrite lookup_insert_eq].
Qed.

(** [open_parent_safe_cstr] gives a descriptor of the same layer and one
    name. *)
Lemma wp_open_parent_safe dirfd path i s g
    (Q : FsResult (option RawFd * bytes) → S → fds → Prop) :
  g !! dirfd = Some i →
  (∀ p b g' j, g ⊆ g' → simple_name b → g' !! default dirfd p = Some j → fd_prov j = fd_prov i →
     Q (Ok (p, b)) s g') →
  (∀ e, Q (Err e) s g) →
  sm_wp SAFE (open_parent_safe dirfd path) s g Q.
Proof.
  intros Hi HOk HErr. unfold open_parent_safe.
  destruct (rsplit_once SLASH path) as [[p b]|] eqn:E.
  - apply sm_wp_try. eapply wp_safe_openat; [done|done|..].
    + intros fd g' Hg Hfd. apply sm_wp_ret. eapply HOk; eauto with ovl.
    + intros e. apply HErr.
  - apply sm_wp_ret. apply (HOk None path g i); eauto with ovl.
Qed.

Lemma wp_open_parent_safe_cstr dirfd path i s g
    (Q : FsResult (option RawFd * RawFd * bytes) → S → fds → Prop) :
  g !! dirfd = Some i →
  (∀ p d b g' j, g ⊆ g' → simple_name b → g' !! d = Some j → fd_prov j = fd_prov i →
     Q (Ok (p, d, b)) s g') →
  (∀ e g', g ⊆ g' → Q (Err e) s g') →
  sm_wp SAFE (open_parent_safe_cstr dirfd path) s g Q.
Proof.
  intros Hi HOk HErr. unfold open_parent_safe_cstr. apply sm_wp_try.
  eapply wp_open_parent_safe; [done|..].
  - intros p b g' j Hg Hb Hj Hp. apply sm_wp_try, sm_wp_ret.
    unfold cstr_bytes. case_bool_decide; [by apply HErr|].
    apply sm_wp_ret. by eapply HOk.
  - intros e. by apply HErr.
Qed.
End rules.

(** ** Lawful data sources *)

(** The program only reads, in a state that knows [fd]. *)
Definition reads `{Epoch} {A} (fd : RawFd) (m : SM unit A) (R : A → Prop) : Prop :=
  ∀ g, is_Some (g !! fd) → ∀ Q : A → unit → fds → Prop,
    (∀ r g', g ⊆ g' → R r → Q r tt g') → sm_wp SAFE m tt g Q.

Class Lawful `{Epoch} (d : DataSource) : Prop := {
  law_file_exists path : reads (root_fd d) (file_exists d path) (λ _, True);
  law_statat path flags mask : reads (root_fd d) (statat d path flags mask) stat_in;
  law_fstat fd path mask : reads (root_fd d) (ds_fstat d fd path mask) stat_in;
  law_opendir path : reads (root_fd d) (opendir d path) entries_ok;
  law_listxattr path n : reads (root_fd d) (listxattr d path n) (λ _, True);
  law_getxattr path nm n : reads (root_fd d) (getxattr d path nm n) (λ _, True);
  law_readlinkat path : reads (root_fd d) (ds_readlinkat d path) (λ _, True);
  law_get_nfs_filehandle path : reads (root_fd d) (get_nfs_filehandle d path) (λ _, True);
  law_openat path flags mode g i (Q : FsResult RawFd → unit → fds → Prop) :
    g !! root_fd d = Some i → (opens_write flags = true → fd_prov i ≠ PLower) →
    (∀ fd g', g ⊆ g' → g' !! fd = Some {| fd_prov := fd_prov i; fd_write := opens_write flags |} →
       Q (Ok fd) tt g') →
    (∀ e g', g ⊆ g' → Q (Err e) tt g') →
    sm_wp SAFE (openat d path flags mode) tt g Q
}.

Section direct.
Import Direct.
Context `{Epoch} (d : DirectAccess).

Lemma wp_parent_of path g (Q : FsResult (RawFd * bytes) → unit → fds → Prop) :
  is_Some (g !! fd d) →
  (∀ f b g', g ⊆ g' → simple_name b → Q (Ok (f, b)) tt g') →
  (∀ e, Q (Err e) tt g) → sm_wp SAFE (parent_of d path) tt g Q.
Proof.
  intros [i Hi] HOk HErr. apply sm_wp_try. eapply wp_open_parent_safe; [done|..].
  - intros p b g' j Hg Hb _ _. apply sm_wp_ret. by apply HOk.
  - intros e. apply HErr.
Qed.

Lemma wp_file_exists_at dirfd nm g (Q : bool → unit → fds → Prop) :
  (∀ b, Q b tt g) → sm_wp SAFE (file_exists_at dirfd nm) tt g Q.
Proof.
  intros HQ. unfold file_exists_at. destruct (cstr_bytes nm); [|by apply sm_wp_ret].
  apply sm_wp_bind, safe_call; [done..|]. intros [?|e] _; [by apply sm_wp_ret|].
  destruct (e =? EINVAL); [|by apply sm_wp_ret].
  apply sm_wp_bind, safe_call; [done..|]. intros r _. by apply sm_wp_ret.
Qed.

(** Read operations go by the parent, then make one call that reads. *)
Ltac direct_read :=
  intros g Hg Q HQ;
  apply sm_wp_try; apply wp_parent_of; [exact Hg| |intros; by apply HQ];
  intros f b g' Hgg Hb.

#[export] Instance direct_lawful : Lawful (direct_source d).
Proof.
  split; simpl.
  - intros path. direct_read. apply sm_wp_bind, wp_file_exists_at. intros. apply sm_wp_ret. by apply HQ.
  - intros path flags mask. direct_read.
    apply sm_wp_try, sm_wp_ret. destruct (cstr_bytes b) as [c|]; [|by apply HQ].
    apply sm_wp_bind, safe_call; [done..|]. intros [st|e] Hst; [by apply HQ|].
    destruct (_ || _); [|by apply HQ]. apply safe_call; [done..|]. intros r Hr. by apply HQ.
  - intros fd path mask g Hg Q HQ. apply sm_wp_bind, safe_call; [done..|].
    intros [st|e] Hst; [by apply HQ|].
    destruct (_ || _); [|by apply HQ]. apply safe_call; [done..|]. intros r Hr. by apply HQ.
  - intros path g [i Hi] Q HQ. apply sm_wp_try. eapply wp_safe_openat; [done|done|..].
    + intros fd' g' Hg' _. apply safe_call; [done..|]. intros r Hr. by apply HQ.
    + intros e. by apply HQ.
  - intros path n. direct_read.
    apply sm_wp_try, sm_wp_ret. destruct (cstr_bytes _) as [c|]; [|by apply HQ].
    apply safe_call; [done..|]. intros r _. by apply HQ.
  - intros path nm n. direct_read.
    apply sm_wp_try, sm_wp_ret. destruct (cstr_bytes _) as [c|]; [|by apply HQ].
    apply sm_wp_try, sm_wp_ret. destruct (cstr_bytes nm) as [c'|]; [|by apply HQ].
    apply safe_call; [done..|]. intros r _. by apply HQ.
  - intros path. direct_read.
    apply sm_wp_try, sm_wp_ret. destruct (cstr_bytes _) as [c|]; [|by apply HQ].
    apply safe_call; [done..|]. intros r _. by apply HQ.
  - intros path g Hg Q HQ. unfold direct_get_nfs_filehandle.
    destruct (_ || _); [by apply HQ|].
    apply sm_wp_bind, sm_wp_try, wp_parent_of; [done| |intros; apply sm_wp_ret; by apply HQ].
    intros f b g' Hgg Hb.
    apply sm_wp_try, sm_wp_ret. destruct (cstr_bytes _) as [c|]; [|apply sm_wp_ret; by apply HQ].
    apply safe_call; [done..|]. intros r _. apply sm_wp_ret. by apply HQ.
  - intros path flags mode g i Q Hi Hw HOk HErr.
    eapply wp_safe_openat; [done..|]. intros e. by apply HErr.
Qed.
End direct.
