(* ===== verification/SafeCopy.v ===== *)
(** * Whiteouts and copy-up only change the upper layer

    The functions of Whiteout.v and Copyup.v under the policy [SAFE], each as a
    rule: from what is known of the descriptors it gets, the calls are allowed,
    and the knowledge is kept. *)

From S2P Require Import Prelude Libc Sys Xattr Openat2 Node DataSource Provenance Whiteout.
From S2P Require Import Layer Copyup.
Local Open Scope Z_scope.

(** ** Symbolic execution *)

Lemma cstr_bytes_Ok s c : cstr_bytes s = Ok c → c = s.
Proof. unfold cstr_bytes. case_bool_decide; naive_solver. Qed.

(** Move what is known of the descriptors along [Hg : g ⊆ g']. *)
Ltac advance1 :=
  match goal with
  | Hg : ?g ⊆ ?g', H : changeable ?g _ |- _ => apply (changeable_mono _ _ _ Hg) in H
  | Hg : ?g ⊆ ?g', H : write_safe ?g _ |- _ => apply (write_safe_mono _ _ _ Hg) in H
  | Hg : ?g ⊆ ?g', H : entry_safe ?g _ _ |- _ => apply (entry_safe_mono _ _ _ _ Hg) in H
  | Hg : ?g ⊆ ?g', H : ?g !! _ = Some _ |- _ => apply (lookup_weaken _ _ _ _ H) in Hg as ?; clear H
  | H1 : ?a ⊆ ?b, H2 : ?b ⊆ ?c |- _ => pose proof (transitivity H1 H2); clear H1 H2
  end.
Ltac advance := repeat advance1.

Ltac wp_step :=
  lazymatch goal with
  | |- sm_wp _ (sm_bind _ _) _ _ _ => apply sm_wp_bind
  | |- sm_wp _ (sm_try _ _) _ _ _ => apply sm_wp_try
  | |- sm_wp _ (sm_ret _) _ _ _ => apply sm_wp_ret
  | |- sm_wp _ sm_get _ _ _ => apply sm_wp_get
  | |- sm_wp _ (sm_gets _) _ _ _ => apply sm_wp_gets
  | |- sm_wp _ (sm_modify _) _ _ _ => apply sm_wp_modify
  | |- sm_wp _ (zoom _ _ _) _ _ _ => apply sm_wp_zoom
  | |- sm_wp _ (match cstr_bytes ?x with Ok _ => _ | Err _ => _ end) _ _ _ =>
      let E := fresh in destruct (cstr_bytes x) eqn:E; [apply cstr_bytes_Ok in E as ->|clear E]
  | |- match cstr_bytes ?x with Ok _ => _ | Err _ => _ end =>
      let E := fresh in destruct (cstr_bytes x) eqn:E; [apply cstr_bytes_Ok in E as ->|clear E]
  | |- sm_wp _ (match ?x with _ => _ end) _ _ _ => destruct x eqn:?
  | |- match ?x with _ => _ end => destruct x eqn:?
  end; cbv beta iota zeta.
Ltac wps := repeat wp_step.

(** Side conditions of calls. *)
Ltac solve_pre :=
  cbn [safe_pre pol_pre SAFE];
  repeat match goal with
         | |- _ ∧ _ => split
         | |- entry_safe _ _ _ => split
         end;
  eauto 6 with ovl.
Ltac wp_call :=
  lazymatch goal with
  | |- sm_wp _ (sm_call _) _ _ _ => apply safe_call; [solve_pre|exact I|intros ? ?; cbv beta iota zeta]
  end.

(** The rules of the functions, and a run through a whole program with them. *)
Ltac wp_rule := fail.
Ltac wp_go := repeat (first [progress wps | wp_call | wp_rule; cbv beta iota zeta]).

Lemma WH_PREFIX_simple nm : simple_name nm → simple_name (WH_PREFIX ++ nm).
Proof.
  intros Hn. apply simple_name_app; [|done]. unfold simple_name.
  apply (bool_decide_unpack _). exact I.
Qed.
Lemma OPAQUE_simple : simple_name OPAQUE_WHITEOUT.
Proof. apply (bool_decide_unpack _). exact I. Qed.
#[export] Hint Resolve WH_PREFIX_simple OPAQUE_simple : ovl.

Section safe_copy.
Context `{EP : Epoch} {S : Type}.
Implicit Types (s : S) (g : fds).

(** [safe_openat] in what may be changed: any flags. *)
Lemma wp_open_changeable dirfd path flags mode s g (Q : FsResult RawFd → S → fds → Prop) :
  changeable g dirfd →
  (∀ fd g', g ⊆ g' → changeable g' fd → Q (Ok fd) s g') →
  (∀ e, Q (Err e) s g) →
  sm_wp SAFE (safe_openat dirfd path flags mode) s g Q.
Proof.
  intros (i & Hi & Hp) HOk HErr. eapply wp_safe_openat; [done|done| |done].
  intros fd g' Hg Hfd. apply HOk; [done|]. by exists {| fd_prov := fd_prov i; fd_write := opens_write flags |}.
Qed.

Lemma wp_parent_changeable dirfd path s g
    (Q : FsResult (option RawFd * RawFd * bytes) → S → fds → Prop) :
  changeable g dirfd →
  (∀ p d b g', g ⊆ g' → simple_name b → changeable g' d → Q (Ok (p, d, b)) s g') →
  (∀ e g', g ⊆ g' → Q (Err e) s g') →
  sm_wp SAFE (open_parent_safe_cstr dirfd path) s g Q.
Proof.
  intros (i & Hi & Hp) HOk HErr. eapply wp_open_parent_safe_cstr; [done| |done].
  intros p d b g' j Hg Hb Hj Hpj. apply HOk; [done|done|]. exists j. split; congruence.
Qed.

Lemma wp_set_fd_opaque fd s g (Q : FsResult unit → S → fds → Prop) :
  changeable g fd → (∀ r g', g ⊆ g' → Q r s g') → sm_wp SAFE (set_fd_opaque fd) s g Q.
Proof.
  intros Hfd HQ. unfold set_fd_opaque.
  wp_go; (try (by apply HQ)); (apply wp_open_changeable; [done| |]; intros; wps; by apply HQ).
Qed.

Lemma wp_copy_xattr_names sfd dfd names s g (Q : FsResult unit → S → fds → Prop) :
  changeable g dfd → (∀ r, Q r s g) → sm_wp SAFE (copy_xattr_names sfd dfd names) s g Q.
Proof.
  intros Hd HQ. induction names as [|nm names IH]; cbn [copy_xattr_names]; wp_go; done.
Qed.

Lemma wp_copy_xattr sfd dfd s g (Q : FsResult unit → S → fds → Prop) :
  changeable g dfd → (∀ r, Q r s g) → sm_wp SAFE (copy_xattr sfd dfd) s g Q.
Proof.
  intros Hd HQ. unfold copy_xattr. wp_go; try apply HQ. by apply wp_copy_xattr_names.
Qed.

Lemma wp_sendfile_loop fuel sfd dfd size copied s g (Q : option Z → S → fds → Prop) :
  changeable g dfd → (∀ r, Q r s g) → sm_wp SAFE (sendfile_loop fuel sfd dfd size copied) s g Q.
Proof.
  intros Hd HQ. revert copied. induction fuel as [|fuel IH]; intros copied; cbn [sendfile_loop];
    (destruct (copied <? size); [|apply HQ]); [exact I|].
  wp_go; auto.
Qed.

Lemma wp_write_loop fuel dfd buf s g (Q : FsResult unit → S → fds → Prop) :
  changeable g dfd → (∀ r, Q r s g) → sm_wp SAFE (write_loop fuel dfd buf) s g Q.
Proof.
  intros Hd HQ. revert buf. induction fuel as [|fuel IH]; intros [|c buf]; cbn [write_loop];
    try apply HQ; [exact I|].
  wps. wp_call. wps; [apply IH|apply HQ].
Qed.

Lemma wp_read_loop fuel sfd dfd s g (Q : FsResult unit → S → fds → Prop) :
  changeable g dfd → (∀ r, Q r s g) → sm_wp SAFE (read_loop fuel sfd dfd) s g Q.
Proof.
  intros Hd HQ. induction fuel as [|fuel IH]; cbn [read_loop]; [exact I|].
  wps. wp_call. wps; try apply HQ. apply wp_write_loop; [done|]. intros ?. wps; [apply IH|apply HQ].
Qed.

Lemma wp_copy_data fuel sfd dfd size s g (Q : FsResult unit → S → fds → Prop) :
  changeable g dfd → (∀ r, Q r s g) → sm_wp SAFE (copy_data fuel sfd dfd size) s g Q.
Proof.
  intros Hd HQ. unfold copy_data. wps. wp_call. wps; [apply HQ|].
  apply wp_sendfile_loop; [done|]. intros ?. wps; try apply HQ. by apply wp_read_loop.
Qed.
End safe_copy.

Section safe_whiteout.
Context `{EP : Epoch} `{DevT}.

(** The directory of a whiteout: the parent opened below [root]. *)
Lemma wp_whiteout_parent root (cond : bool) path (b : bool) g
    (Q : FsResult (option RawFd) → bool → fds → Prop) :
  changeable g root →
  (∀ o g', g ⊆ g' → changeable g' (default root o) → Q (Ok o) b g') →
  (∀ e, Q (Err e) b g) →
  sm_wp SAFE
    (if cond then
       try! f := safe_openat root path (Z.lor O_DIRECTORY (Z.lor O_NOFOLLOW O_PATH)) 0 in
       sm_ret (Ok (Some f))
     else sm_ret (Ok None)) b g Q.
Proof.
  intros Hr HOk HErr. destruct cond; wps; [|by apply HOk].
  apply wp_open_changeable; [done| |done]. intros fd g' Hg Hfd. wps. by apply HOk.
Qed.

Lemma wp_delete_whiteout upper_fd dirfd path nm b g (Q : FsResult unit → bool → fds → Prop) :
  changeable g upper_fd → (∀ d, dirfd = Some d → changeable g d) → simple_name nm →
  (∀ r b' g', g ⊆ g' → Q r b' g') →
  sm_wp SAFE (delete_whiteout upper_fd dirfd path nm) b g Q.
Proof.
  intros Hu Hd Hn HQ. unfold delete_whiteout. wp_step.
  apply wp_whiteout_parent; [done| |intros e; by apply HQ].
  intros o g' Hg Ho. cbv zeta. set (dfd := match dirfd with Some _ => _ | None => _ end).
  assert (changeable g' dfd) as Hdfd.
  { unfold dfd. destruct dirfd as [d|]; [eauto with ovl|done]. }
  wp_go; by apply HQ.
Qed.

Lemma wp_create_wh_file pfd nm b g (Q : FsResult unit → bool → fds → Prop) :
  changeable g pfd → (∀ r b' g', g ⊆ g' → Q r b' g') → sm_wp SAFE (create_wh_file pfd nm) b g Q.
Proof.
  intros Hp HQ. unfold create_wh_file. wps.
  apply wp_open_changeable; [done| |]; intros; wps; by apply HQ.
Qed.

Lemma wp_create_whiteout dirfd path nm can_mknod b g (Q : FsResult unit → bool → fds → Prop) :
  changeable g dirfd → simple_name nm → (∀ r b' g', g ⊆ g' → Q r b' g') →
  sm_wp SAFE (create_whiteout dirfd path nm can_mknod) b g Q.
Proof.
  intros Hd Hn HQ. unfold create_whiteout. wp_step.
  apply wp_whiteout_parent; [done| |intros e; by apply HQ].
  intros o g' Hg Ho. cbv zeta.
  assert (∀ b', sm_wp SAFE (create_wh_file (default dirfd o) nm) b' g' Q) as Htail.
  { intros b'. apply wp_create_wh_file; [done|]. intros r b'' g'' Hg'. apply HQ. by transitivity g'. }
  wp_go; (try apply Htail); by apply HQ.
Qed.
End safe_whiteout.

(** ** Layers and nodes *)

(** A layer's root is known with the layer's side, and its source is lawful. *)
Definition layer_ok `{Epoch} (g : fds) (l : OvlLayer) : Prop :=
  Lawful (ds l) ∧
  ∃ i, g !! root_fd (ds l) = Some i ∧ fd_prov i = if low l then PLower else PUpper.
Definition layers_ok `{Epoch} (g : fds) (ls : list OvlLayer) : Prop :=
  ∀ k l, ls !! k = Some l → layer_ok g l.

(** Names are path components, and what a dropped node deletes is in a
    directory that may be changed. *)
Definition node_ok (g : fds) (n : OvlNode) : Prop :=
  simple_name (name n) ∧ ∀ p, hidden_path n = Some p → entry_safe g (hidden_dirfd n) p.
Definition nodes_ok (g : fds) (a : NodeArena) : Prop :=
  ∀ id n, arena_get a id = Some n → node_ok g n.

Lemma layer_ok_mono `{Epoch} g g' l : g ⊆ g' → layer_ok g l → layer_ok g' l.
Proof. intros Hg (? & i & Hi & ?). split; [done|]. exists i. split; [by eapply lookup_weaken|done]. Qed.
Lemma layers_ok_mono `{Epoch} g g' ls : g ⊆ g' → layers_ok g ls → layers_ok g' ls.
Proof. intros Hg Hls k l Hl. eapply layer_ok_mono; eauto. Qed.
Lemma node_ok_mono g g' n : g ⊆ g' → node_ok g n → node_ok g' n.
Proof. intros Hg [? Hh]. split; [done|]. intros p Hp. eapply entry_safe_mono; eauto. Qed.
Lemma nodes_ok_mono g g' a : g ⊆ g' → nodes_ok g a → nodes_ok g' a.
Proof. intros Hg Ha id n Hn. eapply node_ok_mono; eauto. Qed.
Lemma layer_ok_root `{Epoch} g l : layer_ok g l → is_Some (g !! root_fd (ds l)).
Proof. intros (_ & i & Hi & _). by exists i. Qed.
Lemma layer_ok_upper `{Epoch} g l : layer_ok g l → low l = false → changeable g (root_fd (ds l)).
Proof. intros (_ & i & Hi & Hp) Hl. exists i. rewrite Hl in Hp. split; [done|congruence]. Qed.
Lemma layer_of_index `{Epoch} g ls k l (e : Z) : layers_ok g ls → ok_or e (ls !! k) = Ok l → layer_ok g l.
Proof. intros Hls Hl%ok_or_Ok. eauto. Qed.
Lemma layer_of_head `{Epoch} g ls l (e : Z) : layers_ok g ls → ok_or e (head ls) = Ok l → layer_ok g l.
Proof. intros Hls Hl%ok_or_Ok. apply (Hls 0%nat). by destruct ls. Qed.
Lemma node_of_get g a id n (e : Z) : nodes_ok g a → ok_or e (arena_get a id) = Ok n → node_ok g n.
Proof. intros Ha Hn%ok_or_Ok. eauto. Qed.
Lemma node_ok_name g n : node_ok g n → simple_name (name n).
Proof. by intros []. Qed.
#[export] Hint Resolve layer_ok_mono layers_ok_mono node_ok_mono nodes_ok_mono layer_ok_root
  layer_ok_upper layer_of_index layer_of_head node_of_get node_ok_name : ovl.

(** An update that keeps name and hiding place. *)
Lemma nodes_ok_alter g a f id :
  (∀ n, node_ok g n → node_ok g (f n)) → nodes_ok g a → nodes_ok g (arena_alter f id a).
Proof.
  intros Hf Ha id' n. unfold arena_get, arena_alter. simpl.
  rewrite lookup_alter_Some. intros [(-> & n' & Hn' & ->)|[_ Hn]]; [apply Hf|]; by eapply Ha.
Qed.

Ltac advance1 ::=
  match goal with
  | Hg : ?g ⊆ ?g', H : changeable ?g _ |- _ => apply (changeable_mono _ _ _ Hg) in H
  | Hg : ?g ⊆ ?g', H : write_safe ?g _ |- _ => apply (write_safe_mono _ _ _ Hg) in H
  | Hg : ?g ⊆ ?g', H : entry_safe ?g _ _ |- _ => apply (entry_safe_mono _ _ _ _ Hg) in H
  | Hg : ?g ⊆ ?g', H : layer_ok ?g _ |- _ => apply (layer_ok_mono _ _ _ Hg) in H
  | Hg : ?g ⊆ ?g', H : layers_ok ?g _ |- _ => apply (layers_ok_mono _ _ _ Hg) in H
  | Hg : ?g ⊆ ?g', H : node_ok ?g _ |- _ => apply (node_ok_mono _ _ _ Hg) in H
  | Hg : ?g ⊆ ?g', H : nodes_ok ?g _ |- _ => apply (nodes_ok_mono _ _ _ Hg) in H
  | H1 : ?a ⊆ ?b, H2 : ?b ⊆ ?c |- _ => pose proof (transitivity H1 H2); clear H1 H2
  end.

Section layer_rules.
Context `{EP : Epoch} {S : Type}.
Implicit Types (s : S) (g : fds).

Lemma wp_reads {A} fd (m : SM unit A) R s g (Q : A → S → fds → Prop) :
  reads fd m R → is_Some (g !! fd) → (∀ r g', g ⊆ g' → R r → Q r s g') →
  sm_wp SAFE (stateless m) s g Q.
Proof. intros Hm Hfd HQ. apply sm_wp_stateless. by apply Hm. Qed.

Context (l : OvlLayer).
Lemma wp_l_statat path fl m s g (Q : FsResult stat → S → fds → Prop) :
  layer_ok g l → (∀ r g', g ⊆ g' → stat_in r → Q r s g') →
  sm_wp SAFE (stateless (statat (ds l) path fl m)) s g Q.
Proof. intros Hl. eapply wp_reads; [apply Hl|eauto with ovl]. Qed.
Lemma wp_l_fstat fd path m s g (Q : FsResult stat → S → fds → Prop) :
  layer_ok g l → (∀ r g', g ⊆ g' → stat_in r → Q r s g') →
  sm_wp SAFE (stateless (ds_fstat (ds l) fd path m)) s g Q.
Proof. intros Hl. eapply wp_reads; [apply Hl|eauto with ovl]. Qed.
Lemma wp_l_file_exists path s g (Q : FsResult bool → S → fds → Prop) :
  layer_ok g l → (∀ r g', g ⊆ g' → True → Q r s g') →
  sm_wp SAFE (stateless (file_exists (ds l) path)) s g Q.
Proof. intros Hl. eapply wp_reads; [apply Hl|eauto with ovl]. Qed.
Lemma wp_l_opendir path s g (Q : FsResult (list RawDirEntry) → S → fds → Prop) :
  layer_ok g l → (∀ r g', g ⊆ g' → entries_ok r → Q r s g') →
  sm_wp SAFE (stateless (opendir (ds l) path)) s g Q.
Proof. intros Hl. eapply wp_reads; [apply Hl|eauto with ovl]. Qed.
Lemma wp_l_listxattr path n s g (Q : FsResult bytes → S → fds → Prop) :
  layer_ok g l → (∀ r g', g ⊆ g' → True → Q r s g') →
  sm_wp SAFE (stateless (listxattr (ds l) path n)) s g Q.
Proof. intros Hl. eapply wp_reads; [apply Hl|eauto with ovl]. Qed.
Lemma wp_l_getxattr path nm n s g (Q : FsResult bytes → S → fds → Prop) :
  layer_ok g l → (∀ r g', g ⊆ g' → True → Q r s g') →
  sm_wp SAFE (stateless (getxattr (ds l) path nm n)) s g Q.
Proof. intros Hl. eapply wp_reads; [apply Hl|eauto with ovl]. Qed.
Lemma wp_l_readlinkat path s g (Q : FsResult bytes → S → fds → Prop) :
  layer_ok g l → (∀ r g', g ⊆ g' → True → Q r s g') →
  sm_wp SAFE (stateless (ds_readlinkat (ds l) path)) s g Q.
Proof. intros Hl. eapply wp_reads; [apply Hl|eauto with ovl]. Qed.
Lemma wp_l_get_nfs_filehandle path s g (Q : Z → S → fds → Prop) :
  layer_ok g l → (∀ r g', g ⊆ g' → True → Q r s g') →
  sm_wp SAFE (stateless (get_nfs_filehandle (ds l) path)) s g Q.
Proof. intros Hl. eapply wp_reads; [apply Hl|eauto with ovl]. Qed.

(** Opening for reading, in any layer. *)
Lemma wp_l_open_read path flags mode s g (Q : FsResult RawFd → S → fds → Prop) :
  layer_ok g l → opens_write flags = false →
  (∀ fd g', g ⊆ g' → write_safe g' fd → (low l = false → changeable g' fd) → Q (Ok fd) s g') →
  (∀ e g', g ⊆ g' → Q (Err e) s g') →
  sm_wp SAFE (stateless (openat (ds l) path flags mode)) s g Q.
Proof.
  intros (Hlaw & i & Hi & Hp) Hfl HOk HErr. apply sm_wp_stateless.
  eapply law_openat; [done|congruence| |done].
  intros fd g' Hg Hfd. rewrite Hfl in Hfd. apply HOk; [done|by eexists|].
  intros Hlow. rewrite Hlow in Hp. eexists. split; [done|]. simpl. congruence.
Qed.

(** Opening with any flags, in a layer that may be changed. *)
Lemma wp_l_open_upper path flags mode s g (Q : FsResult RawFd → S → fds → Prop) :
  layer_ok g l → low l = false →
  (∀ fd g', g ⊆ g' → changeable g' fd → Q (Ok fd) s g') →
  (∀ e g', g ⊆ g' → Q (Err e) s g') →
  sm_wp SAFE (stateless (openat (ds l) path flags mode)) s g Q.
Proof.
  intros (Hlaw & i & Hi & Hp) Hlow HOk HErr. rewrite Hlow in Hp. apply sm_wp_stateless.
  eapply law_openat; [done|congruence| |done].
  intros fd g' Hg Hfd. apply HOk; [done|]. eexists. split; [done|]. simpl. congruence.
Qed.
End layer_rules.

(** Is the directory opaque: a read of the layer. *)
Lemma wp_is_directory_opaque `{Epoch} {S} l path (s : S) g (Q : FsResult bool → S → fds → Prop) :
  layer_ok g l → (∀ r g', g ⊆ g' → Q r s g') →
  sm_wp SAFE (stateless (is_directory_opaque (ds l) path)) s g Q.
Proof.
  intros Hl HQ. pose proof (layer_ok_root _ _ Hl) as Hr. destruct Hl as (Hlaw & _).
  apply sm_wp_stateless. unfold is_directory_opaque.
  assert (∀ (g' : fds), g ⊆ g' → is_Some (g' !! root_fd (ds l))) as Hr'.
  { intros g' Hg. destruct Hr as [i Hi]. exists i. by eapply lookup_weaken. }
  wp_step. apply law_getxattr; [done|]. intros r1 g1 Hg1 _. wps; [by apply HQ|].
  apply law_getxattr; [by apply Hr'|]. intros r2 g2 Hg2 _. advance. wps; [by apply HQ|].
  apply law_getxattr; [by apply Hr'|]. intros r3 g3 Hg3 _. advance. wps; [by apply HQ|].
  apply law_file_exists; [by apply Hr'|]. intros r4 g4 Hg4 _. advance. wps; by apply HQ.
Qed.

Ltac solve_layer := solve [eauto 4 with ovl].
Ltac wp_rule ::=
  lazymatch goal with
  | |- sm_wp _ (stateless (statat _ _ _ _)) _ _ _ => apply wp_l_statat; [solve_layer|intros ? ? ? ?; advance]
  | |- sm_wp _ (stateless (ds_fstat _ _ _ _)) _ _ _ => apply wp_l_fstat; [solve_layer|intros ? ? ? ?; advance]
  | |- sm_wp _ (stateless (file_exists _ _)) _ _ _ => apply wp_l_file_exists; [solve_layer|intros ? ? ? _; advance]
  | |- sm_wp _ (stateless (opendir _ _)) _ _ _ => apply wp_l_opendir; [solve_layer|intros ? ? ? ?; advance]
  | |- sm_wp _ (stateless (listxattr _ _ _)) _ _ _ => apply wp_l_listxattr; [solve_layer|intros ? ? ? _; advance]
  | |- sm_wp _ (stateless (getxattr _ _ _ _)) _ _ _ => apply wp_l_getxattr; [solve_layer|intros ? ? ? _; advance]
  | |- sm_wp _ (stateless (ds_readlinkat _ _)) _ _ _ => apply wp_l_readlinkat; [solve_layer|intros ? ? ? _; advance]
  | |- sm_wp _ (stateless (get_nfs_filehandle _ _)) _ _ _ =>
      apply wp_l_get_nfs_filehandle; [solve_layer|intros ? ? ? _; advance]
  | |- sm_wp _ (stateless (is_directory_opaque _ _)) _ _ _ =>
      apply wp_is_directory_opaque; [solve_layer|intros ? ? ?; advance]
  | |- sm_wp _ (stateless (openat _ _ _ _)) _ _ _ =>
      apply wp_l_open_read; [solve_layer|reflexivity|intros ? ? ? ? ?; advance|intros ? ? ?; advance]
  | |- sm_wp _ (safe_openat _ _ _ _) _ _ _ =>
      apply wp_open_changeable; [solve_layer|intros ? ? ? ?; advance|intros ?]
  | |- sm_wp _ (open_parent_safe_cstr _ _) _ _ _ =>
      apply wp_parent_changeable; [solve_layer|intros ? ? ? ? ? ? ?; advance|intros ? ? ?; advance]
  | |- sm_wp _ (copy_xattr _ _) _ _ _ => apply wp_copy_xattr; [solve_layer|intros ?]
  | |- sm_wp _ (copy_data _ _ _ _) _ _ _ => apply wp_copy_data; [solve_layer|intros ?]
  | |- sm_wp _ (set_fd_opaque _) _ _ _ => apply wp_set_fd_opaque; [solve_layer|intros ? ? ?; advance]
  | |- sm_wp _ (sm_fuel _) _ _ _ => apply sm_wp_fuel; [intros; exact I|intros ? ?]
  end.

(** Is the node on the upper layer, if it is there? *)
Definition at_upper (a : NodeArena) (id : NodeId) : Prop :=
  ∀ n, arena_get a id = Some n → layer_idx n = 0%nat.

Lemma at_upper_set a id : at_upper (arena_alter (set_layer_idx 0) id a) id.
Proof.
  intros n. unfold arena_get, arena_alter. simpl. rewrite lookup_alter_eq.
  intros (n' & _ & ->)%fmap_Some. done.
Qed.
Lemma nodes_ok_set_layer g a id k : nodes_ok g a → nodes_ok g (arena_alter (set_layer_idx k) id a).
Proof. apply nodes_ok_alter. by intros n []. Qed.
#[export] Hint Resolve at_upper_set nodes_ok_set_layer : ovl.

Section safe_copyup.
Context `{EP : Epoch} `{DevT} (copy_fuel : nat) (layers : list OvlLayer) (workdir_fd : RawFd).
Context (upper : OvlLayer) (Hhead : head layers = Some upper) (Hupper : low upper = false).
Implicit Types (s : CopyState) (g : fds).

(** What a copy-up starts from and keeps. *)
Definition copy_ok (g : fds) (s : CopyState) : Prop :=
  layers_ok g layers ∧ changeable g workdir_fd ∧ nodes_ok g (cs_nodes s) ∧ 0 <= cs_wd_counter s.

Lemma upper_changeable g : layers_ok g layers → changeable g (root_fd (ds upper)).
Proof using Hhead Hupper.
  intros Hls. apply (layer_ok_upper g upper); [|done]. apply (Hls 0%nat). destruct layers; naive_solver.
Qed.

(** A step of the copy-up of [id]: on success the node is on the upper layer. *)
Definition copies (id : NodeId) (m : SM CopyState (FsResult unit)) : Prop :=
  ∀ s g (Q : FsResult unit → CopyState → fds → Prop), copy_ok g s →
    (∀ r s' g', g ⊆ g' → copy_ok g' s' → (r = Ok tt → at_upper (cs_nodes s') id) → Q r s' g') →
    sm_wp SAFE m s g Q.

Lemma wp_move_directory {S} wd d nm (s : S) g (Q : FsResult unit → S → fds → Prop) :
  changeable g workdir_fd → changeable g d → simple_name wd → simple_name nm →
  (∀ r, Q r s g) → sm_wp SAFE (move_directory workdir_fd wd d nm) s g Q.
Proof using. intros ? ? ? ? HQ. unfold move_directory. wp_go; apply HQ. Qed.

Lemma wp_move_file {S} wd d nm (s : S) g (Q : FsResult unit → S → fds → Prop) :
  changeable g workdir_fd → changeable g d → simple_name wd → simple_name nm →
  (∀ r, Q r s g) → sm_wp SAFE (move_file workdir_fd wd d nm) s g Q.
Proof using. intros ? ? ? ? HQ. unfold move_file. wp_go; apply HQ. Qed.

Lemma wp_next_wd_name s g (Q : bytes → CopyState → fds → Prop) :
  copy_ok g s →
  (∀ nm s', simple_name nm → cs_nodes s' = cs_nodes s → copy_ok g s' → Q nm s' g) →
  sm_wp SAFE next_wd_name s g Q.
Proof using.
  intros (? & ? & ? & Hc) HQ. unfold next_wd_name. wps. apply HQ; [by apply print_dec_simple|done|].
  split_and!; [done..|]. apply wrap_u64_bounds.
Qed.

Lemma wp_cs_delete_whiteout upper_fd dirfd path nm s g (Q : FsResult unit → CopyState → fds → Prop) :
  copy_ok g s → changeable g upper_fd → (∀ d, dirfd = Some d → changeable g d) → simple_name nm →
  (∀ r s' g', g ⊆ g' → cs_nodes s' = cs_nodes s → copy_ok g' s' → Q r s' g') →
  sm_wp SAFE (cs_delete_whiteout upper_fd dirfd path nm) s g Q.
Proof using.
  intros (? & ? & ? & Hc) Hu Hd Hn HQ. unfold cs_delete_whiteout. wps.
  apply wp_delete_whiteout; [done..|]. intros r b g' Hg. advance. apply HQ; [done|done|]. done.
Qed.

Lemma copy_ok_set_layer g s id : copy_ok g s → copy_ok g (cs_alter (set_layer_idx 0) id s).
Proof using. intros (? & ? & ? & ?). split_and!; [done|done| |done]. cbn. by apply nodes_ok_set_layer. Qed.
Lemma copy_ok_mono g g' s : g ⊆ g' → copy_ok g s → copy_ok g' s.
Proof using. intros Hg (? & ? & ? & ?). split_and!; eauto with ovl. Qed.
Lemma copy_ok_layer g s k l (e : Z) : copy_ok g s → ok_or e (layers !! k) = Ok l → layer_ok g l.
Proof using. intros (? & _). eauto with ovl. Qed.
Lemma copy_ok_upper g s : copy_ok g s → changeable g (root_fd (ds upper)).
Proof using Hhead Hupper. intros (? & _). by apply upper_changeable. Qed.
Lemma copy_ok_work g s : copy_ok g s → changeable g workdir_fd.
Proof using. by intros (_ & ? & _). Qed.
Lemma copy_ok_name g s id n (e : Z) :
  copy_ok g s → ok_or e (arena_get (cs_nodes s) id) = Ok n → simple_name (name n).
Proof using. intros (_ & _ & Hn & _) Hid%ok_or_Ok. by apply (Hn id). Qed.

Ltac advance1 ::=
  match goal with
  | Hg : ?g ⊆ ?g', H : changeable ?g _ |- _ => apply (changeable_mono _ _ _ Hg) in H
  | Hg : ?g ⊆ ?g', H : write_safe ?g _ |- _ => apply (write_safe_mono _ _ _ Hg) in H
  | Hg : ?g ⊆ ?g', H : layer_ok ?g _ |- _ => apply (layer_ok_mono _ _ _ Hg) in H
  | Hg : ?g ⊆ ?g', H : copy_ok ?g _ |- _ => apply (copy_ok_mono _ _ _ Hg) in H
  | H1 : ?a ⊆ ?b, H2 : ?b ⊆ ?c |- _ => pose proof (transitivity H1 H2); clear H1 H2
  end.
Ltac solve_layer ::=
  solve [eauto 4 using copy_ok_layer, copy_ok_upper, copy_ok_work, copy_ok_name with ovl].
Ltac copy_rule :=
  lazymatch goal with
  | |- sm_wp _ next_wd_name _ _ _ => apply wp_next_wd_name; [eassumption|intros ? ? ? ? ?]
  | |- sm_wp _ (cs_delete_whiteout _ _ _ _) _ _ _ =>
      eapply wp_cs_delete_whiteout; [solve [eauto using copy_ok_set_layer]|solve_layer|done|solve_layer|intros ? ? ? ? ? ?; advance]
  | |- sm_wp _ (move_directory _ _ _ _) _ _ _ =>
      apply wp_move_directory; [solve_layer|assumption..|intros ?]
  | |- sm_wp _ (move_file _ _ _ _) _ _ _ =>
      apply wp_move_file; [solve_layer|assumption..|intros ?]
  | |- sm_wp _ (cs_path _) _ _ _ => unfold cs_path
  | |- sm_wp _ (cs_node _) _ _ _ => unfold cs_node
  end.
Ltac copy_go := repeat (first [progress wps | wp_call | wp_rule | copy_rule]; cbv beta iota zeta).

(** The end of a branch: the rule's own continuation. *)
Ltac copy_end HQ :=
  apply HQ; [done|eauto using copy_ok_set_layer|
    first [discriminate
          |intros _; repeat match goal with E : cs_nodes _ = _ |- _ => rewrite E end; cbn; eauto with ovl]].

Lemma create_one_directory_copies id : copies id (create_one_directory layers workdir_fd id).
Proof using Hhead Hupper.
  intros s g Q Hok HQ. unfold create_one_directory. rewrite Hhead. cbn [ok_or].
  pose proof (copy_ok_work _ _ Hok). pose proof (copy_ok_upper _ _ Hok).
  copy_go; copy_end HQ.
Qed.

Lemma copies_weaken id m s g (Q : FsResult unit → CopyState → fds → Prop) :
  copies id m → copy_ok g s → (∀ r s' g', g ⊆ g' → copy_ok g' s' → Q r s' g') → sm_wp SAFE m s g Q.
Proof using. intros Hm Hok HQ. apply Hm; [done|]. intros. by apply HQ. Qed.

Lemma create_node_directory_go_copies fuel id :
  copies id (create_node_directory_go layers workdir_fd fuel id).
Proof using Hhead Hupper.
  revert id. induction fuel as [|fuel IH]; intros id s g Q Hok HQ; cbn [create_node_directory_go];
    unfold cs_node; rewrite Hhead; cbn [ok_or]; wps.
  all: try by (apply HQ; [done|done|discriminate]).
  all: try exact I.
  all: try by (apply (create_one_directory_copies id)).
  all: try (apply andb_true_iff in Heqb as [Hz _]; apply HQ; [done|done|];
            intros _ n' Hn'; apply ok_or_Ok in Heqr; apply Nat.eqb_eq in Hz; congruence).
  eapply copies_weaken; [apply IH|done|]. intros r s' g' Hg Hok'. wps.
  - apply (create_one_directory_copies id); [done|]. intros r' s'' g'' Hg' Hok'' Hat.
    apply HQ; [by transitivity g'|done|done].
  - by apply HQ.
Qed.

Lemma create_node_directory_copies id : copies id (create_node_directory layers workdir_fd id).
Proof using Hhead Hupper.
  intros s g Q Hok HQ. unfold create_node_directory. wps. by apply create_node_directory_go_copies.
Qed.

Lemma copyup_symlink_copies l id path st :
  (∀ s g, copy_ok g s → layer_ok g l) →
  copies id (copyup_symlink workdir_fd (ds l) (root_fd (ds upper)) id path st).
Proof using Hhead Hupper.
  intros Hl s g Q Hok HQ. unfold copyup_symlink.
  pose proof (copy_ok_work _ _ Hok). pose proof (copy_ok_upper _ _ Hok). pose proof (Hl _ _ Hok).
  copy_go; copy_end HQ.
Qed.
Lemma copyup_special_copies l id path st :
  (∀ s g, copy_ok g s → layer_ok g l) →
  copies id (copyup_special workdir_fd (ds l) (root_fd (ds upper)) id path st).
Proof using Hhead Hupper.
  intros Hl s g Q Hok HQ. unfold copyup_special.
  pose proof (copy_ok_work _ _ Hok). pose proof (copy_ok_upper _ _ Hok). pose proof (Hl _ _ Hok).
  copy_go; copy_end HQ.
Qed.
Lemma basename_simple path : simple_name (basename path).
Proof using. unfold basename. destruct (rsplit_once SLASH path) as [[]|] eqn:E; eauto with ovl. Qed.
#[local] Hint Resolve basename_simple : ovl.

Lemma copyup_regular_copies l id path st :
  (∀ s g, copy_ok g s → layer_ok g l) →
  copies id (copyup_regular copy_fuel workdir_fd (ds l) (root_fd (ds upper)) id path st).
Proof using Hhead Hupper.
  intros Hl s g Q Hok HQ. unfold copyup_regular.
  pose proof (copy_ok_work _ _ Hok). pose proof (copy_ok_upper _ _ Hok). pose proof (Hl _ _ Hok).
  copy_go; copy_end HQ.
Qed.

Lemma copyup_kind_copies l id path st :
  (∀ s g, copy_ok g s → layer_ok g l) →
  copies id (copyup_kind copy_fuel layers workdir_fd (ds l) (root_fd (ds upper)) id path st).
Proof using Hhead Hupper.
  intros Hl s g Q Hok HQ. unfold copyup_kind. wps.
  - apply (create_node_directory_copies id); [done|]. intros r s' g' ? ? Hat. wps.
    + apply HQ; [done..|]. intros _. apply Hat. by destruct a.
    + by apply HQ.
  - by apply (copyup_symlink_copies l).
  - by apply (copyup_special_copies l).
  - by apply (copyup_regular_copies l).
Qed.

Lemma copyup_copies id : copies id (copyup copy_fuel layers workdir_fd id).
Proof using Hhead Hupper.
  intros s g Q Hok HQ. unfold copyup. rewrite Hhead. cbn [ok_or].
  wp_step. wp_step. rewrite Hupper. unfold cs_path, cs_node.
  wps. apply sm_wp_fuel; [by intros|]. intros path _. wps; try copy_end HQ.
  match goal with E : ok_or ENOENT (layers !! _) = Ok ?l |- _ =>
    apply ok_or_Ok in E; assert (∀ s g, copy_ok g s → layer_ok g l) as Hl
      by (intros ? ? (Hls & _); by eapply Hls) end.
  pose proof (Hl _ _ Hok). wp_rule. wps; try copy_end HQ.
  - eapply copies_weaken; [apply create_node_directory_copies|done|]. intros r' s' g'' Hg'' Hok'. wps.
    + apply (copyup_kind_copies _ id); [done..|]. intros. apply HQ; [|done..].
      etransitivity; [|done]. by etransitivity.
    + apply HQ; [by etransitivity|done|discriminate].
  - apply (copyup_kind_copies _ id); [done..|]. intros. apply HQ; [by etransitivity|done..].
Qed.
End safe_copyup.
