(* ===== verification/CopyWhole.v ===== *)
(** * A copied file is put in place whole

    [copyup_regular] of copyup.rs against a kernel that copies, with the policy
    [WHOLE]: it keeps which descriptor is of the source, which is of the work
    file and under what name, and what the work file holds.  The work file may
    be renamed only when it holds what the source does. *)

From S2P Require Import Prelude Libc Sys Xattr Openat2 Node DataSource Whiteout Layer Copyup CopyData SafeCopy.
Local Open Scope Z_scope.

Record WholeGhost := { wg_source : option RawFd; wg_work : option (bytes * RawFd); wg_copy : CopyGhost }.

Section whole.
Context (content : bytes) (wfd sroot : RawFd) (path : bytes) (interrupts : nat).
Implicit Types (g : WholeGhost).

(** The descriptors of a transfer. *)
Definition transfer g (s d : RawFd) : Prop := wg_source g = Some s ∧ ∃ w, wg_work g = Some (w, d).

Definition whole_pre g (c : sys) : Prop :=
  match c with
  | Openat2 d p fl _ _ => Z.land fl O_CREAT ≠ 0 → d = wfd
  | Ficlone d s | Sendfile d s _ => transfer g s d
  | Read s _ => wg_source g = Some s
  | Write d _ => ∃ w, wg_work g = Some (w, d)
  | Renameat d w _ _ => d = wfd ∧ cg_dst (wg_copy g) = content ∧ ∃ fd, wg_work g = Some (w, fd)
  | Fchown d _ _ | Futimens d _ | Fchmod d _ | Fsetxattr d _ _ _ => ∃ w, wg_work g = Some (w, d)
  | Flistxattr s _ | Fgetxattr s _ _ => wg_source g = Some s
  | Unlinkat _ _ _ => True
  | _ => False
  end.

(** A file made in the work directory is empty; the source is opened at its
    start; a transfer is as in [COPIES]. *)
Definition whole_post g (c : sys) : resp c → WholeGhost → Prop :=
  match c with
  | Openat2 d p fl _ _ => λ r g',
      match r with
      | Ok fd =>
          if bool_decide (Z.land fl O_CREAT ≠ 0)
          then g' = {| wg_source := wg_source g; wg_work := Some (p, fd);
                       wg_copy := {| cg_pos := cg_pos (wg_copy g); cg_dst := []; cg_interrupts := interrupts |} |}
          else if bool_decide (d = sroot ∧ p = path)
          then g' = {| wg_source := Some fd; wg_work := wg_work g;
                       wg_copy := {| cg_pos := 0; cg_dst := cg_dst (wg_copy g); cg_interrupts := cg_interrupts (wg_copy g) |} |}
          else g' = g
      | Err _ => g' = g
      end
  | (Ficlone _ _ | Sendfile _ _ _ | Read _ _ | Write _ _) as c => λ r g',
      copies_post content (wg_copy g) c r (wg_copy g') ∧ wg_source g' = wg_source g ∧ wg_work g' = wg_work g
  | _ => λ _ g', g' = g
  end.

Definition WHOLE : policy :=
  {| ghost := WholeGhost; pol_pre := whole_pre; pol_post := whole_post; pol_diverge := False; pol_panic := False |}.

(** A proof about the copy alone. *)
Lemma whole_copying {A} (p : prog A) sfd w dfd g (Q : A → CopyGhost → Prop) :
  wg_source g = Some sfd → wg_work g = Some (w, dfd) → wp (COPIES content sfd dfd) p (wg_copy g) Q →
  wp WHOLE p g (λ a g', Q a (wg_copy g') ∧ wg_source g' = Some sfd ∧ wg_work g' = Some (w, dfd)).
Proof using.
  intros Hs Hw. revert g Hs Hw. induction p as [a| | |c k IH]; intros g Hs Hw; [done..|]. intros [Hpre Hk]. split.
  - clear Hk IH. destruct c; cbn in Hpre |- *; try done; [by subst|by subst; eexists|..];
      destruct Hpre as [-> ->]; by split; [|eexists].
  - intros r g' Hr. assert (copies_post content (wg_copy g) c r (wg_copy g') ∧ wg_source g' = wg_source g ∧
      wg_work g' = wg_work g) as (H1 & H2 & H3) by (by destruct c).
    apply IH; [congruence..|]. by apply Hk.
Qed.

(** The attributes. *)
Lemma whole_copy_xattr {S} sfd dfd (s : S) g (Q : FsResult unit → S → WholeGhost → Prop) :
  transfer g sfd dfd → (∀ r, Q r s g) → sm_wp WHOLE (copy_xattr sfd dfd) s g Q.
Proof using.
  intros [Hs Hd] HQ. unfold copy_xattr. wp_step. apply sm_wp_call; [done|]. intros [l|e] g' ->; [|by apply sm_wp_ret].
  induction (xattr_names l) as [|nm names IH]; cbn [copy_xattr_names]; [by apply sm_wp_ret|].
  destruct (internal_xattr nm); [done|]. wp_step. apply sm_wp_call; [done|]. intros [v|e] g' ->.
  - wp_step. apply sm_wp_call; [done|]. intros [[]|e] g' ->; [done|].
    destruct ((e =? EPERM) || (e =? ENOTSUP)); [done|by apply sm_wp_ret].
  - destruct (e =? ENODATA); [done|by apply sm_wp_ret].
Qed.

(** The parent of a path, opened or given. *)
Lemma whole_parent_open {S A} dirfd p (k : option RawFd * RawFd * bytes → SM S (FsResult A)) (s : S) g
    (Q : FsResult A → S → WholeGhost → Prop) :
  (∀ e g', Q (Err e) s g') →
  (∀ x g', wg_work g' = wg_work g → cg_dst (wg_copy g') = cg_dst (wg_copy g) → sm_wp WHOLE (k x) s g' Q) →
  sm_wp WHOLE (sm_try (open_parent_safe_cstr dirfd p) k) s g Q.
Proof using.
  intros HErr Hk. wp_step. unfold open_parent_safe_cstr. wp_step. unfold open_parent_safe.
  destruct (rsplit_once SLASH p) as [[parent base]|].
  - wp_step. unfold safe_openat, syscall_openat2. do 3 wp_step; [|apply HErr].
    apply sm_wp_call; [by intros []|]. intros [fd|e] g' Hr; [|apply HErr].
    assert (wg_work g' = wg_work g ∧ cg_dst (wg_copy g') = cg_dst (wg_copy g)) as [H1 H2].
    { cbn in Hr. rewrite bool_decide_false in Hr by (by intros []). case_bool_decide; by subst. }
    repeat wp_step; [by apply Hk|apply HErr].
  - repeat wp_step; [by apply Hk|apply HErr].
Qed.
End whole.

(** C13. A copied file is put in place whole.  When a regular file of a layer that
    is a directory is copied up, the work file is renamed to its place only when
    it holds every byte of the source; success means that it does.  The kernel's
    calls copy as in [COPIES]: a call moves bytes of the source, some before its
    end, and is interrupted finitely often; the file the open makes in the work
    directory is empty, as it is when the name is free, and the source has the
    size that was looked up.  The copy ends, with one round per byte and
    interruption. *)
Theorem copied_file_is_whole (content : bytes) (wfd upper_fd : RawFd) (self : Direct.DirectAccess)
    (path : bytes) (interrupts copy_fuel : nat) (id : NodeId) (st : stat) (s : CopyState) (g : WholeGhost)
    (Hsize : st_size st = Z.of_nat (length content)) (Hfuel : (length content + interrupts < copy_fuel)%nat) :
  sm_wp (WHOLE content wfd (Direct.fd self) path interrupts)
    (copyup_regular copy_fuel wfd (Direct.direct_source self) upper_fd id path st) s g
    (λ r _ g', r = Ok tt → cg_dst (wg_copy g') = content).
Proof.
  unfold copyup_regular. cbv zeta. wp_step. unfold next_wd_name. do 5 wp_step.
  wp_step. apply sm_wp_stateless. cbn [openat Direct.direct_source]. unfold Direct.direct_openat, safe_openat, syscall_openat2.
  wp_step. do 2 wp_step; [|done]. apply sm_wp_call; [by intros []|]. intros [sfd|e] g1 H1; [|done].
  assert (wg_source g1 = Some sfd ∧ cg_pos (wg_copy g1) = 0%nat) as [Hs Hp]
    by (cbn in H1; rewrite bool_decide_false, bool_decide_true in H1 by first [done|by intros []]; by subst).
  clear H1. wp_step. wp_step. wp_step. wp_step; [|done]. apply sm_wp_call; [done|]. intros [dfd|e] g2 H2; [|done].
  cbn in H2. rewrite bool_decide_true in H2 by done.
  match type of H2 with _ = {| wg_source := _; wg_work := Some (?w, _); wg_copy := _ |} => set (wd := w) in * end.
  assert (wg_source g2 = Some sfd ∧ wg_work g2 = Some (wd, dfd) ∧
    wg_copy g2 = {| cg_pos := 0; cg_dst := []; cg_interrupts := interrupts |}) as (Hs2 & Hw2 & Hc2)
    by (rewrite H2; cbn; by rewrite Hs, Hp).
  clear H2. wp_step. apply sm_wp_call; [by eexists|]. intros r g3 ->. wp_step. rewrite Hsize.
  unfold sm_wp at 1. eapply wp_mono; [eapply whole_copying; [done..|]|].
  { rewrite Hc2. apply (copy_data_copies content sfd dfd copy_fuel interrupts _ Hfuel). }
  intros [[[]|e] s'] g3 [Hd [Hs3 Hw3]]; [|done]. specialize (Hd eq_refl). cbv beta iota.
  wp_step. apply sm_wp_call; [by eexists|]. intros r1 g4 ->.
  wp_step. apply whole_copy_xattr; [by split; [|eexists]|]. intros r2.
  wp_step. apply sm_wp_call; [by eexists|]. intros r3 g4 ->.
  apply whole_parent_open; [done|]. intros [[guard dst] nm] g4 Hw4 Hd4.
  assert (whole_pre content wfd g4 (Renameat wfd wd dst nm)) as Hren
    by (split_and!; [done|congruence|exists dfd; congruence]).
  wp_step. unfold move_file. wp_step. apply sm_wp_call; [exact Hren|]. intros [[]|e] g5 ->.
  - apply sm_wp_ret. wp_step. destruct (cstr_bytes _).
    + wp_step. apply sm_wp_call; [done|]. intros r4 g5 ->. do 4 wp_step. intros _. congruence.
    + do 4 wp_step. intros _. congruence.
  - wp_step. apply sm_wp_call; [done|]. intros r4 g5 ->. by wp_step.
Qed.

Definition small_file : stat := {|
  st_dev := 1; st_ino := 7; st_mode := Z.lor S_IFREG MODE_755; st_nlink := 1; st_uid := 0; st_gid := 0; st_rdev := 0;
  st_size := 4; st_blksize := 512; st_blocks := 1; st_atime := 0; st_atime_nsec := 0;
  st_mtime := 0; st_mtime_nsec := 0; st_ctime := 0; st_ctime_nsec := 0
|}.
Definition lower_dir : Direct.DirectAccess := {|
  Direct.resolved_path := bs "/lower"; Direct.da_fd := Some 4; Direct.dev := 1; Direct.stat_override := ModeNone;
  Direct.nfs_fh := 0; Direct.fh_size := 0
|}.
Lemma copied_file_is_whole_witness :
  sm_wp (WHOLE (bs "data") 5 (Direct.fd lower_dir) (bs "d/f") 1)
    (copyup_regular 8 5 (Direct.direct_source lower_dir) 3 2 (bs "d/f") small_file)
    {| cs_nodes := NodeArena_new; cs_wd_counter := 7; cs_can_mknod := true |}
    {| wg_source := None; wg_work := None; wg_copy := {| cg_pos := 0; cg_dst := []; cg_interrupts := 0 |} |}
    (λ r _ g', r = Ok tt → cg_dst (wg_copy g') = bs "data").
Proof.
  apply (copied_file_is_whole (bs "data") 5 3 lower_dir (bs "d/f") 1 8 2); [reflexivity|].
  apply (bool_decide_unpack _). exact I.
Defined.
