(* ===== verification/SafeInner.v ===== *)
(** * The shared operations only change the upper layer

    The programs of Overlay.v under [SAFE]: they keep the invariant [inner_ok]
    of the inner state, never panic, and change nothing but the upper layer and
    the work directory. *)

From S2P Require Import Prelude Libc Mapping Xattr ConfigData Sys Openat2 Node DataSource.
From S2P Require Import Provenance Whiteout Layer Copyup SafeCopy Overlay.
Local Open Scope Z_scope.

(** ** Attributes do not panic on answers with proper times *)

Lemma epoch_plus_ok secs nsec : time_ok secs nsec → epoch_plus secs nsec = Some (secs, nsec).
Proof.
  intros [Hs Hn]. unfold epoch_plus, wrap_u32, wrap_u64.
  rewrite (Z.mod_small nsec), (Z.mod_small secs) by lia. rewrite (Z.div_small nsec) by lia.
  rewrite Z.add_0_r, (Z.mod_small nsec) by lia. by rewrite (proj2 (Z.ltb_lt _ _)) by lia.
Qed.

Lemma stat_to_attr_ok st : times_ok st → ∃ a, stat_to_attr st = Some a.
Proof.
  intros (Ha & Hm & Hc). unfold stat_to_attr. rewrite !epoch_plus_ok by done. simpl. eauto.
Qed.

Lemma override_times `{Epoch, DevT} s st r st' :
  parse_and_apply_override s st = (r, st') → times_in st → times_in st'.
Proof.
  unfold parse_and_apply_override. intros Hp Ht. repeat case_match; simplify_eq; done.
Qed.

Lemma upper_layer_head s l : upper_layer s = Some l → head (layers s) = Some l ∧ low l = false.
Proof. unfold upper_layer. destruct (layers s) as [|l0 rest]; [done|]. by destruct (low l0) eqn:E; intros [= <-]. Qed.

Section inner_safe.
Context `{EP : Epoch} `{F64, DevT, HashOrder} (copy_fuel : nat) (config : OverlayConfig).
Context (ls : list OvlLayer) (wfd : RawFd) (Hls : ls ≠ []).
Implicit Types (s : OverlayInner) (g : fds).

(** The mount has an upper layer. *)
Definition has_upper : Prop := ∃ u, head ls = Some u ∧ low u = false.

Record inner_ok (g : fds) (s : OverlayInner) : Prop := {
  io_layers : layers s = ls;
  io_workdir : workdir_fd s = wfd;
  io_layers_ok : layers_ok g ls;
  io_work : has_upper → changeable g wfd;
  io_nodes : nodes_ok g (nodes s);
  io_counter : 0 <= wd_counter s
}.

Lemma inner_ok_mono g g' s : g ⊆ g' → inner_ok g s → inner_ok g' s.
Proof using. intros Hg []. split; eauto with ovl. Qed.
Lemma io_layer g s k l : inner_ok g s → layer s k = Ok l → layer_ok g l.
Proof using. intros [E _ Hl _ _ _] Hk%ok_or_Ok. rewrite E in Hk. eauto. Qed.
Lemma io_layer_node g s id n l : inner_ok g s → node_and_layer s id = Ok (n, l) → layer_ok g l.
Proof using.
  intros Hok. unfold node_and_layer. intros (n' & _ & (l' & Hl & [= <- <-])%result_bind_Ok)%result_bind_Ok.
  by eapply io_layer.
Qed.
Lemma io_name g s id n : inner_ok g s → node s id = Ok n → simple_name (name n).
Proof using. intros [_ _ _ _ Hn _] Hid%ok_or_Ok. by apply (Hn id). Qed.
Lemma io_upper g s l : inner_ok g s → upper s = Ok l → has_upper ∧ changeable g (root_fd (ds l)).
Proof using.
  intros [E _ Hl _ _ _] [Hh Hlow]%ok_or_Ok%upper_layer_head. rewrite E in Hh.
  split; [by exists l|]. apply (layer_ok_upper g l); [|done]. apply (Hl 0%nat).
  by rewrite <-head_lookup.
Qed.
Lemma io_upper_first g s l : inner_ok g s → has_upper → ls !! 0%nat = Some l →
  low l = false ∧ changeable g (root_fd (ds l)).
Proof using.
  intros [_ _ Hl _ _ _] (u & Hu & Hlow) Hl0.
  rewrite head_lookup in Hu. simplify_eq. split; [done|].
  apply (layer_ok_upper g); [|done]. by apply (Hl 0%nat).
Qed.

(** The state changes the programs make. *)
Lemma io_set_inodes g s t : inner_ok g s → inner_ok g (set_inodes t s).
Proof using. by intros []. Qed.
Lemma io_set_nodes g s a : inner_ok g s → nodes_ok g a → inner_ok g (set_nodes a s).
Proof using. by intros []. Qed.
Lemma io_set_CAN_MKNOD g s b : inner_ok g s → inner_ok g (set_CAN_MKNOD b s).
Proof using. by intros []. Qed.

(** The program keeps the invariant, and its result satisfies [R]. *)
Definition keeps {A} (m : InnerM A) (R : A → OverlayInner → fds → Prop) : Prop :=
  ∀ s g (Q : A → OverlayInner → fds → Prop), inner_ok g s →
    (∀ a s' g', g ⊆ g' → inner_ok g' s' → R a s' g' → Q a s' g') → sm_wp SAFE m s g Q.
Definition any {A} : A → OverlayInner → fds → Prop := λ _ _ _, True.
(** It only succeeds below an upper layer. *)
Definition upper_if_ok {A} : FsResult A → OverlayInner → fds → Prop :=
  λ r _ _, is_ok r = true → has_upper.

Ltac advance1 ::=
  match goal with
  | Hg : ?g ⊆ ?g', H : changeable ?g _ |- _ => apply (changeable_mono _ _ _ Hg) in H
  | Hg : ?g ⊆ ?g', H : write_safe ?g _ |- _ => apply (write_safe_mono _ _ _ Hg) in H
  | Hg : ?g ⊆ ?g', H : layer_ok ?g _ |- _ => apply (layer_ok_mono _ _ _ Hg) in H
  | Hg : ?g ⊆ ?g', H : node_ok ?g _ |- _ => apply (node_ok_mono _ _ _ Hg) in H
  | Hg : ?g ⊆ ?g', H : inner_ok ?g _ |- _ => apply (inner_ok_mono _ _ _ Hg) in H
  | H1 : ?a ⊆ ?b, H2 : ?b ⊆ ?c |- _ => pose proof (transitivity H1 H2); clear H1 H2
  end.
Ltac solve_layer ::= solve [eauto 4 using io_layer, io_layer_node, io_name with ovl].

(** An update of a node that keeps its name and hiding place. *)
Definition tame (f : OvlNode → OvlNode) : Prop :=
  ∀ n, name (f n) = name n ∧ hidden_path (f n) = hidden_path n ∧ hidden_dirfd (f n) = hidden_dirfd n.
Lemma tame_ok g f n : tame f → node_ok g n → node_ok g (f n).
Proof using. intros Hf [? Hh]. destruct (Hf n) as (E1 & E2 & E3). split; rewrite ?E1, ?E2, ?E3; done. Qed.

Lemma io_alter g s f id :
  (∀ n, node_ok g n → node_ok g (f n)) → inner_ok g s →
  inner_ok g (set_nodes (arena_alter f id (nodes s)) s).
Proof using. intros Hf Hok. apply io_set_nodes; [done|]. apply nodes_ok_alter; [done|]. apply Hok. Qed.

Lemma keeps_alter f id : tame f → keeps (alter_node f id) any.
Proof using.
  intros Hf s g Q Hok HQ. apply sm_wp_modify. apply HQ; [done| |done].
  apply io_alter; [|done]. intros n. by apply tame_ok.
Qed.

Lemma tame_state f : (∀ n, f n = n ∨ ∃ d, f n = set_dir_state d n) → tame f.
Proof using. intros Hf n. by destruct (Hf n) as [-> | [d ->]]. Qed.
Lemma tame_insert_child nm id : tame (λ p, (insert_child nm id p).2).
Proof using. apply tame_state. intros n. unfold insert_child. destruct (dir_state n); simpl; eauto. Qed.
Lemma tame_remove_child nm : tame (λ p, (remove_child nm p).2).
Proof using. apply tame_state. intros n. unfold remove_child. destruct (dir_state n); simpl; eauto. Qed.
Lemma tame_insert_whiteout nm : tame (insert_whiteout nm).
Proof using. apply tame_state. intros n. unfold insert_whiteout. destruct (dir_state n); eauto. Qed.
Lemma tame_mark_loaded : tame mark_loaded.
Proof using. apply tame_state. intros n. unfold mark_loaded. destruct (dir_state n); eauto. Qed.
Lemma tame_mark_unloaded : tame mark_unloaded.
Proof using. apply tame_state. intros n. unfold mark_unloaded. destruct (dir_state n); eauto. Qed.
Lemma tame_clear_children : tame clear_children.
Proof using. apply tame_state. intros n. unfold clear_children. destruct (dir_state n); eauto. Qed.
Lemma tame_last_layer k : tame (set_last_layer_idx k).
Proof using. done. Qed.
Lemma tame_set_parent p : tame (set_parent p).
Proof using. done. Qed.
#[local] Hint Resolve tame_insert_child tame_remove_child tame_insert_whiteout tame_mark_loaded
  tame_mark_unloaded tame_clear_children tame_last_layer tame_set_parent : ovl.

(** ** The primitive programs *)

Lemma keeps_node_path id : keeps (node_path id) any.
Proof using.
  intros s g Q Hok HQ. unfold node_path. wps. apply sm_wp_fuel; [by intros|]. intros p _. by apply HQ.
Qed.

Lemma keeps_layer_at k : (k < length ls)%nat →
  keeps (layer_at k) (λ l s g, ls !! k = Some l ∧ layer_ok g l).
Proof using.
  intros Hk s g Q Hok HQ. unfold layer_at. wps. apply sm_wp_index.
  rewrite (io_layers _ _ Hok). destruct (lookup_lt_is_Some_2 ls k Hk) as [l Hl]. exists l.
  split; [done|]. apply HQ; [done|done|]. split; [done|]. by apply (io_layers_ok _ _ Hok k).
Qed.
Lemma first_lt : (0 < length ls)%nat.
Proof using Hls. destruct ls; [done|]. simpl. lia. Qed.

Lemma keeps_do_register id ino dev mode : keeps (do_register id ino dev mode) any.
Proof using.
  intros s g Q Hok HQ. unfold do_register. wps. apply sm_wp_fuel; [by intros|].
  intros [r t] _. wps. apply HQ; [done| |done]. by apply io_set_inodes.
Qed.

Lemma keeps_do_inc_lookup key : keeps (do_inc_lookup key) any.
Proof using. intros s g Q Hok HQ. apply sm_wp_modify, HQ; [done| |done]. by apply io_set_inodes. Qed.

Lemma nodes_ok_insert g a n : nodes_ok g a → node_ok g n → nodes_ok g (arena_insert n a).2.
Proof using.
  intros Ha Hn id n'. unfold arena_get, arena_insert. simpl.
  rewrite lookup_insert_Some. intros [[_ <-]|[_ ?]]; [done|]. by eapply Ha.
Qed.
Lemma node_ok_plain g n : simple_name (name n) → hidden_path n = None → node_ok g n.
Proof using. intros ? E. split; [done|]. by rewrite E. Qed.

Lemma keeps_do_insert n : simple_name (name n) → hidden_path n = None → keeps (do_insert n) any.
Proof using.
  intros Hn Hh s g Q Hok HQ. unfold do_insert. wps. apply HQ; [done| |done].
  apply io_set_nodes; [done|]. replace n0 with (arena_insert n (nodes s)).2 by (by rewrite Heqp).
  apply nodes_ok_insert; [apply Hok|by apply node_ok_plain].
Qed.

Lemma wp_drop_node n s g (Q : unit → OverlayInner → fds → Prop) :
  node_ok g n → Q tt s g → sm_wp SAFE (drop_node n) s g Q.
Proof using.
  intros [_ Hh] HQ. unfold drop_node. destruct (hidden_path n) as [p|]; [|by apply sm_wp_ret].
  pose proof (Hh p eq_refl) as []. wp_go; done.
Qed.

Lemma keeps_do_remove id : keeps (do_remove id) any.
Proof using.
  intros s g Q Hok HQ. unfold do_remove. wp_step. wp_step. cbn [arena_remove]. wp_step. wp_step.
  assert (∀ n, inner_ok g (set_nodes {| arena_map := delete id (arena_map (nodes s));
            next_id := next_id (nodes s); STAT_NODES := n |} s)) as Hok'.
  { intros n. apply io_set_nodes; [done|]. intros id' n'. unfold arena_get. simpl.
    intros [_ ?]%lookup_delete_Some. by eapply (io_nodes _ _ Hok). }
  destruct (arena_map (nodes s) !! id) as [n|] eqn:E; [|apply sm_wp_ret; by apply HQ].
  apply wp_drop_node; [exact (io_nodes _ _ Hok id n E)|by apply HQ].
Qed.

Ltac solve_inner := solve [eauto 3 using io_set_inodes, io_set_CAN_MKNOD].
Ltac keep lem := apply lem; [solve_inner|intros ? ? ? ? ? ?; advance].
Ltac prim_rule :=
  lazymatch goal with
  | |- sm_wp _ (node_path _) _ _ _ => keep keeps_node_path
  | |- sm_wp _ (layer_at 0) _ _ _ =>
      apply (keeps_layer_at 0 first_lt); [solve_inner|intros ? ? ? ? ? [? ?]; advance]
  | |- sm_wp _ (layer_at ?k) _ _ _ =>
      apply (keeps_layer_at k); [assumption|solve_inner|intros ? ? ? ? ? [? ?]; advance]
  | |- sm_wp _ (do_register _ _ _ _) _ _ _ => keep keeps_do_register
  | |- sm_wp _ (do_inc_lookup _) _ _ _ => keep keeps_do_inc_lookup
  | |- sm_wp _ (do_remove _) _ _ _ => keep keeps_do_remove
  | |- sm_wp _ (alter_node _ _) _ _ _ =>
      apply keeps_alter; [solve [eauto with ovl]|solve_inner|intros ? ? ? ? ? _; advance]
  | |- sm_wp _ (do_insert _) _ _ _ =>
      apply keeps_do_insert; [assumption|done|solve_inner|intros ? ? ? ? ? _; advance]
  end.
Ltac inner_rule := fail.
Ltac inner_go :=
  repeat (first [progress wps | wp_call | wp_rule | prim_rule | inner_rule]; cbv beta iota zeta).
Ltac inner_end HQ := apply HQ; [done|solve_inner|try solve [done|intros ?; done]].

(** ** Reading *)

Lemma keeps_is_wh_file k path nm : (k < length ls)%nat → keeps (is_wh_file k path nm) any.
Proof using. intros Hk s g Q Hok HQ. unfold is_wh_file. inner_go; inner_end HQ. Qed.

Lemma keeps_do_stat_with_path n fd path :
  keeps (do_stat_with_path n fd path) (λ r _ _, stat_in r).
Proof using. intros s g Q Hok HQ. unfold do_stat_with_path. inner_go; inner_end HQ. Qed.

Lemma keeps_get_st_ino n path : keeps (get_st_ino_with_path config n path) any.
Proof using. intros s g Q Hok HQ. unfold get_st_ino_with_path. inner_go; inner_end HQ. Qed.

Lemma keeps_get_fs_namemax : keeps get_fs_namemax any.
Proof using. intros s g Q Hok HQ. unfold get_fs_namemax. inner_go; inner_end HQ. Qed.

Lemma wp_override_mode {S} l fd path st (s : S) g (Q : FsResult unit * stat → S → fds → Prop) :
  layer_ok g l → times_in st → (∀ r st' g', g ⊆ g' → times_in st' → Q (r, st') s g') →
  sm_wp SAFE (override_mode l fd path st) s g Q.
Proof using.
  intros Hl Ht HQ. unfold override_mode.
  assert (∀ b, times_in (parse_and_apply_override b st).2) as Hov.
  { intros b. destruct (parse_and_apply_override b st) as [r st'] eqn:E. by eapply override_times. }
  assert (∀ (b : bytes) g', g ⊆ g' → Q (parse_and_apply_override b st) s g') as HQ'.
  { intros b g' Hg. specialize (Hov b). destruct (parse_and_apply_override b st). by apply HQ. }
  wp_go; repeat case_match; by auto.
Qed.

Ltac inner_rule ::=
  lazymatch goal with
  | |- sm_wp _ (is_wh_file _ _ _) _ _ _ =>
      apply keeps_is_wh_file; [assumption|solve_inner|intros ? ? ? ? ? _; advance]
  | |- sm_wp _ (do_stat_with_path _ _ _) _ _ _ => keep keeps_do_stat_with_path
  | |- sm_wp _ (get_st_ino_with_path _ _ _) _ _ _ => keep keeps_get_st_ino
  | |- sm_wp _ get_fs_namemax _ _ _ => keep keeps_get_fs_namemax
  | |- sm_wp _ (override_mode _ _ _ _) _ _ _ =>
      apply wp_override_mode; [solve_layer|auto|intros ? ? ? ? ?; advance]
  end.

Lemma stat_in_Ok st : stat_in (Ok st) → times_in st.
Proof using. intros Hst. by apply Hst. Qed.
#[local] Hint Resolve stat_in_Ok : ovl core.

Lemma keeps_rpl_stat_with_path id fd path :
  keeps (rpl_stat_with_path config id fd path) (λ r _ _, stat_in r).
Proof using.
  intros s g Q Hok HQ. unfold rpl_stat_with_path. inner_go; inner_end HQ.
  all: intros ? [= <-].
  all: match goal with
       | H : times_in _ |- _ => exact H
       | H : stat_in (Ok _) |- _ => exact (stat_in_Ok _ H)
       end.
Qed.
Lemma keeps_rpl_stat id fd : keeps (rpl_stat config id fd) (λ r _ _, stat_in r).
Proof using.
  intros s g Q Hok HQ. unfold rpl_stat. inner_go; try inner_end HQ;
    (apply keeps_rpl_stat_with_path; [solve_inner|intros ? ? ? ? ? ?; advance; by apply HQ]).
Qed.

(** The attributes of an answer never panic. *)
Lemma wp_expect_attr {S} st (s : S) g (Q : FileAttr → S → fds → Prop) :
  times_in st → (∀ a, Q a s g) → sm_wp SAFE (sm_expect (stat_to_attr st)) s g Q.
Proof using.
  intros Ht HQ. apply sm_wp_expect_or; [|by intros]. intros HN. cbn. destruct epoch eqn:E; [|done].
  destruct (stat_to_attr_ok st (Ht E)) as [a Ha]. congruence.
Qed.

Lemma keeps_attr_of r : stat_in r → keeps (attr_of r) any.
Proof using.
  intros Hr s g Q Hok HQ. unfold attr_of. destruct r as [st|]; wps; [|by apply HQ].
  apply wp_expect_attr; [auto|]. intros a. wps. by apply HQ.
Qed.

Ltac inner_rule ::=
  lazymatch goal with
  | |- sm_wp _ (is_wh_file _ _ _) _ _ _ =>
      apply keeps_is_wh_file; [assumption|solve_inner|intros ? ? ? ? ? _; advance]
  | |- sm_wp _ (do_stat_with_path _ _ _) _ _ _ => keep keeps_do_stat_with_path
  | |- sm_wp _ (get_st_ino_with_path _ _ _) _ _ _ => keep keeps_get_st_ino
  | |- sm_wp _ get_fs_namemax _ _ _ => keep keeps_get_fs_namemax
  | |- sm_wp _ (override_mode _ _ _ _) _ _ _ =>
      apply wp_override_mode; [solve_layer|auto|intros ? ? ? ? ?; advance]
  | |- sm_wp _ (rpl_stat_with_path _ _ _ _) _ _ _ => keep keeps_rpl_stat_with_path
  | |- sm_wp _ (rpl_stat _ _ _) _ _ _ => keep keeps_rpl_stat
  | |- sm_wp _ (sm_expect (stat_to_attr _)) _ _ _ => apply wp_expect_attr; [solve [auto with ovl]|intros ?]
  | |- sm_wp _ (attr_of _) _ _ _ => apply keeps_attr_of; [assumption|solve_inner|intros ? ? ? ? ? _; advance]
  end.

Lemma keeps_do_getattr id : keeps (do_getattr config id) any.
Proof using. intros s g Q Hok HQ. unfold do_getattr. inner_go; inner_end HQ. Qed.

Lemma keeps_inherit_acl id fd s g (Q : unit → OverlayInner → fds → Prop) :
  inner_ok g s → changeable g fd → (∀ s' g', g ⊆ g' → inner_ok g' s' → Q tt s' g') →
  sm_wp SAFE (inherit_acl config id fd) s g Q.
Proof using. intros Hok Hfd HQ. unfold inherit_acl. inner_go; apply HQ; done. Qed.

Lemma keeps_insert_child_node pid n :
  simple_name (name n) → hidden_path n = None → keeps (insert_child_node pid n) any.
Proof using. intros Hn Hh s g Q Hok HQ. unfold insert_child_node. inner_go; inner_end HQ. Qed.

(** ** Merging directories *)

Lemma wh_prefix_name_simple nm w : simple_name nm → wh_prefix_name nm = Some w → simple_name w.
Proof using.
  unfold wh_prefix_name, simple_name. intros Hn. destruct (_ && _); intros [= <-].
  intros Hin. apply Hn. rewrite <-(take_drop 4 nm), elem_of_app. by right.
Qed.

Ltac child_rule :=
  lazymatch goal with
  | |- sm_wp _ (insert_child_node _ _) _ _ _ =>
      apply keeps_insert_child_node; [assumption|done|solve_inner|intros ? ? ? ? ? _; advance]
  end.
Ltac load_go := repeat (first [progress inner_go | child_rule]).

Lemma keeps_load_entry pid path k e :
  (k < length ls)%nat → simple_name (rde_name e) → keeps (load_entry config pid path k e) any.
Proof using.
  intros Hk He s g Q Hok HQ. unfold load_entry. load_go; inner_end HQ.
Qed.

Lemma keeps_load_entries pid path k es :
  (k < length ls)%nat → Forall (λ e, simple_name (rde_name e)) es →
  keeps (load_entries config pid path k es) any.
Proof using.
  intros Hk Hes. induction Hes as [|e es He Hes IH]; intros s g Q Hok HQ; cbn [load_entries];
    [wps; by apply HQ|].
  wps. apply keeps_load_entry; [done..|]. intros [] s' g' Hg Hok' _.
  apply IH; [done|]. intros. apply HQ; [by transitivity g'|done..].
Qed.

Lemma keeps_load_layers pid path last stop idxs :
  Forall (λ k, (k < length ls)%nat) idxs → keeps (load_layers config pid path last stop idxs) any.
Proof using.
  intros Hidx. revert stop. induction Hidx as [|k idxs Hk Hidx IH]; intros stop s g Q Hok HQ;
    cbn [load_layers]; [wps; by apply HQ|].
  destruct stop; [wps; by apply HQ|].
  inner_go; try (apply IH; [solve_inner|]); try (intros; apply HQ; [by etransitivity|done..]); try inner_end HQ.
  apply keeps_load_entries; [done|auto|solve_inner|]. intros ? ? ? ? ? _. advance.
  inner_go; (apply IH; [solve_inner|]; intros; apply HQ; [by etransitivity|done..]).
Qed.

Lemma seq_lt n : Forall (λ k, (k < n)%nat) (seq 0 n).
Proof using. apply Forall_forall. intros k Hk%elem_of_seq. lia. Qed.

Lemma keeps_load_dir_impl pid path last : keeps (load_dir_impl config pid path last) any.
Proof using.
  intros s g Q Hok HQ. unfold load_dir_impl. wps. rewrite (io_layers _ _ Hok).
  apply keeps_load_layers; [apply seq_lt|done|]. intros ? ? ? ? ? _. advance. inner_go. inner_end HQ.
Qed.

Lemma keeps_reload_dir id : keeps (reload_dir config id) any.
Proof using.
  intros s g Q Hok HQ. unfold reload_dir. inner_go; try inner_end HQ.
  apply keeps_load_dir_impl; [solve_inner|]. intros ? ? ? ? ? _. advance. wps. inner_end HQ.
Qed.

Lemma keeps_ensure_root_loaded : keeps (ensure_root_loaded config) any.
Proof using.
  intros s g Q Hok HQ. unfold ensure_root_loaded, load_dir_entries. inner_go; try inner_end HQ.
  by apply keeps_load_dir_impl.
Qed.

(** ** Looking up a name *)

Definition fresh_child (n : OvlNode) : Prop := simple_name (name n) ∧ hidden_path n = None.

Lemma keeps_lazy_layers pid path nm last found stop idxs :
  simple_name nm → (∀ n, found = Some n → fresh_child n) → Forall (λ k, (k < length ls)%nat) idxs →
  keeps (lazy_layers pid path nm last found stop idxs)
    (λ r _ _, ∀ n, r = Some (Some n) → fresh_child n).
Proof using.
  intros Hn Hf Hidx. revert found stop Hf.
  induction Hidx as [|k idxs Hk Hidx IH]; intros found stop Hf s g Q Hok HQ; cbn [lazy_layers].
  { wps. apply HQ; [done..|]. intros n [= ->]. by apply Hf. }
  destruct stop. { wps. apply HQ; [done..|]. intros n [= ->]. by apply Hf. }
  inner_go; try (inner_end HQ; naive_solver).
  all: apply IH; [|solve_inner|intros; apply HQ; [by etransitivity|done..]].
  all: try done.
  - intros n [= <-]. by apply (Hf _ eq_refl).
  - by intros n [= <-].
  - by intros n [= <-].
Qed.

Lemma keeps_do_lazy_lookup pid nm : simple_name nm → keeps (do_lazy_lookup pid nm) any.
Proof using.
  intros Hn s g Q Hok HQ. unfold do_lazy_lookup. inner_go; try inner_end HQ.
  rewrite (io_layers _ _ H3).
  apply keeps_lazy_layers; [done|done|apply seq_lt|done|]. intros r s'' g'' Hg'' Hok'' Hr.
  advance. wps; try inner_end HQ.
  destruct (Hr _ eq_refl) as [Hn' Hh']. inner_go; inner_end HQ.
Qed.

Lemma keeps_do_lookup_file ino nm :
  (∀ n, nm = Some n → simple_name n) → keeps (do_lookup_file ino nm) any.
Proof using.
  intros Hn s g Q Hok HQ. unfold do_lookup_file. inner_go; try inner_end HQ.
  apply keeps_do_lazy_lookup; [by apply Hn|done..].
Qed.

(** ** Changing the tree *)

Lemma keeps_next_wd_counter : keeps next_wd_counter (λ c _ _, 0 <= c).
Proof using.
  intros s g Q Hok HQ. unfold next_wd_counter. wps. apply HQ; [done| |apply Hok].
  destruct Hok. split; try done. apply wrap_u64_bounds.
Qed.

Lemma keeps_get_node_up id :
  keeps (get_node_up copy_fuel id) (λ r s _, r = Ok tt → has_upper ∧ at_upper (nodes s) id).
Proof using.
  intros s g Q Hok HQ. unfold get_node_up. wps; try (apply HQ; [done|done|discriminate]).
  - apply HQ; [done|done|]. intros _. pose proof Heqo as [Hh Hl]%upper_layer_head.
    rewrite (io_layers _ _ Hok) in Hh. split; [by exists o|].
    apply andb_true_iff in Heqb as [Hz%Nat.eqb_eq _]. intros n Hn.
    apply ok_or_Ok in Heqr. unfold nodes_get in Heqr. congruence.
  - pose proof Heqo as [Hh Hl]%upper_layer_head. rewrite (io_layers _ _ Hok) in *.
    assert (has_upper) as Hup by (by exists o).
    eapply copyup_copies; [done|done|..].
    + destruct Hok. split_and!; try done. rewrite io_workdir0. auto.
    + intros r s' g' Hg (Hl' & Hw & Hn & Hc) Hat. apply HQ; [done| |].
      * apply (inner_ok_mono _ _ _ Hg) in Hok. destruct Hok. split; try done.
      * intros Hr. split; [done|]. by apply Hat.
Qed.

Lemma keeps_do_create_whiteout dirfd path nm b s g (Q : FsResult unit → OverlayInner → fds → Prop) :
  inner_ok g s → changeable g dirfd → simple_name nm →
  (∀ r s' g', g ⊆ g' → inner_ok g' s' → Q r s' g') →
  sm_wp SAFE (do_create_whiteout dirfd path nm b) s g Q.
Proof using.
  intros Hok Hd Hn HQ. unfold do_create_whiteout. wps. apply wp_create_whiteout; [done..|].
  intros r b' g' Hg. advance. apply HQ; [done|]. by apply io_set_CAN_MKNOD.
Qed.
Lemma keeps_do_delete_whiteout ufd dirfd path nm s g (Q : FsResult unit → OverlayInner → fds → Prop) :
  inner_ok g s → changeable g ufd → (∀ d, dirfd = Some d → changeable g d) → simple_name nm →
  (∀ r s' g', g ⊆ g' → inner_ok g' s' → Q r s' g') →
  sm_wp SAFE (do_delete_whiteout ufd dirfd path nm) s g Q.
Proof using.
  intros Hok Hu Hd Hn HQ. unfold do_delete_whiteout. wps. apply wp_delete_whiteout; [done..|].
  intros r b' g' Hg. advance. apply HQ; [done|]. by apply io_set_CAN_MKNOD.
Qed.

Lemma keeps_hide_move ufd id newname s g (Q : FsResult unit → OverlayInner → fds → Prop) :
  inner_ok g s → has_upper → changeable g ufd → simple_name newname →
  (∀ r s' g', g ⊆ g' → inner_ok g' s' → Q r s' g') →
  sm_wp SAFE (hide_move ufd id newname) s g Q.
Proof using.
  intros Hok Hup Hu Hn HQ. unfold hide_move.
  assert (changeable g wfd) as Hw by (by apply Hok).
  wp_step. apply keeps_node_path; [done|]. intros path s' g' Hg Hok' _. advance.
  wps; [|by apply HQ]. pose proof (io_name _ _ _ _ Hok' Heqr). rewrite (io_workdir _ _ Hok').
  wp_rule; [|wps; by apply HQ]. wps.
  - wp_call. wps; [by apply HQ| |].
    + inner_go. apply keeps_do_create_whiteout; [done..|]. intros r1 s1 g1 Hg1 Hok1. advance.
      inner_go; by apply HQ.
    + inner_go. by apply HQ.
  - inner_go. apply keeps_do_create_whiteout; [done..|]. intros r1 s1 g1 Hg1 Hok1. advance.
    inner_go; by apply HQ.
  - inner_go. by apply HQ.
  - inner_go. by apply HQ.
Qed.

Lemma keeps_hide_mark id newname s g (Q : FsResult unit → OverlayInner → fds → Prop) :
  inner_ok g s → has_upper → simple_name newname →
  (∀ r s' g', g ⊆ g' → inner_ok g' s' → Q r s' g') →
  sm_wp SAFE (hide_mark id newname) s g Q.
Proof using.
  intros Hok Hup Hn HQ. unfold hide_mark. wps; [|by apply HQ]. rewrite (io_workdir _ _ Hok).
  assert (entry_safe g wfd newname) as He by (split; [by apply Hok|done]).
  apply sm_wp_modify. cbv beta.
  match goal with |- sm_wp _ _ ?st _ _ => assert (inner_ok g st) as Hok2 end.
  { apply io_alter; [|done]. intros n [Hnm _]. cbv zeta. split.
    - by destruct (is_dir _).
    - destruct (is_dir _); cbn; by intros ? [= <-]. }
  inner_go; by apply HQ.
Qed.

Lemma keeps_hide_node id b : keeps (hide_node id b) any.
Proof using.
  intros s g Q Hok HQ. unfold hide_node. wps; [|by apply HQ].
  destruct (io_upper _ _ _ Hok Heqr) as [Hup Hu].
  apply keeps_next_wd_counter; [done|]. intros c s' g' Hg Hok' Hc. advance. wp_step. wp_step.
  - apply keeps_hide_move; [done|done|done|eauto with ovl|]. intros r s1 g1 Hg1 Hok1. advance.
    wps; [|by apply HQ]. apply keeps_hide_mark; [done|done|eauto with ovl|].
    intros. advance. by apply HQ.
  - apply keeps_hide_mark; [done|done|eauto with ovl|]. intros. advance. by apply HQ.
Qed.

Lemma keeps_create_and_register_child pid nm st b :
  simple_name nm → keeps (create_and_register_child pid nm st b) any.
Proof using.
  intros Hn s g Q Hok HQ. unfold create_and_register_child.
  destruct b; inner_go; inner_end HQ.
Qed.

(** After the parent is prepared there is an upper layer. *)
Lemma keeps_prepare_create_parent ino nm :
  keeps (prepare_create_parent copy_fuel ino nm)
    (λ r _ g, ∀ pid path ufd cpath, r = Ok (pid, path, ufd, cpath) → has_upper ∧ changeable g ufd).
Proof using Hls.
  intros s g Q Hok HQ. unfold prepare_create_parent. wp_step.
  apply keeps_do_lookup_file; [done|done|]. intros o s1 g1 Hg1 Hok1 _. wps; [|by apply HQ].
  apply keeps_get_node_up; [done|]. intros r s2 g2 Hg2 Hok2 Hr. advance. wps; [|by apply HQ].
  destruct Hr as [Hup _]; [by destruct a0|]. inner_go.
  apply HQ; [done|done|]. intros ? ? ? ? [= <- <- <- <-]. split; [done|].
  by eapply io_upper_first.
Qed.

Lemma keeps_stat_and_register_child pid nm path :
  simple_name nm → keeps (stat_and_register_child pid nm path) any.
Proof using Hls.
  intros Hn s g Q Hok HQ. unfold stat_and_register_child. inner_go; try inner_end HQ.
  apply keeps_create_and_register_child; [done|solve_inner|]. intros ? ? ? ? ? _. advance.
  inner_go; inner_end HQ.
Qed.

Lemma keeps_empty_entries fd es s g (Q : unit → OverlayInner → fds → Prop) :
  changeable g fd → Forall (λ e, simple_name (rde_name e)) es → Q tt s g →
  sm_wp SAFE (empty_entries fd es) s g Q.
Proof using.
  intros Hfd Hes HQ. induction Hes as [|e es He Hes IH]; cbn [empty_entries]; [by wps|].
  wps; try done. wp_call. wps. done.
Qed.

Lemma keeps_empty_upper_dir l path s g (Q : FsResult unit → OverlayInner → fds → Prop) :
  inner_ok g s → layer_ok g l → low l = false → (∀ r g', g ⊆ g' → inner_ok g' s → Q r s g') →
  sm_wp SAFE (empty_upper_dir l path) s g Q.
Proof using.
  intros Hok Hl Hlow HQ. unfold empty_upper_dir. inner_go; try (apply HQ; done).
  apply keeps_empty_entries; [auto|auto|]. wps. by apply HQ.
Qed.

(** ** Listings *)

Lemma keeps_child_entries path ids : keeps (child_entries config path ids) any.
Proof using.
  induction ids as [|[nm id] ids IH]; intros s g Q Hok HQ; cbn [child_entries]; [wps; by apply HQ|].
  unfold child_entry. inner_go.
  all: apply IH; [solve_inner|]; intros; advance; inner_go; inner_end HQ.
Qed.

Lemma keeps_build_dir_entries id : keeps (build_dir_entries config id) any.
Proof using.
  intros s g Q Hok HQ. unfold build_dir_entries. wp_step.
  apply keeps_reload_dir; [done|]. intros ? s1 g1 Hg1 Hok1 _. advance.
  inner_go; try inner_end HQ.
  all: apply keeps_child_entries; [solve_inner|]; intros; advance; inner_go; inner_end HQ.
Qed.
End inner_safe.

(** ** Automation for the programs built on these *)

Lemma keeps_layer_first `{EP : Epoch} `{F64, DevT, HashOrder} ls wfd : ls ≠ [] →
  keeps ls wfd (layer_at 0) (λ l s g, ls !! 0%nat = Some l ∧ layer_ok g l).
Proof. intros Hls. by apply keeps_layer_at, first_lt. Qed.

Ltac advance1 ::=
  match goal with
  | Hg : ?g ⊆ ?g', H : changeable ?g _ |- _ => apply (changeable_mono _ _ _ Hg) in H
  | Hg : ?g ⊆ ?g', H : write_safe ?g _ |- _ => apply (write_safe_mono _ _ _ Hg) in H
  | Hg : ?g ⊆ ?g', H : layer_ok ?g _ |- _ => apply (layer_ok_mono _ _ _ Hg) in H
  | Hg : ?g ⊆ ?g', H : node_ok ?g _ |- _ => apply (node_ok_mono _ _ _ Hg) in H
  | Hg : ?g ⊆ ?g', H : inner_ok _ _ ?g _ |- _ => apply (inner_ok_mono _ _ _ _ _ Hg) in H
  | H1 : ?a ⊆ ?b, H2 : ?b ⊆ ?c |- _ => pose proof (transitivity H1 H2); clear H1 H2
  end.
Ltac solve_layer ::=
  solve [eauto 4 using io_layer, io_layer_node, io_name with ovl].
Ltac solve_inner := solve [eauto 3 using io_set_inodes, io_set_CAN_MKNOD].
Ltac keep lem := eapply lem; [solve_inner|intros ? ? ? ? ? ?; advance].
#[export] Hint Resolve tame_insert_child tame_remove_child tame_insert_whiteout tame_mark_loaded
  tame_mark_unloaded tame_clear_children tame_last_layer tame_set_parent : ovl.
#[export] Hint Resolve stat_in_Ok : ovl.

Ltac inner_rule :=
  lazymatch goal with
  | |- sm_wp _ (node_path _) _ _ _ => keep keeps_node_path
  | |- sm_wp _ (layer_at 0) _ _ _ =>
      eapply keeps_layer_first; [eassumption|solve_inner|intros ? ? ? ? ? [? ?]; advance]
  | |- sm_wp _ (do_register _ _ _ _) _ _ _ => keep keeps_do_register
  | |- sm_wp _ (do_inc_lookup _) _ _ _ => keep keeps_do_inc_lookup
  | |- sm_wp _ (do_remove _) _ _ _ => keep keeps_do_remove
  | |- sm_wp _ (alter_node _ _) _ _ _ =>
      eapply keeps_alter; [solve [eauto with ovl]|solve_inner|intros ? ? ? ? ? _; advance]
  | |- sm_wp _ (get_fs_namemax) _ _ _ => keep keeps_get_fs_namemax
  | |- sm_wp _ (rpl_stat_with_path _ _ _ _) _ _ _ => keep keeps_rpl_stat_with_path
  | |- sm_wp _ (rpl_stat _ _ _) _ _ _ => keep keeps_rpl_stat
  | |- sm_wp _ (do_getattr _ _) _ _ _ => keep keeps_do_getattr
  | |- sm_wp _ (reload_dir _ _) _ _ _ => keep keeps_reload_dir
  | |- sm_wp _ (ensure_root_loaded _) _ _ _ => keep keeps_ensure_root_loaded
  | |- sm_wp _ (load_dir_impl _ _ _ _) _ _ _ => keep keeps_load_dir_impl
  | |- sm_wp _ (build_dir_entries _ _) _ _ _ => keep keeps_build_dir_entries
  | |- sm_wp _ (do_lookup_file _ None) _ _ _ =>
      eapply keeps_do_lookup_file; [discriminate|solve_inner|intros ? ? ? ? ? _; advance]
  | |- sm_wp _ (do_lookup_file _ (Some _)) _ _ _ =>
      eapply keeps_do_lookup_file; [intros ? [= <-]; assumption|solve_inner|intros ? ? ? ? ? _; advance]
  | |- sm_wp _ (get_node_up _ _) _ _ _ => keep keeps_get_node_up
  | |- sm_wp _ (hide_node _ _) _ _ _ => keep keeps_hide_node
  | |- sm_wp _ next_wd_counter _ _ _ => keep keeps_next_wd_counter
  | |- sm_wp _ (inherit_acl _ _ _) _ _ _ =>
      eapply keeps_inherit_acl; [solve_inner|solve [eauto with ovl]|intros ? ? ? ?; advance]
  | |- sm_wp _ (do_delete_whiteout _ (Some _) _ _) _ _ _ =>
      eapply keeps_do_delete_whiteout;
        [solve_inner|assumption|intros ? [= <-]; assumption|assumption|intros ? ? ? ? ?; advance]
  | |- sm_wp _ (do_delete_whiteout _ None _ _) _ _ _ =>
      eapply keeps_do_delete_whiteout;
        [solve_inner|assumption|discriminate|assumption|intros ? ? ? ? ?; advance]
  | |- sm_wp _ (do_create_whiteout _ _ _ _) _ _ _ =>
      eapply keeps_do_create_whiteout; [solve_inner|assumption|assumption|intros ? ? ? ? ?; advance]
  | |- sm_wp _ (create_and_register_child _ _ _ _) _ _ _ =>
      eapply keeps_create_and_register_child; [assumption|solve_inner|intros ? ? ? ? ? _; advance]
  | |- sm_wp _ (stat_and_register_child _ _ _) _ _ _ =>
      eapply keeps_stat_and_register_child; [eassumption|assumption|solve_inner|intros ? ? ? ? ? _; advance]
  | |- sm_wp _ (sm_expect (stat_to_attr _)) _ _ _ =>
      apply wp_expect_attr; [solve [eauto with ovl]|intros ?]
  end.
Ltac inner_go := repeat (first [progress wps | wp_call | wp_rule | inner_rule]; cbv beta iota zeta).
Ltac inner_end HQ := apply HQ; [done|solve_inner|try solve [done|intros ?; done]].
