(* ===== verification/SafeTree.v ===== *)
(** * The inner parts of the requests under [SAFE]

    What the handlers of Ops.v, OpsTree.v and OpsFile.v do under the lock. *)

From S2P Require Import Prelude Libc Mapping Xattr ConfigData Sys Openat2 Node DataSource.
From S2P Require Import Provenance Whiteout Layer Copyup SafeCopy Overlay SafeInner Ops.
From S2P Require Import OpsTree OpsFile.
Local Open Scope Z_scope.

Section tree_safe.
Context `{EP : Epoch} `{F64, DevT, HashOrder} (copy_fuel : nat) (config : OverlayConfig).
Context (ls : list OvlLayer) (wfd : RawFd) (Hls : ls ≠ []).
Implicit Types (s : OverlayInner) (g : fds).
Abbreviation inner_ok := (inner_ok ls wfd).
Abbreviation has_upper := (has_upper ls).
Abbreviation keeps := (keeps ls wfd).

(** ** Ops.v *)

Lemma keeps_drop_child pid nm : keeps (drop_child pid nm) any.
Proof using. intros s g Q Hok HQ. unfold drop_child. inner_go; inner_end HQ. Qed.

Lemma keeps_lookup_fast parent nm : keeps (lookup_fast config parent nm) any.
Proof using. intros s g Q Hok HQ. unfold lookup_fast. inner_go; inner_end HQ. Qed.

Lemma keeps_register_lookup id st : keeps (register_lookup id st) any.
Proof using. intros s g Q Hok HQ. unfold register_lookup. inner_go; inner_end HQ. Qed.

Lemma keeps_lookup_slow parent nm : simple_name nm → keeps (lookup_slow config parent nm) any.
Proof using.
  intros Hn s g Q Hok HQ. unfold lookup_slow. inner_go; try inner_end HQ.
  all: eapply keeps_register_lookup; [solve_inner|intros; advance; inner_go; inner_end HQ].
Qed.

(** ** OpsTree.v *)

Lemma keeps_check_new_name parent nm : simple_name nm → keeps (check_new_name parent nm) any.
Proof using. intros Hn s g Q Hok HQ. unfold check_new_name. inner_go; inner_end HQ. Qed.
Lemma keeps_check_create parent nm : simple_name nm → keeps (check_create parent nm) any.
Proof using. intros Hn s g Q Hok HQ. unfold check_create. inner_go; inner_end HQ. Qed.

(** Moving a prepared object in place. *)
Lemma wp_place_file ufd wd path s g (Q : FsResult RawFd → OverlayInner → fds → Prop) :
  inner_ok g s → has_upper → changeable g ufd → simple_name wd →
  (∀ d g', g ⊆ g' → inner_ok g' s → changeable g' d → Q (Ok d) s g') →
  (∀ e g', g ⊆ g' → inner_ok g' s → Q (Err e) s g') →
  sm_wp SAFE (place_file ufd wd path) s g Q.
Proof using.
  intros Hok Hup Hu Hw HOk HErr. unfold place_file. pose proof (io_work _ _ _ _ Hok Hup).
  wp_step. wp_step. rewrite (io_workdir _ _ _ _ Hok). inner_go; auto.
Qed.
Lemma wp_place_dir ufd wd path s g (Q : FsResult RawFd → OverlayInner → fds → Prop) :
  inner_ok g s → has_upper → changeable g ufd → simple_name wd →
  (∀ d g', g ⊆ g' → inner_ok g' s → changeable g' d → Q (Ok d) s g') →
  (∀ e g', g ⊆ g' → inner_ok g' s → Q (Err e) s g') →
  sm_wp SAFE (place_dir ufd wd path) s g Q.
Proof using.
  intros Hok Hup Hu Hw HOk HErr. unfold place_dir. pose proof (io_work _ _ _ _ Hok Hup).
  wp_step. wp_step. rewrite (io_workdir _ _ _ _ Hok). inner_go; auto.
Qed.

Lemma keeps_finish_entry pid ppath ufd d nm path s g (Q : FsResult FileAttr → OverlayInner → fds → Prop) :
  inner_ok g s → changeable g ufd → changeable g d → simple_name nm →
  (∀ r s' g', g ⊆ g' → inner_ok g' s' → Q r s' g') →
  sm_wp SAFE (finish_entry pid ppath ufd d nm path) s g Q.
Proof using Hls. intros Hok Hu Hd Hn HQ. unfold finish_entry. inner_go; by apply HQ. Qed.

(** After the parent is prepared there is an upper layer: the facts the rest
    of a creating request uses. *)
Lemma wp_prepare parent nm s g
    (Q : FsResult (NodeId * bytes * RawFd * bytes) → OverlayInner → fds → Prop) :
  inner_ok g s →
  (∀ pid ppath ufd path s' g', g ⊆ g' → inner_ok g' s' → has_upper → changeable g' ufd →
     changeable g' wfd → Q (Ok (pid, ppath, ufd, path)) s' g') →
  (∀ e s' g', g ⊆ g' → inner_ok g' s' → Q (Err e) s' g') →
  sm_wp SAFE (prepare_create_parent copy_fuel parent nm) s g Q.
Proof using Hls.
  intros Hok HOk HErr. eapply keeps_prepare_create_parent; [done|done|].
  intros [[[[pid ppath] ufd] path]|e] s' g' Hg Hok' Hr; [|by apply HErr].
  destruct (Hr _ _ _ _ eq_refl) as [Hup Hu]. apply HOk; try done. by apply Hok'.
Qed.

(** The first layer, when there is an upper one. *)
Lemma wp_layer_upper s g (Q : OvlLayer → OverlayInner → fds → Prop) :
  inner_ok g s → has_upper →
  (∀ l, layer_ok g l → low l = false → changeable g (root_fd (ds l)) → Q l s g) →
  sm_wp SAFE (layer_at 0) s g Q.
Proof using Hls.
  intros Hok Hup HQ. unfold layer_at. wps. apply sm_wp_index.
  destruct (lookup_lt_is_Some_2 ls 0 (first_lt ls Hls)) as [l Hl]. rewrite (io_layers _ _ _ _ Hok).
  exists l. split; [done|]. destruct (io_upper_first _ _ _ _ _ Hok Hup Hl).
  apply HQ; [by eapply io_layers_ok|done..].
Qed.

(** A successful copy-up shows that there is an upper layer. *)
Lemma wp_get_node_up id s g (Q : FsResult unit → OverlayInner → fds → Prop) :
  inner_ok g s →
  (∀ s' g', g ⊆ g' → inner_ok g' s' → has_upper → changeable g' wfd → at_upper (nodes s') id →
     Q (Ok tt) s' g') →
  (∀ e s' g', g ⊆ g' → inner_ok g' s' → Q (Err e) s' g') →
  sm_wp SAFE (get_node_up copy_fuel id) s g Q.
Proof using.
  intros Hok HOk HErr. eapply keeps_get_node_up; [done|]. intros [[]|e] s' g' Hg Hok' Hr; [|by apply HErr].
  destruct (Hr eq_refl). apply HOk; try done. by apply Hok'.
Qed.

Ltac tree_rule :=
  lazymatch goal with
  | |- sm_wp _ (layer_at 0) _ _ _ =>
      apply wp_layer_upper; [solve_inner|assumption|intros ? ? ? ?]
  | |- sm_wp _ (get_node_up _ _) _ _ _ =>
      apply wp_get_node_up; [solve_inner|intros ? ? ? ? ? ? ?; advance|intros ? ? ? ? ?; advance]
  | |- sm_wp _ (check_new_name _ _) _ _ _ =>
      eapply keeps_check_new_name; [assumption|solve_inner|intros ? ? ? ? ? _; advance]
  | |- sm_wp _ (check_create _ _) _ _ _ =>
      eapply keeps_check_create; [assumption|solve_inner|intros ? ? ? ? ? _; advance]
  | |- sm_wp _ (prepare_create_parent _ _ _) _ _ _ =>
      eapply wp_prepare;
        [solve_inner|intros ? ? ? ? ? ? ? Hok'' ? ? ?; advance; rewrite ?(io_workdir _ _ _ _ Hok'')
        |intros ? ? ? ? ?; advance]
  | |- sm_wp _ (place_file _ _ _) _ _ _ =>
      eapply wp_place_file; [solve_inner|assumption|assumption|solve [eauto with ovl]
                            |intros ? ? ? ? ?; advance|intros ? ? ? ?; advance]
  | |- sm_wp _ (place_dir _ _ _) _ _ _ =>
      eapply wp_place_dir; [solve_inner|assumption|assumption|solve [eauto with ovl]
                           |intros ? ? ? ? ?; advance|intros ? ? ? ?; advance]
  | |- sm_wp _ (finish_entry _ _ _ _ _ _) _ _ _ =>
      eapply keeps_finish_entry; [solve_inner|assumption|assumption|assumption|intros ? ? ? ? ?; advance]
  end.
Ltac tree_go :=
  repeat (first [match goal with |- context [workdir_fd ?s] =>
                   erewrite (io_workdir _ _ _ s) by eassumption end
                |progress wps | wp_call | wp_rule | tree_rule | inner_rule]; cbv beta iota zeta).

Abbreviation upper_if_ok := (upper_if_ok ls).

Lemma keeps_do_rm_inner parent nm b :
  simple_name nm → keeps (do_rm_inner copy_fuel config parent nm b) upper_if_ok.
Proof using.
  intros Hn s g Q Hok HQ. unfold do_rm_inner. tree_go; try inner_end HQ.
  all: eapply keeps_drop_child; [solve_inner|intros; advance; wps; inner_end HQ].
Qed.

Lemma keeps_mknod_inner req parent nm mode rdev :
  simple_name nm → keeps (mknod_inner copy_fuel config req parent nm mode rdev) upper_if_ok.
Proof using Hls. intros Hn s g Q Hok HQ. unfold mknod_inner. tree_go; inner_end HQ. Qed.

Lemma keeps_mkdir_inner req parent nm mode :
  simple_name nm → keeps (mkdir_inner copy_fuel config req parent nm mode) upper_if_ok.
Proof using Hls. intros Hn s g Q Hok HQ. unfold mkdir_inner. tree_go; inner_end HQ. Qed.

Lemma keeps_symlink_inner req parent nm link :
  simple_name nm → keeps (symlink_inner copy_fuel config req parent nm link) upper_if_ok.
Proof using Hls. intros Hn s g Q Hok HQ. unfold symlink_inner. tree_go; inner_end HQ. Qed.

Lemma wp_create_file is_wh ufd ppath nm path fl mode s g
    (Q : FsResult RawFd → OverlayInner → fds → Prop) :
  inner_ok g s → has_upper → changeable g ufd → simple_name nm →
  (∀ fd s' g', g ⊆ g' → inner_ok g' s' → changeable g' fd → Q (Ok fd) s' g') →
  (∀ e s' g', g ⊆ g' → inner_ok g' s' → Q (Err e) s' g') →
  sm_wp SAFE (create_file is_wh ufd ppath nm path fl mode) s g Q.
Proof using Hls.
  intros Hok Hup Hu Hn HOk HErr. unfold create_file. pose proof (io_work _ _ _ _ Hok Hup).
  wp_step. apply wp_layer_upper; [done|done|]. intros l Hl Hlow Hr. wp_step.
  - apply wp_l_open_upper; [done|done|..]; intros; advance; [by apply HOk|by apply HErr].
  - tree_go; try (by apply HErr).
    apply wp_l_open_upper; [done|done|..]; intros; advance; [by apply HOk|by apply HErr].
Qed.

Lemma keeps_create_inner req parent nm mode fl :
  simple_name nm →
  keeps (create_inner copy_fuel config req parent nm mode fl)
    (λ r _ g, (∀ fd ino a, r = Ok (fd, ino, a) → changeable g fd) ∧ (is_ok r = true → has_upper)).
Proof using Hls.
  intros Hn s g Q Hok HQ. unfold create_inner. tree_go; try (by inner_end HQ).
  apply wp_create_file; [solve_inner|done..| |]; intros; advance; tree_go; try (by inner_end HQ).
  all: inner_end HQ; split; [by intros ? ? ? [= <- <- <-]|done].
Qed.

Lemma keeps_link_inner ino newparent nm :
  simple_name nm → keeps (link_inner copy_fuel ino newparent nm) upper_if_ok.
Proof using Hls.
  intros Hn s g Q Hok HQ. unfold link_inner. tree_go; try (by inner_end HQ).
Qed.

(** *** rename *)

Lemma wp_rename_resolve parent nm newparent newname s g
    (Q : FsResult (NodeId * NodeId * NodeId) → OverlayInner → fds → Prop) :
  inner_ok g s → simple_name nm →
  (∀ r s' g', g ⊆ g' → inner_ok g' s' → has_upper → Q (Ok r) s' g') →
  (∀ e s' g', g ⊆ g' → inner_ok g' s' → Q (Err e) s' g') →
  sm_wp SAFE (rename_resolve copy_fuel config parent nm newparent newname) s g Q.
Proof using Hls.
  intros Hok Hn HOk HErr. unfold rename_resolve.
  tree_go; first [by apply HErr|by apply HOk].
Qed.

Lemma keeps_rename_check_dst newparent newname flags s g
    (Q : FsResult unit → OverlayInner → fds → Prop) :
  inner_ok g s → has_upper → simple_name newname →
  (∀ r s' g', g ⊆ g' → inner_ok g' s' → Q r s' g') →
  sm_wp SAFE (rename_check_dst config newparent newname flags) s g Q.
Proof using Hls.
  intros Hok Hup Hn HQ. unfold rename_check_dst. tree_go; try (by apply HQ).
  eapply keeps_empty_upper_dir; [solve_inner|done|done|]. intros; advance. wps. by apply HQ.
Qed.

Lemma keeps_rename_disk ufd src dst flags s g (Q : FsResult unit → OverlayInner → fds → Prop) :
  inner_ok g s → changeable g ufd → (∀ r s' g', g ⊆ g' → inner_ok g' s' → Q r s' g') →
  sm_wp SAFE (rename_disk ufd src dst flags) s g Q.
Proof using. intros Hok Hu HQ. unfold rename_disk. tree_go; by apply HQ. Qed.

(** Renaming keeps names path components. *)
Lemma keeps_alter_name f id :
  (∀ g n, node_ok g n → node_ok g (f n)) → keeps (alter_node f id) any.
Proof using.
  intros Hf s g Q Hok HQ. apply sm_wp_modify. apply HQ; [done| |done].
  apply io_alter; [apply Hf|done].
Qed.
Lemma renamed_ok nm p : simple_name nm → ∀ g n, node_ok g n → node_ok g (renamed nm p n).
Proof using. intros Hn g n [_ Hh]. by split. Qed.
Lemma unload_ok (f : OvlNode → OvlNode) : (∀ g n, node_ok g n → node_ok g (f n)) →
  ∀ g n, node_ok g n → node_ok g (unload_dir (f n)).
Proof using.
  intros Hf g n Hn. unfold unload_dir. destruct (is_dir (f n)); [|auto].
  apply tame_ok; [apply tame_mark_unloaded|auto].
Qed.

Lemma keeps_take_child pid nm : keeps (take_child pid nm) any.
Proof using. intros s g Q Hok HQ. unfold take_child. tree_go; inner_end HQ. Qed.
Lemma keeps_put_child pid nm id : keeps (put_child pid nm id) any.
Proof using. apply keeps_alter, tame_insert_child. Qed.

Lemma io_get_name g s id n : nodes_get s id = Some n → inner_ok g s → simple_name (name n).
Proof using. intros Hn Hok. by apply (io_nodes _ _ _ _ Hok id). Qed.

Ltac rename_rule :=
  lazymatch goal with
  | |- sm_wp _ (take_child _ _) _ _ _ => keep keeps_take_child
  | |- sm_wp _ (put_child _ _ _) _ _ _ => keep keeps_put_child
  | |- sm_wp _ (alter_node _ _) _ _ _ =>
      eapply keeps_alter_name;
        [first [by apply renamed_ok|apply unload_ok, renamed_ok; eapply io_get_name; eassumption]
        |solve_inner|intros ? ? ? ? ? _; advance]
  end.
Ltac rename_go := repeat (first [progress tree_go | rename_rule]; cbv beta iota zeta).

Lemma keeps_rename_exchange sp nm dp newname : keeps (rename_exchange sp nm dp newname) any.
Proof using.
  intros s g Q Hok HQ. unfold rename_exchange. rename_go; inner_end HQ.
Qed.

Lemma keeps_rename_replace sp nm newparent dp newname :
  simple_name newname → keeps (rename_replace sp nm newparent dp newname) any.
Proof using.
  intros Hn s g Q Hok HQ. unfold rename_replace. rename_go; inner_end HQ.
Qed.

Ltac disk_rule :=
  lazymatch goal with
  | |- sm_wp _ (rename_check_dst _ _ _ _) _ _ _ =>
      eapply keeps_rename_check_dst; [solve_inner|done|done|intros ? ? ? ? ?; advance]
  | |- sm_wp _ (rename_disk _ _ _ _) _ _ _ =>
      eapply keeps_rename_disk; [solve_inner|assumption|intros ? ? ? ? ?; advance]
  | |- sm_wp _ (rename_exchange _ _ _ _) _ _ _ => keep keeps_rename_exchange
  | |- sm_wp _ (rename_replace _ _ _ _ _) _ _ _ =>
      eapply keeps_rename_replace; [assumption|solve_inner|intros ? ? ? ? ? _; advance]
  end.
Ltac disk_go := repeat (first [progress rename_go | disk_rule]; cbv beta iota zeta).

Lemma keeps_rename_inner parent nm newparent newname flags :
  simple_name nm → simple_name newname →
  keeps (rename_inner copy_fuel config parent nm newparent newname flags) upper_if_ok.
Proof using Hls.
  intros Hn Hn' s g Q Hok HQ. unfold rename_inner. wp_step.
  apply wp_rename_resolve; [done|done| |]; intros; advance; [|wps; inner_end HQ].
  disk_go; inner_end HQ.
Qed.

(** ** OpsFile.v *)

Lemma wp_node_path id s g (Q : bytes → OverlayInner → fds → Prop) :
  (∀ p, Q p s g) → sm_wp SAFE (node_path id) s g Q.
Proof using. intros HQ. unfold node_path. wps. apply sm_wp_fuel; [by intros|]. intros p _. apply HQ. Qed.

(** The layer of a node that was copied up. *)
Lemma at_upper_layer g s id n l :
  inner_ok g s → has_upper → at_upper (nodes s) id → node_and_layer s id = Ok (n, l) →
  layer_ok g l ∧ low l = false ∧ changeable g (root_fd (ds l)).
Proof using.
  intros Hok Hup Hat Hnl. pose proof (io_layer_node _ _ _ _ _ _ _ Hok Hnl). split; [done|].
  revert Hnl. unfold node_and_layer.
  intros (n' & Hn & (l' & Hl & [= <- <-])%result_bind_Ok)%result_bind_Ok.
  apply ok_or_Ok in Hn, Hl. rewrite (Hat n' Hn), (io_layers _ _ _ _ Hok) in Hl.
  by eapply io_upper_first.
Qed.

Lemma wp_open_fast ino fl ofl s g (Q : option (FsResult RawFd) → OverlayInner → fds → Prop) :
  inner_ok g s → (needs_write fl = false → opens_write ofl = false) →
  (∀ fd s' g', g ⊆ g' → inner_ok g' s' → write_safe g' fd → Q (Some (Ok fd)) s' g') →
  (∀ e s' g', g ⊆ g' → inner_ok g' s' → Q (Some (Err e)) s' g') →
  (∀ s' g', g ⊆ g' → inner_ok g' s' → Q None s' g') →
  sm_wp SAFE (open_fast ino fl ofl) s g Q.
Proof using.
  intros Hok Hfl HOk HErr HNone. unfold open_fast. wps; auto.
  apply wp_node_path. intros p. wps; [|by apply HErr].
  pose proof (io_layer _ _ _ _ _ _ Hok Heqr0) as Hl. destruct (low a0) eqn:Hlow.
  - apply ok_or_Ok in Heqr0. rewrite Heqr0 in Heqb. simpl in Heqb. rewrite Hlow in Heqb.
    apply wp_l_open_read; [done| |intros; advance; wps; by apply HOk|intros; advance; wps; by apply HErr].
    apply Hfl. by destruct (needs_write fl).
  - apply wp_l_open_upper; [done..| |]; intros; advance; wps; [apply HOk|apply HErr]; eauto with ovl.
Qed.

Lemma wp_open_slow ino ofl s g (Q : FsResult RawFd → OverlayInner → fds → Prop) :
  inner_ok g s →
  (∀ fd s' g', g ⊆ g' → inner_ok g' s' → write_safe g' fd → Q (Ok fd) s' g') →
  (∀ e s' g', g ⊆ g' → inner_ok g' s' → Q (Err e) s' g') →
  sm_wp SAFE (open_slow copy_fuel ino ofl) s g Q.
Proof using.
  intros Hok HOk HErr. unfold open_slow. wps; [|by apply HErr]. tree_rule; [|by apply HErr].
  wps. apply wp_node_path. intros p. wps; [|by apply HErr].
  match goal with E : node_and_layer _ _ = Ok _ |- _ =>
    destruct (at_upper_layer _ _ _ _ _ ltac:(eassumption) ltac:(done) ltac:(done) E) as (? & ? & ?) end.
  apply wp_l_open_upper; [done..| |]; intros; advance; [apply HOk|apply HErr]; eauto with ovl.
Qed.

Lemma wp_xattr_target ino s g (Q : FsResult (bytes * OvlLayer) → OverlayInner → fds → Prop) :
  inner_ok g s →
  (∀ p l s' g', g ⊆ g' → inner_ok g' s' → has_upper → Q (Ok (p, l)) s' g') →
  (∀ e s' g', g ⊆ g' → inner_ok g' s' → Q (Err e) s' g') →
  sm_wp SAFE (xattr_target copy_fuel ino) s g Q.
Proof using.
  intros Hok HOk HErr. unfold xattr_target. tree_go; first [by apply HOk|by apply HErr].
Qed.

Lemma keeps_entry_ino e : keeps (entry_ino e) any.
Proof using. intros s g Q Hok HQ. unfold entry_ino. tree_go; inner_end HQ. Qed.

Lemma keeps_emit_plus full i es : keeps (emit_plus full i es) any.
Proof using.
  revert i. induction es as [|e es IH]; intros i s g Q Hok HQ; cbn [emit_plus]; [wps; by inner_end HQ|].
  wps. apply keeps_entry_ino; [done|]. intros; advance. wps; [inner_end HQ|].
  apply IH; [done|]. intros; advance. wps. inner_end HQ.
Qed.

Lemma keeps_refresh_dir id : keeps (refresh_dir config id) any.
Proof using. intros s g Q Hok HQ. unfold refresh_dir. tree_go; inner_end HQ. Qed.
End tree_safe.
