(* ===== verification/SafeOps.v ===== *)
(** * The requests only change the upper layer

    Every request handler under [SAFE], the dispatcher [serve] of the
    [Filesystem] trait, and the safety theorem of whole sessions. *)

From S2P Require Import Prelude Libc Mapping Xattr ConfigData Sys Openat2 Node DataSource.
From S2P Require Import Provenance Whiteout Layer Copyup SafeCopy Overlay SafeInner SafeTree.
From S2P Require Import Ops OpsTree OpsFile Requests.
Local Open Scope Z_scope.

(** ** Open flags *)

Lemma land_0_sub x m m' : Z.land x m = 0 → Z.land m m' = m' → Z.land x m' = 0.
Proof. intros Hx <-. by rewrite Z.land_assoc, Hx. Qed.
Lemma land_0_land_l x y m : Z.land x m = 0 → Z.land (Z.land x y) m = 0.
Proof. intros Hx. by rewrite (Z.land_comm x), <-Z.land_assoc, Hx, Z.land_0_r. Qed.
Lemma land_0_lor x y m : Z.land x m = 0 → Z.land y m = 0 → Z.land (Z.lor x y) m = 0.
Proof. intros Hx Hy. by rewrite Z.land_lor_distr_l, Hx, Hy. Qed.

Lemma adjust_flags_read wb flags :
  needs_write flags = false → opens_write (adjust_flags wb (Z.lor flags O_NOFOLLOW)) = false.
Proof.
  unfold needs_write, opens_write. intros Hn%negb_false_iff%Z.eqb_eq.
  apply negb_false_iff, Z.eqb_eq.
  assert (Z.land flags WRITE_FLAGS = 0) as Hf by (by eapply land_0_sub).
  assert (Z.land (Z.land (Z.lor flags O_NOFOLLOW) (Z.lnot O_DIRECT)) WRITE_FLAGS = 0) as H1
    by (by apply land_0_land_l, land_0_lor).
  unfold adjust_flags. destruct wb; [|done]. cbv zeta.
  assert (Z.land (Z.land (Z.lor flags O_NOFOLLOW) (Z.lnot O_DIRECT)) O_ACCMODE = 0) as ->
    by (by eapply land_0_sub).
  by apply land_0_land_l.
Qed.

Section ops_safe.
Context `{EP : Epoch} `{F64, DevT, HashOrder} (copy_fuel : nat) (config : OverlayConfig).
Context (ls : list OvlLayer) (wfd : RawFd) (Hls : ls ≠ []).
Context (Httl : is_Some (f64_duration (cfg_timeout config))).
Implicit Types (s : OverlayFs) (g : fds).
Abbreviation inner_ok := (inner_ok ls wfd).
Abbreviation has_upper := (has_upper ls).

(** The whole state: the inner one, and every open file was opened for
    reading only if it is of a lower layer. *)
Record fs_ok (g : fds) (s : OverlayFs) : Prop := {
  fo_inner : inner_ok g (inner s);
  fo_files fh fd : open_files s !! fh = Some fd → write_safe g fd
}.

Lemma fs_ok_mono g g' s : g ⊆ g' → fs_ok g s → fs_ok g' s.
Proof using.
  intros Hg [Hi Hf]. split; [by eapply SafeInner.inner_ok_mono|]. intros fh fd Hfd.
  eapply write_safe_mono; eauto.
Qed.
Lemma fo_set_inner g s i : fs_ok g s → inner_ok g i → fs_ok g (set_inner i s).
Proof using. by intros []. Qed.
Lemma fo_set_dirs g s d n : fs_ok g s → fs_ok g (set_dirs d n s).
Proof using. by intros []. Qed.
Lemma fo_set_passthrough g s b : fs_ok g s → fs_ok g (set_passthrough b s).
Proof using. by intros []. Qed.
Lemma fo_set_files g s m n b o :
  fs_ok g s → (∀ fh fd, m !! fh = Some fd → write_safe g fd) → fs_ok g (set_files m n b o s).
Proof using. by intros [] ?. Qed.
Lemma fo_insert g s fh fd h fd' :
  fs_ok g s → write_safe g fd → <[fh := fd]> (open_files s) !! h = Some fd' → write_safe g fd'.
Proof using. intros Hok Hfd. rewrite lookup_insert_Some. intros [[_ <-]|[_ Hh]]; [done|]. by eapply fo_files. Qed.

(** A handler serves: it keeps the invariant and never panics. *)
Definition serves {A} (m : SM OverlayFs A) : Prop :=
  ∀ s g (Q : A → OverlayFs → fds → Prop), fs_ok g s →
    (∀ a s' g', g ⊆ g' → fs_ok g' s' → Q a s' g') → sm_wp SAFE m s g Q.

Ltac advance1 ::=
  match goal with
  | Hg : ?g ⊆ ?g', H : changeable ?g _ |- _ => apply (changeable_mono _ _ _ Hg) in H
  | Hg : ?g ⊆ ?g', H : write_safe ?g _ |- _ => apply (write_safe_mono _ _ _ Hg) in H
  | Hg : ?g ⊆ ?g', H : layer_ok ?g _ |- _ => apply (layer_ok_mono _ _ _ Hg) in H
  | Hg : ?g ⊆ ?g', H : SafeInner.inner_ok _ _ ?g _ |- _ => apply (SafeInner.inner_ok_mono _ _ _ _ _ Hg) in H
  | Hg : ?g ⊆ ?g', H : fs_ok ?g _ |- _ => apply (fs_ok_mono _ _ _ Hg) in H
  | H1 : ?a ⊆ ?b, H2 : ?b ⊆ ?c |- _ => pose proof (transitivity H1 H2); clear H1 H2
  end.
Ltac solve_layer ::=
  solve [eauto 4 using io_layer, io_layer_node, io_name, fo_inner with ovl].
Ltac solve_fs := solve [eauto 3 using fo_set_dirs, fo_set_passthrough, fo_set_inner, io_set_inodes, fo_inner].

(** An inner program in a handler. *)
Lemma wp_on_inner {A} (m : InnerM A) R s g (Q : A → OverlayFs → fds → Prop) :
  keeps ls wfd m R → fs_ok g s →
  (∀ a i g', g ⊆ g' → fs_ok g' (set_inner i s) → inner_ok g' i → R a i g' → Q a (set_inner i s) g') →
  sm_wp SAFE (on_inner m) s g Q.
Proof using.
  intros Hm Hok HQ. apply sm_wp_zoom, Hm; [apply Hok|]. intros a i g' Hg Hi HR.
  apply HQ; [done| |done..]. by apply fo_set_inner; [eapply fs_ok_mono|].
Qed.

Lemma serves_on_inner {A} (m : InnerM A) R : keeps ls wfd m R → serves (on_inner m).
Proof using. intros Hm s g Q Hok HQ. eapply wp_on_inner; [done|done|]. intros. by apply HQ. Qed.

Lemma wp_timeout s g (Q : Z → OverlayFs → fds → Prop) :
  (∀ t, Q t s g) → sm_wp SAFE (timeout config) s g Q.
Proof using Httl. intros HQ. apply sm_wp_expect. destruct Httl as [t ->]. eauto. Qed.

Lemma wp_new_fh fd b o s g (Q : Z → OverlayFs → fds → Prop) :
  fs_ok g s → write_safe g fd → (∀ fh s', fs_ok g s' → Q fh s' g) →
  sm_wp SAFE (new_fh fd b o) s g Q.
Proof using.
  intros Hok Hfd HQ. unfold new_fh. wps. apply HQ, fo_set_files; [done|].
  intros h fd'. by apply fo_insert.
Qed.
Lemma wp_alloc_fh fd s g (Q : Z → OverlayFs → fds → Prop) :
  fs_ok g s → write_safe g fd → (∀ fh s', fs_ok g s' → Q fh s' g) →
  sm_wp SAFE (alloc_fh fd) s g Q.
Proof using. intros. unfold alloc_fh. wps. by apply wp_new_fh. Qed.

(** Handlers of the keep style, from here on. *)
Ltac fs_rule :=
  lazymatch goal with
  | |- sm_wp _ (timeout _) _ _ _ => apply wp_timeout; intros ?
  | |- sm_wp _ (new_fh _ _ _) _ _ _ => apply wp_new_fh; [solve_fs|solve [eauto with ovl]|intros ? ? ?]
  | |- sm_wp _ (alloc_fh _) _ _ _ => apply wp_alloc_fh; [solve_fs|solve [eauto with ovl]|intros ? ? ?]
  | |- sm_wp _ (sm_expect (stat_to_attr _)) _ _ _ =>
      apply wp_expect_attr; [solve [eauto using stat_in_Ok]|intros ?]
  | |- sm_wp _ get_inner _ _ _ => unfold get_inner
  | |- sm_wp _ (get_file _) _ _ _ => unfold get_file
  | |- sm_wp _ (alloc_dh _) _ _ _ => unfold alloc_dh
  end.
Ltac fs_go := repeat (first [progress wps | wp_call | wp_rule | fs_rule]; cbv beta iota zeta).
Ltac fs_end HQ := apply HQ; [done|solve_fs].

Lemma serves_reply_open ino fd s g (Q : FsResult Reply → OverlayFs → fds → Prop) :
  fs_ok g s → write_safe g fd → (∀ r s' g', g ⊆ g' → fs_ok g' s' → Q r s' g') →
  sm_wp SAFE (reply_open_maybe_passthrough config ino fd) s g Q.
Proof using. intros Hok Hfd HQ. unfold reply_open_maybe_passthrough. fs_go; fs_end HQ. Qed.

Lemma serves_release fh : serves (release fh).
Proof using.
  intros s g Q Hok HQ. unfold release. fs_go; (apply HQ; [done|]; apply fo_set_files; [done|]);
    intros h fd [_ ?]%lookup_delete_Some; by eapply fo_files.
Qed.

(** ** Requests on the tree *)

Ltac on rule := eapply wp_on_inner; [rule|solve_fs|intros ? ? ? ? ? ? ?; advance].
Ltac tree_end HQ := solve [fs_go; fs_end HQ].

Lemma serves_do_rm parent nm b : simple_name nm → serves (do_rm copy_fuel config parent nm b).
Proof using Hls.
  intros Hn s g Q Hok HQ. unfold do_rm. wps. on ltac:(by apply keeps_do_rm_inner). tree_end HQ.
Qed.

Lemma serves_reply_entry m R : keeps ls wfd m R → serves (reply_entry config m).
Proof using Httl.
  intros Hm s g Q Hok HQ. unfold reply_entry. wps. on ltac:(exact Hm). tree_end HQ.
Qed.

Lemma serves_lookup parent nm : simple_name nm → serves (lookup config parent nm).
Proof using Hls Httl.
  intros Hn s g Q Hok HQ. unfold lookup. wps; [by apply HQ|]. fs_rule.
  wps. on ltac:(by apply keeps_lookup_fast). wps; [fs_go; fs_end HQ..|].
  on ltac:(by apply keeps_lookup_slow). tree_end HQ.
Qed.

Lemma serves_rename parent nm newparent newname flags :
  simple_name nm → simple_name newname →
  serves (rename copy_fuel config parent nm newparent newname flags).
Proof using Hls.
  intros Hn Hn' s g Q Hok HQ. unfold rename. wps. on ltac:(by apply keeps_rename_inner). tree_end HQ.
Qed.

Lemma serves_create req parent nm mode flags :
  simple_name nm → serves (create copy_fuel config req parent nm mode flags).
Proof using Hls Httl.
  intros Hn s g Q Hok HQ. unfold create. wps. on ltac:(by apply keeps_create_inner).
  wps; try tree_end HQ.
  all: match goal with H : (∀ _ _ _, Ok _ = Ok _ → changeable _ _) ∧ _ |- _ =>
         pose proof (proj1 H _ _ _ eq_refl); clear H end.
  all: fs_go; fs_end HQ.
Qed.

Lemma keeps_root_attr id :
  keeps ls wfd (ensure_root_loaded config ;;; rpl_stat config id (-1)) (λ r _ _, stat_in r).
Proof using Hls. intros s g Q Hok HQ. inner_go; inner_end HQ. Qed.

Lemma serves_getattr ino : serves (getattr config ino).
Proof using Hls Httl.
  intros s g Q Hok HQ. unfold getattr. fs_go; try fs_end HQ.
  - on ltac:(apply keeps_root_attr). tree_end HQ.
  - on ltac:(apply keeps_rpl_stat). tree_end HQ.
Qed.

(** Reading the path of a node keeps everything. *)
Lemma wp_on_node_path id s g (Q : bytes → OverlayFs → fds → Prop) :
  (∀ p, Q p s g) → sm_wp SAFE (on_inner (node_path id)) s g Q.
Proof using.
  intros HQ. apply sm_wp_zoom, wp_node_path. intros p. destruct s. apply HQ.
Qed.

Lemma serves_readlink ino : serves (readlink ino).
Proof using.
  intros s g Q Hok HQ. unfold readlink. fs_go; try fs_end HQ.
  apply wp_on_node_path. intros p. tree_end HQ.
Qed.

Lemma serves_init np sup : serves (init config np sup).
Proof using. intros s g Q Hok HQ. unfold init. fs_go; fs_end HQ. Qed.

Lemma keeps_forget ino n : keeps ls wfd (sm_modify (λ i, set_inodes (forget ino n (inodes i)).2 i)) any.
Proof using. intros i g Q Hok HQ. wps. apply HQ; [done|by apply io_set_inodes|done]. Qed.

(** ** Requests on open files *)

Lemma serves_open ino fl : serves (open copy_fuel config ino fl).
Proof using Hls.
  intros s g Q Hok HQ. unfold open. cbv zeta. wps. apply sm_wp_zoom.
  apply (wp_open_fast ls wfd); [apply Hok|apply adjust_flags_read|..]; intros;
    assert (fs_ok g' (set_inner s' s)) by (apply fo_set_inner; [by eapply fs_ok_mono|done]); wps.
  - apply serves_reply_open; [done|done|]. intros; advance. by apply HQ.
  - by apply HQ.
  - apply sm_wp_zoom. apply (wp_open_slow _ ls wfd); [done|..]; intros; advance;
      assert (fs_ok g'0 (set_inner s'0 (set_inner s' s))) by (by apply fo_set_inner);
      [apply serves_reply_open; [done|done|]; intros; advance|]; by apply HQ.
Qed.

(** The descriptor of a handle. *)
Lemma wp_with_file {A} fh (k : RawFd → HM A) s g Q :
  fs_ok g s → Q (Err EBADF) s g →
  (∀ fd, write_safe g fd → sm_wp SAFE (k fd) s g Q) → sm_wp SAFE (with_file fh k) s g Q.
Proof using.
  intros Hok HErr Hk. unfold with_file, get_file. wps; [|done]. apply Hk. by eapply fo_files.
Qed.
Ltac with_file HQ := apply wp_with_file; [solve_fs|fs_end HQ|intros ? ?].

Lemma serves_read fh off sz : serves (read fh off sz).
Proof using. intros s g Q Hok HQ. unfold read. with_file HQ. tree_end HQ. Qed.
Lemma serves_fsync fh ds : serves (fsync config fh ds).
Proof using. intros s g Q Hok HQ. unfold fsync. wps; [fs_end HQ|]. with_file HQ. tree_end HQ. Qed.
Lemma serves_fallocate fh off len mode : serves (fallocate fh off len mode).
Proof using. intros s g Q Hok HQ. unfold fallocate. with_file HQ. tree_end HQ. Qed.
Lemma serves_lseek fh off wh : serves (lseek fh off wh).
Proof using. intros s g Q Hok HQ. unfold lseek. with_file HQ. tree_end HQ. Qed.
Lemma serves_copy_file_range fi oi fo oo len : serves (copy_file_range fi oi fo oo len).
Proof using.
  intros s g Q Hok HQ. unfold copy_file_range. with_file HQ. with_file HQ. tree_end HQ.
Qed.

(** The mode is restored only after a write that succeeded, so the file is
    not of a lower layer. *)
Lemma wp_pwrite fd data off s g (Q : FsResult Z → OverlayFs → fds → Prop) :
  write_safe g fd → (∀ n, changeable g fd → Q (Ok n) s g) → (∀ e, Q (Err e) s g) →
  sm_wp SAFE (sm_call (Pwrite fd data off)) s g Q.
Proof using.
  intros Hfd HOk HErr. apply safe_call; [done|done|]. intros [n|e] Hw; [|done].
  apply HOk. by eapply written_changeable.
Qed.

Lemma serves_write fh off data wc : serves (write fh off data wc).
Proof using.
  intros s g Q Hok HQ. unfold write. with_file HQ.
  wps; [wp_call; wps|]; (apply wp_pwrite; [done|intros n Hc|intros e]); tree_end HQ.
Qed.

Lemma serves_statfs : serves statfs.
Proof using. intros s g Q Hok HQ. unfold statfs. tree_end HQ. Qed.

Lemma serves_fsyncdir ino ds : serves (fsyncdir config ino ds).
Proof using.
  intros s g Q Hok HQ. unfold fsyncdir. fs_go; try fs_end HQ. apply wp_on_node_path. intros p.
  fs_go; try fs_end HQ.
  match goal with E : layer _ _ = Ok ?l |- _ =>
    destruct (layer_ok_root g l) as [i Hi]; [exact (io_layer _ _ _ _ _ _ (fo_inner _ _ Hok) E)|] end.
  eapply wp_safe_openat; [done|done|intros; advance|intros]; tree_end HQ.
Qed.

(** ** Extended attributes *)

Lemma wp_on_layer_upper s g (Q : OvlLayer → OverlayFs → fds → Prop) :
  fs_ok g s → has_upper →
  (∀ l, layer_ok g l → low l = false → changeable g (root_fd (ds l)) → Q l s g) →
  sm_wp SAFE (on_inner (layer_at 0)) s g Q.
Proof using Hls.
  intros Hok Hup HQ. apply sm_wp_zoom. eapply wp_layer_upper; [done|apply Hok|done|].
  intros. destruct s. by apply HQ.
Qed.
Lemma path_safe_proc g fd b : changeable g fd → path_safe g (proc_fd_path fd b).
Proof using. intros ?. by exists fd, b. Qed.
#[local] Hint Resolve path_safe_proc : ovl.

Lemma wp_lsetxattr fd b nm v fl s g (Q : FsResult unit → OverlayFs → fds → Prop) :
  changeable g fd → (∀ r, Q r s g) → sm_wp SAFE (lsetxattr (proc_fd_path fd b) nm v fl) s g Q.
Proof using. intros Hfd HQ. unfold lsetxattr. fs_go; apply HQ. Qed.
Lemma wp_lremovexattr fd b nm s g (Q : FsResult unit → OverlayFs → fds → Prop) :
  changeable g fd → (∀ r, Q r s g) → sm_wp SAFE (lremovexattr (proc_fd_path fd b) nm) s g Q.
Proof using. intros Hfd HQ. unfold lremovexattr. fs_go; apply HQ. Qed.

Lemma wp_on_xattr_target ino s g (Q : FsResult (bytes * OvlLayer) → OverlayFs → fds → Prop) :
  fs_ok g s →
  (∀ p l s' g', g ⊆ g' → fs_ok g' s' → has_upper → Q (Ok (p, l)) s' g') →
  (∀ e s' g', g ⊆ g' → fs_ok g' s' → Q (Err e) s' g') →
  sm_wp SAFE (on_inner (xattr_target copy_fuel ino)) s g Q.
Proof using.
  intros Hok HOk HErr. apply sm_wp_zoom. apply (wp_xattr_target _ ls wfd); [apply Hok|..];
    intros; [apply HOk|apply HErr]; try done; (apply fo_set_inner; [by eapply fs_ok_mono|done]).
Qed.

Lemma serves_setxattr ino nm v fl : serves (setxattr copy_fuel config ino nm v fl).
Proof using Hls.
  intros s g Q Hok HQ. unfold setxattr. fs_go; try fs_end HQ.
  apply wp_on_xattr_target; [done|..]; intros; advance; fs_go; try fs_end HQ.
  apply wp_on_layer_upper; [done|done|]. intros. fs_go. apply wp_lsetxattr; [done|]. intros. tree_end HQ.
Qed.
Lemma serves_removexattr ino nm : serves (removexattr copy_fuel config ino nm).
Proof using Hls.
  intros s g Q Hok HQ. unfold removexattr. fs_go; try fs_end HQ.
  apply wp_on_xattr_target; [done|..]; intros; advance; fs_go; try fs_end HQ.
  apply wp_on_layer_upper; [done|done|]. intros. fs_go. apply wp_lremovexattr; [done|]. intros. tree_end HQ.
Qed.
Lemma serves_getxattr ino nm sz : serves (getxattr_request config ino nm sz).
Proof using.
  intros s g Q Hok HQ. unfold getxattr_request. fs_go; try fs_end HQ.
  all: apply wp_on_node_path; intros p; tree_end HQ.
Qed.
Lemma serves_listxattr ino sz : serves (listxattr_request config ino sz).
Proof using.
  intros s g Q Hok HQ. unfold listxattr_request. fs_go; try fs_end HQ.
  all: apply wp_on_node_path; intros p; tree_end HQ.
Qed.

(** ** Directory handles *)

Lemma serves_opendir ino : serves (opendir_request config ino).
Proof using Hls.
  intros s g Q Hok HQ. unfold opendir_request. wp_step.
  assert (∀ s' g', g ⊆ g' → fs_ok g' s' → sm_wp SAFE
    (let! i := get_inner in
     try! node_id := sm_ret (ok_or ENOENT (lookup_node_id i ino)) in
     if negb (default false (is_dir <$> nodes_get i node_id)) then sm_ret (Err ENOTDIR)
     else
       (if negb (default true (is_loaded <$> nodes_get i node_id))
        then let! _ := on_inner (reload_dir config node_id) in sm_ret tt
        else sm_ret tt) ;;;
       let! entries := on_inner (build_dir_entries config node_id) in
       let! dh := alloc_dh entries in
       sm_ret (Ok (ROpened dh (f64_positive (cfg_timeout config))))) s' g' Q) as Htail.
  { intros s' g' Hg Hok'. fs_go; try fs_end HQ.
    - on ltac:(apply keeps_reload_dir). fs_go. on ltac:(apply keeps_build_dir_entries). tree_end HQ.
    - on ltac:(apply keeps_build_dir_entries). tree_end HQ. }
  destruct (ino =? 1); [on ltac:(by apply keeps_ensure_root_loaded)|wp_step]; by apply Htail.
Qed.
Lemma serves_releasedir fh : serves (releasedir fh).
Proof using. intros s g Q Hok HQ. unfold releasedir. tree_end HQ. Qed.
Lemma serves_readdir full fh off : serves (readdir full fh off).
Proof using. intros s g Q Hok HQ. unfold readdir. tree_end HQ. Qed.
Lemma serves_readdirplus full fh off : serves (readdirplus config full fh off).
Proof using Httl.
  intros s g Q Hok HQ. unfold readdirplus. fs_go; [|fs_end HQ].
  on ltac:(apply keeps_emit_plus). tree_end HQ.
Qed.

(** ** ioctl *)

Lemma wp_on_node_up id s g (Q : FsResult unit → OverlayFs → fds → Prop) :
  fs_ok g s →
  (∀ i g', g ⊆ g' → fs_ok g' (set_inner i s) → has_upper → at_upper (nodes i) id →
     Q (Ok tt) (set_inner i s) g') →
  (∀ e i g', g ⊆ g' → fs_ok g' (set_inner i s) → Q (Err e) (set_inner i s) g') →
  sm_wp SAFE (on_inner (get_node_up copy_fuel id)) s g Q.
Proof using.
  intros Hok HOk HErr. apply sm_wp_zoom. eapply (wp_get_node_up _ ls wfd); [apply Hok|..];
    intros; [apply HOk|apply HErr]; try done; (apply fo_set_inner; [by eapply fs_ok_mono|done]).
Qed.

(** The layer of a copied up node, from its index. *)
Lemma at_upper_index g i id n l :
  inner_ok g i → has_upper → at_upper (nodes i) id → node i id = Ok n → layer i (layer_idx n) = Ok l →
  layer_ok g l ∧ low l = false ∧ changeable g (root_fd (ds l)).
Proof using.
  intros Hok Hup Hat Hn Hl. apply (at_upper_layer _ _ _ _ id n l Hok Hup Hat).
  unfold node_and_layer. rewrite Hn. simpl. by rewrite Hl.
Qed.

Lemma serves_ioctl ino fh compat cmd data osz :
  serves (ioctl copy_fuel config ino fh compat cmd data osz).
Proof using Hls.
  intros s g Q Hok HQ. unfold ioctl. wps; try fs_end HQ; unfold get_inner. all: wps; try fs_end HQ.
  { on ltac:(apply keeps_refresh_dir). tree_end HQ. }
  all: match goal with H : (_ =? FS_IOC_SETVERSION) || _ = _ |- _ => rename H into Hset end.
  - assert ((cmd =? FS_IOC_GETVERSION) || (cmd =? FS_IOC_GETFLAGS) = false) as ->.
    { apply orb_true_iff in Hset as [->%Z.eqb_eq| ->%Z.eqb_eq]; done. }
    apply wp_on_node_up; [done|..]; intros; advance; wps; [|fs_end HQ].
    apply wp_on_node_path; intros p; unfold get_file; wps; try fs_end HQ; try done.
    all: match goal with Hok' : fs_ok _ _, E : node _ _ = Ok _, E' : layer _ _ = Ok _ |- _ =>
      destruct (at_upper_index _ _ _ _ _ (fo_inner _ _ Hok') ltac:(done) ltac:(done) E E') as (? & ? & ?) end.
    all: apply wp_l_open_upper; [done..| |]; intros; advance; [|fs_end HQ].
    all: wps; apply safe_call; [by intros _|done|]; intros; wps; fs_end HQ.
  - assert (is_set_ioctl cmd = false) as Hget.
    { unfold is_set_ioctl. rewrite orb_comm. exact Hset. }
    apply wp_on_node_path; intros p; unfold get_file; wps; try fs_end HQ.
    all: try (apply wp_l_open_read; [solve_layer|done|..]; intros; advance; [|fs_end HQ]).
    all: wps; apply safe_call; [cbn; congruence|done|]; intros; wps; fs_end HQ.
Qed.

(** ** setattr *)

(** The descriptor of [setattr]: negative, or of a file that may be changed. *)
Definition fd_ok (g : fds) (fd : RawFd) : Prop := 0 <= fd → changeable g fd.
Lemma fd_ok_mono g g' fd : g ⊆ g' → fd_ok g fd → fd_ok g' fd.
Proof using. intros Hg Hfd ?. eauto with ovl. Qed.

Ltac advance1 ::=
  match goal with
  | Hg : ?g ⊆ ?g', H : changeable ?g _ |- _ => apply (changeable_mono _ _ _ Hg) in H
  | Hg : ?g ⊆ ?g', H : fd_ok ?g _ |- _ => apply (fd_ok_mono _ _ _ Hg) in H
  | Hg : ?g ⊆ ?g', H : layer_ok ?g _ |- _ => apply (layer_ok_mono _ _ _ Hg) in H
  | Hg : ?g ⊆ ?g', H : fs_ok ?g _ |- _ => apply (fs_ok_mono _ _ _ Hg) in H
  | H1 : ?a ⊆ ?b, H2 : ?b ⊆ ?c |- _ => pose proof (transitivity H1 H2); clear H1 H2
  end.

Lemma wp_fd_or_path {A} fd root path (by_fd : HM A) by_path s g (Q : FsResult A → OverlayFs → fds → Prop) :
  fd_ok g fd → changeable g root →
  (changeable g fd → sm_wp SAFE by_fd s g Q) →
  (∀ d c g', g ⊆ g' → changeable g' d → simple_name c → sm_wp SAFE (by_path d c) s g' Q) →
  (∀ e g', g ⊆ g' → Q (Err e) s g') →
  sm_wp SAFE (fd_or_path fd root path by_fd by_path) s g Q.
Proof using.
  intros Hfd Hr Hb Hp HErr. unfold fd_or_path. destruct (Z.leb_spec 0 fd); [auto|].
  wps. apply wp_parent_changeable; [done|..]; intros; wps; auto.
Qed.

Section steps.
Context (l : OvlLayer) (Hlow : low l = false).

Lemma root_changeable g : layer_ok g l → changeable g (root_fd (ds l)).
Proof using Hlow. eauto with ovl. Qed.

Ltac by_fd_or_path := apply wp_fd_or_path; [done|by apply root_changeable|intros ?|intros|intros].

Lemma wp_setattr_fd path size fh s g (Q : RawFd → OverlayFs → fds → Prop) :
  fs_ok g s → layer_ok g l →
  (∀ h fd, fh = Some h → open_files s !! h = Some fd → changeable g fd) →
  (∀ fd g', g ⊆ g' → fd_ok g' fd → Q fd s g') →
  sm_wp SAFE (setattr_fd l path size fh) s g Q.
Proof using Hlow.
  intros Hok Hl Hfh HQ. unfold setattr_fd, get_file. wps.
  - apply HQ; [done|]. intros _. naive_solver.
  - apply wp_l_open_upper; [done..| |]; intros; wps; (apply HQ; [done|by intros ?]).
  - apply wp_l_open_upper; [done..| |]; intros; wps; (apply HQ; [done|by intros ?]).
Qed.

Lemma wp_setattr_times fd path at_ mt s g (Q : FsResult unit → OverlayFs → fds → Prop) :
  fs_ok g s → layer_ok g l → fd_ok g fd → (∀ r g', g ⊆ g' → Q r s g') →
  sm_wp SAFE (setattr_times l fd path at_ mt) s g Q.
Proof using Hlow.
  intros Hok Hl Hfd HQ. unfold setattr_times. cbv zeta. wps; [|by apply HQ].
  by_fd_or_path; advance; try wp_call; by apply HQ.
Qed.

Lemma wp_setattr_plain fd path mode uid gid s g (Q : FsResult unit → OverlayFs → fds → Prop) :
  fs_ok g s → layer_ok g l → fd_ok g fd → (∀ r g', g ⊆ g' → Q r s g') →
  sm_wp SAFE (setattr_plain config l fd path mode uid gid) s g Q.
Proof using Hlow.
  intros Hok Hl Hfd HQ. unfold setattr_plain, get_inner. wp_step.
  assert (∀ g', g ⊆ g' → sm_wp SAFE
    (if is_Some_b uid || is_Some_b gid then
       let! i := sm_gets inner in
       fd_or_path fd (root_fd (ds l)) path
         (sm_call (Fchown fd match uid with Some u => map_uid config i u | None => 2 ^ 32 - 1 end
                     match gid with Some u => map_gid config i u | None => 2 ^ 32 - 1 end))
         (λ dirfd c_name, sm_call (Fchownat dirfd c_name
             match uid with Some u => map_uid config i u | None => 2 ^ 32 - 1 end
             match gid with Some u => map_gid config i u | None => 2 ^ 32 - 1 end AT_SYMLINK_NOFOLLOW))
     else sm_ret (Ok tt)) s g' Q) as Htail.
  { intros g' Hg. advance. wps; [|by apply HQ]. by_fd_or_path; advance; try wp_call; by apply HQ. }
  destruct mode; [|wps; by apply Htail].
  by_fd_or_path; advance; try wp_call; wps; first [by apply Htail|by apply HQ].
Qed.

Lemma wp_setattr_override xn fd path mode uid gid s g (Q : FsResult unit → OverlayFs → fds → Prop) :
  fs_ok g s → has_upper → layer_ok g l → fd_ok g fd →
  (∀ r s' g', g ⊆ g' → fs_ok g' s' → Q r s' g') →
  sm_wp SAFE (setattr_override config l xn fd path mode uid gid) s g Q.
Proof using Hlow Hls.
  intros Hok Hup Hl Hfd HQ. unfold setattr_override. cbv zeta.
  destruct (Z.leb_spec 0 fd) as [Hpos|Hneg].
  - pose proof (Hfd Hpos). fs_go; fs_end HQ.
  - fs_go; try fs_end HQ. apply wp_on_layer_upper; [done|done|]. intros. apply wp_lsetxattr; [done|].
    intros. fs_end HQ.
Qed.

Lemma wp_setattr_size fd path size s g (Q : FsResult unit → OverlayFs → fds → Prop) :
  fs_ok g s → layer_ok g l → fd_ok g fd → (∀ r g', g ⊆ g' → Q r s g') →
  sm_wp SAFE (setattr_size l fd path size) s g Q.
Proof using Hlow.
  intros Hok Hl Hfd HQ. unfold setattr_size. wps; [|by apply HQ].
  by_fd_or_path; advance; fs_go; by apply HQ.
Qed.
End steps.

Ltac setattr_step :=
  lazymatch goal with
  | |- sm_wp _ (setattr_override _ _ _ _ _ _ _ _) _ _ _ =>
      apply wp_setattr_override; [done..|]; intros ? ? ? ? ?; advance
  | |- sm_wp _ (setattr_plain _ _ _ _ _ _ _) _ _ _ => apply wp_setattr_plain; [done..|]; intros ? ? ?; advance
  | |- sm_wp _ (setattr_size _ _ _ _) _ _ _ => apply wp_setattr_size; [done..|]; intros ? ? ?; advance
  end.

(** Assumed: a handle in the request is not of a lower layer's file. *)
Lemma wp_setattr ino mode uid gid size at_ mt fh s g (Q : FsResult Reply → OverlayFs → fds → Prop) :
  fs_ok g s → (∀ h fd, fh = Some h → open_files s !! h = Some fd → changeable g fd) →
  (∀ r s' g', g ⊆ g' → fs_ok g' s' → Q r s' g') →
  sm_wp SAFE (setattr copy_fuel config ino mode uid gid size at_ mt fh) s g Q.
Proof using Hls Httl.
  intros Hok Hfh HQ. unfold setattr, get_inner. wps; try fs_end HQ.
  apply wp_on_node_up; [done|..]; intros i g1 Hg1 **; [|wps; advance; fs_end HQ].
  wps. apply wp_on_node_path. intros path. wps; try (advance; fs_end HQ).
  match goal with E : node_and_layer _ _ = Ok _ |- _ =>
    destruct (at_upper_layer _ _ _ _ _ _ _ (fo_inner _ _ ltac:(eassumption)) ltac:(done) ltac:(done) E)
      as (Hl & Hlow & _) end.
  apply wp_setattr_fd; [done|done|done|intros; eapply changeable_mono; [exact Hg1|]; eauto|].
  intros fd g2 Hg2 Hfd. advance. wps. apply wp_setattr_times; [done..|]. intros r g3 Hg3. advance.
  wps; try fs_end HQ; repeat setattr_step; wps; try fs_end HQ; repeat setattr_step; wps; try fs_end HQ.
  all: on ltac:(apply keeps_do_getattr); tree_end HQ.
Qed.

(** ** The dispatcher *)

(** The handle of a [setattr] is not of a lower layer's file. *)
Definition handle_ok (g : fds) (s : OverlayFs) (rq : FuseRequest) : Prop :=
  match rq with
  | RqSetattr _ _ _ _ _ _ _ fh => ∀ h fd, fh = Some h → open_files s !! h = Some fd → changeable g fd
  | _ => True
  end.

Lemma serve_ok rq s g (Q : FsResult Reply → OverlayFs → fds → Prop) :
  fs_ok g s → Forall simple_name (request_names rq) → handle_ok g s rq →
  (∀ r s' g', g ⊆ g' → fs_ok g' s' → Q r s' g') →
  sm_wp SAFE (serve copy_fuel config rq) s g Q.
Proof using Hls Httl.
  intros Hok Hn Hh HQ.
  destruct rq; cbn [serve request_names handle_ok] in *; rewrite ?Forall_cons in Hn;
    try (destruct Hn as (Hn1 & Hn)); try (destruct Hn as (Hn2 & Hn)).
  - wps. apply serves_init; [done|]. intros. wps. by apply HQ.
  - by apply serves_lookup.
  - wps. on ltac:(apply keeps_forget). wps. by apply HQ.
  - by apply serves_getattr.
  - by apply wp_setattr.
  - by apply serves_readlink.
  - eapply serves_reply_entry; [by apply keeps_mknod_inner|done|done].
  - eapply serves_reply_entry; [by apply keeps_mkdir_inner|done|done].
  - by apply serves_do_rm.
  - by apply serves_do_rm.
  - eapply serves_reply_entry; [by apply keeps_symlink_inner|done|done].
  - by apply serves_rename.
  - eapply serves_reply_entry; [by apply keeps_link_inner|done|done].
  - by apply serves_open.
  - by apply serves_read.
  - by apply serves_write.
  - by apply serves_release.
  - by apply serves_statfs.
  - by apply serves_setxattr.
  - by apply serves_getxattr.
  - by apply serves_listxattr.
  - by apply serves_removexattr.
  - wps. by apply HQ.
  - by apply serves_create.
  - by apply serves_opendir.
  - by apply serves_readdir.
  - by apply serves_readdirplus.
  - by apply serves_releasedir.
  - by apply serves_fsync.
  - by apply serves_fsyncdir.
  - by apply serves_fallocate.
  - by apply serves_lseek.
  - by apply serves_copy_file_range.
  - by apply serves_ioctl.
Qed.
End ops_safe.
