(* ===== verification/Session.v ===== *)
(** * Sessions of the mounted file system

    The top of the development: from a mount, any list of requests, under any
    kernel. *)

From S2P Require Import Prelude Libc Mapping Xattr ConfigData Config Sys Openat2 Node.
From S2P Require Import DataSource Provenance Whiteout Layer Copyup SafeCopy Overlay SafeInner.
From S2P Require Import SafeTree Ops OpsTree OpsFile Requests SafeOps.
Local Open Scope Z_scope.

(** ** The mount *)

(** What [main] hands over: layers with known roots and, below an upper layer,
    a work directory. *)
Definition mount_ok `{Epoch} (ls : list OvlLayer) (wfd : RawFd) (g : fds) : Prop :=
  ls ≠ [] ∧ layers_ok g ls ∧ (has_upper ls → changeable g wfd).

Section mount.
Context `{EP : Epoch} `{F64, DevT, HashOrder} (copy_fuel : nat) (config : OverlayConfig).
Context (ls : list OvlLayer) (wfd : RawFd).
Implicit Types (g : fds).

Lemma fresh_root_ok g : node_ok g (OvlNode_new [] 0 0 0 true).
Proof using. split; [|done]. unfold simple_name. apply (bool_decide_unpack _). exact I. Qed.

Lemma new_fs_ok g ov disabled notifier :
  mount_ok ls wfd g → fs_ok ls wfd g (OverlayFs_new (OverlayInner_new ls wfd ov disabled) notifier).
Proof using.
  intros (_ & Hls & Hw). split; [|cbn; intros fh fd [=]].
  split; try done. cbn. intros id n. unfold arena_get. simpl.
  rewrite lookup_insert_Some, lookup_empty. intros [[_ <-]|[_ [=]]]. apply fresh_root_ok.
Qed.

(** A request whose names are path components and which carries no handle
    that bypasses copy-up. *)
Definition request_ok (rq : FuseRequest) : Prop :=
  Forall simple_name (request_names rq) ∧
  match rq with RqSetattr _ _ _ _ _ _ _ fh => fh = None | _ => True end.

Lemma request_handle_ok g s rq : request_ok rq → handle_ok g s rq.
Proof using. intros [_ Hh]. destruct rq; try done. cbn in *. by subst. Qed.

Lemma session_ok rqs s g : ls ≠ [] → is_Some (f64_duration (cfg_timeout config)) →
  fs_ok ls wfd g s → Forall request_ok rqs →
  sm_wp SAFE (session copy_fuel config rqs) s g
    (λ rs s' g', length rs = length rqs ∧ fs_ok ls wfd g' s').
Proof using.
  intros Hls Httl Hok Hrqs. revert s g Hok.
  induction Hrqs as [|rq rqs Hrq Hrqs IH]; intros s g Hok; cbn [session]; [done|].
  wps. apply (serve_ok _ _ ls wfd); [done..|apply Hrq|by apply request_handle_ok|].
  intros r s' g' Hg Hok'. wps. eapply sm_wp_mono; [by apply IH|].
  intros rs s'' g'' [Hlen ?]. wps. split; [by simpl; f_equal|done].
Qed.
End mount.

(** ** The properties *)

(** C3. A handler makes only calls that the policy [SAFE] allows, and keeps the
    invariant [fs_ok].  In a state with the invariant, every call that creates,
    removes, renames, writes or changes attributes is on a descriptor opened in
    the upper layer or the work directory, or on one name in such a directory
    that is not followed if it is a link; a write to a descriptor of a lower
    layer is one that is open for reading only; every open is confined to its
    layer ([RESOLVE_IN_ROOT]), in a lower layer for reading only.  Of four calls
    only the start is known: [fchmodat] of a name, and [truncate], [lsetxattr]
    and [lremovexattr] of a path below [/proc/self/fd/N], start in the upper
    layer or the work directory, but may follow a link found there.  This holds
    whatever the kernel answers, short of what a kernel never does (a descriptor
    given twice, an entry with a slash, a write to what is open for reading):
    if it may give times that the attributes cannot hold, the handler may panic,
    and if its times are in range ([epoch] is true), it does not.  The request's
    names have no slash, the handle of a [setattr] is not that of a lower
    layer's file, and the [timeout] option is a duration.  A loop may outlast
    the fuel here. *)
Theorem serve_changes_upper_only `{EP : Epoch} `{F64, DevT, HashOrder} (copy_fuel : nat) (config : OverlayConfig)
    (ls : list OvlLayer) (wfd : RawFd) (rq : FuseRequest) (s : OverlayFs) (g : fds)
    (Hls : ls ≠ []) (Httl : is_Some (f64_duration (cfg_timeout config))) (Hok : fs_ok ls wfd g s)
    (Hnames : Forall simple_name (request_names rq)) (Hhandle : handle_ok g s rq) :
  sm_wp SAFE (serve copy_fuel config rq) s g (λ _ s' g', g ⊆ g' ∧ fs_ok ls wfd g' s').
Proof. apply (serve_ok _ _ ls wfd); by intros. Qed.


(** ** A concrete mount *)
Section demo.
#[local] Existing Instances F64_Z DevT_halves HashOrder_elements.

Definition demo_source (fd : RawFd) : DataSource :=
  Direct.direct_source {| Direct.resolved_path := bs "/"; Direct.da_fd := Some fd; Direct.dev := 7;
    Direct.stat_override := ModeNone; Direct.nfs_fh := 0; Direct.fh_size := 0 |}.
Definition demo_layers : list OvlLayer :=
  [from_datasource (demo_source 3) false; from_datasource (demo_source 4) true].
Definition demo_fds : fds :=
  {[ 3 := {| fd_prov := PUpper; fd_write := false |};
     4 := {| fd_prov := PLower; fd_write := false |};
     5 := {| fd_prov := PWork; fd_write := false |};
     6 := {| fd_prov := PLower; fd_write := false |} ]}.
Definition demo_config : OverlayConfig := OverlayConfig_default 0.
Definition demo_fs : OverlayFs :=
  OverlayFs_new (OverlayInner_new demo_layers 5 {| o_uid := 65534; o_gid := 65534 |} false) true.

Lemma demo_mount_ok `{Epoch} : mount_ok demo_layers 5 demo_fds.
Proof.
  split; [done|]. split.
  - intros [|[|k]] l Hl; simplify_eq/=; (split; [apply direct_lawful|]); eexists; done.
  - intros _. by exists {| fd_prov := PWork; fd_write := false |}.
Qed.
End demo.

Lemma serve_changes_upper_only_witness :
  sm_wp (@SAFE true) (@serve F64_Z DevT_halves HashOrder_elements 8 demo_config
                (RqMkdir {| req_uid := 1; req_gid := 1 |} 1 (bs "d") 493)) demo_fs demo_fds
    (λ _ s' g', demo_fds ⊆ g' ∧ @fs_ok true demo_layers 5 g' s').
Proof.
  apply (@serve_changes_upper_only true F64_Z DevT_halves HashOrder_elements);
    [done|by eexists|apply (new_fs_ok demo_layers 5), demo_mount_ok| |exact I].
  apply (bool_decide_unpack _). exact I.
Defined.

