(* ===== verification/Interleave.v ===== *)
(** * Requests served by several threads

    A request is a sequence of sections: what its handler does between taking
    the lock of the inner state and dropping it, and the sections of
    Threads.v on the tables of open files.  [lookup] and [open] first try under
    the shared lock and start again under the exclusive one, and so does
    [getattr] of the root; [open] and [create] enter their file in the tables
    afterwards; [readdirplus] takes its entries before it takes the inner state;
    [write] and [copy_file_range] look their files up and then make their calls,
    each a section.  What is left as one section either has the lock of the inner
    state throughout or is one access to the state and at most one call.
    Requests are served by any number of threads, whose sections a schedule puts
    in any order the locks allow.  Sections under the shared lock change nothing
    that the others look at, so it counts as a step, too.  That the locks never
    deadlock is in Locks.v.

    Alone, a request is served as [serve] does; in every schedule, nothing but
    the upper layer and the work directory is changed. *)

From S2P Require Import Prelude Libc Mapping Xattr ConfigData Config Sys Openat2 Node.
From S2P Require Import DataSource Provenance Whiteout Layer Copyup SafeCopy Overlay SafeInner.
From S2P Require Import SafeTree Ops OpsTree OpsFile Requests Locks SafeOps Threads Session.
From Stdlib Require Import FunctionalExtensionality.
Local Open Scope Z_scope.

(** ** Requests as sections *)

(** What is left of a request. *)
Inductive Stage :=
| Begin (rq : FuseRequest)
| LookupSlow (ttl parent : Z) (nm : bytes)
| OpenSlow (ino open_flags : Z)
| GetattrRoot (ino : Z)
| EmitPlus (full : nat → bool) (offset : nat) (es : list DirEntry)
| WriteStat (fd : RawFd) (offset : Z) (data : bytes)
| WriteData (fd : RawFd) (offset : Z) (data : bytes) (restore_mode : option Z)
| WriteMode (fd : RawFd) (mode n : Z)
| CopyOut (fd_in : RawFd) (offset_in fh_out offset_out len : Z)
| CopyRange (fd_in : RawFd) (offset_in : Z) (fd_out : RawFd) (offset_out len : Z)
| Tables (pc : Pc)
| Replied (r : FsResult Reply).

(** A release starts with the tables. *)
Definition start (rq : FuseRequest) : Stage :=
  match rq with RqRelease fh => Tables (RemoveOwner fh) | _ => Begin rq end.

(** The sections that need the lock of the inner state: of a request that has not
    begun, if some path of its handler begins with it. *)
Definition begins_inner (p : LockPath) : bool := match p with Take Inner _ :: _ => true | _ => false end.
Definition uses_inner (st : Stage) : bool :=
  match st with
  | Begin rq => existsb begins_inner (handler_locks rq)
  | LookupSlow _ _ _ | OpenSlow _ _ | GetattrRoot _ | EmitPlus _ _ _ => true
  | _ => false
  end.
Definition keeps_inner (st : Stage) : bool := match st with Tables pc => holds_inner pc | _ => false end.
Definition uses_guard (st : Stage) : bool := match st with Tables pc => uses_owners pc | _ => false end.
Definition keeps_guard (st : Stage) : bool := match st with Tables pc => holds_owners pc | _ => false end.

(** Does the thread have to wait for a lock that another holds? *)
Definition waits (sts : list Stage) (st : Stage) : bool :=
  uses_inner st && existsb keeps_inner sts || uses_guard st && existsb keeps_guard sts.

Section stages.
Context `{F64, DevT, HashOrder} (copy_fuel : nat) (config : OverlayConfig).

(** After a section on the tables. *)
Definition after_section (pc : Pc) : SM OverlayFs Stage :=
  match pc with
  | Answered _ _ r => let! r := sm_expect r in sm_ret (Replied (Ok r))
  | Released _ => sm_ret (Replied (Ok ROk))
  | _ => sm_ret (Tables pc)
  end.

Definition advance_stage (st : Stage) : SM OverlayFs Stage :=
  match st with
  | Begin (RqLookup parent nm) =>
      if starts_with WH_PREFIX nm then sm_ret (Replied (Err ENOENT))
      else
        let! ttl := timeout config in
        let! fast := on_inner (lookup_fast config parent nm) in
        sm_ret (match fast with
                | Some (Ok attr) => Replied (Ok (REntry ttl attr))
                | Some (Err e) => Replied (Err e)
                | None => LookupSlow ttl parent nm
                end)
  | LookupSlow ttl parent nm =>
      let! r := on_inner (lookup_slow config parent nm) in
      sm_ret (Replied (match r with Ok attr => Ok (REntry ttl attr) | Err e => Err e end))
  | Begin (RqOpen ino flags) =>
      let open_flags := adjust_flags (cfg_writeback config) (Z.lor flags O_NOFOLLOW) in
      let! fast := on_inner (open_fast ino flags open_flags) in
      sm_ret (match fast with
              | Some (Ok fd) => Tables (LoadEnabled ForOpen ino fd)
              | Some (Err e) => Replied (Err e)
              | None => OpenSlow ino open_flags
              end)
  | OpenSlow ino open_flags =>
      let! r := on_inner (open_slow copy_fuel ino open_flags) in
      sm_ret (match r with Ok fd => Tables (LoadEnabled ForOpen ino fd) | Err e => Replied (Err e) end)
  | Begin (RqCreate req parent nm mode flags) =>
      let! r := on_inner (create_inner copy_fuel config req parent nm mode flags) in
      sm_ret (match r with
              | Ok (fd, ino, attr) => Tables (LoadEnabled (ForCreate attr) ino fd)
              | Err e => Replied (Err e)
              end)
  | Begin (RqGetattr ino) =>
      if ino =? 1 then sm_ret (GetattrRoot ino) else let! r := getattr config ino in sm_ret (Replied r)
  | GetattrRoot ino => let! r := getattr config ino in sm_ret (Replied r)
  | Begin (RqReaddirplus full fh offset) =>
      let! s := sm_get in
      match open_dirs s !! fh with
      | None => sm_ret (Replied (Err EBADF))
      | Some es => let! _ := timeout config in sm_ret (EmitPlus full (Z.to_nat offset) (drop (Z.to_nat offset) es))
      end
  | EmitPlus full off es =>
      let! out := on_inner (emit_plus full off es) in
      sm_ret (Replied (Ok (RDirectoryPlus out)))
  | Begin (RqWrite fh offset data write_cache) =>
      let! f := get_file fh in
      sm_ret (match f with
              | None => Replied (Err EBADF)
              | Some fd => if write_cache then WriteStat fd offset data else WriteData fd offset data None
              end)
  | WriteStat fd offset data =>
      let! r := sm_call (Fstat fd) in
      sm_ret (WriteData fd offset data
                (match r with
                 | Ok st => if negb (Z.land (st_mode st) (Z.lor S_ISUID S_ISGID) =? 0) then Some (st_mode st) else None
                 | Err _ => None
                 end))
  | WriteData fd offset data restore_mode =>
      let! r := sm_call (Pwrite fd data (wrap_i64 offset)) in
      sm_ret (match r with
              | Ok n => match restore_mode with
                        | Some mode => WriteMode fd mode n
                        | None => Replied (Ok (RWritten (wrap_u32 n)))
                        end
              | Err e => Replied (Err e)
              end)
  | WriteMode fd mode n =>
      let! _ := sm_call (Fchmod fd mode) in
      sm_ret (Replied (Ok (RWritten (wrap_u32 n))))
  | Begin (RqCopyFileRange fh_in offset_in fh_out offset_out len) =>
      let! f := get_file fh_in in
      sm_ret (match f with None => Replied (Err EBADF) | Some fd => CopyOut fd offset_in fh_out offset_out len end)
  | CopyOut fd_in offset_in fh_out offset_out len =>
      let! f := get_file fh_out in
      sm_ret (match f with None => Replied (Err EBADF) | Some fd => CopyRange fd_in offset_in fd offset_out len end)
  | CopyRange fd_in offset_in fd_out offset_out len =>
      let! r := sm_call (CopyFileRange fd_in (wrap_i64 offset_in) fd_out (wrap_i64 offset_out) (Z.min len (2 ^ 32 - 1))) in
      sm_ret (Replied (match r with Ok n => Ok (RWritten (Z.min n (2 ^ 32 - 1))) | Err e => Err e end))
  | Begin rq => let! r := serve copy_fuel config rq in sm_ret (Replied r)
  | Tables pc =>
      let! answer := match pc with AskBacking _ _ fd => sm_call (OpenBacking fd) | _ => sm_ret (Err 0) end in
      let! s := sm_get in
      sm_modify (λ s, (section config answer pc s).2) ;;;
      after_section (section config answer pc s).1
  | Replied r => sm_ret (Replied r)
  end.

(** A request to the end of its sections. *)
Fixpoint solo (n : nat) (st : Stage) : SM OverlayFs (FsResult Reply) :=
  match n, st with
  | _, Replied r => sm_ret r
  | O, _ => λ _, NoFuel
  | Datatypes.S n, _ => let! st := advance_stage st in solo n st
  end.

(** The threads in the order of the schedule; a turn of one that waits, or
    has replied, is skipped. *)
Fixpoint interleave (schedule : list nat) (sts : list Stage) : SM OverlayFs (list Stage) :=
  match schedule with
  | [] => sm_ret sts
  | i :: schedule =>
      match sts !! i with
      | Some st =>
          if waits sts st then interleave schedule sts
          else let! st' := advance_stage st in interleave schedule (<[i := st']> sts)
      | None => interleave schedule sts
      end
  end.
End stages.

(** ** Nothing but the upper layer is changed, in any order *)

(** The file a thread is about to enter in the tables. *)
Definition pc_fd (pc : Pc) : option RawFd :=
  match pc with
  | LoadEnabled _ _ fd | CheckBacking _ _ fd | AskBacking _ _ fd | TakeHandle _ _ fd _ | EnterBacking _ _ fd _ _
  | EnterFile _ _ fd _ _ | Disable _ fd | TakePlainHandle _ fd | EnterPlainFile _ fd _ => Some fd
  | _ => None
  end.

Section safe.
Context `{EP : Epoch} `{F64, DevT, HashOrder} (copy_fuel : nat) (config : OverlayConfig).
Context (ls : list OvlLayer) (wfd : RawFd) (Hls : ls ≠ []).
Context (Httl : is_Some (f64_duration (cfg_timeout config))).
Implicit Types (s : OverlayFs) (g : fds).

(** What holds of a request between two of its sections, whatever runs there. *)
Definition stage_ok (g : fds) (st : Stage) : Prop :=
  match st with
  | Begin rq => request_ok rq
  | LookupSlow _ _ nm => simple_name nm
  | Tables pc => finished pc = false ∧ ∀ fd, pc_fd pc = Some fd → write_safe g fd
  | WriteStat fd _ _ | WriteData fd _ _ _ | CopyRange _ _ fd _ _ => write_safe g fd
  | WriteMode fd _ _ => changeable g fd
  | OpenSlow _ _ | GetattrRoot _ | EmitPlus _ _ _ | CopyOut _ _ _ _ _ | Replied _ => True
  end.

Lemma stage_ok_mono g g' st : g ⊆ g' → stage_ok g st → stage_ok g' st.
Proof using.
  intros Hg. destruct st; cbn; eauto with ovl. intros [? Hfd]. split; [done|]. intros fd E. eapply write_safe_mono; eauto.
Qed.

Lemma section_files answer pc s fh fd :
  open_files (section config answer pc s).2 !! fh = Some fd →
  open_files s !! fh = Some fd ∨ pc_fd pc = Some fd.
Proof using.
  destruct pc; cbn; repeat case_match; cbn; rewrite ?lookup_insert_Some, ?lookup_delete_Some; naive_solver.
Qed.
Lemma section_fd answer pc s fd : pc_fd (section config answer pc s).1 = Some fd → pc_fd pc = Some fd.
Proof using. destruct pc; cbn; repeat case_match; done. Qed.
Lemma section_reply answer pc s fh backing r :
  finished pc = false → (section config answer pc s).1 = Answered fh backing r → is_Some r.
Proof using Httl.
  intros Hf. destruct Httl as [ttl Et]. unfold finished in Hf.
  destruct pc; try done; cbn; repeat case_match; try done; intros [= <- <- <-];
    unfold pc_reply; rewrite Et; case_match; by eexists.
Qed.
Lemma section_inner answer pc s : inner (section config answer pc s).2 = inner s.
Proof using. destruct pc; cbn; repeat case_match; done. Qed.

Lemma section_fs_ok answer pc s g :
  fs_ok ls wfd g s → stage_ok g (Tables pc) → fs_ok ls wfd g (section config answer pc s).2.
Proof using.
  intros [Hi Hf] Hpc. split; [by rewrite section_inner|]. intros fh fd [?|?]%section_files; [by eapply Hf|by apply (proj2 Hpc)].
Qed.

(** A section of a request keeps the invariant and panics nowhere. *)
Lemma wp_tables pc s g (Q : Stage → OverlayFs → fds → Prop) :
  fs_ok ls wfd g s → stage_ok g (Tables pc) →
  (∀ st s' g', g ⊆ g' → fs_ok ls wfd g' s' → stage_ok g' st → Q st s' g') →
  sm_wp SAFE (advance_stage copy_fuel config (Tables pc)) s g Q.
Proof using Httl.
  intros Hok [Hf Hpc] HQ. cbn [advance_stage].
  assert (∀ answer, sm_wp SAFE (sm_modify (λ s, (section config answer pc s).2) ;;;
             after_section (section config answer pc s).1) s g Q) as Hk.
  { intros answer. wps. pose proof (section_fs_ok answer pc s g Hok (conj Hf Hpc)) as Hok'.
    pose proof (section_reply answer pc s) as Hr. pose proof (section_fd answer pc s) as Hfd.
    destruct (section config answer pc s).1; cbn [after_section];
      try (apply sm_wp_ret, HQ; [done|done|]; split; [done|]; intros fd' E; by apply Hpc, Hfd).
    - destruct (Hr _ _ _ Hf eq_refl) as [r' ->]. wps. by apply HQ.
    - wps. by apply HQ. }
  destruct pc; try (wps; apply Hk). apply sm_wp_bind. wp_call. wps. apply Hk.
Qed.

Ltac inner_section rule := eapply wp_on_inner; [rule|done|intros ? ? ? ? ? ? ?; wps].

(** A look for an open file. *)
Lemma wp_stage_file fh (k : option RawFd → Stage) s g (Q : Stage → OverlayFs → fds → Prop) :
  fs_ok ls wfd g s → Q (k None) s g → (∀ fd, write_safe g fd → Q (k (Some fd)) s g) →
  sm_wp SAFE (let! f := get_file fh in sm_ret (k f)) s g Q.
Proof using.
  intros Hok HN HQ. unfold get_file. wps. destruct (open_files s !! fh) as [fd|] eqn:E; [|done].
  apply HQ. by eapply fo_files.
Qed.

Lemma wp_begin rq s g (Q : Stage → OverlayFs → fds → Prop) :
  fs_ok ls wfd g s → request_ok rq →
  (∀ st s' g', g ⊆ g' → fs_ok ls wfd g' s' → stage_ok g' st → Q st s' g') →
  sm_wp SAFE (advance_stage copy_fuel config (Begin rq)) s g Q.
Proof using Hls Httl.
  intros Hok Hrq HQ.
  assert (sm_wp SAFE (let! r := serve copy_fuel config rq in sm_ret (Replied r)) s g Q) as Hserve.
  { wps. apply (serve_ok _ _ ls wfd); [done..|apply Hrq|by apply request_handle_ok|]. intros. wps. by apply HQ. }
  destruct rq; try exact Hserve; cbn [advance_stage]; destruct Hrq as [Hn _]; cbn in Hn.
  - apply Forall_cons in Hn as [Hn _]. case_match; [wps; by apply HQ|]. wps.
    apply wp_timeout; [done|]. intros ttl. wps.
    inner_section ltac:(by apply (keeps_lookup_fast config ls wfd)). repeat case_match; by apply HQ.
  - case_match; [wps; by apply HQ|exact Hserve].
  - cbv zeta. wps. apply sm_wp_zoom.
    apply (wp_open_fast ls wfd); [apply Hok|apply adjust_flags_read|..]; intros; wps;
      (apply HQ; [done|by apply fo_set_inner; [eapply fs_ok_mono|]|]); [|done..].
    split; [done|]. by intros ? [= <-].
  - apply wp_stage_file; [done|by apply HQ|]. intros fd Hfd. case_match; by apply HQ.
  - apply Forall_cons in Hn as [Hn _]. wps. inner_section ltac:(by apply (keeps_create_inner copy_fuel config ls wfd)).
    match goal with |- Q (match ?r with _ => _ end) _ _ => destruct r as [[[fd ino] attr]|e] end; apply HQ; try done.
    split; [done|]. intros ? [= <-].
    match goal with H : (∀ _ _ _, Ok _ = Ok _ → changeable _ _) ∧ _ |- _ => destruct H as [Hc _] end.
    specialize (Hc _ _ _ eq_refl). eauto with ovl.
  - wps; [apply wp_timeout; [done|]; intros ttl; wps|]; by apply HQ.
  - apply wp_stage_file; [done|by apply HQ|]. intros fd Hfd. by apply HQ.
Qed.

Lemma wp_advance st s g (Q : Stage → OverlayFs → fds → Prop) :
  fs_ok ls wfd g s → stage_ok g st →
  (∀ st s' g', g ⊆ g' → fs_ok ls wfd g' s' → stage_ok g' st → Q st s' g') →
  sm_wp SAFE (advance_stage copy_fuel config st) s g Q.
Proof using Hls Httl.
  intros Hok Hst HQ.
  destruct st as [rq|ttl parent nm|ino fl|ino|full off es|fd off data|fd off data restore|fd mode n|fi oi fo oo len|
    fi oi fd oo len|pc|r].
  - by apply wp_begin.
  - cbn [advance_stage]. wps. inner_section ltac:(by apply (keeps_lookup_slow config ls wfd)). by apply HQ.
  - cbn [advance_stage]. wps. apply sm_wp_zoom.
    apply (wp_open_slow copy_fuel ls wfd); [apply Hok|..]; intros; wps;
      (apply HQ; [done|by apply fo_set_inner; [eapply fs_ok_mono|]|]); [|done].
    split; [done|]. by intros ? [= <-].
  - cbn [advance_stage]. wps. apply (serves_getattr config ls wfd); [done..|]. intros. wps. by apply HQ.
  - cbn [advance_stage]. wps. inner_section ltac:(by apply (keeps_emit_plus ls wfd)). by apply HQ.
  - cbn [advance_stage]. wps. wp_call. wps. by apply HQ.
  - cbn [advance_stage]. wps. apply wp_pwrite; [done|intros n Hc|intros e]; wps; [case_match|]; by apply HQ.
  - cbn [advance_stage]. wps. wp_call. wps. by apply HQ.
  - cbn [advance_stage]. apply wp_stage_file; [done|by apply HQ|]. intros fd Hfd. by apply HQ.
  - cbn [advance_stage]. wps. wp_call. wps. by apply HQ.
  - by apply wp_tables.
  - cbn [advance_stage]. wps. by apply HQ.
Qed.

Lemma interleave_ok schedule sts s g :
  fs_ok ls wfd g s → Forall (stage_ok g) sts →
  sm_wp SAFE (interleave copy_fuel config schedule sts) s g
    (λ sts' s' g', length sts' = length sts ∧ g ⊆ g' ∧ fs_ok ls wfd g' s').
Proof using Hls Httl.
  revert sts s g. induction schedule as [|i schedule IH]; intros sts s g Hok Hsts; cbn [interleave]; [wps; done|].
  destruct (sts !! i) as [st|] eqn:Hi; [|by apply IH]. destruct (waits sts st); [by apply IH|].
  wps. apply wp_advance; [done|by eapply Forall_lookup_1|]. intros st' s' g' Hg Hok' Hst'.
  eapply sm_wp_mono; [apply IH; [done|]|].
  - apply Forall_insert; [|done]. eapply Forall_impl; [exact Hsts|]. intros. by eapply stage_ok_mono.
  - intros sts' s'' g'' (Hlen & Hg' & ?). rewrite length_insert in Hlen. split_and!; [done|by etrans|done].
Qed.
End safe.

(** ** Alone, a request is served as the handler does *)
Section solo.
Context `{F64, DevT, HashOrder} (copy_fuel : nat) (config : OverlayConfig).

Lemma bind_assoc {A B C} (p : prog A) (f : A → prog B) (h : B → prog C) :
  bind (bind p f) h = bind p (λ a, bind (f a) h).
Proof using. induction p as [a| | |c k IH]; cbn; [done..|]. f_equal. apply functional_extensionality, IH. Qed.
Lemma bind_ret {A} (p : prog A) : bind p Ret = p.
Proof using. induction p as [a| | |c k IH]; cbn; [done..|]. f_equal. apply functional_extensionality, IH. Qed.

Lemma sm_bind_assoc {S A B C} (m : SM S A) (f : A → SM S B) (h : B → SM S C) :
  sm_bind (sm_bind m f) h = sm_bind m (λ a, sm_bind (f a) h).
Proof using.
  apply functional_extensionality. intros s. unfold sm_bind. rewrite bind_assoc. f_equal.
  apply functional_extensionality. by intros [a s'].
Qed.
Lemma sm_bind_eta {S A} (m : SM S A) : sm_bind m sm_ret = m.
Proof using.
  apply functional_extensionality. intros s. unfold sm_bind.
  transitivity (bind (m s) Ret); [|apply bind_ret]. f_equal. apply functional_extensionality. by intros [a s'].
Qed.
Lemma sm_bind_ext {S A B} (m : SM S A) (f h : A → SM S B) : (∀ a, f a = h a) → sm_bind m f = sm_bind m h.
Proof using. intros E. f_equal. by apply functional_extensionality. Qed.
Lemma sm_ret_bind {S A B} (a : A) (f : A → SM S B) : sm_bind (sm_ret a) f = f a.
Proof using. done. Qed.

Lemma solo_replied n r : solo copy_fuel config n (Replied r) = sm_ret r.
Proof using. by destruct n. Qed.
Lemma solo_next n st : (∀ r, st ≠ Replied r) →
  solo copy_fuel config (Datatypes.S n) st = sm_bind (advance_stage copy_fuel config st) (solo copy_fuel config n).
Proof using. intros Hst. destruct st; try done. by destruct (Hst r). Qed.

(** On the tables, it is the thread alone of Threads.v. *)
Lemma solo_after n pc :
  (finished pc = false → solo copy_fuel config n (Tables pc) = alone config n pc) →
  sm_bind (after_section pc) (solo copy_fuel config n) = alone config n pc.
Proof using.
  intros Hn. destruct pc; cbn [after_section finished] in *; rewrite ?sm_ret_bind; try by apply Hn.
  - apply functional_extensionality. intros s. rewrite sm_bind_assoc, alone_answered.
    destruct r; cbn; by rewrite ?solo_replied.
  - apply functional_extensionality. intros s. by rewrite solo_replied, alone_released.
Qed.

Lemma solo_tables n pc : finished pc = false → solo copy_fuel config n (Tables pc) = alone config n pc.
Proof using.
  revert pc. induction n as [|n IH]; intros pc Hf; [destruct pc; cbn in Hf; try discriminate Hf; reflexivity|].
  rewrite solo_next by done. cbn [advance_stage]. apply functional_extensionality. intros s.
  assert (∀ answer s', sm_bind (let! s := sm_get in
             sm_modify (λ s, (section config answer pc s).2) ;;; after_section (section config answer pc s).1)
             (solo copy_fuel config n) s' =
           alone config n (section config answer pc s').1 (section config answer pc s').2) as Hk.
  { intros answer s'. rewrite <-(solo_after n (section config answer pc s').1 (IH _)). done. }
  destruct (asks pc) eqn:Ha.
  - destruct pc; try done. rewrite sm_bind_assoc, alone_ask. unfold sm_bind at 1. cbn [sm_call bind].
    f_equal. apply functional_extensionality. intros answer. cbn [bind]. rewrite Hk. by destruct answer.
  - rewrite alone_section by done. rewrite <-Hk. by destruct pc.
Qed.

(** The fuel of a thread: one for each of its sections is enough. *)
Lemma alone_fuel n m pc : (work pc ≤ n)%nat → (work pc ≤ m)%nat → alone config n pc = alone config m pc.
Proof using.
  intros Hn Hm. apply functional_extensionality. intros s. revert m pc s Hn Hm.
  induction n as [|n IH]; intros m pc s Hn Hm.
  - destruct pc; cbn in Hn; try lia; by rewrite ?alone_answered, ?alone_released.
  - destruct (finished pc) eqn:Hf; [destruct pc; try done; by rewrite ?alone_answered, ?alone_released|].
    destruct m as [|m]; [destruct pc; cbn in *; try done; lia|].
    assert (∀ answer s', alone config n (section config answer pc s).1 s' =
                         alone config m (section config answer pc s).1 s') as Hk.
    { intros answer s'. pose proof (work_section config answer pc s Hf). apply IH; lia. }
    destruct (asks pc) eqn:Ha.
    + destruct pc; try done. rewrite !alone_ask. f_equal. apply functional_extensionality. intros answer. apply Hk.
    + by rewrite !alone_section, Hk by done.
Qed.

Lemma solo_pc n m pc : finished pc = false → (work pc ≤ n)%nat → (work pc ≤ m)%nat →
  solo copy_fuel config n (Tables pc) = alone config m pc.
Proof using. intros Hf Hn Hm. rewrite (solo_tables _ _ Hf). by apply alone_fuel. Qed.

Lemma solo_reply n (m : HM Reply) : sm_bind (let! r := m in sm_ret (Replied r)) (solo copy_fuel config n) = m.
Proof using.
  rewrite sm_bind_assoc. etransitivity; [|apply sm_bind_eta]. apply sm_bind_ext. intros r. by rewrite sm_ret_bind, solo_replied.
Qed.

Lemma solo_write n fd offset data restore_mode : solo copy_fuel config (3 + n) (WriteData fd offset data restore_mode) =
  (try! n := sm_call (Pwrite fd data (wrap_i64 offset)) in
   match restore_mode with
   | Some mode => let! _ := sm_call (Fchmod fd mode) in sm_ret tt
   | None => sm_ret tt
   end ;;;
   sm_ret (Ok (RWritten (wrap_u32 n)))).
Proof using.
  rewrite (solo_next (2 + n)) by done. cbn [advance_stage]. rewrite sm_bind_assoc. apply sm_bind_ext. intros [w|e]; [|done].
  rewrite sm_ret_bind. destruct restore_mode as [mode|]; [|done]. rewrite (solo_next (1 + n)) by done. cbn [advance_stage].
  rewrite !sm_bind_assoc. by apply sm_bind_ext.
Qed.

(** A request whose sections run one after the other is served exactly as
    by its handler: splitting the handlers at their
    locks and calls adds and loses nothing, and ten sections are enough for every
    request. *)
Theorem solo_is_serve rq : solo copy_fuel config 10 (start rq) = serve copy_fuel config rq.
Proof using.
  assert (solo copy_fuel config 10 (Begin rq) = sm_bind (advance_stage copy_fuel config (Begin rq)) (solo copy_fuel config 9)) as E
    by by apply solo_next.
  destruct rq; cbn [start]; try (rewrite E; apply solo_reply); try rewrite E; cbn [advance_stage serve].
  - unfold lookup. case_match; [done|]. rewrite sm_bind_assoc. apply sm_bind_ext. intros ttl.
    rewrite sm_bind_assoc. apply sm_bind_ext. intros fast. rewrite sm_ret_bind.
    destruct fast as [[attr|e]|]; [done..|]. rewrite solo_next by done. cbn [advance_stage].
    rewrite sm_bind_assoc. apply sm_bind_ext. intros [attr|e]; done.
  - case_match; [|apply solo_reply]. rewrite sm_ret_bind, solo_next by done. apply solo_reply.
  - unfold OpsFile.open. cbv zeta. rewrite sm_bind_assoc. apply sm_bind_ext. intros fast. rewrite sm_ret_bind.
    destruct fast as [[fd|e]|]; [|done|].
    + rewrite (solo_pc 9 8) by first [reflexivity|cbn; lia]. apply alone_open.
    + rewrite solo_next by done. cbn [advance_stage].
      rewrite sm_bind_assoc. apply sm_bind_ext. intros [fd|e]; [|done]. rewrite sm_ret_bind.
      rewrite (solo_pc 8 8) by first [reflexivity|cbn; lia]. apply alone_open.
  - unfold write, with_file. rewrite sm_bind_assoc. apply sm_bind_ext. intros [fd|]; [|done]. rewrite sm_ret_bind.
    destruct write_cache; [|exact (solo_write 6 fd offset data None)].
    rewrite solo_next by done. cbn [advance_stage]. rewrite !sm_bind_assoc. apply sm_bind_ext. intros r.
    rewrite !sm_ret_bind. apply (solo_write 5).
  - rewrite (solo_pc 10 3) by first [reflexivity|cbn; lia]. apply alone_release.
  - rewrite create_is_alone. rewrite sm_bind_assoc. apply sm_bind_ext. intros [[[fd ino] attr]|e]; [|done].
    rewrite sm_ret_bind. by rewrite (solo_pc 9 8) by first [reflexivity|cbn; lia].
  - unfold readdirplus. rewrite sm_bind_assoc. apply sm_bind_ext. intros s. destruct (open_dirs s !! fh) as [es|]; [|done].
    rewrite sm_bind_assoc. apply sm_bind_ext. intros ttl. rewrite sm_ret_bind, solo_next by done. cbn [advance_stage].
    rewrite sm_bind_assoc. by apply sm_bind_ext.
  - unfold copy_file_range, with_file. rewrite sm_bind_assoc. apply sm_bind_ext. intros [fi|]; [|done].
    rewrite sm_ret_bind, solo_next by done. cbn [advance_stage]. rewrite sm_bind_assoc. apply sm_bind_ext. intros [fo|]; [|done].
    rewrite sm_ret_bind, solo_next by done. cbn [advance_stage]. rewrite sm_bind_assoc. apply sm_bind_ext. by intros [w|e].
Qed.
End solo.

(** ** The property *)

(** C4. However several threads serve the requests, they make only calls that the
    policy [SAFE] allows.  From a mount on, for any requests and any schedule of
    the sections of their handlers that the two locks of [waits] allow, every
    changing call is on a descriptor of the upper layer or the work directory or
    on one name in such a directory, not followed; [fchmodat], [truncate],
    [lsetxattr] and [lremovexattr] start there but may follow a link on the way;
    every open is confined to its layer and reads only in a lower one; and the
    state keeps its invariant.  Nothing panics if the times the kernel gives are
    in the range of the attributes; a panic is allowed if they need not be.  The
    assumptions are those of [session_changes_upper_only]: the [timeout] option
    is a duration, names have no slash, a [setattr] comes without a file handle.
    The handlers that take several locks, or make calls without one, are split
    into their sections; the others are one section. *)
Theorem interleaved_changes_upper_only `{EP : Epoch} `{F64, DevT, HashOrder} (copy_fuel : nat) (config : OverlayConfig)
    (ls : list OvlLayer) (wfd : RawFd) (ov : OverflowIds) (disabled notifier : bool)
    (rqs : list FuseRequest) (schedule : list nat) (g : fds)
    (Httl : is_Some (f64_duration (cfg_timeout config))) (Hmount : mount_ok ls wfd g)
    (Hrqs : Forall request_ok rqs) :
  sm_wp SAFE (interleave copy_fuel config schedule (start <$> rqs))
    (OverlayFs_new (OverlayInner_new ls wfd ov disabled) notifier) g
    (λ sts s' g', length sts = length rqs ∧ g ⊆ g' ∧ fs_ok ls wfd g' s').
Proof.
  pose proof (proj1 Hmount) as Hls. eapply sm_wp_mono; [apply (interleave_ok _ _ ls wfd)|]; [done|done|by apply new_fs_ok|..].
  - apply Forall_fmap. eapply Forall_impl; [exact Hrqs|]. intros rq Hrq. by destruct rq.
  - intros sts s' g' (Hlen & ? & ?). by rewrite length_fmap in Hlen.
Qed.

(** Three requests that race: a lookup, a new directory, and an open of the
    root whose reply comes last. *)
Lemma interleaved_changes_upper_only_witness :
  sm_wp (@SAFE true) (@interleave F64_Z DevT_halves HashOrder_elements 8 demo_config [0; 2; 1; 2; 0; 2; 2; 2; 2]%nat
                (start <$> [RqLookup 1 (bs "d"); RqMkdir {| req_uid := 1; req_gid := 1 |} 1 (bs "d") 493; RqOpen 1 0]))
    demo_fs demo_fds
    (λ sts s' g', length sts = 3%nat ∧ demo_fds ⊆ g' ∧ @fs_ok true demo_layers 5 g' s').
Proof.
  apply (@interleaved_changes_upper_only true F64_Z DevT_halves HashOrder_elements 8 demo_config demo_layers 5
    {| o_uid := 65534; o_gid := 65534 |} false true
    [RqLookup 1 (bs "d"); RqMkdir {| req_uid := 1; req_gid := 1 |} 1 (bs "d") 493; RqOpen 1 0]);
    [by eexists|apply demo_mount_ok|].
  repeat constructor; apply (bool_decide_unpack _); exact Logic.I.
Defined.
