(* ===== verification/EndsOps.v ===== *)
(** * The requests end

    Every request but [rename] against the kernel [LIVE]: it is answered, and
    the state is left as it has to be for the next one.  A rename may put a
    directory below itself when the kernel says it could be moved there, and
    the walk up from it then has no end. *)

From S2P Require Import Prelude Libc Mapping Xattr ConfigData Config Sys Openat2 Node Tree DataSource.
From S2P Require Import Provenance Whiteout Layer Copyup SafeCopy Overlay SafeInner SafeTree.
From S2P Require Import Ops OpsTree OpsFile Requests SafeOps Session Ends EndsInner.
Local Open Scope Z_scope.

Section ops.
Context `{F64, DevT, HashOrder} (copy_fuel : nat) (config : OverlayConfig).
Context (ls : list OvlLayer) (Hls : Forall (λ l, Ending (ds l)) ls).
Abbreviation I := (InnerInv copy_fuel ls 0).
Implicit Types (s : OverlayFs) (g : Budget) (N : Z).

(** What every state of a session satisfies. *)
Definition fs_live (g : Budget) (s : OverlayFs) : Prop := inner_live copy_fuel ls 0 g (inner s).

Definition FsInv : Inv OverlayFs.
Proof using copy_fuel ls.
  refine {| inv := fs_live; nx s := next_id (nodes (inner s)) |}.
  - intros g g' s. apply (inv_paid I).
  - intros g s. apply (inv_budget I).
Defined.

Lemma lives_on_inner {A} N (m : InnerM A) : lives I N m → lives FsInv N (on_inner m).
Proof using.
  intros Hm s g Hi HN. apply ends_bind. eapply ends_mono; [by apply Hm|]. intros [a t] g' [_ Hl]. by split.
Qed.
Lemma lives_get_inner {A} N (k : OverlayInner → SM OverlayFs A) :
  (∀ (i : OverlayInner) g, inv I g i → N <= nx I i → lives FsInv (nx I i) (k i)) → lives FsInv N (sm_bind get_inner k).
Proof using. intros Hk. apply (lives_gets FsInv N inner). intros s g Hi HN. by apply (Hk (inner s) g). Qed.
(** A change of what the tree does not see. *)
Lemma lives_fs_modify N (f : OverlayFs → OverlayFs) : (∀ s, inner (f s) = inner s) → lives FsInv N (sm_modify f).
Proof using. intros Hf. apply lives_true. intros s g Hi. cbn. unfold fs_live. rewrite Hf. by split. Qed.

Lemma lives_fd_or_path {A} N fd root path (k : SM OverlayFs (FsResult A))
    (k' : RawFd → bytes → SM OverlayFs (FsResult A)) :
  lives FsInv N k → (∀ d nm, lives FsInv N (k' d nm)) → lives FsInv N (fd_or_path fd root path k k').
Proof using. intros Hk Hk'. unfold fd_or_path. lives. Qed.
Lemma lives_with_file {A} N fh (k : RawFd → HM A) :
  (∀ fd, lives FsInv N (k fd)) → lives FsInv N (with_file fh k).
Proof using.
  intros Hk. unfold with_file. apply lives_bind; [|intros []; lives].
  intros s g Hi HN. split; [done|by apply later_refl].
Qed.
End ops.

#[export] Hint Resolve lives_on_inner lives_fs_modify lives_get_node_up : ends.
Ltac lives_hook ::=
  lazymatch goal with
  | |- lives _ _ (sm_bind (layer_at _) _) => eapply lives_layer_at; [eassumption|intros ? ?]
  | |- lives _ _ (sm_bind get_inner _) => eapply lives_get_inner; intros ? ? ? ?
  | |- lives _ _ (on_inner _) => apply lives_on_inner
  | |- lives _ _ (fd_or_path _ _ _ _ _) => apply lives_fd_or_path
  | |- lives _ _ (with_file _ _) => apply lives_with_file
  | |- lives _ _ (sm_try (prepare_create_parent _ _ _) _) =>
      eapply lives_prepare_create; [eassumption|done|intros ? ? ? ? ? ? ?; cbv beta iota]
  | |- lives _ _ (stat_and_register_child _ _ _) => apply lives_stat_and_register; [eassumption|done|lia]
  end.

Section handlers.
Context `{F64, DevT, HashOrder} (copy_fuel : nat) (config : OverlayConfig).
Context (ls : list OvlLayer) (Hls : Forall (λ l, Ending (ds l)) ls).
Abbreviation I := (InnerInv copy_fuel ls 0).
Abbreviation J := (FsInv copy_fuel ls).
Implicit Types (g : Budget) (N : Z).

Lemma ok_or_node (s : OverlayInner) id n : node s id = Ok n → nodes_get s id = Some n.
Proof using. unfold node. by destruct (nodes_get s id); cbn; [intros [= ->]|]. Qed.

(** *** Handles *)
Lemma lives_new_fh N fd b o : lives J N (new_fh fd b o).
Proof using. unfold new_fh. lives. apply lives_fs_modify. by destruct o. Qed.
#[local] Hint Resolve lives_new_fh : ends.
Lemma lives_alloc_fh N fd : lives J N (alloc_fh fd).
Proof using. unfold alloc_fh. lives. Qed.
#[local] Hint Resolve lives_alloc_fh : ends.
Lemma lives_get_file N fh : lives J N (get_file fh).
Proof using. intros s g Hi HN. split; [done|by apply later_refl]. Qed.
#[local] Hint Resolve lives_get_file : ends.
Lemma lives_timeout N : lives J N (timeout config).
Proof using. apply lives_expect. Qed.
#[local] Hint Resolve lives_timeout : ends.
Lemma lives_reply_open N ino fd : lives J N (reply_open_maybe_passthrough config ino fd).
Proof using. unfold reply_open_maybe_passthrough. cbv zeta. lives. by apply lives_fs_modify. Qed.
#[local] Hint Resolve lives_reply_open : ends.
Lemma lives_release N fh : lives J N (release fh).
Proof using. unfold release. cbv zeta. lives. by apply lives_fs_modify. Qed.
Lemma lives_alloc_dh N es : lives J N (alloc_dh es).
Proof using. unfold alloc_dh. lives. by apply lives_fs_modify. Qed.

(** *** Lookup *)
Lemma lives_lookup_fast N parent nm : lives I N (lookup_fast config parent nm).
Proof using Hls. unfold lookup_fast. lives. Qed.
Lemma lives_register_lookup N id st : lives I N (register_lookup id st).
Proof using.
  intros s g Hi HN. unfold register_lookup. apply sm_ends_bind, sm_ends_get, sm_ends_try, sm_ends_ret.
  destruct (node s id) as [n|e] eqn:Hid; [|by split; [|apply later_refl]]. apply ok_or_node in Hid.
  destruct (_ || _); [|by apply sm_ends_ret; split; [|apply later_refl]].
  apply sm_ends_bind. eapply (ends_do_register copy_fuel ls 0); [done|exact Hi|exact Hid|]. intros r s1 Hl.
  eapply sm_ends_mono; [apply (ends_lives I); [exact Hl|]|by split]. lives.
Qed.
#[local] Hint Resolve lives_lookup_fast lives_register_lookup : ends.
Lemma lives_lookup_slow N parent nm : lives I N (lookup_slow config parent nm).
Proof using Hls. unfold lookup_slow. lives. Qed.
#[local] Hint Resolve lives_lookup_slow : ends.
Lemma lives_lookup N parent nm : lives J N (lookup config parent nm).
Proof using Hls. unfold lookup. lives. Qed.
Lemma lives_forget N ino n : lives J N (forget_request ino n).
Proof using.
  unfold forget_request. lives. apply lives_true. intros s g Hi. split; [|done].
  apply (il_table_set copy_fuel ls 0); [|exact Hi]. apply table_forget, Hi.
Qed.
Lemma lives_getattr N ino : lives J N (getattr config ino).
Proof using Hls. unfold getattr. lives. Qed.
Lemma lives_readlink N ino : lives J N (readlink ino).
Proof using Hls. unfold readlink. lives. Qed.

(** *** Removal *)
(** A node's place in the table and the node go together. *)
Lemma ends_remove_with (k : InodeKey) id s g :
  inv I g s →
  sm_ends LIVE (do_remove id) (set_inodes (remove_node_id k id (inodes s)) s) g (λ _ s' g', later I g s g' s').
Proof using.
  intros Hi. pose proof Hi as [E Ht Htab Hr Hb Hn Hd]. unfold do_remove. apply sm_ends_bind, sm_ends_get.
  pose proof (sub_tree_remove (nodes s) id) as Hs. pose proof Hs as [En _].
  assert (arena_get (arena_remove id (nodes s)).2 id = None) as Hgone by apply lookup_delete_eq.
  cbn [nodes set_inodes]. destruct (arena_remove id (nodes s)) as [n a]. cbn [snd] in *.
  apply sm_ends_bind, sm_ends_modify. set (s1 := set_nodes a (set_inodes (remove_node_id k id (inodes s)) s)).
  apply (ends_lives I).
  - split; [|split; [cbn; lia|by apply paid_refl]].
    split; try done; cbn [s1 nodes inodes root_id set_nodes set_inodes]; rewrite ?En; try done.
    + by eapply tree_sub.
    + apply table_remove_node; [by eapply table_sub|done].
  - destruct n; [apply lives_drop_node|apply lives_ret].
Qed.

Lemma lives_drop_child N pid nm : lives I N (drop_child pid nm).
Proof using.
  intros s g Hi HN. eapply sm_ends_mono; [|intros a s' g' Hl; split; [exact Logic.I|exact Hl]].
  unfold drop_child. apply sm_ends_bind, sm_ends_get. destruct (nodes_get s pid) as [p|]; [|by apply later_refl].
  apply sm_ends_bind, sm_ends_modify. set (s1 := set_nodes (arena_alter (λ p, (remove_child nm p).2) pid (nodes s)) s).
  assert (later I g s g s1) as Hl1.
  { split; [|split; [done|apply paid_refl, Hi]]. apply (il_sub copy_fuel ls 0); [|exact Hi].
    apply sub_tree_alter, stays_remove_child. }
  clearbody s1. destruct (remove_child nm p).1 as [rid|]; [|done]. apply sm_ends_bind, sm_ends_get, sm_ends_bind.
  destruct (nodes_get s1 rid) as [n|]; [|apply sm_ends_ret, (ends_lives I); [exact Hl1|lives]].
  cbv zeta. apply sm_ends_bind, sm_ends_modify, sm_ends_ret, sm_ends_bind.
  eapply sm_ends_mono; [apply ends_remove_with, Hl1|]. intros ? s2 g2 Hl2. apply sm_ends_ret.
  exact (later_trans _ _ _ _ _ _ _ Hl1 Hl2).
Qed.
#[local] Hint Resolve lives_drop_child : ends.

Lemma lives_do_rm N parent nm b : lives J N (do_rm copy_fuel config parent nm b).
Proof using Hls. unfold do_rm, do_rm_inner. lives. Qed.

(** *** New entries *)
Lemma lives_check_new_name N parent nm : lives I N (check_new_name parent nm).
Proof using Hls. unfold check_new_name. lives. Qed.
Lemma lives_place_file N upper_fd wd_name path : lives I N (place_file upper_fd wd_name path).
Proof using. unfold place_file. lives. Qed.
Lemma lives_place_dir N upper_fd wd_name path : lives I N (place_dir upper_fd wd_name path).
Proof using. unfold place_dir. lives. Qed.
Lemma lives_finish_entry N pid pp upper_fd dst_dirfd nm path :
  0 < pid < N → lives I N (finish_entry pid pp upper_fd dst_dirfd nm path).
Proof using Hls. intros Hpid. unfold finish_entry. lives. Qed.
Lemma lives_reply_entry N m : lives I N m → lives J N (reply_entry config m).
Proof using. intros Hm. unfold reply_entry. lives. Qed.
#[local] Hint Resolve lives_check_new_name lives_place_file lives_place_dir : ends.
#[local] Hint Extern 1 (lives _ _ (finish_entry _ _ _ _ _ _)) => apply lives_finish_entry; lia : ends.

Lemma lives_mknod N req parent nm mode rdev : lives J N (mknod copy_fuel config req parent nm mode rdev).
Proof using Hls. apply lives_reply_entry. unfold mknod_inner. cbv zeta. lives. Qed.
Lemma lives_mkdir N req parent nm mode : lives J N (mkdir copy_fuel config req parent nm mode).
Proof using Hls. apply lives_reply_entry. unfold mkdir_inner. cbv zeta. lives. Qed.
Lemma lives_symlink N req parent nm link : lives J N (symlink copy_fuel config req parent nm link).
Proof using Hls. apply lives_reply_entry. unfold symlink_inner. cbv zeta. lives. Qed.

Lemma lives_check_create N parent nm : lives I N (check_create parent nm).
Proof using Hls. unfold check_create. lives. Qed.
Lemma lives_create_file N is_wh upper_fd pp nm path flags mode :
  lives I N (create_file is_wh upper_fd pp nm path flags mode).
Proof using Hls. unfold create_file. cbv zeta. lives. Qed.
#[local] Hint Resolve lives_check_create lives_create_file : ends.
Lemma lives_create_inner N req parent nm mode flags :
  lives I N (create_inner copy_fuel config req parent nm mode flags).
Proof using Hls.
  unfold create_inner. cbv zeta. apply lives_try; [lives|]. intros is_wh.
  apply lives_prepare_create; [done|done|]. intros N' pid pp fd path HN' Hpid.
  apply lives_try; [lives|]. intros fd'. apply lives_get. intros s g Hi HN. cbn in HN.
  destruct (owner_ids config req s) as [uid gid]. apply lives_bind; [lives|]. intros _.
  apply lives_bind; [lives|]. intros _. apply lives_layer_at; [done|]. intros l Hl.
  apply (lives_stat_spends copy_fuel ls 0); [apply end_fstat|]. intros st Hst.
  apply spends_then; [apply spends_create_and_register; [done|cbn; lia|done]|]. lives.
Qed.
#[local] Hint Resolve lives_create_inner : ends.
Lemma lives_create N req parent nm mode flags : lives J N (create copy_fuel config req parent nm mode flags).
Proof using Hls. unfold create. cbv zeta. lives; by apply lives_fs_modify. Qed.

Lemma lives_link N ino newparent nm : lives J N (OpsTree.link copy_fuel config ino newparent nm).
Proof using Hls.
  apply lives_reply_entry. unfold link_inner. cbv zeta.
  apply lives_bind; [lives|]. intros namemax. destruct (_ <? _); [lives|].
  apply lives_bind; [lives|]. intros src. apply lives_try_ret. intros src_id _.
  apply lives_try; [lives|]. intros _. apply lives_lookup_dir; [done| |by apply lives_try_ret].
  intros N' pid HN' Hpid. apply lives_try_ret. intros pid' Epid. injection Epid as <-.
  apply lives_bind; [lives|]. intros dst. apply lives_get. intros s g Hi HN. cbn in HN.
  destruct (match dst with Some _ => _ | None => _ end); [lives|].
  apply lives_try; [lives|]. intros _. apply lives_bind; [lives|]. intros src_path.
  apply lives_bind; [lives|]. intros pp. apply lives_layer_at; [done|]. intros l Hl.
  apply lives_bind; [lives|]. intros _. apply lives_try; [lives|]. intros [[sg sfd] old].
  apply lives_try; [lives|]. intros [[dg dfd] new]. apply lives_try; [lives|]. intros _.
  apply (lives_stat_spends copy_fuel ls 0); [apply end_statat|]. intros st Hst.
  apply spends_then; [apply spends_create_and_register; [done|cbn; lia|done]|]. lives.
Qed.

(** *** Files *)
Lemma lives_setattr_fd N l path size fh : Ending (ds l) → lives J N (setattr_fd l path size fh).
Proof using. intros Hl. unfold setattr_fd. cbv zeta. lives. Qed.
Lemma lives_setattr_times N l fd path atime mtime : lives J N (setattr_times l fd path atime mtime).
Proof using. unfold setattr_times. cbv zeta. lives. Qed.
Lemma lives_lsetxattr N path nm v flags : lives J N (lsetxattr path nm v flags).
Proof using. unfold lsetxattr. lives. Qed.
Lemma lives_lremovexattr N path nm : lives J N (lremovexattr path nm).
Proof using. unfold lremovexattr. lives. Qed.
Lemma lives_layer_at_self N idx : lives I N (layer_at idx).
Proof using. unfold layer_at. lives. Qed.
#[local] Hint Resolve lives_setattr_fd lives_setattr_times lives_lsetxattr lives_lremovexattr lives_layer_at_self : ends.
Lemma lives_setattr_override N l nm fd path mode uid gid :
  Ending (ds l) → lives J N (setattr_override config l nm fd path mode uid gid).
Proof using. intros Hl. unfold setattr_override. cbv zeta. lives. Qed.
Lemma lives_setattr_plain N l fd path mode uid gid : lives J N (setattr_plain config l fd path mode uid gid).
Proof using. unfold setattr_plain. cbv zeta. lives. Qed.
Lemma lives_setattr_size N l fd path size : lives J N (setattr_size l fd path size).
Proof using. unfold setattr_size. cbv zeta. lives. Qed.
#[local] Hint Resolve lives_setattr_override lives_setattr_plain lives_setattr_size : ends.
Lemma lives_setattr N ino mode uid gid size atime mtime fh :
  lives J N (setattr copy_fuel config ino mode uid gid size atime mtime fh).
Proof using Hls. unfold setattr. cbv zeta. lives. Qed.

Lemma lives_open_fast N ino flags_raw open_flags : lives I N (open_fast ino flags_raw open_flags).
Proof using Hls. unfold open_fast. lives. Qed.
Lemma lives_open_slow N ino open_flags : lives I N (open_slow copy_fuel ino open_flags).
Proof using Hls. unfold open_slow. lives. Qed.
#[local] Hint Resolve lives_open_fast lives_open_slow : ends.
Lemma lives_open N ino flags : lives J N (OpsFile.open copy_fuel config ino flags).
Proof using Hls. unfold OpsFile.open. cbv zeta. lives. Qed.
Lemma lives_write N fh offset data wc : lives J N (OpsFile.write fh offset data wc).
Proof using. unfold OpsFile.write. lives. Qed.
Lemma lives_fsyncdir N ino ds : lives J N (fsyncdir config ino ds).
Proof using. unfold fsyncdir. lives. Qed.
Lemma lives_copy_file_range N a b c d e : lives J N (copy_file_range a b c d e).
Proof using. unfold copy_file_range. cbv zeta. lives. Qed.

(** *** Extended attributes *)
Lemma lives_xattr_target N ino : lives I N (xattr_target copy_fuel ino).
Proof using Hls. unfold xattr_target. lives. Qed.
#[local] Hint Resolve lives_xattr_target : ends.
Lemma lives_setxattr N ino nm v flags : lives J N (OpsFile.setxattr copy_fuel config ino nm v flags).
Proof using Hls. unfold OpsFile.setxattr. lives. Qed.
Lemma lives_removexattr N ino nm : lives J N (removexattr copy_fuel config ino nm).
Proof using Hls. unfold removexattr. lives. Qed.
Lemma lives_getxattr N ino nm size : lives J N (getxattr_request config ino nm size).
Proof using Hls. unfold getxattr_request. lives. Qed.
Lemma lives_listxattr N ino size : lives J N (listxattr_request config ino size).
Proof using Hls. unfold listxattr_request. cbv zeta. lives. Qed.

(** *** Directories *)
#[local] Hint Resolve lives_alloc_dh : ends.
Lemma lives_opendir N ino : lives J N (opendir_request config ino).
Proof using Hls. unfold opendir_request. lives. Qed.
Lemma lives_entry_ino N e : lives I N (entry_ino e).
Proof using.
  intros s g Hi HN. unfold entry_ino. apply sm_ends_bind, sm_ends_get.
  destruct (de_node_id e) as [id|]; cbn [mbind option_bind]; [|by split; [|apply later_refl]].
  destruct (nodes_get s id) as [n|] eqn:Hid; cbn [fmap option_fmap option_map]; [|by split; [|apply later_refl]].
  apply sm_ends_bind. eapply (ends_do_register copy_fuel ls 0); [done|exact Hi|exact Hid|]. intros r s1 Hl.
  eapply sm_ends_mono; [apply (ends_lives I); [exact Hl|]|by split]. lives.
Qed.
#[local] Hint Resolve lives_entry_ino : ends.
Lemma lives_emit_plus N full es : ∀ i, lives I N (emit_plus full i es).
Proof using. induction es as [|e es IH]; intros i; cbn [emit_plus]; cbv zeta; lives. Qed.
#[local] Hint Resolve lives_emit_plus : ends.
Lemma lives_readdirplus N full fh offset : lives J N (readdirplus config full fh offset).
Proof using. unfold readdirplus. cbv zeta. lives. Qed.

(** *** ioctl *)
Lemma lives_refresh_dir N id : lives I N (refresh_dir config id).
Proof using Hls.
  unfold refresh_dir. apply lives_get. intros s g Hi HN. apply lives_try_ret. intros n Hid%ok_or_node.
  pose proof (known_node _ _ _ _ _ _ _ Hi Hid) as Hk. destruct (negb _); [lives|].
  apply lives_bind; [lives|]. intros path. apply lives_bind; [lives|]. intros _.
  apply lives_bind; [by apply lives_load_dir_impl|]. intros _. lives.
Qed.
#[local] Hint Resolve lives_refresh_dir : ends.
Lemma lives_ioctl N ino fh compat cmd data out : lives J N (ioctl copy_fuel config ino fh compat cmd data out).
Proof using Hls. unfold ioctl. cbv zeta. lives. Qed.
Lemma lives_init N b1 b2 : lives J N (init config b1 b2).
Proof using. unfold init. cbv zeta. lives. by apply lives_fs_modify. Qed.

Definition not_rename (rq : FuseRequest) : Prop := match rq with RqRename _ _ _ _ _ => False | _ => True end.

Lemma lives_serve N rq : not_rename rq → lives J N (serve copy_fuel config rq).
Proof using Hls.
  destruct rq; try done; intros _; cbn [serve].
  - apply lives_bind; [apply lives_init|intros; lives].
  - by apply lives_lookup.
  - apply lives_bind; [apply lives_forget|intros; lives].
  - by apply lives_getattr.
  - by apply lives_setattr.
  - by apply lives_readlink.
  - by apply lives_mknod.
  - by apply lives_mkdir.
  - by apply lives_do_rm.
  - by apply lives_do_rm.
  - by apply lives_symlink.
  - by apply lives_link.
  - by apply lives_open.
  - unfold OpsFile.read. lives.
  - apply lives_write.
  - apply lives_release.
  - unfold statfs. lives.
  - by apply lives_setxattr.
  - by apply lives_getxattr.
  - by apply lives_listxattr.
  - by apply lives_removexattr.
  - unfold access. lives.
  - by apply lives_create.
  - by apply lives_opendir.
  - unfold OpsFile.readdir. cbv zeta. lives.
  - apply lives_readdirplus.
  - unfold releasedir. lives. by apply lives_fs_modify.
  - unfold OpsFile.fsync. lives.
  - apply lives_fsyncdir.
  - unfold OpsFile.fallocate. lives.
  - unfold OpsFile.lseek. lives.
  - apply lives_copy_file_range.
  - by apply lives_ioctl.
Qed.

Lemma lives_session N rqs : Forall not_rename rqs →
  gives J N (session copy_fuel config rqs) (λ rs, length rs = length rqs).
Proof using Hls.
  intros Hrqs. induction Hrqs as [|rq rqs Hrq _ IH]; cbn [session]; [by apply gives_ret|].
  eapply gives_bind; [by apply lives_serve|]. intros r _. eapply gives_bind; [exact IH|]. intros rs Hrs.
  apply gives_ret. by cbn; f_equal.
Qed.
End handlers.

(** ** The property *)

Lemma new_fs_live copy_fuel ls wfd ov disabled notifier b :
  budget_ok b → b_names b < 2 ^ 64 - 3 → b_data b < Z.of_nat copy_fuel →
  fs_live copy_fuel ls b (OverlayFs_new (OverlayInner_new ls wfd ov disabled) notifier).
Proof.
  intros Hb Hn Hd. split; try done; cbn [OverlayFs_new inner].
  - by apply (tree_new (OvlNode_new [] 0 0 0 true)).
  - apply table_new.
  - change (2 + b_names b + 0 < 2 ^ 64 - 1). lia.
Qed.

(** C2. Every session ends.  Against a kernel that has finitely many files and
    bytes to give (fewer entries than numbers of 64 bits, fewer bytes than the
    fuel of the copy loops) and whose writes write something, a session from a
    mount on does not loop: every request is answered or the last one panics,
    which it may only if the kernel may give times that the attributes cannot
    hold ([epoch] is false).  All the while every call is one the policy [SAFE]
    allows, as in [session_changes_upper_only], with its assumptions: the
    [timeout] option is a duration, names have no slash, a [setattr] comes
    without a file handle.  The layers' data sources end, as the one of
    datasource/direct.rs does, and the session has no [rename]. *)
Theorem session_ends `{EP : Epoch} `{F64, DevT, HashOrder} (copy_fuel : nat) (config : OverlayConfig)
    (ls : list OvlLayer) (wfd : RawFd) (ov : OverflowIds) (disabled notifier : bool)
    (rqs : list FuseRequest) (g : fds) (b : Budget)
    (Httl : is_Some (f64_duration (cfg_timeout config))) (Hmount : mount_ok ls wfd g)
    (Hends : Forall (λ l, Ending (ds l)) ls) (Hrqs : Forall request_ok rqs)
    (Hren : Forall not_rename rqs) (Hb : budget_ok b)
    (Hnames : b_names b < 2 ^ 64 - 3) (Hdata : b_data b < Z.of_nat copy_fuel) :
  sm_wp (both SAFE LIVE) (session copy_fuel config rqs)
    (OverlayFs_new (OverlayInner_new ls wfd ov disabled) notifier) (g, b)
    (λ rs s' gb, length rs = length rqs ∧ fs_ok ls wfd gb.1 s' ∧ fs_live copy_fuel ls gb.2 s').
Proof.
  eapply sm_wp_mono; [apply sm_wp_ends|].
  - apply session_ok; [apply Hmount|done|by apply new_fs_ok|done].
  - apply (lives_session copy_fuel config ls Hends 0 rqs Hren); [by apply new_fs_live|].
    by change (0 <= wrap_u64 (1 + 1)).
  - intros rs s' gb [[Hlen Hok] [_ [Hl _]]]. done.
Qed.

Lemma session_ends_witness :
  sm_wp (both (@SAFE true) LIVE) (@session F64_Z DevT_halves HashOrder_elements 101 demo_config
                [RqMkdir {| req_uid := 1; req_gid := 1 |} 1 (bs "d") 493; RqUnlink 1 (bs "d"); RqOpen 1 1])
    demo_fs (demo_fds, {| b_names := 2 ^ 40; b_data := 100 |})
    (λ rs s' gb, length rs = 3%nat ∧ @fs_ok true demo_layers 5 gb.1 s' ∧ fs_live 101 demo_layers gb.2 s').
Proof.
  apply (@session_ends true F64_Z DevT_halves HashOrder_elements 101 demo_config demo_layers 5
    {| o_uid := 65534; o_gid := 65534 |} false true
    [RqMkdir {| req_uid := 1; req_gid := 1 |} 1 (bs "d") 493; RqUnlink 1 (bs "d"); RqOpen 1 1] demo_fds
    {| b_names := 2 ^ 40; b_data := 100 |}).
  - by eexists.
  - apply demo_mount_ok.
  - apply Forall_cons. split; [apply direct_ending|]. apply Forall_cons. split; [apply direct_ending|constructor].
  - repeat constructor; apply (bool_decide_unpack _); exact Logic.I.
  - repeat constructor.
  - done.
  - done.
  - done.
Defined.
