(* ===== verification/Main.v ===== *)
(** * Setting the mount up (src/src/main.rs, src/src/sys/process.rs)

    [main] up to the mount: the checks of the command line, the work directory
    and the layers, the options handed to fuser.  Where the process ends, the
    reason is a value of [MainExit].  The process calls of [set_limits] and
    [daemonize] are programs over [pcall]. *)

From S2P Require Import Prelude Libc Mapping Xattr ConfigData Config Sys Ffi Openat2 Node Wrappers.
From S2P Require Import DataSource Provenance Whiteout Layer Copyup SafeCopy Overlay SafeInner.
From S2P Require Import SafeTree Ops OpsTree OpsFile Requests SafeOps Session.
Local Open Scope Z_scope.

(** ** Mount options *)

(** fuser's [MountOption] and [SessionACL], the constructors the code uses. *)
Inductive MountOption :=
| FSName (s : bytes) | CUSTOM (s : bytes) | DefaultPermissions | RO | Suid | NoSuid | Dev | NoDev | Exec
| NoExec | Atime | NoAtime.
Inductive SessionACL := AclAll | AclRootAndOwner | AclOwner.

#[export] Instance MountOption_eq_dec : EqDecision MountOption.
Proof. solve_decision. Defined.

(** One round of the loop over [config.fuse_options]. *)
Definition push_mount_option (st : list MountOption * SessionACL) (opt : bytes) : list MountOption * SessionACL :=
  let '(fuse_options, acl) := st in
  let push o := (fuse_options ++ [o], acl) in
  if bool_decide (opt = bs "default_permissions") then push DefaultPermissions
  else if bool_decide (opt = bs "allow_other") then (fuse_options, AclAll)
  else if bool_decide (opt = bs "allow_root") then (fuse_options, AclRootAndOwner)
  else if bool_decide (opt = bs "ro") then push RO
  else if bool_decide (opt = bs "suid") then push Suid
  else if bool_decide (opt = bs "nosuid") then push NoSuid
  else if bool_decide (opt = bs "dev") then push Dev
  else if bool_decide (opt = bs "nodev") then push NoDev
  else if bool_decide (opt = bs "exec") then push Exec
  else if bool_decide (opt = bs "noexec") then push NoExec
  else if bool_decide (opt = bs "atime") then push Atime
  else if bool_decide (opt = bs "noatime") then push NoAtime
  else if bool_decide (opt = bs "diratime") then push (CUSTOM (bs "diratime"))
  else if bool_decide (opt = bs "nodiratime") then push (CUSTOM (bs "nodiratime"))
  else if bool_decide (opt = bs "debug") then push (CUSTOM (bs "debug"))
  else if starts_with (bs "max_write=") opt then push (CUSTOM opt)
  else if starts_with (bs "fsname=") opt then (fuse_options, acl)
  else push (CUSTOM opt).
Definition mount_options (opts : list bytes) : list MountOption * SessionACL :=
  foldl push_mount_option ([FSName (bs "fuse-overlayfs")], AclOwner) opts.

(** ** main *)

(** Why the process ends before the mount. *)
Inductive MainExit :=
| ArgsExit (code : Z)
| ArgsError (msg : bytes)
| NoLowerdir
| NoMountpoint
| RedirectDir
| NoWorkdir (wd : bytes) (e : Z)
| LayersFailed (e : InitError).
Definition exit_status (e : MainExit) : Z := match e with ArgsExit code => code | _ => 1 end.

(** What is mounted. *)
Record Mount `{F64} := {
  mt_config : OverlayConfig;
  mt_layers : list OvlLayer;
  mt_workdir_fd : RawFd;
  mt_options : list MountOption;
  mt_acl : SessionACL;
  mt_mountpoint : bytes;
  mt_fs : OverlayFs
}.

Abbreviation MM A := (SM unit (result MainExit A)).
Definition mm_try {A B} (m : MM A) (k : A → MM B) : MM B :=
  let! r := m in match r with Ok a => k a | Err e => sm_ret (Err e) end.

Section main.
Context `{F64} (euid : Z) (read_to_string : bytes → option bytes) (trim : bytes → bytes) (disabled : bool).

(** The checks of the configuration. *)
Definition check_config (args : list bytes) : result MainExit (OverlayConfig * bytes * bytes) :=
  match parse_args euid args with
  | Exits code => Err (ArgsExit code)
  | Parsed (Err msg) => Err (ArgsError msg)
  | Parsed (Ok config) =>
      match cfg_lowerdir config, cfg_mountpoint config with
      | None, _ => Err NoLowerdir
      | Some _, None => Err NoMountpoint
      | Some lowerdir, Some mountpoint =>
          if match cfg_redirect_dir config with
             | Some r => negb (bool_decide (r = bs "off"))
             | None => false
             end
          then Err RedirectDir
          else Ok (config, lowerdir, mountpoint)
      end
  end.

Definition open_workdir (config : OverlayConfig) : MM RawFd :=
  match cfg_workdir config with
  | Some wd =>
      let! r := open_trusted wd O_DIRECTORY 0 in
      sm_ret (match r with Ok fd => Ok fd | Err e => Err (NoWorkdir wd e) end)
  | None => sm_ret (Ok (-1))
  end.

(** [main] up to [fuser::Session::new]; the notifier is set right after. *)
Definition main_setup (args : list bytes) : MM Mount :=
  mm_try (sm_ret (check_config args)) (λ '(config, lowerdir, mountpoint),
  mm_try (open_workdir config) (λ workdir_fd,
  mm_try (let! r := init_layers (cfg_nfs_filehandles config) (cfg_xattr_permissions config) lowerdir
                      (cfg_upperdir config) in
          sm_ret (match r with Ok ls => Ok ls | Err e => Err (LayersFailed e) end)) (λ layers,
  let '(options, acl) := mount_options (cfg_fuse_options config) in
  let fs := OverlayFs_new (OverlayInner_new layers workdir_fd (OverflowIds_read read_to_string trim) disabled) true in
  sm_ret (Ok {| mt_config := config; mt_layers := layers; mt_workdir_fd := workdir_fd; mt_options := options;
                mt_acl := acl; mt_mountpoint := mountpoint; mt_fs := fs |})))).
End main.

(** ** The process *)

(** The process calls, with the number each gives. *)
Inductive pcall :=
| Fork
| Setsid
| OpenDevnull
| Dup2 (oldfd newfd : Z)
| Close (fd : Z)
| Chdir
| Getrlimit
| Setrlimit (soft hard : Z)
| WriteLog (fd : Z) (msg : bytes).

Inductive pprog (A : Type) : Type :=
| PRet (a : A)
| PExit (code : Z)
| PCall (c : pcall) (k : Z → pprog A).
Arguments PRet {A} a.
Arguments PExit {A} code.
Arguments PCall {A} c k.

Definition redirect_stdio (devnull : Z) (k : pprog unit) : pprog unit :=
  PCall (Dup2 devnull 0) (λ r, if r <? 0 then PExit 1 else
  PCall (Dup2 devnull 1) (λ r, if r <? 0 then PExit 1 else
  PCall (Dup2 devnull 2) (λ r, if r <? 0 then PExit 1 else
  if 2 <? devnull then PCall (Close devnull) (λ _, k) else k))).

Definition daemonize : pprog unit :=
  PCall Fork (λ pid,
    if pid <? 0 then PExit 1
    else if 0 <? pid then PExit 0
    else
      PCall Setsid (λ r,
        if r <? 0 then PExit 1
        else
          PCall OpenDevnull (λ devnull,
            let chdir := PCall Chdir (λ _, PRet tt) in
            if 0 <=? devnull then redirect_stdio devnull chdir else chdir))).

(** The hard limit, negative when [getrlimit] fails, becomes the soft one; a
    failure is only reported. *)
Definition set_limits : pprog unit :=
  PCall Getrlimit (λ hard,
    if hard <? 0 then PRet tt else PCall (Setrlimit hard hard) (λ _, PRet tt)).

(** What the SIGUSR1 handler writes. *)
Definition sigusr1_message (inodes nodes : Z) (passthrough : bool) : bytes :=
  let nl := [ascii_of_nat 10] in
  bs "# INODES: " ++ print_dec inodes ++ nl ++ bs "# NODES: " ++ print_dec nodes ++ nl ++
  bs "# PASSTHROUGH: " ++ (if passthrough then bs "enabled" else bs "disabled") ++ nl.

(** The warnings of [check_writeable_proc]. *)
Inductive ProcCheck := ProcOk | ProcStatFailed | ProcWrongType (f_type : Z) | ProcReadonly.
Definition PROC_SUPER_MAGIC : Z := 0x9fa0.
Definition ST_RDONLY : Z := 1.

Definition check_writeable_proc : FM ProcCheck :=
  do! r := Wrappers.statfs (bs "/proc") in
  match r with
  | Err _ => fm_ret ProcStatFailed
  | Ok f_type =>
      if negb (f_type =? PROC_SUPER_MAGIC) then fm_ret (ProcWrongType f_type)
      else
        do! r := statvfs_flags (bs "/proc") in
        fm_ret (match r with
                | Ok f_flag => if negb (Z.land f_flag ST_RDONLY =? 0) then ProcReadonly else ProcOk
                | Err _ => ProcOk
                end)
  end.

(** ** What the mount opens

    The ghost state remembers by which path a descriptor was opened. *)

Abbreviation paths := (gmap Z bytes).

Definition MOUNT (dirs : list bytes) : policy := {|
  ghost := paths;
  pol_pre _ c := match c with
                 | OpenPath path flags _ => path ∈ dirs ∧ opens_write flags = false
                 | Realpath _ | Fstat _ | NameToHandleAt _ _ _ | Fgetxattr _ _ _ => True
                 | _ => False
                 end;
  pol_post g c := match c with
                  | OpenPath path _ _ => λ r g',
                      match r with
                      | Ok fd => g !! fd = None ∧ g' = <[fd := path]> g
                      | Err _ => g' = g
                      end
                  | _ => λ _ g', g' = g
                  end;
  pol_diverge := False;
  pol_panic := False
|}.

(** [l] is a layer made of the directory [dir], opened since [g0]. *)
Definition layer_of `{Epoch} (g0 g : paths) (l : OvlLayer) (d : bytes * bool) : Prop :=
  Lawful (ds l) ∧ low l = d.2 ∧ g0 !! root_fd (ds l) = None ∧ g !! root_fd (ds l) = Some d.1.

Abbreviation roots ls := ((λ l, root_fd (ds l)) <$> ls).

Lemma layer_of_mono `{Epoch} g0 g1 g g' l d : g0 ⊆ g1 → g ⊆ g' → layer_of g1 g l d → layer_of g0 g' l d.
Proof.
  intros H0 Hg (? & ? & Hn & Hl). split_and!; [done..| |by eapply lookup_weaken].
  by eapply lookup_weaken_None.
Qed.

Section mount.
Context `{EP : Epoch} (dirs : list bytes).

Lemma wp_open_trusted path g (Q : FsResult RawFd → unit → paths → Prop) :
  path ∈ dirs →
  (∀ fd, g !! fd = None → Q (Ok fd) tt (<[fd := path]> g)) → (∀ e, Q (Err e) tt g) →
  sm_wp (MOUNT dirs) (open_trusted path O_DIRECTORY 0) tt g Q.
Proof using.
  intros Hp HOk HErr. unfold open_trusted. apply sm_wp_try, sm_wp_ret.
  unfold cstr_bytes. case_bool_decide; [apply HErr|].
  apply sm_wp_call; [done|]. intros [fd|e] g'; cbn; [by intros [? ->]; apply HOk|by intros ->].
Qed.

Lemma wp_load path g (Q : FsResult Direct.DirectAccess → unit → paths → Prop) :
  path ∈ dirs →
  (∀ d, g !! Direct.fd d = None → Q (Ok d) tt (<[Direct.fd d := path]> g)) →
  (∀ e g', g ⊆ g' → Q (Err e) tt g') →
  sm_wp (MOUNT dirs) (Direct.load_data_source path) tt g Q.
Proof using.
  intros Hp HOk HErr. unfold Direct.load_data_source. apply sm_wp_try, sm_wp_ret.
  unfold cstr_bytes at 1. case_bool_decide; [by apply HErr|].
  apply sm_wp_try, sm_wp_call; [done|]. intros [resolved|e] g' ->; [|by apply HErr].
  apply sm_wp_try, wp_open_trusted; [done| |intros; by apply HErr]. intros fd Hfd.
  apply sm_wp_try, sm_wp_call; [done|]. intros [st|e] g' ->; [|by apply HErr, insert_subseteq].
  assert (∀ nf sz mode, Q (Ok {| Direct.resolved_path := resolved; Direct.da_fd := Some fd; Direct.dev := st_dev st;
    Direct.stat_override := mode; Direct.nfs_fh := nf; Direct.fh_size := sz |}) tt (<[fd := path]> g)) as Hd.
  { intros. by apply (HOk {| Direct.da_fd := Some fd |}). }
  apply sm_wp_bind. unfold Direct.probe_nfs_handles. apply sm_wp_bind.
  eapply (sm_wp_mono (MOUNT dirs) _ _ _ (λ (_ : FsResult bytes) (_ : unit) (g' : paths), g' = <[fd := path]> g)).
  { apply sm_wp_try, sm_wp_ret. unfold cstr_bytes. case_bool_decide; [done|]. by apply sm_wp_call. }
  intros r [] g' ->. apply sm_wp_ret. destruct (match r with Ok _ => _ | Err _ => _ end) as [nf sz].
  apply sm_wp_bind, sm_wp_call; [done|]. intros privileged g' ->. apply sm_wp_bind.
  destruct (is_ok privileged); [apply sm_wp_ret, Hd|].
  apply sm_wp_bind, sm_wp_call; [done|]. intros containers g' ->.
  destruct (is_ok containers); [apply sm_wp_ret, Hd|].
  apply sm_wp_bind, sm_wp_call; [done|]. intros user g' ->. apply sm_wp_ret, Hd.
Qed.

(** The directories of a list that are opened: a plugin's is skipped. *)
Definition data_dirs (ds : list bytes) : list bytes := filter (λ d, parse_plugin_path d = None) ds.

(** The layers of the directories with their kind, on descriptors of their
    own. *)
Definition layers_of (g0 g : paths) (ls : list OvlLayer) (roles : list (bytes * bool)) : Prop :=
  g0 ⊆ g ∧ Forall2 (layer_of g0 g) ls roles ∧ NoDup (roots ls).

Lemma layers_of_nil g : layers_of g g [] [].
Proof using. split_and!; [done|constructor..]. Qed.

Lemma layers_of_cons g d path lw g' ls roles :
  g !! Direct.fd d = None → layers_of (<[Direct.fd d := path]> g) g' ls roles →
  layers_of g g' (from_datasource (Direct.direct_source d) lw :: ls) ((path, lw) :: roles).
Proof using.
  intros Hd (Hg & Hls & Hnd).
  assert (g ⊆ <[Direct.fd d := path]> g) as Hg0 by (by apply insert_subseteq).
  assert (Forall (λ fd, fd ≠ Direct.fd d) (roots ls)) as Hne.
  { apply Forall_forall. intros fd (l & -> & Hl)%list_elem_of_fmap E.
    apply list_elem_of_lookup in Hl as [k Hl]. destruct (Forall2_lookup_l _ _ _ _ _ Hls Hl) as (r & _ & _ & _ & Hn & _).
    by rewrite E, lookup_insert_eq in Hn. }
  split_and!; [by etrans| |].
  - constructor.
    + split_and!; [apply direct_lawful|done|done|]. eapply lookup_weaken; [|exact Hg]. apply lookup_insert_eq.
    + eapply Forall2_impl; [exact Hls|]. intros l d' Hl. eapply layer_of_mono; [exact Hg0|reflexivity|exact Hl].
  - constructor; [|done]. rewrite Forall_forall in Hne. intros Hin. by apply (Hne _ Hin).
Qed.

Lemma wp_init_lowers nfs ds : ∀ ls0 g (Q : result InitError (list OvlLayer) → unit → paths → Prop),
  ds ⊆ dirs →
  (∀ ls g', layers_of g g' ls ((λ d, (d, true)) <$> data_dirs ds) → Q (Ok (ls0 ++ ls)) tt g') →
  (∀ e g', Q (Err e) tt g') →
  sm_wp (MOUNT dirs) (init_lowers nfs ls0 ds) tt g Q.
Proof using.
  induction ds as [|d ds IH]; intros ls0 g Q Hds HOk HErr; cbn [init_lowers].
  { rewrite <-(app_nil_r ls0). apply HOk, layers_of_nil. }
  assert (ds ⊆ dirs) as Hds' by set_solver.
  destruct (parse_plugin_path d) eqn:Hp.
  { apply IH; [done| |done]. intros ls g' Hls. apply HOk. unfold data_dirs. rewrite filter_cons_False; [done|]. by rewrite Hp. }
  apply sm_wp_bind, wp_load; [set_solver| |intros; by apply HErr]. intros dd Hdd.
  destruct (_ && _); [by apply sm_wp_ret|]. apply IH; [done| |done]. intros ls g' Hls.
  rewrite <-app_assoc. apply HOk. unfold data_dirs. rewrite filter_cons_True by done. by apply layers_of_cons.
Qed.

Lemma wp_init_upper nfs xp upper g (Q : result InitError OvlLayer → unit → paths → Prop) :
  upper ∈ dirs →
  (∀ d, g !! Direct.fd d = None →
     Q (Ok (from_datasource (Direct.direct_source d) false)) tt (<[Direct.fd d := upper]> g)) →
  (∀ e g', Q (Err e) tt g') →
  sm_wp (MOUNT dirs) (init_upper nfs xp upper) tt g Q.
Proof using.
  intros Hu HOk HErr. unfold init_upper. apply sm_wp_bind, wp_load; [done| |intros; by apply HErr]. intros d Hd.
  cbv zeta. set (d' := if bool_decide _ then _ else d).
  assert (Direct.fd d' = Direct.fd d) as E by (unfold d'; by repeat case_match).
  apply sm_wp_ret. rewrite <-E. destruct (_ && _); [apply HErr|]. apply HOk. by rewrite E.
Qed.

(** The kinds of the layers: the upper directory, when there is one, is the
    first and the only one that is not low. *)
Definition roles (upper : option bytes) (lowerdir : bytes) : list (bytes * bool) :=
  match upper with Some u => [(u, false)] | None => [] end
  ++ ((λ d, (d, true)) <$> data_dirs (parse_lowerdir lowerdir)).

Lemma layers_of_weaken g0 g1 g ls rs : g0 ⊆ g1 → layers_of g1 g ls rs → layers_of g0 g ls rs.
Proof using.
  intros Hg (? & Hls & ?). split_and!; [by etrans| |done].
  eapply Forall2_impl; [exact Hls|]. intros l d Hl. eapply layer_of_mono; [exact Hg|reflexivity|exact Hl].
Qed.
Lemma roles_low g0 g ls lowerdir :
  Forall2 (layer_of g0 g) ls (roles None lowerdir) → Forall (λ l, low l = true) ls.
Proof using.
  intros Hls. apply Forall_lookup. intros k l Hl. destruct (Forall2_lookup_l _ _ _ _ _ Hls Hl) as (r & Hr & _ & Hlow & _).
  rewrite Hlow. cbn in Hr. apply list_lookup_fmap_Some in Hr as (d & -> & _). done.
Qed.

Lemma wp_init_layers nfs xp lowerdir upper g (Q : result InitError (list OvlLayer) → unit → paths → Prop) :
  (∀ u, upper = Some u → u ∈ dirs) → parse_lowerdir lowerdir ⊆ dirs →
  (∀ ls g', ls ≠ [] → layers_of g g' ls (roles upper lowerdir) → Q (Ok ls) tt g') →
  (∀ e g', Q (Err e) tt g') →
  sm_wp (MOUNT dirs) (init_layers nfs xp lowerdir upper) tt g Q.
Proof using.
  intros Hu Hl HOk HErr. unfold init_layers. cbv zeta. apply sm_wp_bind. destruct upper as [u|].
  - apply sm_wp_bind, wp_init_upper; [by apply Hu| |intros; apply sm_wp_ret, sm_wp_ret, HErr].
    intros d Hd. apply sm_wp_ret. cbn [result_bind]. apply sm_wp_bind, wp_init_lowers; [done| |intros; apply sm_wp_ret, HErr].
    intros ls g' Hls. apply sm_wp_ret. cbn [app result_bind]. apply HOk; [done|]. by apply layers_of_cons.
  - apply sm_wp_ret. apply sm_wp_bind, wp_init_lowers; [done| |intros; apply sm_wp_ret, HErr].
    intros ls g' Hls. apply sm_wp_ret. cbn [app result_bind]. destruct ls; [apply HErr|]. by apply HOk.
Qed.
End mount.

(** ** The mount is safe *)

(** The directories a command line names. *)
Definition named_dirs `{F64} (euid : Z) (args : list bytes) : list bytes :=
  match check_config euid args with
  | Ok (config, lowerdir, _) =>
      option_list (cfg_workdir config) ++ option_list (cfg_upperdir config) ++ parse_lowerdir lowerdir
  | Err _ => []
  end.

(** The ghost state of SAFE for the descriptors of a mount. *)
Definition fd_roles (ls : list OvlLayer) (wd : option RawFd) : list (RawFd * fdinfo) :=
  ((λ l, (root_fd (ds l), {| fd_prov := if low l then PLower else PUpper; fd_write := false |})) <$> ls)
  ++ match wd with Some fd => [(fd, {| fd_prov := PWork; fd_write := false |})] | None => [] end.
Definition mount_fds (ls : list OvlLayer) (wd : option RawFd) : fds := list_to_map (fd_roles ls wd).

Lemma fd_roles_NoDup `{Epoch} ls wd g0 g rs :
  layers_of g0 g ls rs → (∀ fd, wd = Some fd → is_Some (g0 !! fd)) → NoDup (fd_roles ls wd).*1.
Proof.
  intros (_ & Hls & Hnd) Hwd. unfold fd_roles. rewrite fmap_app, <-list_fmap_compose.
  apply NoDup_app. split_and!; [exact Hnd| |destruct wd; repeat constructor; set_solver].
  intros fd (l & -> & Hl)%list_elem_of_fmap. destruct wd as [w|]; [|set_solver].
  cbn. intros E%list_elem_of_singleton. cbn in E. apply list_elem_of_lookup in Hl as [k Hl].
  destruct (Forall2_lookup_l _ _ _ _ _ Hls Hl) as (r & _ & _ & _ & Hn & _).
  destruct (Hwd w eq_refl) as [? Hs]. congruence.
Qed.

Lemma mount_fds_ok `{Epoch} ls wd g0 g rs :
  layers_of g0 g ls rs → (∀ fd, wd = Some fd → is_Some (g0 !! fd)) → ls ≠ [] →
  (is_Some wd ∨ Forall (λ l, low l = true) ls) →
  mount_ok ls (default (-1) wd) (mount_fds ls wd).
Proof.
  intros Hof Hwd Hne Hw. pose proof (fd_roles_NoDup _ _ _ _ _ Hof Hwd) as Hnd. destruct Hof as (_ & Hls & _).
  split; [done|]. split.
  - intros k l Hl. destruct (Forall2_lookup_l _ _ _ _ _ Hls Hl) as (r & _ & Hlaw & _). split; [done|].
    exists {| fd_prov := if low l then PLower else PUpper; fd_write := false |}. split; [|done].
    apply elem_of_list_to_map_1; [done|].
    apply elem_of_app. left. apply list_elem_of_fmap. exists l. split; [done|]. by eapply list_elem_of_lookup_2.
  - intros (u & Hu & Hup). destruct Hw as [[w ->]|Hlow].
    + exists {| fd_prov := PWork; fd_write := false |}. split; [|done].
      apply elem_of_list_to_map_1; [exact Hnd|]. apply elem_of_app. right. left.
    + rewrite head_lookup in Hu. pose proof (Forall_lookup_1 _ _ _ _ Hlow Hu) as E. cbv beta in E. congruence.
Qed.

Lemma wp_open_workdir `{F64} dirs config (Q : result MainExit RawFd → unit → paths → Prop) :
  (∀ wd, cfg_workdir config = Some wd → wd ∈ dirs) →
  (∀ wd g, (is_Some wd ↔ is_Some (cfg_workdir config)) → (∀ fd, wd = Some fd → is_Some (g !! fd)) →
     Q (Ok (default (-1) wd)) tt g) →
  (∀ e g, exit_status e = 1 → Q (Err e) tt g) →
  sm_wp (MOUNT dirs) (open_workdir config) tt ∅ Q.
Proof.
  intros Hd HOk HErr. unfold open_workdir. destruct (cfg_workdir config) as [wd|].
  - apply sm_wp_bind, wp_open_trusted; [by apply Hd| |intros; by apply sm_wp_ret, HErr].
    intros fd Hfd. apply sm_wp_ret, (HOk (Some fd)); [split; intros _; by eexists|].
    intros fd' [= ->]. rewrite lookup_insert_eq. by eexists.
  - apply sm_wp_ret, (HOk None); [done|by intros].
Qed.

