(* ===== verification/Readonly.v ===== *)
(** * A mount without an upper layer is read-only

    Every request that would change a file or the tree is refused, from the
    lemmas of SafeTree.v that an operation only succeeds below an upper
    layer.  And no handler makes a call that changes anything: under [SAFE] such
    a call needs a descriptor of the upper layer or the work directory, and where
    none is known, none can be opened ([wp_frozen]). *)

From S2P Require Import Prelude Libc Mapping Xattr ConfigData Config Sys Openat2 Node DataSource.
From S2P Require Import Provenance Whiteout Layer Copyup SafeCopy Overlay SafeInner SafeTree.
From S2P Require Import Ops OpsTree OpsFile Requests SafeOps Session.
Local Open Scope Z_scope.

(** ** Nothing is changed *)

Definition all_lower (g : fds) : Prop := ∀ fd i, g !! fd = Some i → fd_prov i = PLower.

(** A descriptor that is not open for writing: the kernel refuses a write. *)
Definition unwritable (g : fds) (fd : RawFd) : Prop := ∃ i, g !! fd = Some i ∧ fd_write i = false.

(** No call that changes something, but a write that the kernel refuses. *)
Definition frozen_pre (g : fds) (s : sys) : Prop :=
  match s with
  | Openat2 _ _ flags _ _ => opens_write flags = false
  | OpenPath _ flags _ => opens_write flags = false
  | Fchown _ _ _ | Fchmod _ _ | Futimens _ _ | Fsetxattr _ _ _ _ | Ficlone _ _
  | Fchownat _ _ _ _ _ | Fchmodat _ _ _ _ | Utimensat _ _ _ _ | Mkdirat _ _ _ | Mknodat _ _ _ _
  | Unlinkat _ _ _ | Symlinkat _ _ _ | Linkat _ _ _ _ _ | Renameat _ _ _ _ | Renameat2 _ _ _ _ _
  | Truncate _ _ | Lsetxattr _ _ _ _ | Lremovexattr _ _ => False
  | Ftruncate fd _ | Write fd _ | Pwrite fd _ _ | Fallocate fd _ _ _ | Sendfile fd _ _
  | CopyFileRange _ _ fd _ _ => unwritable g fd
  | IoctlLong _ cmd _ => is_set_ioctl cmd = false
  | _ => True
  end.

Definition FROZEN `{Epoch} : policy :=
  {| ghost := fds; pol_pre := frozen_pre; pol_post := safe_post; pol_diverge := True;
     pol_panic := epoch = false |}.

Lemma all_lower_changeable g fd : all_lower g → ¬ changeable g fd.
Proof. intros Hg (i & Hi & Hp). by apply Hp, (Hg fd). Qed.
Lemma all_lower_write g fd : all_lower g → write_safe g fd → unwritable g fd.
Proof. intros Hg (i & Hi & Hw). exists i. split; [done|]. by apply Hw, (Hg fd). Qed.
Lemma unwritten {A} g fd (r : FsResult A) a : unwritable g fd → written_ok g fd r → r ≠ Ok a.
Proof. intros (i & Hi & Hf) Hr E. destruct (Hr a E) as (i' & Hi' & Ht). congruence. Qed.

Lemma safe_frozen g s : all_lower g → safe_pre g s → frozen_pre g s.
Proof.
  intros Hg Hs. pose proof (all_lower_changeable g) as Hno. pose proof (all_lower_write g) as Hw.
  destruct s; cbn in *; try done; try (by apply Hw); try (unfold entry_safe, path_safe in Hs; naive_solver).
  - destruct Hs as (_ & i & Hi & Hf). destruct (opens_write flags); [|done]. by destruct (Hf eq_refl (Hg _ _ Hi)).
  - destruct (is_set_ioctl cmd); naive_solver.
Qed.

(** New descriptors are of the layer of the directory. *)
Lemma safe_post_lower `{Epoch} g s r g' : all_lower g → safe_post g s r g' → all_lower g'.
Proof.
  intros Hg Hp. assert (g' = g ∨ ∃ fd i w, fd_prov i = PLower ∧
      g' = <[fd := {| fd_prov := fd_prov i; fd_write := w |}]> g) as [->|(fd & i & w & Hi & ->)]; [|done|].
  - destruct s; cbn in Hp; try (by left); try (left; apply Hp).
    destruct r as [fd|e]; [|by left]. destruct Hp as (_ & i & Hi & ->). right. exists fd, i. eauto.
  - intros fd' i'. rewrite lookup_insert_Some. intros [[_ <-]|[_ ?]]; [done|by eapply Hg].
Qed.

(** What is safe where only descriptors of lower layers are known changes
    nothing. *)
Lemma wp_frozen `{Epoch} {S A} (m : SM S A) (s : S) g (Q : A → S → fds → Prop) :
  all_lower g → sm_wp SAFE m s g Q → sm_wp FROZEN m s g (λ a s' g', Q a s' g' ∧ all_lower g').
Proof.
  unfold sm_wp. generalize (m s) as p. intros p. revert g.
  induction p as [[a s']| | |c k IH]; intros g Hg; cbn; [done..|].
  intros [Hpre Hk]. split; [by apply safe_frozen|]. intros r g' Hr. apply IH; [by eapply safe_post_lower|by apply Hk].
Qed.

(** ** The requests that change something

    By their kind, by the command of an ioctl, and by the flags of an open. *)
Definition changes_something (rq : FuseRequest) : bool :=
  match rq with
  | RqSetattr _ _ _ _ _ _ _ _ | RqMknod _ _ _ _ _ | RqMkdir _ _ _ _ | RqUnlink _ _ | RqRmdir _ _
  | RqSymlink _ _ _ _ | RqRename _ _ _ _ _ | RqLink _ _ _ | RqSetxattr _ _ _ _ | RqRemovexattr _ _
  | RqCreate _ _ _ _ _ | RqWrite _ _ _ _ | RqFallocate _ _ _ _ | RqCopyFileRange _ _ _ _ _ => true
  | RqOpen _ flags => needs_write flags
  | RqIoctl _ _ _ cmd _ _ => (cmd =? FS_IOC_SETVERSION) || (cmd =? FS_IOC_SETFLAGS)
  | _ => false
  end.

Section readonly.
Context `{EP : Epoch} `{F64, DevT, HashOrder} (copy_fuel : nat) (config : OverlayConfig).
Context (ls : list OvlLayer) (wfd : RawFd) (Hls : ls ≠ []).
Context (Hlow : Forall (λ l, low l = true) ls).
Implicit Types (s : OverlayFs) (g : fds).

Lemma no_upper : ¬ has_upper ls.
Proof using Hlow.
  intros (u & Hu & Hul). rewrite head_lookup in Hu. pose proof (Forall_lookup_1 _ _ _ _ Hlow Hu) as E.
  cbv beta in E. congruence.
Qed.

Definition refused (r : FsResult Reply) (s : OverlayFs) (g : fds) : Prop :=
  (∃ e, r = Err e) ∧ fs_ok ls wfd g s.
Definition rejects (m : HM Reply) : Prop := ∀ s g, fs_ok ls wfd g s → all_lower g → sm_wp SAFE m s g refused.

(** An inner operation that only succeeds below an upper layer. *)
Lemma rejects_inner {A} (m : InnerM (FsResult A)) R (k : A → HM Reply) :
  keeps ls wfd m R → (∀ r i g, R r i g → is_ok r = true → has_upper ls) →
  rejects (try! a := on_inner m in k a).
Proof using Hlow.
  intros Hm HR s g Hok _. wps. eapply wp_on_inner; [exact Hm|done|]. intros [a|e] i g' Hg Hok' _ Hr.
  - by destruct (no_upper (HR _ _ _ Hr eq_refl)).
  - split; [by eexists|done].
Qed.

Lemma rejects_entry m : keeps ls wfd m (upper_if_ok ls) → rejects (reply_entry config m).
Proof using Hlow. intros Hm. by eapply rejects_inner. Qed.

Lemma rejects_node_up id (k : HM Reply) s g : fs_ok ls wfd g s →
  sm_wp SAFE (try! _ := on_inner (get_node_up copy_fuel id) in k) s g refused.
Proof using Hlow.
  intros Hok. wps. eapply wp_on_node_up; [exact Hok|..]; intros.
  - by destruct (no_upper ltac:(done)).
  - split; [by eexists|done].
Qed.

Lemma rejects_xattr_target ino s g (Q : FsResult (bytes * OvlLayer) → OverlayFs → fds → Prop) :
  fs_ok ls wfd g s → (∀ e s' g', fs_ok ls wfd g' s' → Q (Err e) s' g') →
  sm_wp SAFE (on_inner (xattr_target copy_fuel ino)) s g Q.
Proof using Hlow.
  intros Hok HQ. eapply wp_on_xattr_target; [exact Hok|..]; intros; [by destruct (no_upper ltac:(done))|].
  by apply HQ.
Qed.

Lemma rejects_setattr ino mode uid gid size at_ mt fh :
  rejects (setattr copy_fuel config ino mode uid gid size at_ mt fh).
Proof using Hlow.
  intros s g Hok _. unfold setattr, get_inner. wp_step. wp_step. wp_step. wp_step.
  destruct (resolve_node _ _); [|by split; [eexists|]]. by apply rejects_node_up.
Qed.

Ltac refuse := split; [by eexists|done].

Lemma rejects_setxattr ino nm v fl : rejects (setxattr copy_fuel config ino nm v fl).
Proof using Hlow.
  intros s g Hok _. unfold setxattr. wps; try refuse. apply rejects_xattr_target; [done|]. intros. refuse.
Qed.
Lemma rejects_removexattr ino nm : rejects (removexattr copy_fuel config ino nm).
Proof using Hlow.
  intros s g Hok _. unfold removexattr. wps; try refuse. apply rejects_xattr_target; [done|]. intros. refuse.
Qed.

Lemma rejects_ioctl ino fh compat cmd data osz :
  (cmd =? FS_IOC_SETVERSION) || (cmd =? FS_IOC_SETFLAGS) = true →
  rejects (ioctl copy_fuel config ino fh compat cmd data osz).
Proof using Hlow.
  intros Hset s g Hok _. unfold ioctl. cbv zeta. rewrite Hset. unfold get_inner. cbn [negb andb].
  do 2 (wp_step; try refuse). wp_step. wp_step. wp_step. wp_step; [|refuse].
  assert ((cmd =? FUSE_OVFS_IOC_REFRESH_DIR) = false) as ->.
  { apply orb_true_iff in Hset as [->%Z.eqb_eq| ->%Z.eqb_eq]; done. }
  by apply rejects_node_up.
Qed.

(** Opening for writing goes to the copy-up, which is refused. *)
Lemma wp_open_fast_write ino fl ofl i g (Q : option (FsResult RawFd) → OverlayInner → fds → Prop) :
  inner_ok ls wfd g i → needs_write fl = true →
  (∀ e, Q (Some (Err e)) i g) → Q None i g → sm_wp SAFE (open_fast ino fl ofl) i g Q.
Proof using Hlow.
  intros Hok Hfl HErr HNone. unfold open_fast. rewrite Hfl. cbn [negb orb]. wps; auto.
  apply wp_node_path. intros p. wps; [|by apply HErr]. exfalso.
  match goal with E : layer _ _ = Ok ?l |- _ => apply ok_or_Ok in E; rename E into Hl end.
  match goal with E : negb _ = true |- _ => rewrite Hl in E; cbn in E; rename E into Hup end.
  rewrite (io_layers _ _ _ _ Hok) in Hl. pose proof (Forall_lookup_1 _ _ _ _ Hlow Hl) as E. cbv beta in E.
  by rewrite E in Hup.
Qed.

Lemma rejects_open ino fl : needs_write fl = true → rejects (OpsFile.open copy_fuel config ino fl).
Proof using Hlow.
  intros Hfl s g Hok _. unfold OpsFile.open. cbv zeta. wps. apply sm_wp_zoom.
  assert (∀ i, inner_ok ls wfd g i → fs_ok ls wfd g (set_inner i s)) as Hset by (intros; by apply fo_set_inner).
  apply wp_open_fast_write; [apply Hok|done|intros e; wps; split; [by eexists|apply Hset, Hok]|].
  wps. apply sm_wp_zoom. unfold open_slow. wps; [|split; [by eexists|apply Hset, Hok]].
  eapply (wp_get_node_up _ ls wfd); [apply Hok|..]; intros; [by destruct (no_upper ltac:(done))|].
  split; [by eexists|]. apply fo_set_inner; [|done]. eapply fs_ok_mono; [done|]. apply Hset, Hok.
Qed.

Lemma unwritable_safe g fd : unwritable g fd → write_safe g fd.
Proof using. intros (i & Hi & Hw). by exists i. Qed.

(** A handle is of a file that is open for reading only. *)
Lemma rejects_file fh (k : RawFd → HM Reply) :
  (∀ fd s g, fs_ok ls wfd g s → unwritable g fd → sm_wp SAFE (k fd) s g refused) → rejects (with_file fh k).
Proof using.
  intros Hk s g Hok Hg. eapply wp_with_file; [exact Hok|refuse|]. intros fd Hfd. apply Hk; [done|]. by apply all_lower_write.
Qed.
Ltac refuse_write :=
  let H := fresh in
  apply safe_call; [by apply unwritable_safe|exact Logic.I|
    intros [?|?] H; [exfalso; by eapply unwritten|refuse]].

Lemma rejects_write fh off data wc : rejects (write fh off data wc).
Proof using.
  apply rejects_file. intros fd s g Hok Hfd. destruct wc; wp_step; [wp_step; wp_call|]; wps; refuse_write.
Qed.
Lemma rejects_fallocate fh off len mode : rejects (fallocate fh off len mode).
Proof using. apply rejects_file. intros fd s g Hok Hfd. wp_step. refuse_write. Qed.
Lemma rejects_copy_file_range fi oi fo oo len : rejects (copy_file_range fi oi fo oo len).
Proof using.
  intros s g Hok Hg. eapply wp_with_file; [exact Hok|refuse|]. intros fd _. revert s g Hok Hg.
  apply rejects_file. intros fd' s g Hok Hfd'. cbv zeta. wp_step. refuse_write.
Qed.

Lemma serve_rejects rq : Forall simple_name (request_names rq) → changes_something rq = true →
  rejects (serve copy_fuel config rq).
Proof using Hlow Hls.
  intros Hn Hc. destruct rq; cbn [serve request_names changes_something] in *; try done;
    rewrite ?Forall_cons in Hn; try (destruct Hn as (Hn1 & Hn)); try (destruct Hn as (Hn2 & Hn)).
  - apply rejects_setattr.
  - by apply rejects_entry, keeps_mknod_inner.
  - by apply rejects_entry, keeps_mkdir_inner.
  - eapply rejects_inner; [by apply keeps_do_rm_inner|done].
  - eapply rejects_inner; [by apply keeps_do_rm_inner|done].
  - by apply rejects_entry, keeps_symlink_inner.
  - eapply rejects_inner; [by apply keeps_rename_inner|done].
  - by apply rejects_entry, keeps_link_inner.
  - by apply rejects_open.
  - apply rejects_write.
  - by apply rejects_setxattr.
  - by apply rejects_removexattr.
  - eapply rejects_inner; [by apply keeps_create_inner|]. intros r i g [_ Hr]. exact Hr.
  - apply rejects_fallocate.
  - apply rejects_copy_file_range.
  - by apply rejects_ioctl.
Qed.

Lemma serve_readonly rq s g :
  is_Some (f64_duration (cfg_timeout config)) → Forall simple_name (request_names rq) → fs_ok ls wfd g s → all_lower g →
  sm_wp SAFE (serve copy_fuel config rq) s g
    (λ r s' g', (changes_something rq = true → ∃ e, r = Err e) ∧ fs_ok ls wfd g' s').
Proof using Hlow Hls.
  intros Httl Hn Hok Hg. destruct (changes_something rq) eqn:Hc.
  - eapply sm_wp_mono; [by apply serve_rejects|]. intros r s' g' []. done.
  - apply (serve_ok _ _ ls wfd); [done..| |by intros]. by destruct rq.
Qed.
End readonly.

(** C14. A mount of lower layers only is read-only.  Where no descriptor of an
    upper layer or a work directory is known, no handler makes a call that
    changes anything ([FROZEN]): no open for writing, no call that creates,
    removes, renames or sets something, and no write but to a descriptor that is
    not open for writing, which the kernel refuses.  A request that would create,
    remove, rename or write something, set its attributes, or open a file for
    writing, is answered with an error.  The state keeps its invariant, and no
    other descriptor becomes known.  A panic is allowed only if the kernel's
    times may be out of the range of the attributes; the request's names have no
    slash, and the [timeout] option is a duration. *)
Theorem readonly_without_upper `{EP : Epoch} `{F64, DevT, HashOrder} (copy_fuel : nat) (config : OverlayConfig)
    (ls : list OvlLayer) (wfd : RawFd) (rq : FuseRequest) (s : OverlayFs) (g : fds)
    (Hls : ls ≠ []) (Httl : is_Some (f64_duration (cfg_timeout config)))
    (Hlow : Forall (λ l, low l = true) ls) (Hok : fs_ok ls wfd g s) (Hg : all_lower g)
    (Hnames : Forall simple_name (request_names rq)) :
  sm_wp FROZEN (serve copy_fuel config rq) s g (λ r s' g',
    (changes_something rq = true → ∃ e, r = Err e) ∧ fs_ok ls wfd g' s' ∧ all_lower g').
Proof.
  eapply sm_wp_mono; [apply wp_frozen; [done|by apply serve_readonly]|]. by intros r s' g' [[] ].
Qed.

Definition lower_layers : list OvlLayer := [from_datasource (demo_source 4) true].

Definition lower_fds : fds := {[ 4 := {| fd_prov := PLower; fd_write := false |} ]}.

Lemma readonly_without_upper_witness :
  sm_wp (@FROZEN true) (@serve F64_Z DevT_halves HashOrder_elements 8 demo_config (RqUnlink 1 (bs "f")))
    (OverlayFs_new (OverlayInner_new lower_layers (-1) {| o_uid := 65534; o_gid := 65534 |} false) true)
    lower_fds (λ r s' g', (true = true → ∃ e, r = Err e) ∧ @fs_ok true lower_layers (-1) g' s' ∧ all_lower g').
Proof.
  apply (@readonly_without_upper true F64_Z DevT_halves HashOrder_elements);
    [done|by eexists|by repeat constructor| | |].
  - apply (@new_fs_ok true lower_layers (-1)). split; [done|]. split; [|by intros (u & [= <-] & [=])].
    intros [|k] l Hl; simplify_eq/=. split; [apply direct_lawful|]. eexists; done.
  - intros fd i. unfold lower_fds. rewrite lookup_singleton_Some. by intros [_ <-].
  - repeat constructor. apply (bool_decide_unpack _). exact I.
Defined.
