(* ===== verification/Disk.v ===== *)
(** * The directories of the layers, as the kernel keeps them

    What the calls of Sys.v do to the directories below the open descriptors:
    a [Disk] maps a directory and a name to the object there.  The policy
    [DISK] is the documented behaviour of the calls on it, as a relation: which
    answers they may give, and what they change.  A call that fails changes
    nothing; a call whose path may lead through a symbolic link, or whose flags
    the sources never pass, may change anything.  A program verified under
    [DISK] is thereby verified for every kernel and every layer's contents. *)

From S2P Require Import Prelude Libc Sys Xattr Openat2 Node DataSource Whiteout Layer Copyup.
From S2P Require Import Provenance Overlay Merge.
Local Open Scope Z_scope.

(** ** Directories *)

(** An object: its identity (never given out twice, and shared by its hard
    links), the type bits of its mode and its device number. *)
Record Ent := { e_id : Z; e_type : Z; e_rdev : Z }.

(** The entries of all directories, by the identity of the directory, and the
    directories that are marked opaque by an attribute. *)
Record Disk := { entries : gmap (Z * bytes) Ent; opaques : gset Z }.

Definition at_ (U : Disk) (d : Z) (nm : bytes) : option Ent := entries U !! (d, nm).
Definition put (d : Z) (nm : bytes) (e : Ent) (U : Disk) : Disk :=
  {| entries := <[(d, nm):=e]> (entries U); opaques := opaques U |}.
Definition del (d : Z) (nm : bytes) (U : Disk) : Disk :=
  {| entries := delete (d, nm) (entries U); opaques := opaques U |}.
Definition set_opaques (o : gset Z) (U : Disk) : Disk :=
  {| entries := entries U; opaques := o |}.

Definition e_dir (e : Ent) : bool := e_type e =? S_IFDIR.

(** A name of an entry. *)
Definition plain (nm : bytes) : Prop := (SLASH ∉ nm) ∧ nm ≠ [] ∧ nm ≠ bs "." ∧ nm ≠ bs "..".

(** The components of a path, and the directory they lead to, every one of
    them a directory and no symbolic link. *)
Definition comps (path : bytes) : list bytes :=
  filter (λ c, c ≠ [] ∧ c ≠ bs ".") (split_on SLASH path).
Fixpoint walk (U : Disk) (d : Z) (cs : list bytes) : option Z :=
  match cs with
  | [] => Some d
  | c :: cs' => match at_ U d c with
               | Some e => if e_dir e then walk U (e_id e) cs' else None
               | None => None
               end
  end.

(** The directory the last component of a path is in, and that component. *)
Definition parent_dir (U : Disk) (R : Z) (path : bytes) : option (Z * bytes) :=
  match rsplit_once SLASH path with
  | None => Some (R, path)
  | Some (parent, nm) => (λ D, (D, nm)) <$> walk U R (comps parent)
  end.

(** What a directory says about a name; see [Merge.verdict_at]. *)
Definition ent_stat (e : Ent) : stat :=
  set_st_rdev (e_rdev e) (set_st_mode (e_type e) zeroed_stat).
Definition wh_file_at (U : Disk) (d : Z) (nm : bytes) : bool := is_Some_b (at_ U d (WH_PREFIX ++ nm)).
Definition verdict_in `{DevT} (U : Disk) (d : Z) (nm : bytes) : verdict :=
  if wh_file_at U d nm then Whites nm
  else match at_ U d nm with
       | None => Absent
       | Some e =>
           match wh_prefix_name nm with
           | Some whited => Whites whited
           | None => if is_chardev_whiteout (ent_stat e) then Whites nm else Shows (ent_stat e)
           end
       end.

(** Two disks that differ at most at the entries of [K], and in the opacity of
    directories all of whose entries are in [K]. *)
Definition same_but (K : Z → bytes → Prop) (U U' : Disk) : Prop :=
  (∀ d, ¬ (∀ nm, K d nm) → d ∈ opaques U' ↔ d ∈ opaques U) ∧
  ∀ d nm, ¬ K d nm → at_ U' d nm = at_ U d nm.

(** ** The calls *)
Section disk.
Context `{DevT}.
(** The directory an open descriptor stands for, and the directories that are
    open from the start. *)
Context (dir_of : RawFd → option Z) (roots : gset Z).
Implicit Types (U : Disk) (d : RawFd).

Definition new_id U (i : Z) : Prop :=
  (i ∉ roots) ∧ (i ∉ opaques U) ∧ ∀ d nm e, at_ U d nm = Some e → d ≠ i ∧ e_id e ≠ i.

Definition errs {A} U (r : FsResult A) U' : Prop := ∀ e, r = Err e → U' = U.

(** A new object at a free name. *)
Definition creates U d nm (type rdev : Z) (r : FsResult unit) U' : Prop :=
  plain nm → errs U r U' ∧
    (r = Ok tt → ∃ D i, dir_of d = Some D ∧ at_ U D nm = None ∧ new_id U i ∧
       U' = put D nm {| e_id := i; e_type := type; e_rdev := rdev |} U).

(** mknod(2): no type is a regular file. *)
Definition node_type (mode : Z) : Z := if file_type mode =? 0 then S_IFREG else file_type mode.

(** What rename(2) does to the entries: nothing between two names of one
    object. *)
Definition moved U (D : Z) (on : bytes) (D' : Z) (nn : bytes) (e : Ent) : Disk :=
  if decide ((e_id <$> at_ U D' nn) = Some (e_id e)) then U else put D' nn e (del D on U).

(** A rename, and what may be replaced: a file by a file, an empty directory by
    a directory; [after] is done to the result. *)
Definition renames U d on d' nn (after : Z → Disk → Disk → Prop) (r : FsResult unit) U' : Prop :=
  plain on → plain nn → errs U r U' ∧
    (r = Ok tt → ∃ D D' e, dir_of d = Some D ∧ dir_of d' = Some D' ∧ at_ U D on = Some e ∧
       (∀ e', at_ U D' nn = Some e' → e_dir e' = e_dir e) ∧
       after D (moved U D on D' nn e) U').

Definition whiteout_left U on (D : Z) (U1 U' : Disk) : Prop :=
  (U1 = U ∧ U' = U) ∨
  (U1 ≠ U ∧ ∃ i, new_id U i ∧ U' = put D on {| e_id := i; e_type := S_IFCHR; e_rdev := makedev 0 0 |} U1).

(** What a stat of a name, without following, tells; its times are after 1970. *)
Definition stats U d nm flags (r : FsResult stat) : Prop :=
  stat_ok r ∧ (plain nm → Z.land flags AT_SYMLINK_NOFOLLOW ≠ 0 →
    match r with
    | Ok st => ∀ D, dir_of d = Some D → ∃ e, at_ U D nm = Some e ∧
                 file_type (st_mode st) = e_type e ∧ (e_type e = S_IFCHR → st_rdev st = e_rdev e)
    | Err e => e = ENOENT → ∀ D, dir_of d = Some D → at_ U D nm = None
    end).

(** An open: of a directory the path leads to, of a name that is none, or of a
    file that is created where the name is free. *)
Definition opens U d path flags (r : FsResult RawFd) U' : Prop :=
  errs U r U' ∧
  if Z.land flags O_CREAT =? 0 then
    U' = U ∧
    (Z.land flags O_TMPFILE ≠ O_TMPFILE → ∀ fd D, r = Ok fd → dir_of d = Some D →
       (∀ E, walk U D (comps path) = Some E → dir_of fd = Some E) ∧
       (∀ e, plain path → at_ U D path = Some e → e_dir e = false → e_type e ≠ S_IFLNK →
          dir_of fd = None))
  else
    ∀ fd, r = Ok fd → dir_of fd = None ∧
      ∀ R D nm, dir_of d = Some R → parent_dir U R path = Some (D, nm) → plain nm →
        (∃ e, at_ U D nm = Some e ∧ (e_type e ≠ S_IFLNK → U' = U)) ∨
        (at_ U D nm = None ∧ ∃ i, new_id U i ∧
          U' = put D nm {| e_id := i; e_type := S_IFREG; e_rdev := 0 |} U).

Definition opaque_name (nm : bytes) : bool :=
  bool_decide (nm ∈ [PRIVILEGED_OPAQUE_XATTR; UNPRIVILEGED_OPAQUE_XATTR; OPAQUE_XATTR]).

(** An attribute, of a descriptor ([Some]) or of a path. *)
Definition sets_attr U (fd : option RawFd) nm value (r : FsResult unit) U' : Prop :=
  errs U r U' ∧
  if opaque_name nm then
    ∃ o, U' = set_opaques o U ∧
      ∀ f, fd = Some f →
        match dir_of f with
        | Some D => (∀ x, x ≠ D → x ∈ o ↔ x ∈ opaques U) ∧ (r = Ok tt → value = bs "y" → D ∈ o)
        | None => o = opaques U
        end
  else U' = U.

Definition disk_post U (c : sys) : resp c → Disk → Prop :=
  match c return resp c → Disk → Prop with
  | Fstat _ => λ r U', U' = U ∧ stat_ok r
  | Fstatat d nm flags => λ r U', U' = U ∧ stats U d nm flags r
  | Statx d nm flags _ => λ r U', U' = U ∧ stats U d nm flags r
  | Openat2 d path flags _ _ => λ r U', opens U d path flags r U'
  | OpenPath _ flags _ => λ r U', errs U r U' ∧ (Z.land flags O_CREAT = 0 → U' = U)
  | Mknodat d nm mode dev => λ r U', creates U d nm (node_type mode) dev r U'
  | Mkdirat d nm _ => λ r U', creates U d nm S_IFDIR 0 r U'
  | Symlinkat _ d nm => λ r U', creates U d nm S_IFLNK 0 r U'
  | Linkat d on d' nn _ => λ r U', plain on → plain nn → errs U r U' ∧
      (r = Ok tt → ∃ D D' e, dir_of d = Some D ∧ dir_of d' = Some D' ∧ at_ U D on = Some e ∧
         e_dir e = false ∧ at_ U D' nn = None ∧ U' = put D' nn e U)
  | Unlinkat d nm flags => λ r U', plain nm → errs U r U' ∧
      (r = Err ENOENT → ∀ D, dir_of d = Some D → at_ U D nm = None) ∧
      (r = Ok tt → ∃ D e, dir_of d = Some D ∧ at_ U D nm = Some e ∧
         e_dir e = negb (Z.land flags AT_REMOVEDIR =? 0) ∧ U' = del D nm U)
  | Renameat d on d' nn => λ r U', renames U d on d' nn (λ _ U1 U', U' = U1) r U'
  | Renameat2 d on d' nn flags => λ r U',
      if flags =? RENAME_WHITEOUT then renames U d on d' nn (whiteout_left U on) r U'
      else if flags =? RENAME_NOREPLACE then
        renames U d on d' nn (λ _ U1 U', U' = U1) r U' ∧
        (plain on → plain nn → r = Ok tt → ∀ D', dir_of d' = Some D' → at_ U D' nn = None)
      else if flags =? RENAME_EXCHANGE then
        plain on → plain nn → errs U r U' ∧
          (r = Ok tt → ∃ D D' e e', dir_of d = Some D ∧ dir_of d' = Some D' ∧ at_ U D on = Some e ∧
             at_ U D' nn = Some e' ∧ U' = put D' nn e (put D on e' U))
      else errs U r U'
  | Fsetxattr fd nm value _ => λ r U', sets_attr U (Some fd) nm value r U'
  | Lsetxattr _ nm value _ => λ r U', sets_attr U None nm value r U'
  | Lremovexattr _ nm => λ r U', sets_attr U None nm [] r U'
  | _ => λ _ U', U' = U
  end.

(** [Inv] is required before every call: it holds of the disk at any moment the
    program could be interrupted.  [Dv] is what is required where a loop runs
    out of fuel.  Nobody but the program changes the layers. *)
Definition DISK (Inv : Disk → Prop) (Dv : Prop) : policy := {|
  ghost := Disk; pol_pre U _ := Inv U; pol_post := disk_post; pol_diverge := Dv; pol_panic := False
|}.
End disk.

(** ** Entries *)

Lemma at_put U d nm e : at_ (put d nm e U) d nm = Some e.
Proof. apply lookup_insert_eq. Qed.
Lemma at_put_ne U d nm e d' nm' : (d, nm) ≠ (d', nm') → at_ (put d nm e U) d' nm' = at_ U d' nm'.
Proof. apply lookup_insert_ne. Qed.
Lemma at_del U d nm : at_ (del d nm U) d nm = None.
Proof. apply lookup_delete_eq. Qed.
Lemma at_del_ne U d nm d' nm' : (d, nm) ≠ (d', nm') → at_ (del d nm U) d' nm' = at_ U d' nm'.
Proof. apply lookup_delete_ne. Qed.
Lemma at_put_Some U d nm e d' nm' e' :
  at_ (put d nm e U) d' nm' = Some e' ↔ ((d, nm) = (d', nm') ∧ e = e') ∨ ((d, nm) ≠ (d', nm') ∧ at_ U d' nm' = Some e').
Proof. apply lookup_insert_Some. Qed.
Lemma at_del_Some U d nm d' nm' e :
  at_ (del d nm U) d' nm' = Some e ↔ (d, nm) ≠ (d', nm') ∧ at_ U d' nm' = Some e.
Proof. apply lookup_delete_Some. Qed.

Lemma moved_other U D on D' nn e d nm : (d, nm) ≠ (D, on) → (d, nm) ≠ (D', nn) →
  at_ (moved U D on D' nn e) d nm = at_ U d nm.
Proof. intros H1 H2. unfold moved. case_decide; [done|]. rewrite at_put_ne, at_del_ne; congruence. Qed.
Lemma moved_opaques U D on D' nn e : opaques (moved U D on D' nn e) = opaques U.
Proof. unfold moved. by case_decide. Qed.
(** Onto a free name. *)
Lemma moved_free U D on D' nn e : at_ U D' nn = None → moved U D on D' nn e = put D' nn e (del D on U).
Proof. intros Hn. unfold moved. by rewrite Hn. Qed.

Section same_but.
Implicit Types (K : Z → bytes → Prop).
Lemma same_but_refl K U : same_but K U U.
Proof. by split. Qed.
Lemma same_but_trans K U1 U2 U3 : same_but K U1 U2 → same_but K U2 U3 → same_but K U1 U3.
Proof.
  intros [E1 H1] [E2 H2]. split; [|intros d nm Hk; by rewrite H2, H1].
  intros d Hd. rewrite E2, E1 by done. done.
Qed.
Lemma same_but_mono K K' U U' : (∀ d nm, K d nm → K' d nm) → same_but K U U' → same_but K' U U'.
Proof.
  intros HK [E Hs]. split; [|intros d nm Hk; apply Hs; naive_solver].
  intros d Hd. apply E. intros Hall. apply Hd. auto.
Qed.
Lemma same_but_put K d nm e U : K d nm → same_but K U (put d nm e U).
Proof. intros Hk. split; [done|]. intros d' nm' Hk'. apply at_put_ne. by intros [= <- <-]. Qed.
Lemma same_but_del K d nm U : K d nm → same_but K U (del d nm U).
Proof. intros Hk. split; [done|]. intros d' nm' Hk'. apply at_del_ne. by intros [= <- <-]. Qed.
Lemma same_but_moved K D on D' nn e U : K D on → K D' nn → same_but K U (moved U D on D' nn e).
Proof.
  intros H1 H2. split; [by rewrite moved_opaques|]. intros d nm Hk. apply moved_other; intros [= -> ->]; done.
Qed.
Lemma same_but_at K U U' d nm : same_but K U U' → ¬ K d nm → at_ U' d nm = at_ U d nm.
Proof. by intros [_ Hs] ?; apply Hs. Qed.
End same_but.
#[export] Hint Resolve same_but_refl same_but_put same_but_del same_but_moved : ovl.

(** ** Walks *)

Lemma walk_app U d cs cs' : walk U d (cs ++ cs') = walk U d cs ≫= λ D, walk U D cs'.
Proof.
  revert d. induction cs as [|c cs IH]; intros d; [done|]. cbn.
  destruct (at_ U d c) as [e|]; [|done]. destruct (e_dir e); [apply IH|done].
Qed.

(** A walk only sees the directories. *)
Definition keeps_dirs (U U' : Disk) : Prop :=
  ∀ d nm e, at_ U d nm = Some e → e_dir e = true → at_ U' d nm = Some e.
Lemma walk_keeps U U' d cs D : keeps_dirs U U' → walk U d cs = Some D → walk U' d cs = Some D.
Proof.
  intros Hk. revert d. induction cs as [|c cs IH]; intros d; [done|]. cbn.
  destruct (at_ U d c) as [e|] eqn:He; [|done]. destruct (e_dir e) eqn:Hd; [|done].
  rewrite (Hk _ _ _ He Hd), Hd. apply IH.
Qed.
Lemma keeps_dirs_put U d nm e : at_ U d nm = None → keeps_dirs U (put d nm e U).
Proof. intros Hn d' nm' e' He _. apply at_put_Some. right. split; [congruence|done]. Qed.
Lemma keeps_dirs_del U d nm e : at_ U d nm = Some e → e_dir e = false → keeps_dirs U (del d nm U).
Proof. intros Hn He d' nm' e' He' Hd. apply at_del_Some. split; [congruence|done]. Qed.
Lemma keeps_dirs_refl U : keeps_dirs U U.
Proof. by intros ?. Qed.
Lemma keeps_dirs_trans U1 U2 U3 : keeps_dirs U1 U2 → keeps_dirs U2 U3 → keeps_dirs U1 U3.
Proof. intros H1 H2 d nm e He Hd. eauto. Qed.

(** A new identity is not that of a directory one walks to. *)
Lemma walk_not_new roots U i d cs D : d ∈ roots → new_id roots U i → walk U d cs = Some D → D ≠ i.
Proof.
  intros Hd (Hr & _ & Hi). assert (d ≠ i) as Hne by congruence. clear Hd. revert d Hne.
  induction cs as [|c cs IH]; intros d Hne; cbn; [congruence|].
  destruct (at_ U d c) as [e|] eqn:He; [|done]. destruct (e_dir e); [|done]. apply IH. by eapply Hi.
Qed.

(** ** Paths *)

Lemma comps_dot : comps (bs ".") = [].
Proof. reflexivity. Qed.
Lemma comps_plain nm : plain nm → comps nm = [nm].
Proof.
  intros (Hs & Hne & Hdot & _). unfold comps. rewrite split_on_none by done.
  by rewrite filter_cons_True by done.
Qed.
Lemma comps_child p nm : plain nm → comps (child_path p nm) = comps p ++ [nm].
Proof.
  intros Hp. pose proof Hp as (Hs & _). unfold child_path. case_bool_decide as Ed.
  - subst. rewrite comps_dot. by apply comps_plain.
  - unfold comps. rewrite split_on_app_any, filter_app. f_equal. by apply comps_plain.
Qed.

(** Where the parent of a child's path is cut off. *)
Lemma rsplit_child p nm : plain nm →
  rsplit_once SLASH (child_path p nm) = if bool_decide (p = bs ".") then None else Some (p, nm).
Proof.
  intros (Hs & _). unfold child_path. case_bool_decide.
  - by apply rsplit_once_None.
  - by apply rsplit_once_app.
Qed.

Lemma plain_wh nm : SLASH ∉ nm → plain (WH_PREFIX ++ nm).
Proof.
  intros Hs. split; [|done]. rewrite not_elem_of_app. split; [|done].
  apply (bool_decide_unpack _). exact I.
Qed.
Lemma plain_opaque : plain OPAQUE_WHITEOUT.
Proof. split_and!; try done. apply (bool_decide_unpack _). exact I. Qed.
Lemma plain_simple nm : plain nm → SLASH ∉ nm.
Proof. by intros []. Qed.
Lemma plain_print n : 0 <= n → plain (print_dec n).
Proof.
  intros Hn. split; [by apply print_dec_simple|]. split; [by apply print_dec_nonempty|].
  assert ("."%char ∉ print_dec n) as Hd by (by apply (print_radix_no_char 10)).
  split; intros E; rewrite E in Hd; apply Hd; left.
Qed.
#[export] Hint Resolve plain_wh plain_opaque plain_simple plain_print : ovl.

(** ** What a layer shows *)

(** The object a path leads to: [None] when its parent is no directory. *)
Definition resolve (U : Disk) (R : Z) (path : bytes) : option (option Ent) :=
  (λ x, at_ U x.1 x.2) <$> parent_dir U R path.

(** The layer with the root [R], as Merge.v looks at one. *)
Definition disk_view (U : Disk) (R : Z) : View := {|
  v_stat path := match resolve U R path with
                 | Some (Some e) => Ok (ent_stat e)
                 | _ => Err ENOENT
                 end;
  v_exists path := Ok (default false (is_Some_b <$> resolve U R path));
  v_list path := match walk U R (comps path) with
                 | Some D => Ok ((λ x : Z * bytes * Ent, {| rde_name := x.1.2; rde_ino := e_id x.2;
                                      rde_dtype := Z.shiftr (e_type x.2) 12 |}) <$>
                                 filter (λ x, x.1.1 = D) (map_to_list (entries U)))
                 | None => Err ENOENT
                 end;
  v_opaque path := match walk U R (comps path) with
                   | Some D => Ok (bool_decide (D ∈ opaques U) || is_Some_b (at_ U D OPAQUE_WHITEOUT))
                   | None => Err ENOENT
                   end
|}.

Lemma parent_dir_child U R p D nm : plain nm → walk U R (comps p) = Some D →
  parent_dir U R (child_path p nm) = Some (D, nm).
Proof.
  intros Hn Hw. unfold parent_dir. rewrite rsplit_child by done. case_bool_decide as Ep.
  - subst. rewrite comps_dot in Hw. injection Hw as ->. unfold child_path. by rewrite bool_decide_true.
  - by rewrite Hw.
Qed.
Lemma resolve_child U R p D nm : plain nm → walk U R (comps p) = Some D →
  resolve U R (child_path p nm) = Some (at_ U D nm).
Proof. intros Hn Hw. unfold resolve. by rewrite (parent_dir_child U R p D). Qed.
Lemma parent_dir_plain U R nm : plain nm → parent_dir U R nm = Some (R, nm).
Proof. intros (Hs & _). unfold parent_dir. by rewrite (proj2 (rsplit_once_None SLASH nm)). Qed.

Lemma wh_path_child p nm : wh_path p nm = child_path p (WH_PREFIX ++ nm).
Proof. unfold wh_path, child_path. case_bool_decide; [done|]. by rewrite <-app_assoc. Qed.

(** What the layer says about a name is what the directory does. *)
Lemma verdict_at_disk `{DevT} U R p D nm : plain nm → walk U R (comps p) = Some D →
  verdict_at (disk_view U R) p nm = verdict_in U D nm.
Proof.
  intros Hn Hw. unfold verdict_at, has_wh_file, verdict_in, wh_file_at. cbn [disk_view v_stat v_exists].
  rewrite wh_path_child, !(resolve_child U R p D) by eauto with ovl. simpl.
  by destruct (at_ U D nm) as [e|]; destruct (is_Some_b _).
Qed.

Lemma wh_prefix_name_plain nm : starts_with WH_PREFIX nm = false → wh_prefix_name nm = None.
Proof. unfold wh_prefix_name. by intros ->. Qed.

Section verdicts.
Context `{DevT}.

(** An entry that is a whiteout of its name. *)
Definition whites (e : Ent) : bool := is_chardev_whiteout (ent_stat e).
Lemma whites_new i : whites {| e_id := i; e_type := S_IFCHR; e_rdev := makedev 0 0 |} = true.
Proof.
  unfold whites, is_chardev_whiteout. cbn.
  by rewrite major_makedev, minor_makedev by (unfold is_u32; lia).
Qed.
Lemma whites_not_dir e : whites e = true → e_dir e = false.
Proof.
  unfold whites, is_chardev_whiteout, e_dir. cbn. intros Hw. zbool.
  destruct (e_type e =? S_IFDIR) eqn:E; [|done]. zbool. by rewrite E in H0.
Qed.

(** The directory hides the name in the layers below. *)
Definition whited U (D : Z) (nm : bytes) : Prop :=
  is_Some (at_ U D (WH_PREFIX ++ nm)) ∨ ∃ e, at_ U D nm = Some e ∧ whites e = true.
Lemma whited_verdict U D nm : starts_with WH_PREFIX nm = false → whited U D nm →
  verdict_in U D nm = Whites nm.
Proof.
  intros Hnm Hw. unfold verdict_in, wh_file_at. destruct (at_ U D (WH_PREFIX ++ nm)) eqn:Ew; [done|].
  unfold whited in Hw. rewrite Ew in Hw. destruct Hw as [[? [=]]|(e & He & Hc)]. cbn. unfold whites in Hc.
  by rewrite He, wh_prefix_name_plain, Hc by done.
Qed.

(** The directory shows an object with the name. *)
Lemma shown_verdict U D nm e : starts_with WH_PREFIX nm = false →
  at_ U D nm = Some e → whites e = false → at_ U D (WH_PREFIX ++ nm) = None →
  verdict_in U D nm = Shows (ent_stat e).
Proof.
  intros Hnm He Hc Hw. unfold verdict_in, wh_file_at. unfold whites in Hc.
  by rewrite Hw, He, wh_prefix_name_plain, Hc by done.
Qed.
Lemma absent_verdict U D nm : at_ U D nm = None → at_ U D (WH_PREFIX ++ nm) = None →
  verdict_in U D nm = Absent.
Proof. intros He Hw. unfold verdict_in, wh_file_at. by rewrite Hw, He. Qed.
End verdicts.

(** ** Objects that are the same but for what is in them *)

(** An object that is no directory. *)
Definition file_ent (e : Ent) : Prop :=
  e_type e ∈ [S_IFREG; S_IFLNK; S_IFCHR; S_IFBLK; S_IFIFO; S_IFSOCK].
(** Of the same type, and the same device. *)
Definition same_kind (e e' : Ent) : Prop :=
  e_type e' = e_type e ∧ (e_type e = S_IFCHR → e_rdev e' = e_rdev e).

Lemma file_ent_dir e : file_ent e → e_dir e = false.
Proof.
  intros Hf. apply Z.eqb_neq. intros E. unfold file_ent in Hf. rewrite E in Hf. revert Hf.
  apply (bool_decide_unpack (¬ _)). exact I.
Qed.
Lemma same_kind_whites `{DevT} e e' : file_ent e → same_kind e e' → whites e' = whites e.
Proof.
  intros Hf [Et Er]. unfold whites, is_chardev_whiteout. cbn. rewrite Et.
  unfold file_ent in Hf. rewrite !elem_of_cons, elem_of_nil in Hf.
  destruct Hf as [E|[E|[E|[E|[E|[E|[]]]]]]]; rewrite E in *; try reflexivity. by rewrite Er.
Qed.
