(* ===== verification/Effects.v ===== *)
(** * What the changing programs do to the directories

    The whiteouts, the removal of a node and the placing of a prepared object,
    verified under the policy [DISK] of Disk.v.  A rule says what the disk is
    after the program for each of its results, and [Inv] is what holds at every
    call in between: it is what an interrupted program leaves behind. *)

From S2P Require Import Prelude Libc Mapping Xattr ConfigData Sys Openat2 Node DataSource Whiteout.
From S2P Require Import Layer Copyup Provenance SafeCopy Overlay Merge Disk.
Local Open Scope Z_scope.

(** ** Programs that only read *)

Definition quiet_call (c : sys) : bool :=
  match c with
  | Openat2 _ _ flags _ _ | OpenPath _ flags _ => Z.land flags O_CREAT =? 0
  | Mknodat _ _ _ _ | Mkdirat _ _ _ | Symlinkat _ _ _ | Linkat _ _ _ _ _ | Unlinkat _ _ _
  | Renameat _ _ _ _ | Renameat2 _ _ _ _ _ => false
  | Fsetxattr _ nm _ _ | Lsetxattr _ nm _ _ | Lremovexattr _ nm => negb (opaque_name nm)
  | _ => true
  end.

(** Every call is one that changes no directory, the results satisfy [R], there
    is no panic, and no loop runs out of fuel unless [dv]. *)
Fixpoint quiet (dv : Prop) {A} (R : A → Prop) (p : prog A) : Prop :=
  match p with
  | Ret a => R a
  | Panic => False
  | NoFuel => dv
  | Call c k => quiet_call c = true ∧ ∀ r, quiet dv R (k r)
  end.

Lemma quiet_bind dv {A B} (p : prog A) (f : A → prog B) R R' :
  quiet dv R' p → (∀ a, R' a → quiet dv R (f a)) → quiet dv R (bind p f).
Proof. intros Hp Hf. induction p as [a| | |c k IH]; cbn in *; naive_solver. Qed.
Lemma quiet_mono (dv dv' : Prop) {A} (p : prog A) (R R' : A → Prop) :
  (dv → dv') → (∀ a, R a → R' a) → quiet dv R p → quiet dv' R' p.
Proof. intros Hd HR. induction p as [a| | |c k IH]; cbn; naive_solver. Qed.

(** The state is left alone, too. *)
Definition calm (dv : Prop) {S A} (m : SM S A) (s : S) : Prop := quiet dv (λ '(_, s'), s' = s) (m s).

Section calm.
Context (dv : Prop) {S : Type}.
Implicit Types (s : S).
Lemma calm_bind {A B} (m : SM S A) (k : A → SM S B) s :
  calm dv m s → (∀ a, calm dv (k a) s) → calm dv (sm_bind m k) s.
Proof. intros Hm Hk. eapply quiet_bind; [done|]. intros [a s'] ->. apply Hk. Qed.
Lemma calm_try {A B} (m : SM S (FsResult A)) (k : A → SM S (FsResult B)) s :
  calm dv m s → (∀ a, calm dv (k a) s) → calm dv (sm_try m k) s.
Proof. intros Hm Hk. apply calm_bind; [done|]. by intros [a|e]. Qed.
Lemma calm_call c s : quiet_call c = true → calm dv (sm_call c) s.
Proof. by split. Qed.
Lemma calm_ret {A} (a : A) s : calm dv (sm_ret a) s.
Proof. done. Qed.
Lemma calm_get s : calm dv sm_get s.
Proof. done. Qed.
Lemma calm_stateless {A} (m : SM unit A) s : calm False m tt → calm dv (stateless m) s.
Proof.
  intros Hm. apply (quiet_bind _ _ _ _ (λ _, True)); [by eapply quiet_mono; [| |apply Hm]|].
  by intros [a []] _.
Qed.
End calm.

Ltac calm1 :=
  lazymatch goal with
  | |- calm _ (sm_bind _ _) _ => apply calm_bind; [|intros ?]
  | |- calm _ (sm_try _ _) _ => apply calm_try; [|intros ?]
  | |- calm _ (sm_ret _) _ => apply calm_ret
  | |- calm _ sm_get _ => apply calm_get
  | |- calm True sm_nofuel _ => exact I
  | |- calm _ (sm_call _) _ => apply calm_call; try reflexivity
  | |- calm _ (match ?x with _ => _ end) _ => destruct x
  end; cbv beta iota zeta.
Ltac calms := repeat calm1.

(** A layer that is only read by its reads. *)
Class QuietSource (d : DataSource) : Prop := {
  q_file_exists path : calm False (file_exists d path) tt;
  q_statat path flags mask : calm False (statat d path flags mask) tt;
  q_fstat fd path mask : calm False (ds_fstat d fd path mask) tt;
  q_opendir path : calm False (opendir d path) tt;
  q_openat path flags mode : Z.land flags O_CREAT = 0 → calm False (openat d path flags mode) tt;
  q_listxattr path n : calm False (listxattr d path n) tt;
  q_getxattr path nm n : calm False (getxattr d path nm n) tt;
  q_readlinkat path : calm False (ds_readlinkat d path) tt;
  q_filehandle path : calm False (get_nfs_filehandle d path) tt
}.

Lemma land_valid_creat flags : Z.land (Z.land flags VALID_OPEN_FLAGS) O_CREAT = Z.land flags O_CREAT.
Proof. by rewrite <-Z.land_assoc. Qed.

Lemma calm_safe_openat dv {S} d path flags mode (s : S) :
  Z.land flags O_CREAT = 0 → calm dv (safe_openat d path flags mode) s.
Proof.
  intros Hf. unfold safe_openat, syscall_openat2. calms. cbn. by rewrite land_valid_creat, Hf.
Qed.
Lemma calm_open_parent dv {S} d path (s : S) : calm dv (open_parent_safe d path) s.
Proof. unfold open_parent_safe. calms. by apply calm_safe_openat. Qed.

#[export] Instance direct_quiet self : QuietSource (Direct.direct_source self).
Proof.
  assert (∀ path, calm False (Direct.parent_of self path) tt) as Hp.
  { intros path. unfold Direct.parent_of. calms. apply calm_open_parent. }
  split; intros; cbn [Direct.direct_source file_exists statat ds_fstat opendir openat listxattr getxattr
    ds_readlinkat get_nfs_filehandle];
    unfold Direct.direct_file_exists, Direct.direct_statat, Direct.direct_fstat, Direct.direct_opendir,
      Direct.direct_openat, Direct.direct_listxattr, Direct.direct_getxattr, Direct.direct_readlinkat,
      Direct.direct_get_nfs_filehandle, file_exists_at;
    calms; auto using calm_safe_openat.
Qed.

Lemma wh_ne nm : WH_PREFIX ++ nm ≠ nm.
Proof. intros E%(f_equal length). rewrite length_app in E. cbn in E. lia. Qed.

(** ** Rules *)

(** What holds at every call may be weakened. *)
Lemma wp_weaken `{DevT} dir_of roots (Inv Inv' : Disk → Prop) Dv {S A} (m : SM S A) s U
    (Q : A → S → Disk → Prop) : (∀ V, Inv V → Inv' V) →
  sm_wp (DISK dir_of roots Inv Dv) m s U Q → sm_wp (DISK dir_of roots Inv' Dv) m s U Q.
Proof.
  unfold sm_wp. intros HI. generalize (λ x : A * S, Q x.1 x.2). intros Q' Hm. revert U Hm.
  induction (m s) as [a| | |c k IH]; intros U; cbn; [done..|]. intros [Hpre Hk]. split; [by apply HI|].
  intros r U' Hr. apply IH, Hk, Hr.
Qed.

Section rules.
Context `{DevT} (dir_of : RawFd → option Z) (roots : gset Z) (Inv : Disk → Prop) (Dv : Prop).
Abbreviation DISK := (DISK dir_of roots Inv Dv).
Implicit Types (U : Disk).

Lemma quiet_post c U r U' : quiet_call c = true → disk_post dir_of roots U c r U' → U' = U.
Proof.
  destruct c; cbn; try done; intros Hq Hp; try (by destruct Hp);
    try (by apply Z.eqb_eq in Hq; apply Hp; rewrite Hq).
  - apply Z.eqb_eq in Hq. destruct Hp as [_ Hp]. by rewrite Hq in Hp; destruct Hp.
  - apply negb_true_iff in Hq. destruct Hp as [_ Hp]. by rewrite Hq in Hp.
  - apply negb_true_iff in Hq. destruct Hp as [_ Hp]. by rewrite Hq in Hp.
  - apply negb_true_iff in Hq. destruct Hp as [_ Hp]. by rewrite Hq in Hp.
Qed.

Lemma wp_quiet {A} (p : prog A) U R (Q : A → Disk → Prop) :
  quiet Dv R p → Inv U → (∀ a, R a → Q a U) → wp DISK p U Q.
Proof using.
  intros Hp HI HQ. induction p as [a| | |c k IH]; cbn in *; [auto|done|done|].
  destruct Hp as [Hc Hk]. split; [done|]. intros r U' Hr.
  apply quiet_post in Hr as ->; [|done]. by apply IH.
Qed.
Lemma wp_calm {S A} (m : SM S A) s U (Q : A → S → Disk → Prop) :
  calm Dv m s → Inv U → (∀ a, Q a s U) → sm_wp DISK m s U Q.
Proof using. intros Hm HI HQ. eapply wp_quiet; [done|done|]. intros [a s'] ->. apply HQ. Qed.
Lemma wp_source {S A} (m : SM unit A) (s : S) U (Q : A → S → Disk → Prop) :
  calm False m tt → Inv U → (∀ a, Q a s U) → sm_wp DISK (stateless m) s U Q.
Proof using. intros Hm. apply wp_calm. by apply calm_stateless. Qed.

(** A call. *)
Lemma wp_disk {S} c (s : S) U (Q : resp c → S → Disk → Prop) :
  Inv U → (∀ r U', disk_post dir_of roots U c r U' → Q r s U') → sm_wp DISK (sm_call c) s U Q.
Proof. by intros HI HQ; apply sm_wp_call. Qed.

(** Opening a directory that is there. *)
Lemma wp_open_dir {S} d R path D flags mode (s : S) U (Q : FsResult RawFd → S → Disk → Prop) :
  Inv U → dir_of d = Some R → walk U R (comps path) = Some D →
  Z.land flags O_CREAT = 0 → Z.land (Z.land flags VALID_OPEN_FLAGS) O_TMPFILE ≠ O_TMPFILE →
  (∀ fd, dir_of fd = Some D → Q (Ok fd) s U) → (∀ e, Q (Err e) s U) →
  sm_wp DISK (safe_openat d path flags mode) s U Q.
Proof.
  intros HI Hd Hw Hc Ht HOk HErr. unfold safe_openat, syscall_openat2. apply sm_wp_try, sm_wp_ret.
  destruct (cstr_bytes path) as [c|e] eqn:Ec; [|by apply HErr]. apply cstr_bytes_Ok in Ec as ->.
  apply wp_disk; [done|]. intros r U' [_ Hr]. rewrite land_valid_creat, Hc in Hr.
  destruct Hr as [-> Hr]. destruct r as [fd|e]; [|by apply HErr]. apply HOk. by eapply (Hr Ht fd R).
Qed.

(** The parent of a child's path. *)
Lemma wp_open_parent {S} d R p D nm (s : S) U
    (Q : FsResult (option RawFd * RawFd * bytes) → S → Disk → Prop) :
  Inv U → dir_of d = Some R → walk U R (comps p) = Some D → plain nm →
  (∀ g fd, dir_of fd = Some D → Q (Ok (g, fd, nm)) s U) → (∀ e, Q (Err e) s U) →
  sm_wp DISK (open_parent_safe_cstr d (child_path p nm)) s U Q.
Proof.
  intros HI Hd Hw Hn HOk HErr. unfold open_parent_safe_cstr, open_parent_safe.
  rewrite rsplit_child by done. apply sm_wp_try. case_bool_decide as Ep.
  - subst. rewrite comps_dot in Hw. injection Hw as ->. wps; [|by apply HErr].
    unfold child_path in *. rewrite bool_decide_true in * by done. by apply HOk.
  - apply sm_wp_try. eapply wp_open_dir; [done|done|done|reflexivity|by vm_compute|..].
    + intros fd Hfd. wps; [by apply HOk|by apply HErr].
    + intros e. by apply HErr.
Qed.

(** ** Whiteouts *)

(** A name in a directory, and its whiteout file. *)
Definition own (D : Z) (nm : bytes) : Z → bytes → Prop :=
  λ d n, d = D ∧ (n = nm ∨ n = WH_PREFIX ++ nm).

(** At most one new object, no directory. *)
Definition adds (K : Z → bytes → Prop) U U' : Prop :=
  U' = U ∨ ∃ d n e, K d n ∧ at_ U d n = None ∧ e_dir e = false ∧ U' = put d n e U.
(** Objects that are no directories are removed. *)
Definition removes (K : Z → bytes → Prop) U U' : Prop :=
  same_but K U U' ∧ keeps_dirs U U' ∧ ∀ d n e, at_ U' d n = Some e → at_ U d n = Some e.

Lemma adds_same_but K U U' : adds K U U' → same_but K U U'.
Proof using. intros [->|(d & n & e & HK & _ & _ & ->)]; eauto with ovl. Qed.
Lemma adds_keeps_dirs K U U' : adds K U U' → keeps_dirs U U'.
Proof using.
  intros [->|(d & n & e & _ & Hn & _ & ->)]; [apply keeps_dirs_refl|by apply keeps_dirs_put].
Qed.
Lemma removes_refl K U : removes K U U.
Proof using. split_and!; [apply same_but_refl|apply keeps_dirs_refl|done]. Qed.
Lemma removes_del (K : Z → bytes → Prop) U d n e :
  K d n → at_ U d n = Some e → e_dir e = false → removes K U (del d n U).
Proof using.
  intros HK He Hd. split_and!; [eauto with ovl|by eapply keeps_dirs_del|].
  intros d' n' e'. by rewrite at_del_Some; intros [_ ?].
Qed.
Lemma removes_trans K U1 U2 U3 : removes K U1 U2 → removes K U2 U3 → removes K U1 U3.
Proof using.
  intros (S1 & K1 & R1) (S2 & K2 & R2).
  split_and!; [by eapply same_but_trans|by eapply keeps_dirs_trans|eauto].
Qed.

(** The whiteout file of a name is no symbolic link. *)
Definition no_link U (D : Z) (nm : bytes) : Prop :=
  ∀ e, at_ U D (WH_PREFIX ++ nm) = Some e → e_type e ≠ S_IFLNK.

Lemma disk_create_wh_file pfd nm D (b : bool) U (Q : FsResult unit → bool → Disk → Prop) :
  Inv U → dir_of pfd = Some D → SLASH ∉ nm → no_link U D nm →
  (∀ U', adds (own D nm) U U' → is_Some (at_ U' D (WH_PREFIX ++ nm)) → at_ U' D nm = at_ U D nm →
     Q (Ok tt) b U') →
  (∀ e, Q (Err e) b U) →
  sm_wp DISK (create_wh_file pfd nm) b U Q.
Proof using.
  intros HI Hd Hn Hl HOk HErr. unfold create_wh_file, safe_openat, syscall_openat2.
  wps; [|by apply HErr]. apply wp_disk; [done|]. intros r U' [He Hr]. wps; [|by rewrite (He _ eq_refl)].
  rewrite land_valid_creat in Hr. destruct (Hr _ eq_refl) as [_ Hcase].
  destruct (Hcase D D (WH_PREFIX ++ nm) Hd (parent_dir_plain _ _ _ (plain_wh _ Hn)) (plain_wh _ Hn))
    as [(e & Hat & HU)|(Hat & i & Hi & ->)].
  - rewrite HU by (by apply Hl). apply HOk; [by left|by eexists|done].
  - apply HOk; [|by rewrite at_put|].
    + right. eexists _, _, _. split_and!; [|done| |done]; [by split; [|right]|done].
    + apply at_put_ne. by intros [_ E%wh_ne]%pair_eq.
Qed.

(** A stat that shows a whiteout, of an entry that is one. *)
Lemma whiteout_seen U dfd nm D st :
  stats dir_of U dfd nm AT_SYMLINK_NOFOLLOW (Ok st) → plain nm → dir_of dfd = Some D →
  is_chardev_whiteout st = true → ∃ e, at_ U D nm = Some e ∧ whites e = true.
Proof using.
  intros [_ Hst] Hn Hd Ew. destruct (Hst Hn ltac:(done) D Hd) as (e & Hat & Ht & Hrd). exists e. split; [done|].
  unfold whites, is_chardev_whiteout in *. cbn.
  apply andb_true_iff in Ew as [[E1 E2]%andb_true_iff E3]. rewrite Ht in E1. apply Z.eqb_eq in E1.
  by rewrite E1, <-Hrd, E2, E3 by done.
Qed.

(** [create_whiteout] hides the name or changes nothing; between, nothing is
    changed either. *)
Lemma disk_create_whiteout dirfd R pp nm D can_mknod (b : bool) U (Q : FsResult unit → bool → Disk → Prop) :
  Inv U → dir_of dirfd = Some R → walk U R (comps pp) = Some D → plain nm → no_link U D nm →
  (∀ b' U', adds (own D nm) U U' → whited U' D nm →
     (is_Some (at_ U D nm) → at_ U' D nm = at_ U D nm) → Q (Ok tt) b' U') →
  (∀ b' e, Q (Err e) b' U) →
  sm_wp DISK (create_whiteout dirfd pp nm can_mknod) b U Q.
Proof using.
  intros HI Hd Hw Hn Hl HOk HErr. unfold create_whiteout. apply sm_wp_try.
  assert (∀ pfd b', dir_of pfd = Some D → sm_wp DISK (create_wh_file pfd nm) b' U Q) as Hfile.
  { intros pfd b' Hp. eapply disk_create_wh_file; eauto with ovl.
    intros U' Ha Hs Hat. apply HOk; [done|by left|done]. }
  assert (∀ o, dir_of (default dirfd o) = Some D →
    sm_wp DISK (let pfd := default dirfd o in
      if can_mknod then
        try! c_name := sm_ret (cstr_bytes nm) in
        let! r := sm_call (Mknodat pfd c_name (Z.lor S_IFCHR MODE_700) (makedev 0 0)) in
        match r with
        | Ok _ => sm_ret (Ok tt)
        | Err e =>
            if e =? EEXIST then
              let! r := sm_call (Fstatat pfd c_name AT_SYMLINK_NOFOLLOW) in
              match r with
              | Ok st => sm_ret (if is_chardev_whiteout st then Ok tt else Err EEXIST)
              | Err _ => sm_ret (Err EEXIST)
              end
            else if (e =? EPERM) || (e =? ENOTSUP) then
              sm_modify (λ _, false) ;;; create_wh_file pfd nm
            else sm_ret (Err e)
        end
      else create_wh_file pfd nm) b U Q) as Hrest.
  { intros o Ho. cbv zeta. destruct can_mknod; [|by apply Hfile]. wps; [|by apply HErr].
    apply wp_disk; [done|]. intros r U' Hr. destruct (Hr Hn) as [He Hc]. wp_step.
    - destruct a. destruct (Hc eq_refl) as (D' & i & HD & Hat & Hi & ->). assert (D' = D) as -> by congruence.
      apply HOk; [|by right; eexists; rewrite at_put; split; [done|apply whites_new]|by rewrite Hat; intros []].
      right. eexists _, _, _. split_and!; [|done| |done]; [by split; [|left]|done].
    - rewrite (He _ eq_refl) in *. wps; try by apply Hfile.
      2: by apply HErr. apply wp_disk; [done|]. intros r' U'' [-> Hst]. wps; try by apply HErr.
      destruct (is_chardev_whiteout a) eqn:Ew; [|by apply HErr].
      apply HOk; [by left|right; by eapply whiteout_seen|done]. }
  case_bool_decide as Ep; cbn [negb].
  - apply sm_wp_ret, (Hrest None). subst. by rewrite comps_dot in Hw; simplify_eq/=.
  - apply sm_wp_try. eapply wp_open_dir; [done|done|done|reflexivity|by vm_compute|..].
    + intros fd Hfd. by apply sm_wp_ret, (Hrest (Some fd)).
    + intros e. apply HErr.
Qed.

(** [delete_whiteout] removes nothing but whiteouts of the name; on success
    there is no whiteout file of it. *)
Lemma disk_delete_whiteout upper_fd R dirfd pp nm D (b : bool) U (Q : FsResult unit → bool → Disk → Prop) :
  dir_of upper_fd = Some R → walk U R (comps pp) = Some D →
  (∀ d, dirfd = Some d → dir_of d = Some D) → plain nm →
  (∀ U', removes (own D nm) U U' →
     (∀ e, at_ U D nm = Some e → whites e = false → at_ U' D nm = Some e) → Inv U') →
  (∀ r U', removes (own D nm) U U' → (r = Ok tt → at_ U' D (WH_PREFIX ++ nm) = None) →
     (∀ e, at_ U D nm = Some e → whites e = false → at_ U' D nm = Some e) → Q r b U') →
  sm_wp DISK (delete_whiteout upper_fd dirfd pp nm) b U Q.
Proof using.
  intros Hu Hw Hd Hn HI HQ. pose proof (HI U (removes_refl _ _) (λ e He _, He)) as HIU.
  assert (∀ U', removes (own D nm) U U' →
    (∀ e, at_ U D nm = Some e → whites e = false → at_ U' D nm = Some e) →
    ∀ e, Q (Err e) b U') as HErr by (intros; by apply HQ).
  unfold delete_whiteout. apply sm_wp_try.
  assert (∀ o, dir_of (match dirfd with Some f => f | None => default upper_fd o end) = Some D →
    sm_wp DISK (let dfd := match dirfd with Some f => f | None => default upper_fd o end in
      let! can_mknod := sm_get in
      try! _ :=
        (if can_mknod : bool then
           try! c_name := sm_ret (cstr_bytes nm) in
           let! r := sm_call (Fstatat dfd c_name AT_SYMLINK_NOFOLLOW) in
           match r with
           | Ok st => if is_chardev_whiteout st then sm_call (Unlinkat dfd c_name 0) else sm_ret (Ok tt)
           | Err _ => sm_ret (Ok tt)
           end
         else sm_ret (Ok tt)) in
      try! c_wh := sm_ret (cstr_bytes (WH_PREFIX ++ nm)) in
      let! r := sm_call (Unlinkat dfd c_wh 0) in
      sm_ret (match r with
              | Ok _ => Ok tt
              | Err e => if e =? ENOENT then Ok tt else Err e
              end)) b U Q) as Hrest.
  { intros o. set (dfd := match dirfd with Some _ => _ | None => _ end). intros Ho. cbv zeta.
    assert (∀ U1, removes (own D nm) U U1 →
      (∀ e, at_ U D nm = Some e → whites e = false → at_ U1 D nm = Some e) →
      sm_wp DISK (try! c_wh := sm_ret (cstr_bytes (WH_PREFIX ++ nm)) in
        let! r := sm_call (Unlinkat dfd c_wh 0) in
        sm_ret (match r with
                | Ok _ => Ok tt
                | Err e => if e =? ENOENT then Ok tt else Err e
                end)) b U1 Q) as Htail.
    { intros U1 H1 Hk. wps; [|by apply HErr]. apply wp_disk; [by apply HI|]. intros r U' Hr.
      destruct (Hr (plain_wh _ (plain_simple _ Hn))) as (He & Hno & Hok). apply sm_wp_ret. destruct r as [[]|e].
      - destruct (Hok eq_refl) as (D' & e & HD & Hat & Hdir & ->).
        assert (D' = D) as -> by congruence. apply HQ.
        + eapply removes_trans; [done|]. eapply removes_del; [|done|done]. split; [done|by right].
        + intros _. apply at_del.
        + intros e' He' Hw'. rewrite at_del_ne; [by apply Hk|]. by intros [_ E%wh_ne]%pair_eq.
      - rewrite (He _ eq_refl). destruct (Z.eqb_spec e ENOENT) as [->|]; [|by apply HErr].
        apply HQ; [done| |done]. intros _. by apply Hno. }
    set (tail := sm_try (sm_ret (cstr_bytes (WH_PREFIX ++ nm))) _) in *. clearbody tail.
    wps; try (by apply HErr; [apply removes_refl|]); try (by apply Htail; [apply removes_refl|]).
    apply wp_disk; [done|]. intros r U' [-> Hst]. wps; try (by apply Htail; [apply removes_refl|]).
    apply wp_disk; [done|]. intros r' U' Hr. destruct (Hr Hn) as (He & _ & Hok). wps.
    - destruct a0. destruct (Hok eq_refl) as (D' & e & HD & Hat & Hdir & ->).
      assert (D' = D) as -> by congruence. apply Htail.
      + eapply removes_del; [|done|done]. split; [done|by left].
      + intros e' He' Hw'. exfalso. rewrite Hat in He'. injection He' as <-.
        destruct (whiteout_seen U dfd nm D a) as (e' & Hat' & Hw''); [done..|]. congruence.
    - rewrite (He _ eq_refl). apply HErr; [apply removes_refl|done]. }
  destruct dirfd as [d|]; cbn [bool_decide andb].
  - rewrite bool_decide_false by done. cbn [andb]. by apply sm_wp_ret, (Hrest None), Hd.
  - rewrite bool_decide_true by done. case_bool_decide as Ep; cbn [negb andb].
    + apply sm_wp_ret, (Hrest None). subst. by rewrite comps_dot in Hw; simplify_eq/=.
    + apply sm_wp_try. eapply wp_open_dir; [done|done|done|reflexivity|by vm_compute|..].
      * intros fd Hfd. by apply sm_wp_ret, (Hrest (Some fd)).
      * intros e. apply HErr; [apply removes_refl|done].
Qed.

(** ** Layers on the disk *)

(** A source whose [statat] tells what is in the directory. *)
Definition stat_of U (D : Z) (nm : bytes) (r : FsResult stat) : Prop :=
  stat_ok r ∧ ∀ st, r = Ok st → ∃ e, at_ U D nm = Some e ∧ file_type (st_mode st) = e_type e ∧
    (e_type e = S_IFCHR → st_rdev st = e_rdev e).
Class DiskSource (d : DataSource) : Prop := {
  ds_quiet :: QuietSource d;
  ds_statat U R p D nm mask (Q : FsResult stat → unit → Disk → Prop) :
    Inv U → dir_of (root_fd d) = Some R → walk U R (comps p) = Some D → plain nm →
    (∀ r, stat_of U D nm r → Q r tt U) →
    sm_wp DISK (statat d (child_path p nm) AT_SYMLINK_NOFOLLOW mask) tt U Q;
  ds_openat U path flags mode (Q : FsResult RawFd → unit → Disk → Prop) :
    Inv U → (∀ r V, opens dir_of roots U (root_fd d) path (Z.land flags VALID_OPEN_FLAGS) r V → Q r tt V) →
    sm_wp DISK (openat d path flags mode) tt U Q;
  ds_fstat_ok U fd path mask (Q : FsResult stat → unit → Disk → Prop) :
    Inv U → (∀ r, stat_ok r → Q r tt U) → sm_wp DISK (ds_fstat d fd path mask) tt U Q
}.

Lemma stats_stat_of U dfd D nm flags r :
  stats dir_of U dfd nm flags r → dir_of dfd = Some D → plain nm →
  Z.land flags AT_SYMLINK_NOFOLLOW ≠ 0 → stat_of U D nm r.
Proof using. intros [Ht Hst] Hd Hn Hf. split; [done|]. intros st ->. by apply (Hst Hn Hf). Qed.

#[export] Instance direct_disk self : DiskSource (Direct.direct_source self).
Proof using.
  split; [apply _| | |].
  2: { intros U path flags mode Q HI HQ. cbn [Direct.direct_source openat root_fd] in *.
       unfold Direct.direct_openat, safe_openat, syscall_openat2. wps.
       - apply wp_disk; [done|]. intros r V Hr. apply HQ. exact Hr.
       - apply HQ. split; [by intros ? _|]. by destruct (_ =? 0). }
  2: { intros U fd path mask Q HI HQ. cbn [Direct.direct_source ds_fstat]. unfold Direct.direct_fstat.
       wp_step. apply wp_disk; [done|]. intros r U' [-> [Ht _]]. wps; [by apply HQ| |by apply HQ].
       apply wp_disk; [done|]. intros r' U' [-> Ht']. by apply HQ. }
  intros U R p D nm mask Q HI Hd Hw Hn HQ.
  cbn [Direct.direct_source statat root_fd] in *.
  unfold Direct.direct_statat, Direct.parent_of, open_parent_safe. rewrite rsplit_child by done.
  assert (∀ e, Q (Err e) tt U) as HErr by (intros; by apply HQ).
  apply sm_wp_try, sm_wp_try.
  assert (∀ dfd, dir_of dfd = Some D →
    sm_wp DISK (try! c_name := sm_ret (cstr_bytes nm) in
      let! r := sm_call (Statx dfd c_name (Z.lor AT_STATX_DONT_SYNC AT_SYMLINK_NOFOLLOW) mask) in
      match r with
      | Ok stx => sm_ret (Ok stx)
      | Err e => if (e =? ENOSYS) || (e =? EINVAL) then sm_call (Fstatat dfd c_name AT_SYMLINK_NOFOLLOW)
                 else sm_ret (Err e)
      end) tt U Q) as Hrest.
  { intros dfd Hdfd. wps; [|by apply HErr]. apply wp_disk; [done|]. intros r U' [-> Hst].
    pose proof (stats_stat_of _ _ _ _ _ _ Hst Hdfd Hn ltac:(done)) as Hof.
    wps; [by apply HQ| |by apply HErr].
    apply wp_disk; [done|]. intros r' U' [-> Hst']. apply HQ. by eapply stats_stat_of. }
  case_bool_decide as Ep.
  - subst. rewrite comps_dot in Hw. injection Hw as ->. apply sm_wp_ret, sm_wp_ret. cbn [default].
    unfold child_path. rewrite bool_decide_true by done. by apply Hrest.
  - apply sm_wp_try. eapply wp_open_dir; [done|done|done|reflexivity|by vm_compute|..].
    + intros fd Hfd. apply sm_wp_ret, sm_wp_ret. by apply Hrest.
    + intros e. apply HErr.
Qed.

(** A rename to a free name. *)
Lemma rename_free d on d' nn D D' after r U U' :
  renames dir_of U d on d' nn after r U' → r = Ok tt → plain on → plain nn →
  dir_of d = Some D → dir_of d' = Some D' → at_ U D' nn = None →
  ∃ e, at_ U D on = Some e ∧ after D (put D' nn e (del D on U)) U'.
Proof using.
  intros Hr Hok Ho Hn HD HD' Hfree.
  destruct (Hr Ho Hn) as [_ Hr']. destruct (Hr' Hok) as (D1 & D2 & e & H1 & H2 & He & _ & Ha).
  assert (D1 = D) as -> by congruence. assert (D2 = D') as -> by congruence.
  exists e. rewrite moved_free in Ha by done. done.
Qed.

(** ** Hiding a node *)

Lemma disk_node_path id path s U (Q : bytes → OverlayInner → Disk → Prop) :
  compute_path (nodes s) id = Some path → Q path s U → sm_wp DISK (node_path id) s U Q.
Proof using. intros Hp HQ. unfold node_path. wps. by rewrite Hp. Qed.

Lemma wp_do_create_whiteout dirfd R pp nm D can_mknod s U (Q : FsResult unit → OverlayInner → Disk → Prop) :
  Inv U → dir_of dirfd = Some R → walk U R (comps pp) = Some D → plain nm → no_link U D nm →
  (∀ b U', adds (own D nm) U U' → whited U' D nm →
     (is_Some (at_ U D nm) → at_ U' D nm = at_ U D nm) → Q (Ok tt) (set_CAN_MKNOD b s) U') →
  (∀ b e, Q (Err e) (set_CAN_MKNOD b s) U) →
  sm_wp DISK (do_create_whiteout dirfd pp nm can_mknod) s U Q.
Proof using.
  intros HI Hd Hw Hn Hl HOk HErr. apply sm_wp_zoom. eapply disk_create_whiteout; eauto.
Qed.

(** The object [e] that was at the name is in the work directory; the name is
    whited out, if there is something below to hide, and free otherwise, with
    what there was of a whiteout file. *)
Definition hidden_away (s : OverlayInner) (n : OvlNode) (D W : Z) (newname : bytes) (e : Ent) U U' : Prop :=
  same_but (λ d x, own D (name n) d x ∨ (d = W ∧ x = newname)) U U' ∧
  at_ U' W newname = Some e ∧
  if needs_whiteout s n then whited U' D (name n)
  else at_ U' D (name n) = None ∧ at_ U' D (WH_PREFIX ++ name n) = at_ U D (WH_PREFIX ++ name n).

(** What the failed removal leaves: the disk as it was, or the name whited out
    by a file. *)
Definition hide_failed (D : Z) (nm : bytes) U U' : Prop :=
  adds (own D nm) U U' ∧ at_ U' D nm = at_ U D nm.

Lemma whited_put U D nm d x e : d ≠ D → whited U D nm → whited (put d x e U) D nm.
Proof using. intros Hne. unfold whited. by rewrite !at_put_ne by congruence. Qed.
Lemma whited_del_file U D nm e : at_ U D nm = Some e → whites e = false → whited U D nm →
  whited (del D nm U) D nm.
Proof using.
  intros He Hf [Hw|(e' & He' & Hw)]; [|congruence]. left. rewrite at_del_ne; [done|].
  intros [_ E]%pair_eq. symmetry in E. by apply wh_ne in E.
Qed.

Section hide.
Context (s : OverlayInner) (upper_fd : RawFd) (id pid : NodeId) (n : OvlNode) (pp newname : bytes).
Context (R D W : Z) (e : Ent) (U : Disk).
Context (Hn : nodes_get s id = Some n) (Hpar : parent n = Some pid).
Context (Hpath : compute_path (nodes s) id = Some (child_path pp (name n))).
Context (Hpp : compute_path (nodes s) pid = Some pp).
Context (Hupper : dir_of upper_fd = Some R) (Hwalk : walk U R (comps pp) = Some D).
Context (Hwork : dir_of (workdir_fd s) = Some W) (HDW : W ≠ D).
Context (Hname : plain (name n)) (Hnew : plain newname) (Hfree : at_ U W newname = None).
Context (He : at_ U D (name n) = Some e) (Hwhite : whites e = false) (Hlink : no_link U D (name n)).
Context (HI : Inv U).

Lemma hidden_move U1 : adds (own D (name n)) U U1 → at_ U1 D (name n) = Some e →
  (if needs_whiteout s n then whited U1 D (name n) else U1 = U) →
  hidden_away s n D W newname e U (put W newname e (del D (name n) U1)).
Proof using All.
  intros Ha Hat Hw. split_and!.
  - apply adds_same_but in Ha. eapply same_but_trans; [eapply same_but_mono; [|done]; by left|].
    eapply same_but_trans; [|apply same_but_put; by right]. apply same_but_del. left. split; [done|by left].
  - apply at_put.
  - destruct (needs_whiteout s n).
    + apply whited_put; [done|]. by eapply whited_del_file; [| |apply Hw].
    + rewrite !at_put_ne by congruence. split; [apply at_del|]. subst U1. apply at_del_ne.
      intros [_ E]%pair_eq. symmetry in E. by apply wh_ne in E.
Qed.

Lemma adds_work U1 : adds (own D (name n)) U U1 → at_ U1 W newname = None.
Proof using All.
  intros Ha%adds_same_but. rewrite (same_but_at _ _ _ _ _ Ha); [done|]. by intros [? _].
Qed.

(** The final rename, after the whiteout if there is one. *)
Lemma wp_hide_rename src b U1 (Q : FsResult unit → OverlayInner → Disk → Prop) :
  dir_of src = Some D → Inv U1 → adds (own D (name n)) U U1 → at_ U1 D (name n) = Some e →
  (if needs_whiteout s n then whited U1 D (name n) else U1 = U) →
  (∀ U', hidden_away s n D W newname e U U' → Q (Ok tt) (set_CAN_MKNOD b s) U') →
  (∀ err U', hide_failed D (name n) U U' → Q (Err err) (set_CAN_MKNOD b s) U') →
  sm_wp DISK (sm_call (Renameat src (name n) (workdir_fd s) newname)) (set_CAN_MKNOD b s) U1 Q.
Proof using All.
  intros Hsrc HI1 Ha Hat Hw HOk HErr. apply wp_disk; [done|]. intros [[]|err] U' Hr.
  - destruct (rename_free _ _ _ _ D W _ _ _ _ Hr) as (e1 & He1 & ->); eauto using adds_work.
    assert (e1 = e) as -> by congruence. apply HOk. by apply hidden_move.
  - destruct (Hr Hname Hnew) as [HE _]. rewrite (HE _ eq_refl). apply HErr. split; [done|congruence].
Qed.

Lemma wp_hide_move (Q : FsResult unit → OverlayInner → Disk → Prop) :
  (∀ U', adds (own D (name n)) U U' → whited U' D (name n) → at_ U' D (name n) = at_ U D (name n) → Inv U') →
  (∀ b U', hidden_away s n D W newname e U U' → Q (Ok tt) (set_CAN_MKNOD b s) U') →
  (∀ err b U', hide_failed D (name n) U U' → Q (Err err) (set_CAN_MKNOD b s) U') →
  sm_wp DISK (hide_move upper_fd id newname) s U Q.
Proof using All.
  intros HI' HOk HErr. assert (s = set_CAN_MKNOD (CAN_MKNOD s) s) as Es by (by destruct s).
  assert (∀ err, Q (Err err) s U) as HErr0.
  { intros err. rewrite Es. apply HErr. split; [by left|done]. }
  unfold hide_move. wp_step. eapply disk_node_path; [done|]. wp_step. wp_step. wp_step. wp_step.
  unfold node. rewrite Hn. cbn [ok_or]. wp_step.
  eapply wp_open_parent; [done..| |by intros; apply HErr0]. intros g src Hsrc. cbv beta iota.
  destruct (needs_whiteout s n) eqn:Enw.
  2: { rewrite Es. apply (wp_hide_rename src _ U); [done|done|by left|done|by rewrite Enw|auto..]. }
  wp_step.
  assert (sm_wp DISK
    (try! _ := match parent n with
               | Some pid => let! parent_path := node_path pid in
                             do_create_whiteout upper_fd parent_path (name n) (can_mknod s)
               | None => sm_ret (Ok tt)
               end in
     sm_call (Renameat src (name n) (workdir_fd s) newname)) s U Q) as Hfall.
  { wp_step. rewrite Hpar. wp_step. eapply disk_node_path; [done|]. cbv beta.
    eapply wp_do_create_whiteout; [done..| |].
    - intros b U1 Ha Hw Hat. assert (at_ U1 D (name n) = at_ U D (name n)) as Hat' by (by apply Hat).
      apply (wp_hide_rename src b U1); [done|by apply HI'|done|congruence|by rewrite Enw|auto..].
    - intros b err. apply HErr. split; [by left|done]. }
  revert Hfall. destruct (can_mknod s); intros Hfall; [|exact Hfall].
  wp_step. apply wp_disk; [done|]. intros [[]|err] U' Hr; cbn [is_ok]; wp_step.
  - wp_step. cbn [disk_post] in Hr. change (RENAME_WHITEOUT =? RENAME_WHITEOUT) with true in Hr. cbv iota in Hr.
    destruct (rename_free _ _ _ _ D W _ _ _ _ Hr) as (e1 & He1 & Ha); [done..|].
    assert (e1 = e) as -> by congruence. destruct Ha as [[E _]|(_ & i & Hi & ->)].
    { exfalso. apply (f_equal (λ V, at_ V W newname)) in E. by rewrite at_put, Hfree in E. }
    rewrite Es. apply HOk. split_and!.
    + eapply same_but_trans; [|apply same_but_put; left; split; [done|by left]].
      eapply same_but_trans; [|apply same_but_put; by right].
      apply same_but_del. left. split; [done|by left].
    + rewrite at_put_ne by congruence. apply at_put.
    + rewrite Enw. right. eexists. rewrite at_put. split; [done|apply whites_new].
  - destruct (Hr Hname Hnew) as [HE _]. by rewrite (HE _ eq_refl).
Qed.
End hide.
End rules.
