(* ===== verification/Visible.v ===== *)
(** * What an overlay of layers shows

    The reference semantics of the overlay, on the directories of a [Disk]: what
    a path leads to in the merged tree, by the rules of whiteouts, opaque
    directories and merged directories.  It mentions no code; the effects of
    the requests are stated by it. *)

From S2P Require Import Prelude Libc Xattr Sys Node DataSource Whiteout Layer Copyup Overlay Merge Disk Effects.
Local Open Scope Z_scope.

(** A path shows nothing, an object, or a directory merged from some directories
    of the layers, the upper ones first. *)
Inductive seen := SNone | SFile (e : Ent) | SDir (ds : list Z).

Definition opaque_at (U : Disk) (d : Z) : bool :=
  bool_decide (d ∈ opaques U) || is_Some_b (at_ U d OPAQUE_WHITEOUT).

Section visible.
Context `{DevT}.
Implicit Types (U V : Disk) (ds : list Z) (nm : bytes).

(** One directory says nothing about a name, hides it, or has an entry. *)
Definition entry_in U d nm : option (option Ent) :=
  match verdict_in U d nm with
  | Absent | Broken => None
  | Whites _ => Some None
  | Shows _ => Some (at_ U d nm)
  end.

(** The directories of a name that are merged: down to the first that is
    opaque, and to the first layer that has something else, or a whiteout. *)
Fixpoint dirs_below U ds nm : list Z :=
  match ds with
  | [] => []
  | d :: ds =>
      match entry_in U d nm with
      | None => dirs_below U ds nm
      | Some (Some e) =>
          if e_dir e then e_id e :: (if opaque_at U (e_id e) then [] else dirs_below U ds nm) else []
      | Some None => []
      end
  end.

(** A name of a merged directory: the first of its directories that says
    anything decides. *)
Fixpoint child U ds nm : seen :=
  match ds with
  | [] => SNone
  | d :: ds' =>
      match entry_in U d nm with
      | None => child U ds' nm
      | Some (Some e) => if e_dir e then SDir (dirs_below U ds nm) else SFile e
      | Some None => SNone
      end
  end.

(** A path from the merged directory [ds] on. *)
Fixpoint see U ds (cs : list bytes) : seen :=
  match cs with
  | [] => SDir ds
  | c :: cs' => match child U ds c, cs' with
                | SDir ds', _ => see U ds' cs'
                | x, [] => x
                | _, _ => SNone
                end
  end.

Lemma see_app U ds cs cs' :
  see U ds (cs ++ cs') = match see U ds cs, cs' with
                         | SDir ds', _ => see U ds' cs'
                         | x, [] => x
                         | _, _ => SNone
                         end.
Proof.
  revert ds. induction cs as [|c cs IH]; intros ds; [done|]. cbn.
  destruct (child U ds c) as [|e|ds']; [by destruct cs, cs'|by destruct cs, cs'|]. apply IH.
Qed.
Lemma see_snoc U ds cs c :
  see U ds (cs ++ [c]) = match see U ds cs with SDir ds' => child U ds' c | _ => SNone end.
Proof. rewrite see_app. destruct (see U ds cs); [done..|]. cbn. by destruct (child U _ c). Qed.
(** Below what is not there, and below an object that is no directory, there is
    nothing. *)
Lemma see_below U ds cs cs' : cs' ≠ [] → (∀ ds', see U ds cs ≠ SDir ds') → see U ds (cs ++ cs') = SNone.
Proof. intros Hne Hn. rewrite see_app. destruct (see U ds cs) eqn:E, cs'; naive_solver. Qed.

(** ** Names that are no whiteout files *)

Definition user_name (c : bytes) : Prop := starts_with WH_PREFIX c = false.
Lemma user_name_wh c c' : user_name c → c ≠ WH_PREFIX ++ c'.
Proof. by intros Hc ->. Qed.
Lemma wh_inj c c' : WH_PREFIX ++ c = WH_PREFIX ++ c' → c = c'.
Proof. apply app_inv_head. Qed.

Lemma entry_whited U d nm : user_name nm → whited U d nm → entry_in U d nm = Some None.
Proof. intros Hn Hw. unfold entry_in. by rewrite whited_verdict. Qed.
Lemma entry_shown U d nm e : user_name nm → at_ U d nm = Some e → whites e = false →
  at_ U d (WH_PREFIX ++ nm) = None → entry_in U d nm = Some (Some e).
Proof. intros Hn He Hw Hwh. unfold entry_in. by rewrite (shown_verdict U d nm e), He. Qed.
Lemma entry_absent U d nm : at_ U d nm = None → at_ U d (WH_PREFIX ++ nm) = None → entry_in U d nm = None.
Proof. intros He Hw. unfold entry_in. by rewrite absent_verdict. Qed.
Lemma entry_inv U d nm e : entry_in U d nm = Some (Some e) →
  at_ U d nm = Some e ∧ whites e = false ∧ at_ U d (WH_PREFIX ++ nm) = None.
Proof.
  unfold entry_in, verdict_in, wh_file_at, whites.
  destruct (at_ U d (WH_PREFIX ++ nm)); [done|]. destruct (at_ U d nm) as [x|]; [|done]. cbn.
  destruct (wh_prefix_name nm); [done|]. destruct (is_chardev_whiteout (ent_stat x)) eqn:E; [done|].
  by intros [= <-].
Qed.
Lemma entry_same U V d nm : at_ V d nm = at_ U d nm →
  at_ V d (WH_PREFIX ++ nm) = at_ U d (WH_PREFIX ++ nm) → entry_in V d nm = entry_in U d nm.
Proof. intros H1 H2. unfold entry_in, verdict_in, wh_file_at. by rewrite H1, H2. Qed.

(** ** Disks that differ elsewhere *)

Lemma dirs_below_same U V ds c : (∀ d, d ∈ ds → entry_in V d c = entry_in U d c) →
  (∀ x, x ∈ dirs_below U ds c → opaque_at V x = opaque_at U x) → dirs_below V ds c = dirs_below U ds c.
Proof.
  induction ds as [|d ds IH]; intros He Ho; [done|]. cbn in *. rewrite He by left.
  destruct (entry_in U d c) as [[e|]|]; [|done|apply IH; [intros; apply He; by right|done]].
  destruct (e_dir e); [|done]. rewrite Ho by left. destruct (opaque_at U (e_id e)); [done|]. f_equal.
  apply IH; [intros; apply He; by right|intros; apply Ho; by right].
Qed.
Lemma child_dirs U ds c ds' : child U ds c = SDir ds' → ds' = dirs_below U ds c.
Proof.
  induction ds as [|d ds IH]; [done|]. cbn. destruct (entry_in U d c) as [[e|]|]; [|done|done].
  destruct (e_dir e); [|done]. by intros [= <-].
Qed.
Lemma child_same U V ds c : (∀ d, d ∈ ds → entry_in V d c = entry_in U d c) →
  (∀ ds' x, child U ds c = SDir ds' → x ∈ ds' → opaque_at V x = opaque_at U x) → child V ds c = child U ds c.
Proof.
  induction ds as [|d ds IH]; intros He Ho; [done|].
  assert (∀ e, entry_in U d c = Some (Some e) → e_dir e = true →
    dirs_below V (d :: ds) c = dirs_below U (d :: ds) c) as Hd.
  { intros e E Ed. apply dirs_below_same; [done|]. intros x. apply Ho. cbn. by rewrite E, Ed. }
  cbn [child] in *. rewrite He by left. destruct (entry_in U d c) as [[e|]|]; [|done|].
  - destruct (e_dir e) eqn:Ed; [|done]. f_equal. by eapply Hd.
  - apply IH; [intros; apply He; by right|done].
Qed.

Lemma child_file U ds c e : child U ds c = SFile e → whites e = false ∧ e_dir e = false.
Proof.
  induction ds as [|d ds IH]; [done|]. cbn. destruct (entry_in U d c) as [[x|]|] eqn:Ex; [|done|apply IH].
  destruct (e_dir x) eqn:Ed; [done|]. intros [= <-]. by apply entry_inv in Ex as (_ & ? & _).
Qed.
(** A name that shows something has no whiteout file. *)
Lemma child_no_file U d ds c : user_name c → child U (d :: ds) c ≠ SNone → at_ U d (WH_PREFIX ++ c) = None.
Proof.
  intros Hc Hne. destruct (at_ U d (WH_PREFIX ++ c)) eqn:E; [|done]. destruct Hne. cbn.
  rewrite entry_whited; [done..|]. left. by rewrite E.
Qed.

(** ** The specification of the code's lookup

    Where the layers with the roots [Rs] have the directories [ds] at the path
    [p], the tree shows what the layer that [decides] shows. *)

Lemma verdict_entry U d nm :
  verdict_in U d nm = match entry_in U d nm with
                      | None => Absent
                      | Some (Some e) => Shows (ent_stat e)
                      | Some None => verdict_in U d nm
                      end ∧ (entry_in U d nm = Some None → ∃ w, verdict_in U d nm = Whites w).
Proof.
  unfold entry_in, verdict_in, wh_file_at. destruct (at_ U d (WH_PREFIX ++ nm)); cbn; [by split; [|eauto]|].
  destruct (at_ U d nm) as [e|]; [|done]. destruct (wh_prefix_name nm); [by split; [|eauto]|].
  destruct (is_chardev_whiteout _); by split; [|eauto].
Qed.
Lemma child_decides U Rs ds p nm : plain nm → Forall2 (λ R d, walk U R (comps p) = Some d) Rs ds →
  let vs := disk_view U <$> Rs in
  match child U ds nm with
  | SNone => (∀ j v, vs !! j = Some v → verdict_at v p nm = Absent) ∨ ∃ k w, decides vs 0 p nm k (Whites w)
  | SFile e => ∃ k, decides vs 0 p nm k (Shows (ent_stat e))
  | SDir ds' => ∃ k e, decides vs 0 p nm k (Shows (ent_stat e)) ∧ e_dir e = true ∧ head ds' = Some (e_id e)
  end.
Proof.
  intros Hn Hw vs. induction Hw as [|R d Rs ds HR Hw IH]; [by left|].
  assert (verdict_at (disk_view U R) p nm = verdict_in U d nm) as Hv by (by apply verdict_at_disk).
  destruct (verdict_entry U d nm) as [Hve Hwh].
  assert (∀ v, verdict_in U d nm = v → v ≠ Absent → decides vs 0 p nm 0 v) as H0.
  { intros v Hvv Hne. split_and!; [done|by left|by exists (disk_view U R); split; [|congruence]|intros j ? Hj; lia]. }
  assert (verdict_in U d nm = Absent → ∀ k v, decides (disk_view U <$> Rs) 0 p nm k v → decides vs 0 p nm (S k) v) as HS.
  { intros Ha k v (H1 & _ & H3 & H4). split_and!; [done|by left|done|].
    intros [|j] w Hj; cbn; [intros [= <-]; congruence|]. apply H4. lia. }
  cbn [child]. destruct (entry_in U d nm) as [[e|]|] eqn:Ee.
  - destruct (e_dir e) eqn:Ed; [|exists 0%nat; by apply H0]. exists 0%nat, e. split; [by apply H0|].
    split; [done|]. cbn. by rewrite Ee, Ed.
  - right. destruct Hwh as [w Hwh]; [done|]. exists 0%nat, w. by apply H0.
  - destruct (child U ds nm) as [|e|ds']; cbn zeta in IH.
    + destruct IH as [IH|(k & w & IH)]; [left|right; exists (S k), w; by apply HS].
      intros [|j] v; cbn; [intros [= <-]; congruence|apply IH].
    + destruct IH as [k IH]. exists (S k). by apply HS.
    + destruct IH as (k & e & IH & ?). exists (S k), e. split; [by apply HS|done].
Qed.

(** ** One directory of the tree *)

(** The path of [D], a directory of the upper layer, in the tree of the layers
    [ls]: [D] is on the top there and nowhere else in the tree, and the
    directory [W] is nowhere in it. *)
Record in_tree U (ls : list Z) (path : list bytes) (D W : Z) (lows : list Z) : Prop := {
  it_dir : see U ls path = SDir (D :: lows);
  it_only : ∀ cs ds, Forall user_name cs → see U ls cs = SDir ds → D ∈ ds → cs = path;
  it_once : D ∉ lows;
  it_work : ∀ cs ds, Forall user_name cs → see U ls cs = SDir ds → W ∉ ds;
  it_names : Forall user_name path
}.

(** A change of a name of [D] and of directories that are not in the tree. *)
Definition local_change U ls D nm (K : Z → bytes → Prop) : Prop :=
  ∀ cs ds d c, Forall user_name cs → see U ls cs = SDir ds → d ∈ ds → K d c → own D nm d c.

Lemma local_work U ls path D W lows nm :
  in_tree U ls path D W lows → local_change U ls D nm (λ d x, own D nm d x ∨ d = W).
Proof. intros [] cs ds d c Hu Hc Hd [?| ->]; [done|]. by destruct (it_work0 _ _ Hu Hc). Qed.

(** The directories of the tree are the roots and those of entries: not new. *)
Lemma dirs_below_id U ds c x : x ∈ dirs_below U ds c → ∃ d e, at_ U d c = Some e ∧ e_id e = x.
Proof.
  induction ds as [|d ds IH]; cbn; [by intros []%elem_of_nil|].
  destruct (entry_in U d c) as [[e|]|] eqn:Ee; [|by intros []%elem_of_nil|done].
  destruct (e_dir e); [|by intros []%elem_of_nil]. apply entry_inv in Ee as (He & _).
  intros [->|Hx]%elem_of_cons; [by exists d, e|]. destruct (opaque_at U (e_id e)); [by apply elem_of_nil in Hx|by apply IH].
Qed.
Lemma see_old roots U ls cs ds i : (∀ x, x ∈ ls → x ∈ roots) → new_id roots U i → see U ls cs = SDir ds → i ∉ ds.
Proof.
  intros Hls (Hr & _ & Hi). revert ds. induction cs as [|c cs IH] using rev_ind; intros ds.
  - intros [= <-] Hin. by apply Hr, Hls.
  - rewrite see_snoc. destruct (see U ls cs) as [| |ds']; [done..|]. intros ->%child_dirs Hin.
    apply dirs_below_id in Hin as (d & e & He & Ee). by destruct (Hi _ _ _ He).
Qed.
Lemma local_new roots U ls path D W lows nm : in_tree U ls path D W lows → (∀ x, x ∈ ls → x ∈ roots) →
  local_change U ls D nm (λ d x, own D nm d x ∨ d = W ∨ new_id roots U d).
Proof.
  intros [] Hls cs ds d c Hu Hc Hd [?|[-> |Hnew]]; [done|by destruct (it_work0 _ _ Hu Hc)|].
  by destruct (see_old roots U ls cs ds d Hls Hnew Hc).
Qed.

Section change.
Context (U V : Disk) (ls : list Z) (path : list bytes) (D W : Z) (lows : list Z) (nm : bytes).
Context (K : Z → bytes → Prop).
Context (Ht : in_tree U ls path D W lows) (Hnm : user_name nm).
Context (HK : local_change U ls D nm K) (Hs : same_but K U V).

Lemma opaque_same cs ds x : Forall user_name cs → see U ls cs = SDir ds → x ∈ ds → opaque_at V x = opaque_at U x.
Proof using HK Hs Hnm.
  intros Hu Hc Hx. unfold opaque_at. f_equal.
  - apply bool_decide_ext. apply (proj1 Hs). intros Hall.
    destruct (HK cs ds x [] Hu Hc Hx (Hall [])) as [_ [E|E]]; [|done].
    destruct (HK cs ds x (bs "/") Hu Hc Hx (Hall (bs "/"))) as [_ [E'|E']]; by rewrite <-E in E'.
  - f_equal. apply (same_but_at _ _ _ _ _ Hs). intros HKx.
    destruct (HK cs ds x _ Hu Hc Hx HKx) as [_ [E|E]].
    + by rewrite <-E in Hnm.
    + change OPAQUE_WHITEOUT with (WH_PREFIX ++ bs ".wh..opq") in E. apply wh_inj in E. by rewrite <-E in Hnm.
Qed.
Lemma child_unchanged cs ds c : Forall user_name cs → see U ls cs = SDir ds → user_name c →
  cs ++ [c] ≠ path ++ [nm] → child V ds c = child U ds c.
Proof using All.
  intros Hcs Hc Hu Hne. destruct Ht. apply child_same.
  - intros d Hd. assert (d = D → c = nm → False) as Hno.
    { intros -> ->. apply Hne. by rewrite (it_only0 _ _ Hcs Hc Hd). }
    apply entry_same; apply (same_but_at _ _ _ _ _ Hs); intros HKd; destruct (HK _ _ _ _ Hcs Hc Hd HKd) as [E1 [E2|E2]].
    + by apply Hno.
    + by apply (user_name_wh c nm).
    + by apply (user_name_wh nm c).
    + by apply wh_inj in E2; apply Hno.
  - intros ds' x Hcd. apply (opaque_same (cs ++ [c])); [by apply Forall_app; split; [|constructor]|]. by rewrite see_snoc, Hc.
Qed.

(** Everything that is not below the name is as it was; all of it is, if the
    name is. *)
Lemma see_unchanged cs : Forall user_name cs →
  ¬ (path ++ [nm]) `prefix_of` cs ∨ child V (D :: lows) nm = child U (D :: lows) nm → see V ls cs = see U ls cs.
Proof using All.
  induction cs as [|c cs IH] using rev_ind; intros Hu Hb; [done|].
  apply Forall_app in Hu as [Hu [Hc _]%Forall_cons]. rewrite !see_snoc, IH.
  - destruct (see U ls cs) as [| |ds] eqn:E; [done..|].
    destruct (decide (cs ++ [c] = path ++ [nm])) as [E'|]; [|by apply (child_unchanged cs)].
    destruct Hb as [Hb|Hb]; [destruct Hb; by rewrite E'|].
    apply app_inj_tail in E' as [-> ->]. destruct Ht. congruence.
  - done.
  - destruct Hb as [Hb|]; [left|by right]. intros [k ->]. apply Hb. exists (k ++ [c]). by rewrite app_assoc.
Qed.
Lemma not_above : ¬ (path ++ [nm]) `prefix_of` path.
Proof using Type. intros [k E%(f_equal length)]. rewrite !length_app in E. cbn in E. lia. Qed.
Lemma see_dir : see V ls path = SDir (D :: lows).
Proof using All.
  destruct Ht. rewrite see_unchanged; [done..|]. left. by apply not_above.
Qed.
Lemma see_name : see V ls (path ++ [nm]) = child V (D :: lows) nm.
Proof using All. by rewrite see_snoc, see_dir. Qed.
Lemma lows_same : (∀ ds' x, child U lows nm = SDir ds' → x ∈ ds' → opaque_at V x = opaque_at U x) →
  child V lows nm = child U lows nm.
Proof using All.
  intros Ho. destruct Ht. apply child_same; [|done]. intros d Hd.
  assert (d ∈ D :: lows) as Hd' by (by right).
  apply entry_same; apply (same_but_at _ _ _ _ _ Hs); intros HKd; destruct (HK _ _ _ _ it_names0 it_dir0 Hd' HKd) as [-> _]; done.
Qed.

(** The name, from what [D] says of it. *)
Lemma see_whited : whited V D nm → see V ls (path ++ [nm]) = SNone.
Proof using All. intros Hw. rewrite see_name. cbn. by rewrite entry_whited. Qed.
Lemma see_shown e : at_ V D nm = Some e → whites e = false → at_ V D (WH_PREFIX ++ nm) = None → e_dir e = false →
  see V ls (path ++ [nm]) = SFile e.
Proof using All. intros He Hw Hwh Hd. rewrite see_name. cbn. by rewrite (entry_shown V D nm e), Hd by done. Qed.
Lemma see_under k : at_ V D nm = None → at_ V D (WH_PREFIX ++ nm) = None → see V lows (nm :: k) = see U lows (nm :: k) →
  see V ls (path ++ nm :: k) = see U lows (nm :: k).
Proof using All.
  intros He Hwh Hl. rewrite see_app, see_dir, <-Hl. cbn. by rewrite entry_absent.
Qed.
Lemma see_absent : at_ V D nm = None → child U lows nm = SNone → see V ls (path ++ [nm]) = SNone.
Proof using All.
  intros He Hl. rewrite see_name. cbn [child]. destruct (at_ V D (WH_PREFIX ++ nm)) as [x|] eqn:Ex.
  - rewrite entry_whited; [done..|]. left. by rewrite Ex.
  - rewrite entry_absent by done. rewrite lows_same; [done|]. by rewrite Hl.
Qed.
(** A new object, a directory merged with what is below it unless it is
    opaque. *)
Definition new_seen (e : Ent) : seen :=
  if e_dir e then SDir (e_id e :: if opaque_at V (e_id e) then [] else dirs_below V lows nm) else SFile e.
Lemma see_new e : at_ V D nm = Some e → whites e = false → at_ V D (WH_PREFIX ++ nm) = None →
  see V ls (path ++ [nm]) = new_seen e.
Proof using All.
  intros He Hw Hwh. rewrite see_name. unfold new_seen. cbn. rewrite (entry_shown V D nm e) by done. by destruct (e_dir e).
Qed.
(** The same name, with the same object. *)
Lemma child_kept : at_ V D nm = at_ U D nm → at_ V D (WH_PREFIX ++ nm) = at_ U D (WH_PREFIX ++ nm) →
  child V (D :: lows) nm = child U (D :: lows) nm.
Proof using All.
  intros H1 H2. destruct Ht. apply child_same.
  - intros d [->|Hd]%elem_of_cons; [by apply entry_same|]. assert (d ∈ D :: lows) as Hd' by (by right).
    apply entry_same; apply (same_but_at _ _ _ _ _ Hs); intros HKd;
      destruct (HK _ _ _ _ it_names0 it_dir0 Hd' HKd) as [-> _]; done.
  - intros ds' x Hc. apply (opaque_same (path ++ [nm])); [by apply Forall_app; split; [|constructor]|]. by rewrite see_snoc, it_dir0.
Qed.
End change.

(** What directories lead to that have none of the changed ones is as it was. *)
Definition apart U (ls : list Z) (D W : Z) : Prop :=
  ∀ cs ds, Forall user_name cs → see U ls cs = SDir ds → (D ∉ ds) ∧ (W ∉ ds).
Lemma see_apart U V ls D W nm cs : apart U ls D W → same_but (λ d x, own D nm d x ∨ d = W) U V →
  Forall user_name cs → see V ls cs = see U ls cs.
Proof.
  intros Ha Hs. assert (∀ d x, d ≠ D → d ≠ W → at_ V d x = at_ U d x) as Hat.
  { intros d x H1 H2. apply (same_but_at _ _ _ _ _ Hs). by intros [[? _]|?]. }
  assert (∀ d, d ≠ D → d ≠ W → opaque_at V d = opaque_at U d) as Ho.
  { intros d H1 H2. unfold opaque_at. rewrite Hat by done. f_equal. apply bool_decide_ext, (proj1 Hs).
    intros Hall. by destruct (Hall []) as [[? _]|?]. }
  induction cs as [|c cs IH] using rev_ind; intros Hu; [done|].
  pose proof Hu as [Hu' _]%Forall_app. rewrite !see_snoc, IH by done.
  destruct (see U ls cs) as [| |ds] eqn:E; [done..|]. destruct (Ha _ _ Hu' E) as [HD HW]. apply child_same.
  - intros d Hd. apply entry_same; apply Hat; intros ->; done.
  - intros ds' x Hc Hx. destruct (Ha (cs ++ [c]) ds' Hu) as [HD' HW']; [by rewrite see_snoc, E|].
    apply Ho; intros ->; done.
Qed.

(** ** A name that is no directory *)
Section no_dir.
Context (U V : Disk) (ls : list Z) (path : list bytes) (D W : Z) (lows : list Z) (nm : bytes).
Context (K : Z → bytes → Prop).
Context (Ht : in_tree U ls path D W lows) (Hnm : user_name nm).
Context (HK : local_change U ls D nm K) (Hs : same_but K U V).
Context (HU : ∀ ds, child U (D :: lows) nm ≠ SDir ds) (HV : ∀ ds, child V (D :: lows) nm ≠ SDir ds).

(** The directories of the tree are the same, and each is where it was. *)
Lemma see_dirs cs ds : Forall user_name cs → see V ls cs = SDir ds ↔ see U ls cs = SDir ds.
Proof using All.
  intros Hu. destruct (decide ((path ++ [nm]) `prefix_of` cs)) as [[k ->]|Hn].
  - pose proof (see_name U V ls path D W lows nm K Ht Hnm HK Hs) as EV.
    assert (see U ls (path ++ [nm]) = child U (D :: lows) nm) as EU by (by rewrite see_snoc, (it_dir _ _ _ _ _ _ Ht)).
    destruct k as [|c k].
    + rewrite app_nil_r, EU, EV. split; intros E; [by destruct (HV ds)|by destruct (HU ds)].
    + rewrite !see_below; [done..| |done|]; [rewrite EU|rewrite EV]; done.
  - by rewrite (see_unchanged U V ls path D W lows nm K Ht Hnm HK Hs) by (done || by left).
Qed.
Lemma tree_stays path1 D1 lows1 : in_tree U ls path1 D1 W lows1 → in_tree V ls path1 D1 W lows1.
Proof using All.
  intros [Hd Honly Honce Hwork Hnames]. split; [by apply see_dirs| | | |done].
  - intros cs ds Hu Hc%see_dirs Hin; [by eapply Honly|done].
  - done.
  - intros cs ds Hu Hc%see_dirs; [by eapply Hwork|done].
Qed.
End no_dir.

(** ** An empty directory that covers nothing *)

(** The same, but the directories a path is merged from may be others. *)
Definition same_look (s s' : seen) : Prop :=
  match s, s' with SDir _, SDir _ => True | _, _ => s' = s end.
Definition looks U (ls : list Z) V : Prop :=
  ∀ cs, Forall user_name cs → same_look (see U ls cs) (see V ls cs).

Lemma same_look_refl s : same_look s s.
Proof. by destruct s. Qed.
Lemma looks_refl U ls : looks U ls U.
Proof. intros cs _. apply same_look_refl. Qed.
Lemma looks_trans U1 U2 U3 ls : looks U1 ls U2 → looks U2 ls U3 → looks U1 ls U3.
Proof.
  intros H1 H2 cs Hu. specialize (H1 cs Hu). specialize (H2 cs Hu).
  destruct (see U1 ls cs), (see U2 ls cs), (see U3 ls cs); cbn in *; congruence.
Qed.
Lemma looks_file U ls V cs e : looks U ls V → Forall user_name cs → see U ls cs = SFile e → see V ls cs = SFile e.
Proof. intros Hl Hu He. specialize (Hl cs Hu). rewrite He in Hl. done. Qed.
Lemma looks_dir U ls V cs ds : looks U ls V → Forall user_name cs → see U ls cs = SDir ds → ∃ ds', see V ls cs = SDir ds'.
Proof.
  intros Hl Hu He. specialize (Hl cs Hu). rewrite He in Hl. destruct (see V ls cs); cbn in Hl; eauto; done.
Qed.

Section empty_dir.
Context (roots : gset Z) (U V : Disk) (ls : list Z) (path : list bytes) (D W : Z) (lows : list Z) (nm : bytes).
Context (i : Z) (dd : list Z).
Context (Ht : in_tree U ls path D W lows) (Hnm : user_name nm) (Hroots : ∀ x, x ∈ ls → x ∈ roots).
Context (Hs : same_but (own D nm) U V) (Hat : at_ V D nm = Some {| e_id := i; e_type := S_IFDIR; e_rdev := 0 |}).
Context (Hwh : at_ V D (WH_PREFIX ++ nm) = None) (Hempty : ∀ x, at_ V i x = None) (Hclear : i ∉ opaques V).
Context (Hnew : new_id roots U i) (HiW : i ≠ W).
Context (Hnone : entry_in U D nm = None) (Hdd : child U lows nm = SDir dd).

Lemma own_local : local_change U ls D nm (own D nm).
Proof using Type. by intros cs ds d c _ _ _. Qed.
Lemma new_names : Forall user_name (path ++ [nm]).
Proof using Ht Hnm. apply Forall_app. destruct Ht. by split; [|constructor]. Qed.
Lemma see_over : see U ls (path ++ [nm]) = SDir dd.
Proof using Ht Hnone Hdd. rewrite see_snoc, (it_dir _ _ _ _ _ _ Ht). cbn. by rewrite Hnone. Qed.
Lemma entry_empty x : entry_in V i x = None.
Proof using Hempty. by apply entry_absent. Qed.
Lemma see_at_new : see V ls (path ++ [nm]) = SDir (i :: dd).
Proof using All.
  rewrite (see_name U V ls path D W lows nm (own D nm)) by (done || apply own_local).
  assert (∀ x, x ∈ dd → opaque_at V x = opaque_at U x) as Ho.
  { intros x Hx. by apply (opaque_same U V ls D nm (own D nm) Hnm own_local Hs (path ++ [nm]) dd x new_names see_over). }
  assert (dirs_below V lows nm = dd) as Hl.
  { rewrite (child_dirs _ _ _ _ Hdd). apply dirs_below_same.
    - intros d Hd. assert (d ≠ D) by (intros ->; by destruct Ht).
      apply entry_same; apply (same_but_at _ _ _ _ _ Hs); by intros [? _].
    - intros x Hx. apply Ho. by rewrite (child_dirs _ _ _ _ Hdd). }
  cbn. rewrite (entry_shown V D nm _ Hnm Hat) by done. cbn. unfold opaque_at.
  rewrite bool_decide_false by done. rewrite Hempty. cbn. by rewrite Hl.
Qed.

(** Only the list of directories at the new one is another. *)
Lemma see_new_dir cs : Forall user_name cs → see V ls cs = see U ls cs ∨ cs = path ++ [nm].
Proof using All.
  induction cs as [|c cs IH] using rev_ind; intros Hu; [by left|].
  apply Forall_app in Hu as [Hu [Hc _]%Forall_cons]. destruct (decide (cs ++ [c] = path ++ [nm])) as [|Hne]; [by right|left].
  rewrite !see_snoc. destruct (IH Hu) as [-> | ->].
  - destruct (see U ls cs) as [| |ds] eqn:E; [done..|].
    by apply (child_unchanged U V ls path D W lows nm (own D nm) Ht Hnm own_local Hs cs).
  - rewrite see_at_new, see_over. cbn. rewrite entry_empty.
    apply (child_unchanged U V ls path D W lows nm (own D nm) Ht Hnm own_local Hs (path ++ [nm]));
      [exact new_names|exact see_over|done|done].
Qed.
Lemma new_dir_looks : looks U ls V.
Proof using All.
  intros cs Hu. destruct (see_new_dir cs Hu) as [->| ->]; [apply same_look_refl|by rewrite see_at_new, see_over].
Qed.
(** The new directory is on top at its path. *)
Lemma new_dir_tree : in_tree V ls (path ++ [nm]) i W dd.
Proof using All.
  assert (∀ cs ds, see U ls cs = SDir ds → i ∉ ds) as Hi by (intros; by eapply see_old).
  assert (∀ cs ds, Forall user_name cs → see V ls cs = SDir ds →
    ds = i :: dd ∧ cs = path ++ [nm] ∨ see U ls cs = SDir ds) as HV.
  { intros cs ds Hu Hc. destruct (see_new_dir cs Hu) as [E| ->]; [right; congruence|left].
    by rewrite see_at_new in Hc; injection Hc as <-. }
  pose proof see_over as Ho. pose proof new_names as Hn. destruct Ht. split; [exact see_at_new| | | |exact Hn].
  - intros cs ds Hu Hc Hin. destruct (HV cs ds Hu Hc) as [[_ ?]|HU]; [done|by destruct (Hi cs ds)].
  - by apply (Hi _ _ Ho).
  - intros cs ds Hu Hc Hin. destruct (HV cs ds Hu Hc) as [[-> _]|HU]; [|by eapply it_work0].
    apply elem_of_cons in Hin as [?|Hin]; [done|]. by apply (it_work0 _ _ Hn Ho).
Qed.
(** The others are where they were. *)
Lemma new_dir_others path1 D1 lows1 : in_tree U ls path1 D1 W lows1 → path1 ≠ path ++ [nm] → in_tree V ls path1 D1 W lows1.
Proof using All.
  intros H1 Hne. pose proof see_over as Ho. pose proof new_names as Hn. pose proof new_dir_tree as Hi.
  destruct H1 as [Hd Honly Honce Hwork Hnames]. split.
  - by destruct (see_new_dir path1 Hnames) as [->|E].
  - intros cs ds Hu Hc Hin. destruct (see_new_dir cs Hu) as [E|E]; [rewrite E in Hc; by eapply Honly|].
    destruct Hne. rewrite E, see_at_new in Hc. injection Hc as <-. apply elem_of_cons in Hin as [->|Hin].
    + destruct (see_old roots U ls path1 (i :: lows1) i Hroots Hnew Hd). left.
    + by rewrite (Honly _ _ Hn Ho Hin).
  - done.
  - intros cs ds Hu Hc. by apply (it_work _ _ _ _ _ _ Hi cs ds).
  - done.
Qed.
Lemma new_dir_above : in_tree V ls path D W lows.
Proof using All.
  apply new_dir_others; [exact Ht|]. intros E%(f_equal length). rewrite length_app in E. cbn in E. lia.
Qed.
End empty_dir.

(** ** Comparing what is seen *)

(** The same, but a file may have been copied. *)
Definition same_seen (s s' : seen) : Prop :=
  match s, s' with SFile e, SFile e' => e = e' ∨ same_kind e e' | _, _ => s = s' end.
Definition as_before U (ls : list Z) V : Prop :=
  ∀ cs, Forall user_name cs → same_seen (see U ls cs) (see V ls cs).
(** The same, but below [p]. *)
Definition as_before_but (p : list bytes) U (ls : list Z) V : Prop :=
  ∀ cs, Forall user_name cs → ¬ p `prefix_of` cs → see V ls cs = see U ls cs.
(** The same, and nothing at [p]. *)
Definition all_but (p : list bytes) U (ls : list Z) V : Prop :=
  as_before_but p U ls V ∧ ∀ cs, p `prefix_of` cs → see V ls cs = SNone.

Lemma same_seen_refl s : same_seen s s.
Proof. destruct s; [done|by left|done]. Qed.
Lemma all_but_name p U ls V : as_before_but p U ls V → see V ls p = SNone → all_but p U ls V.
Proof.
  intros Hb Hn. split; [done|]. intros cs [k ->]. destruct k; [by rewrite app_nil_r|].
  apply see_below; [done|]. by rewrite Hn.
Qed.
Lemma as_before_file p U ls V e e' : as_before_but p U ls V → see U ls p = SFile e → see V ls p = SFile e' →
  same_kind e e' → as_before U ls V.
Proof.
  intros Hb HU HV Hk cs Hu. destruct (decide (p `prefix_of` cs)) as [[k ->]|Hn].
  - destruct k; [rewrite app_nil_r, HU, HV; by right|]. by rewrite !see_below by (done || congruence).
  - rewrite (Hb cs) by done. apply same_seen_refl.
Qed.

(** Both: a file may have been copied, and the directories of a path may be
    others. *)
Definition same_shown (s s' : seen) : Prop :=
  match s, s' with
  | SFile e, SFile e' => e = e' ∨ same_kind e e'
  | SDir _, SDir _ => True
  | _, _ => s' = s
  end.
Definition shows_same U (ls : list Z) V : Prop :=
  ∀ cs, Forall user_name cs → same_shown (see U ls cs) (see V ls cs).
Lemma looks_shows U ls V : looks U ls V → shows_same U ls V.
Proof.
  intros Hl cs Hu. specialize (Hl cs Hu). destruct (see U ls cs), (see V ls cs); cbn in *; try done.
  injection Hl as ->. by left.
Qed.
Lemma looks_before U V V' ls : looks U ls V → as_before V ls V' → shows_same U ls V'.
Proof.
  intros Hl Hb cs Hu. specialize (Hl cs Hu). specialize (Hb cs Hu).
  destruct (see U ls cs), (see V ls cs), (see V' ls cs); cbn in *; try done. by injection Hl as ->.
Qed.
(** The same, but nothing at [p] and below it. *)
Definition shows_but (p : list bytes) U (ls : list Z) V : Prop :=
  (∀ cs, Forall user_name cs → ¬ p `prefix_of` cs → same_look (see U ls cs) (see V ls cs)) ∧
  ∀ cs, p `prefix_of` cs → see V ls cs = SNone.
(** The same, but at [p] and below it what the directories [lows] show at
    [nm]. *)
Definition shows_under (p : list bytes) (nm : bytes) (lows : list Z) U (ls : list Z) V : Prop :=
  (∀ cs, Forall user_name cs → ¬ (p ++ [nm]) `prefix_of` cs → same_look (see U ls cs) (see V ls cs)) ∧
  ∀ k, Forall user_name k → see V ls (p ++ nm :: k) = see U lows (nm :: k).
Lemma looks_all_but p U V V' ls : looks U ls V → all_but p V ls V' → shows_but p U ls V'.
Proof. intros Hl [Hb Hn]. split; [|done]. intros cs Hu Hp. rewrite (Hb cs Hu Hp). by apply Hl. Qed.
End visible.
