(* ===== verification/CopyDisk.v ===== *)
(** * What the copy-up of one object does to the directories

    The copy-up of a file, symbolic link or special file under the policy
    [DISK]: the object is built in the work directory and moved in place by one
    rename, so at every call in between the upper layer has either what it had
    or the finished object, and an error leaves the upper layer alone. *)

From S2P Require Import Prelude Libc Mapping Xattr ConfigData Sys Openat2 Node Tree DataSource Whiteout.
From S2P Require Import Layer Copyup SafeCopy Overlay Merge Disk Effects Visible.
Local Open Scope Z_scope.

(** ** Copying data and attributes changes no directory *)
Section data.
Context {S : Type}.
Implicit Types (s : S).

Lemma calm_sendfile fuel sfd dfd size copied s : calm True (sendfile_loop fuel sfd dfd size copied) s.
Proof.
  revert copied s. induction fuel as [|fuel IH]; intros copied s; cbn [sendfile_loop]; calms; auto.
Qed.
Lemma calm_write fuel dfd buf s : calm True (write_loop fuel dfd buf) s.
Proof.
  revert buf s. induction fuel as [|fuel IH]; intros [|c buf] s; cbn [write_loop]; calms; auto.
Qed.
Lemma calm_read fuel sfd dfd s : calm True (read_loop fuel sfd dfd) s.
Proof.
  revert s. induction fuel as [|fuel IH]; intros s; cbn [read_loop]; calms; auto using calm_write.
Qed.
Lemma calm_copy_data fuel sfd dfd size s : calm True (copy_data fuel sfd dfd size) s.
Proof. unfold copy_data. calms; auto using calm_sendfile, calm_read. Qed.

Lemma internal_opaque nm : internal_xattr nm = false → opaque_name nm = false.
Proof.
  intros Hi. unfold opaque_name. apply bool_decide_false. intros Hin.
  repeat (apply elem_of_cons in Hin as [->|Hin]; [by vm_compute in Hi|]). by apply elem_of_nil in Hin.
Qed.
Lemma calm_copy_xattr_names sfd dfd names s : calm True (copy_xattr_names sfd dfd names) s.
Proof.
  revert s. induction names as [|nm names IH]; intros s; cbn [copy_xattr_names]; [done|].
  destruct (internal_xattr nm) eqn:Ei; [done|]. calms; auto.
  cbn. by rewrite (internal_opaque _ Ei).
Qed.
Lemma calm_copy_xattr sfd dfd s : calm True (copy_xattr sfd dfd) s.
Proof. unfold copy_xattr. calms; auto using calm_copy_xattr_names. Qed.
End data.

(** ** Paths after an update that keeps names and parents *)

Lemma path_parts_alter f a id0 : (∀ n, name (f n) = name n ∧ parent (f n) = parent n) →
  ∀ fuel id, path_parts fuel (arena_alter f id0 a) id = path_parts fuel a id.
Proof.
  intros Hf. assert (∀ id, (λ n, (name n, parent n)) <$> arena_get (arena_alter f id0 a) id =
    (λ n, (name n, parent n)) <$> arena_get a id) as Hget.
  { intros id. unfold arena_get, arena_alter. cbn. rewrite lookup_alter.
    case_decide; [subst|done]. destruct (arena_map a !! id) as [n|]; [|done]. cbn. by destruct (Hf n) as [-> ->]. }
  induction fuel as [|fuel IH]; intros id; cbn [path_parts]; specialize (Hget id);
    destruct (arena_get (arena_alter f id0 a) id) as [n|], (arena_get a id) as [n'|]; cbn in Hget; try done;
    injection Hget as En Ep; rewrite Ep; [done|].
  destruct (parent n') as [pid|]; [|done]. by rewrite IH, En.
Qed.
Lemma compute_path_alter f a id0 id : (∀ n, name (f n) = name n ∧ parent (f n) = parent n) →
  compute_path (arena_alter f id0 a) id = compute_path a id.
Proof.
  intros Hf. unfold compute_path. rewrite (path_parts_alter f a id0 Hf).
  assert (size (arena_map (arena_alter f id0 a)) = size (arena_map a)) as ->.
  { unfold arena_alter. cbn. rewrite <-!size_dom, dom_alter_L. done. }
  unfold arena_get, arena_alter. cbn. rewrite lookup_alter. case_decide; [subst|done].
  destruct (arena_map a !! id) as [n|]; [|done]. cbn. by destruct (Hf n) as [_ ->].
Qed.

(** ** The three kinds *)
Lemma basename_child pp nm : plain nm → basename (child_path pp nm) = nm.
Proof.
  intros Hn. unfold basename. rewrite rsplit_child by done. unfold child_path. by case_bool_decide.
Qed.

Section copies.
Context `{DevT} (dir_of : RawFd → option Z) (roots : gset Z) (Inv : Disk → Prop) (copy_fuel : nat).
Abbreviation DISK := (DISK dir_of roots Inv True).
Implicit Types (s : CopyState) (U : Disk).

Context (workdir_fd upper_fd : RawFd) (R D W : Z) (U : Disk) (pp nm : bytes).
Context (Hwork : dir_of workdir_fd = Some W) (Hupper : dir_of upper_fd = Some R).
Context (Hwalk : walk U R (comps pp) = Some D) (HDW : W ≠ D) (Hnm : plain nm).

(** The disk as it was, or with something left in the work directory. *)
Definition leftover (U' : Disk) : Prop :=
  U' = U ∨ ∃ wd e, at_ U W wd = None ∧ U' = put W wd e U.
(** The object [e] in its place, with the whiteout file or without. *)
Definition placed (e : Ent) (U' : Disk) : Prop :=
  new_id roots U (e_id e) ∧ e_dir e = false ∧
  (∀ x, at_ U D nm = Some x → e_dir x = false) ∧
  (U' = put D nm e U ∨
   (∃ x, at_ U D (WH_PREFIX ++ nm) = Some x ∧ e_dir x = false) ∧ U' = del D (WH_PREFIX ++ nm) (put D nm e U)).
Context (HI : ∀ U', leftover U' → Inv U').

Lemma leftover_refl : leftover U.
Proof using. by left. Qed.
Lemma walk_leftover U' : leftover U' → walk U' R (comps pp) = Some D.
Proof using Hwalk.
  intros [->|(wd & e & Hn & ->)]; [done|]. eapply walk_keeps; [|done]. by apply keeps_dirs_put.
Qed.

(** Moving the finished object. *)
Lemma wp_move {S} wd e dfd (s : S) (Q : FsResult unit → S → Disk → Prop) :
  at_ U W wd = None → plain wd → dir_of dfd = Some D → new_id roots U (e_id e) → e_dir e = false →
  (∀ U', placed e U' → U' = put D nm e U → Q (Ok tt) s U') → (∀ err U', leftover U' → Q (Err err) s U') →
  sm_wp DISK (move_file workdir_fd wd dfd nm) s (put W wd e U) Q.
Proof using All.
  intros Hfree Hwd Hdfd Hnew Hdir HOk HErr. assert (leftover (put W wd e U)) as Hl by (right; eauto).
  unfold move_file. wp_step. apply wp_disk; [by apply HI|]. intros [[]|err] U' Hr.
  - destruct (Hr Hwd Hnm) as [_ Hr']. destruct (Hr' eq_refl) as (W' & D' & e' & HW' & HD' & He' & Hover & ->).
    assert (W' = W) as -> by congruence. assert (D' = D) as -> by congruence.
    rewrite at_put in He'. injection He' as <-. rewrite at_put_ne in Hover by congruence.
    assert (moved (put W wd e U) W wd D nm e = put D nm e U) as ->.
    { unfold moved. rewrite at_put_ne by congruence. rewrite decide_False.
      - unfold put, del. f_equal. cbn. by rewrite delete_insert_id.
      - destruct (at_ U D nm) as [x|] eqn:Ex; [|done]. intros [= Eid]. by destruct (proj2 (proj2 Hnew) _ _ _ Ex). }
    wp_step. apply HOk; [|done]. split_and!; [done|done| |by left]. intros x Hx. rewrite (Hover _ Hx). done.
  - destruct (Hr Hwd Hnm) as [HE _]. rewrite (HE _ eq_refl). wp_step. apply wp_disk; [by apply HI|].
    intros [[]|err'] U2 Hu; destruct (Hu Hwd) as (HE2 & _ & Hok); wp_step; apply HErr.
    + destruct (Hok eq_refl) as (W' & x & HW' & Hx & _ & ->). assert (W' = W) as -> by congruence.
      left. unfold put, del. destruct U. cbn. by rewrite delete_insert_id.
    + by rewrite (HE2 _ eq_refl).
Qed.

Lemma wp_next_name s V (Q : bytes → CopyState → Disk → Prop) :
  Q (print_dec (cs_wd_counter s)) (set_cs_wd_counter (wrap_u64 (cs_wd_counter s + 1)) s) V →
  sm_wp DISK next_wd_name s V Q.
Proof using. intros HQ. unfold next_wd_name. by wps. Qed.

(** From the finished object on. *)
Lemma wp_place {S} wd e (K : RawFd → bytes → SM S (FsResult unit)) (s : S)
    (Q : FsResult unit → S → Disk → Prop) :
  at_ U W wd = None → plain wd → new_id roots U (e_id e) → e_dir e = false →
  (∀ dst, dir_of dst = Some D → placed e (put D nm e U) → sm_wp DISK (K dst nm) s (put D nm e U) Q) →
  (∀ err U', leftover U' → Q (Err err) s U') →
  sm_wp DISK (try! (guard, dst_dirfd, c_dst_name) := open_parent_safe_cstr upper_fd (child_path pp nm) in
              try! _ := move_file workdir_fd wd dst_dirfd c_dst_name in
              K dst_dirfd c_dst_name) s (put W wd e U) Q.
Proof using All.
  intros Hfree Hwd Hnew Hdir HK HErr. assert (leftover (put W wd e U)) as Hl by (right; eauto).
  wp_step. eapply wp_open_parent; [by apply HI|done|by apply walk_leftover|done| |by intros; apply HErr].
  intros g dst Hdst. cbv beta iota. wp_step. apply wp_move; [done..| |by intros; apply HErr].
  intros U' Hp ->. by apply HK.
Qed.

(** What a copy-up of the node gives: its result, and the disk. *)
Definition copied (P : Ent → Prop) (id : NodeId) (s : CopyState) (r : FsResult unit) (s' : CopyState) (U' : Disk)
    : Prop :=
  match r with
  | Ok _ => (∃ e, P e ∧ placed e U') ∧ cs_nodes s' = arena_alter (set_layer_idx 0) id (cs_nodes s) ∧
            cs_wd_counter s' = wrap_u64 (cs_wd_counter s + 1)
  | Err _ => leftover U' ∧ cs_nodes s' = cs_nodes s
  end ∧ cs_can_mknod s' = cs_can_mknod s.

Section kinds.
Context (src : DataSource) `{!QuietSource src} (id : NodeId) (st : stat) (s : CopyState).
Context (Hcount : 0 <= cs_wd_counter s) (Hfree : at_ U W (print_dec (cs_wd_counter s)) = None).

Lemma wp_copyup_symlink (Q : FsResult unit → CopyState → Disk → Prop) :
  (∀ r s' U', copied (λ e, e_type e = S_IFLNK) id s r s' U' → Q r s' U') →
  sm_wp DISK (copyup_symlink workdir_fd src upper_fd id (child_path pp nm) st) s U Q.
Proof using All.
  intros HQ. assert (∀ c e U', leftover U' → Q (Err e) (set_cs_wd_counter c s) U') as HErr by (intros; by apply HQ).
  assert (∀ e, Q (Err e) s U) as HErr0 by (intros; apply HQ; split; [split; [apply leftover_refl|]|]; done).
  unfold copyup_symlink. wp_step. apply wp_source; [apply q_readlinkat|apply HI, leftover_refl|].
  intros [target|e]; [|by apply HErr0]. do 2 wp_step. wp_step; [|by apply HErr0].
  wp_step. apply wp_next_name. wp_step.
  apply wp_disk; [apply HI, leftover_refl|]. intros [[]|e] U1 Hr; destruct (Hr (plain_print _ Hcount)) as [HE Hc];
    cbv beta iota; [|rewrite (HE _ eq_refl); apply HErr, leftover_refl].
  destruct (Hc eq_refl) as (W' & i & HW' & Hat & Hi & ->). assert (W' = W) as -> by congruence.
  wp_step. apply wp_disk; [apply HI; right; eauto|]. intros r U2 ->.
  apply wp_place; [done|by apply plain_print|done|done| |by intros; apply HErr].
  intros dst Hdst Hp. wps. apply HQ. split; [|done]. split; [|done]. eexists. split; [|exact Hp]. done.
Qed.

Lemma wp_copyup_special (Q : FsResult unit → CopyState → Disk → Prop) :
  file_type (st_mode st) ≠ 0 → file_type (st_mode st) ≠ S_IFDIR →
  (∀ r s' U', copied (λ e, e_type e = file_type (st_mode st) ∧ e_rdev e = st_rdev st) id s r s' U' → Q r s' U') →
  sm_wp DISK (copyup_special workdir_fd src upper_fd id (child_path pp nm) st) s U Q.
Proof using All.
  intros Hty Hdir HQ. assert (∀ c e U', leftover U' → Q (Err e) (set_cs_wd_counter c s) U') as HErr by (intros; by apply HQ).
  unfold copyup_special. wp_step. apply wp_next_name. wp_step.
  apply wp_disk; [apply HI, leftover_refl|]. intros [[]|e] U1 Hr; destruct (Hr (plain_print _ Hcount)) as [HE Hc];
    cbv beta iota; [|rewrite (HE _ eq_refl); apply HErr, leftover_refl].
  destruct (Hc eq_refl) as (W' & i & HW' & Hat & Hi & ->). assert (W' = W) as -> by congruence.
  assert (leftover (put W (print_dec (cs_wd_counter s))
    {| e_id := i; e_type := node_type (st_mode st); e_rdev := st_rdev st |} U)) as Hl by (right; eauto).
  assert (node_type (st_mode st) = file_type (st_mode st)) as Et.
  { unfold node_type. by rewrite (proj2 (Z.eqb_neq _ _) Hty). }
  wp_step. apply wp_disk; [by apply HI|]. intros r U2 ->.
  wp_step. apply wp_calm; [by apply calm_safe_openat|by apply HI|]. intros wr.
  wp_step. apply wp_calm; [|by apply HI|].
  { destruct wr; [|done]. calms; [|by apply calm_copy_xattr].
    apply calm_stateless. by apply q_openat. }
  intros [].
  apply wp_place; [done|by apply plain_print|done| | |by intros; apply HErr].
  { unfold e_dir. cbn. rewrite Et. by apply Z.eqb_neq. }
  intros dst Hdst Hp. wps. apply HQ. split; [|done]. split; [|done]. eexists. split; [|exact Hp]. done.
Qed.

Lemma wp_copyup_regular (Q : FsResult unit → CopyState → Disk → Prop) :
  (∀ e U', e_type e = S_IFREG → placed e U' → Inv U') →
  (∀ r s' U', copied (λ e, e_type e = S_IFREG) id s r s' U' → Q r s' U') →
  sm_wp DISK (copyup_regular copy_fuel workdir_fd src upper_fd id (child_path pp nm) st) s U Q.
Proof using All.
  intros HI' HQ.
  assert (∀ c e U', leftover U' → Q (Err e) (set_cs_wd_counter c s) U') as HErr by (intros; by apply HQ).
  unfold copyup_regular. wp_step. apply wp_next_name. wp_step.
  apply wp_source; [by apply q_openat|apply HI, leftover_refl|].
  intros [sfd|e]; [|apply HErr, leftover_refl]. wp_step. unfold safe_openat, syscall_openat2. wp_step. wp_step.
  wp_step; [|apply HErr, leftover_refl].
  apply wp_disk; [apply HI, leftover_refl|]. intros [dfd|e] U1 [HE Ho]; [|rewrite (HE _ eq_refl); apply HErr, leftover_refl].
  rewrite land_valid_creat in Ho. destruct (Ho _ eq_refl) as [_ Hcase].
  destruct (Hcase W W _ Hwork (parent_dir_plain _ _ _ (plain_print _ Hcount)) (plain_print _ Hcount))
    as [(x & Hx & _)|(Hat & i & Hi & ->)]; [congruence|].
  set (U1 := put W _ _ U). assert (leftover U1) as Hl by (right; eauto).
  wp_step. apply wp_disk; [by apply HI|]. intros r U2 ->.
  wp_step. apply wp_calm; [by apply calm_copy_data|by apply HI|]. intros [[]|e]; [|by apply HErr].
  wp_step. apply wp_disk; [by apply HI|]. intros r1 U2 ->.
  wp_step. apply wp_calm; [by apply calm_copy_xattr|by apply HI|]. intros r2.
  wp_step. apply wp_disk; [by apply HI|]. intros r3 U2 ->.
  apply wp_place; [done|by apply plain_print|done|done| |by intros; apply HErr].
  intros dst Hdst Hp. rewrite basename_child by done. wp_step.
  assert (∀ U', placed {| e_id := i; e_type := S_IFREG; e_rdev := 0 |} U' →
    Q (Ok tt) (cs_alter (set_layer_idx 0) id (set_cs_wd_counter (wrap_u64 (cs_wd_counter s + 1)) s)) U') as HOk.
  { intros U' Hp'. apply HQ. split; [|done]. split; [|done]. eexists. split; [|exact Hp']. done. }
  wps; [|by apply HOk].
  apply wp_disk; [by eapply HI'; [|done]|]. intros [[]|e] U' Hr; destruct (Hr (plain_wh _ (plain_simple _ Hnm))) as (HE' & _ & Hok);
    wps; apply HOk; [|by rewrite (HE' _ eq_refl)].
  destruct (Hok eq_refl) as (D' & x & HD' & Hx & Hxd & ->). assert (D' = D) as -> by congruence.
  destruct Hp as (H1 & H2 & H3 & _). split_and!; [done..|]. right. split; [|done]. exists x. split; [|done].
  rewrite at_put_ne in Hx; [done|]. intros [_ E]%pair_eq. symmetry in E. by apply wh_ne in E.
Qed.
End kinds.
End copies.

(** ** The whole copy-up of a file whose directory is on the upper layer *)

Section copyup.
Context `{DevT} (dir_of : RawFd → option Z) (roots : gset Z) (Inv : Disk → Prop) (copy_fuel : nat).
Abbreviation DISK := (DISK dir_of roots Inv True).
Context (ls : list OvlLayer) (workdir_fd : RawFd) (R D W : Z) (U : Disk) (pp nm : bytes).
Context (u l : OvlLayer) (s : CopyState) (id pid : NodeId) (n pn : OvlNode) (el : Ent).
Context (Hhead : head ls = Some u) (Hlow : low u = false).
Context (Hwork : dir_of workdir_fd = Some W) (Hupper : dir_of (root_fd (ds u)) = Some R).
Context (Hwalk : walk U R (comps pp) = Some D) (HDW : W ≠ D) (Hnm : plain nm).
Context (Hn : arena_get (cs_nodes s) id = Some n) (Hpar : parent n = Some pid).
Context (Hpn : arena_get (cs_nodes s) pid = Some pn) (Hup : layer_idx pn = 0%nat).
Context (Hpath : compute_path (cs_nodes s) id = Some (child_path pp nm)).
Context (Hl : ls !! layer_idx n = Some l) (Hsrc : DiskSource dir_of roots Inv True (ds l)).
Context (Rl Dl : Z) (Hlower : dir_of (root_fd (ds l)) = Some Rl) (Hlwalk : walk U Rl (comps pp) = Some Dl).
Context (Hel : at_ U Dl nm = Some el) (Hfile : file_ent el).
Context (Hcount : 0 <= cs_wd_counter s) (Hfree : at_ U W (print_dec (cs_wd_counter s)) = None).
Context (HI : ∀ U', leftover W U U' → Inv U') 
  (HI' : ∀ e U', same_kind el e → placed roots D U nm e U' → Inv U').

Lemma wp_copyup_kind st (Q : FsResult unit → CopyState → Disk → Prop) :
  file_type (st_mode st) = e_type el → (e_type el = S_IFCHR → st_rdev st = e_rdev el) →
  (∀ r s' U', copied roots D W U nm (same_kind el) id s r s' U' → Q r s' U') →
  sm_wp DISK (copyup_kind copy_fuel ls workdir_fd (ds l) (root_fd (ds u)) id (child_path pp nm) st) s U Q.
Proof using Hwork Hupper Hwalk HDW Hnm Hsrc Hfile Hcount Hfree HI HI'.
  intros Hty Hrd HQ.
  pose proof (@ds_quiet _ dir_of roots Inv True _ Hsrc) as Hq.
  unfold copyup_kind. rewrite Hty.
  pose proof Hfile as Hf. unfold file_ent in Hf. rewrite !elem_of_cons, elem_of_nil in Hf.
  assert (∀ P r s' U', (∀ e, P e → same_kind el e) → copied roots D W U nm P id s r s' U' → Q r s' U') as HQ'.
  { intros P r s' U' HP Hc. apply HQ. destruct Hc as [Hr Hm]. split; [|done]. destruct r; [|done].
    destruct Hr as ((e & He & Hp) & Hs). split; [|done]. exists e. split; [by apply HP|done]. }
  destruct Hf as [E|[E|[E|[E|[E|[E|[]]]]]]]; rewrite E;
    repeat match goal with |- context [?a =? ?b] =>
      let v := eval vm_compute in (a =? b) in change (a =? b) with v end; cbn [orb].
  1: eapply wp_copyup_regular; try done;
       [intros e U' He; apply HI'|intros r s' U'; apply HQ'; intros e He]; split; by rewrite E.
  1: eapply wp_copyup_symlink; try done; intros r s' U'; apply HQ'; intros e He; split; by rewrite E.
  all: eapply wp_copyup_special; try done; try (by rewrite Hty, E); intros r s' U'; apply HQ'; intros e [He1 He2];
    (split; [by rewrite He1|]); by intros; rewrite He2, Hrd.
Qed.

(** Up to the copy-up of the directories, which is [K]. *)
Lemma wp_copyup_start (Q : FsResult unit → CopyState → Disk → Prop) :
  (∀ err, Q (Err err) s U) →
  (∀ st, file_type (st_mode st) = e_type el → (e_type el = S_IFCHR → st_rdev st = e_rdev el) →
     sm_wp DISK (try! _ := create_node_directory ls workdir_fd pid in
                 copyup_kind copy_fuel ls workdir_fd (ds l) (root_fd (ds u)) id (child_path pp nm) st) s U Q) →
  sm_wp DISK (copyup copy_fuel ls workdir_fd id) s U Q.
Proof using Hhead Hlow Hn Hpar Hpath Hl Hsrc Hlower Hlwalk Hel Hnm HI.
  intros HErr HK. assert (Inv U) as HIU by (apply HI; by left).
  unfold copyup. wp_step. wp_step. rewrite Hhead. cbn [ok_or]. rewrite Hlow. unfold cs_path, cs_node.
  do 3 wp_step. rewrite Hpath. cbn [sm_fuel]. do 3 wp_step. rewrite Hn. cbn [ok_or]. do 2 wp_step.
  rewrite Hl. cbn [ok_or]. wp_step. apply sm_wp_stateless.
  eapply (@ds_statat _ dir_of roots Inv True _ Hsrc); [exact HIU|done|done|done|]. intros [st|e] Hst; [|by apply HErr].
  destruct Hst as [_ Hst]. destruct (Hst st eq_refl) as (x & Hx & Hty & Hrd). assert (x = el) as -> by congruence.
  rewrite Hpar. by apply HK.
Qed.

End copyup.

Lemma placed_keeps roots D U nm e V : placed roots D U nm e V → at_ V D nm = Some e ∧ keeps_dirs U V.
Proof.
  intros (_ & _ & Hx & HV).
  assert (at_ (put D nm e U) D nm = Some e) as Hat by apply at_put.
  assert (keeps_dirs U (put D nm e U)) as Hk.
  { intros d x e' He' Hd. apply at_put_Some. right. split; [|done]. intros [= <- <-]. by rewrite (Hx _ He') in Hd. }
  assert ((D, nm) ≠ (D, WH_PREFIX ++ nm)) as Hdw by (intros [_ E]%pair_eq; symmetry in E; by apply wh_ne in E).
  destruct HV as [->|[(y & Hy & Hyd) ->]]; [done|]. split; [by rewrite at_del_ne|].
  eapply keeps_dirs_trans; [exact Hk|]. eapply keeps_dirs_del; [|done]. by rewrite at_put_ne by done.
Qed.

(** ** What is seen of a copy-up *)
Section seen.
Context `{DevT} (roots : gset Z) (D W : Z) (U : Disk) (nm : bytes) (el : Ent).
Context (tree : list Z) (path : list bytes) (lows : list Z).
Context (Ht : in_tree U tree path D W lows) (Hu : user_name nm) (HDW : W ≠ D).

Lemma leftover_same V cs : leftover W U V → Forall user_name cs → see V tree cs = see U tree cs.
Proof using Ht Hu HDW.
  intros Hl Hcs. assert (same_but (λ d x, own D nm d x ∨ d = W) U V) as Hs.
  { destruct Hl as [->|(wd & e & _ & ->)]; [apply same_but_refl|]. apply same_but_put. by right. }
  apply (see_unchanged U V tree path D W lows nm _ Ht Hu (local_work _ _ _ _ _ _ nm Ht) Hs); [done|].
  right. eapply child_kept; [done..|by eapply local_work|exact Hs| |];
    destruct Hl as [->|(wd & e & _ & ->)]; try done; apply at_put_ne; congruence.
Qed.
Lemma leftover_seen V : leftover W U V → as_before U tree V.
Proof using Ht Hu HDW. intros Hl cs Hcs. rewrite (leftover_same V) by done. apply same_seen_refl. Qed.

Context (Hshown : child U (D :: lows) nm = SFile el) (Hfile : file_ent el).
Lemma placed_seen e V : same_kind el e → placed roots D U nm e V → as_before U tree V.
Proof using All.
  intros Hk (_ & Hd & _ & HV). destruct (child_file _ _ _ _ Hshown) as [Hw _].
  assert (at_ U D (WH_PREFIX ++ nm) = None) as Hn by (eapply child_no_file; [done|]; by rewrite Hshown).
  assert (V = put D nm e U) as -> by (destruct HV as [->|[(x & Hx & _) _]]; [done|congruence]). clear HV.
  assert (same_but (λ d x, own D nm d x ∨ d = W) U (put D nm e U)) as Hs.
  { apply same_but_put. left. split; [done|by left]. }
  pose proof (local_work _ _ _ _ _ _ nm Ht) as HK.
  apply (as_before_file (path ++ [nm]) _ _ _ el e); [| | |done].
  - intros cs Hcs Hb. eapply see_unchanged; [done..|by left].
  - by rewrite see_snoc, (it_dir _ _ _ _ _ _ Ht).
  - eapply see_shown; [done..|apply at_put| | |done].
    + by rewrite (same_kind_whites el).
    + rewrite at_put_ne; [done|]. intros [_ E]%pair_eq. symmetry in E. by apply wh_ne in E.
Qed.
End seen.
