(* ===== verification/CopyDirs.v ===== *)
(** * What the copy-up of directories does

    [create_node_directory] of src/src/copyup.rs under the policy [DISK]: it
    makes the missing directories of a path on the upper layer, one by one from
    the top, each built in the work directory and renamed in place; and with it
    the copy-up of a node at any depth. *)

From S2P Require Import Prelude Libc Mapping Xattr ConfigData Sys Openat2 Node Tree DataSource Whiteout.
From S2P Require Import Layer Copyup SafeCopy Overlay Merge Disk Effects Visible CopyDisk.
Local Open Scope Z_scope.

Definition new_dir_ent (i : Z) : Ent := {| e_id := i; e_type := S_IFDIR; e_rdev := 0 |}.

(** Nothing is removed where there is no whiteout. *)
Lemma Disk_eq U V : opaques V = opaques U → (∀ d nm, at_ V d nm = at_ U d nm) → V = U.
Proof.
  intros Ho He. destruct U as [eU oU], V as [eV oV]. cbn in Ho. subst. f_equal.
  apply map_eq. intros [d nm]. apply He.
Qed.
Lemma removes_nothing `{DevT} D nm U V e : removes (own D nm) U V → at_ U D nm = Some e → whites e = false →
  (∀ x, at_ U D nm = Some x → whites x = false → at_ V D nm = Some x) → at_ U D (WH_PREFIX ++ nm) = None → V = U.
Proof.
  intros ((Ho & Hs) & _ & Hsub) He Hw Hk Hn. apply Disk_eq.
  - apply set_eq. intros d. apply Ho. intros Hall. destruct (Hall []) as [_ [E|E]]; [|done].
    destruct (Hall (bs "/")) as [_ [E'|E']]; by rewrite <-E in E'.
  - intros d x. destruct (decide (d = D)) as [->|Hd]; [|by apply Hs; intros [? _]].
    destruct (decide (x = nm)) as [->|Hx]; [rewrite He; by apply Hk|].
    destruct (decide (x = WH_PREFIX ++ nm)) as [->|Hx']; [|by apply Hs; intros [_ [?|?]]].
    rewrite Hn. destruct (at_ V D (WH_PREFIX ++ nm)) as [y|] eqn:Ey; [|reflexivity]. apply Hsub in Ey. congruence.
Qed.

Lemma put_put_free W wd e U : at_ U W wd = None → del W wd (put W wd e U) = U.
Proof. intros Hf. unfold put, del. destruct U. cbn. by rewrite delete_insert_id. Qed.

(** ** One directory *)
Section one.
Context `{DevT} (dir_of : RawFd → option Z) (roots : gset Z) (Inv : Disk → Prop).
Abbreviation DISK := (DISK dir_of roots Inv True).
Context (ls : list OvlLayer) (wfd : RawFd) (R D W : Z) (U : Disk) (pp nm : bytes).
Context (u l : OvlLayer) (s : CopyState) (id pid : NodeId) (n : OvlNode).
Context (Hhead : head ls = Some u) (Hwork : dir_of wfd = Some W) (Hupper : dir_of (root_fd (ds u)) = Some R).
Context (Hwalk : walk U R (comps pp) = Some D) (HDW : W ≠ D) (Hnm : plain nm).
Context (Hn : arena_get (cs_nodes s) id = Some n) (Hname : name n = nm) (Hpar : parent n = Some pid).
Context (Hpath : compute_path (cs_nodes s) id = Some (child_path pp nm)) (Hppath : compute_path (cs_nodes s) pid = Some pp).
Context (Hl : ls !! layer_idx n = Some l) (Hsrc : QuietSource (ds l)).
Context (Hcount : 0 <= cs_wd_counter s) (Hfree : at_ U W (print_dec (cs_wd_counter s)) = None).
Context (Hnone : at_ U D nm = None) (Hnowh : at_ U D (WH_PREFIX ++ nm) = None).
Context (HI : ∀ V, leftover W U V → Inv V) (HI' : ∀ i, new_id roots U i → Inv (put D nm (new_dir_ent i) U)).

(** Clearing the work directory after a failure. *)
Lemma wp_clear_work {S A} wd e (a : A) (s' : S) (Q : A → S → Disk → Prop) :
  at_ U W wd = None → plain wd → (∀ V, leftover W U V → Q a s' V) →
  sm_wp DISK (let! _ := sm_call (Unlinkat wfd wd AT_REMOVEDIR) in sm_ret a) s' (put W wd e U) Q.
Proof using Hwork HI.
  intros Hf Hwd HQ. assert (leftover W U (put W wd e U)) as Hlo by (right; eauto).
  wp_step. apply wp_disk; [by apply HI|]. intros [[]|err] V Hr; destruct (Hr Hwd) as (HE & _ & Hok); apply sm_wp_ret, HQ.
  - destruct (Hok eq_refl) as (W' & x & HW' & _ & _ & ->). assert (W' = W) as -> by congruence.
    left. by apply put_put_free.
  - by rewrite (HE _ eq_refl).
Qed.

Lemma disk_move_directory {S} wd e dst (s' : S) (Q : FsResult unit → S → Disk → Prop) :
  at_ U W wd = None → plain wd → dir_of dst = Some D →
  Q (Ok tt) s' (put D nm e U) → (∀ err V, leftover W U V → Q (Err err) s' V) →
  sm_wp DISK (move_directory wfd wd dst nm) s' (put W wd e U) Q.
Proof using Hwork HI HDW Hnm Hnone Hnowh Hfree.
  intros Hf Hwd Hdst HOk HErr. assert (leftover W U (put W wd e U)) as Hlo by (right; eauto).
  assert (at_ (put W wd e U) D nm = None) as Hat by (by rewrite at_put_ne by congruence).
  assert (∀ r V, renames dir_of (put W wd e U) wfd wd dst nm (λ _ U1 U', U' = U1) r V →
    (r = Ok tt → V = put D nm e U) ∧ ∀ err, r = Err err → V = put W wd e U) as Hren.
  { intros r V Hr. split; [|by intros err ->; destruct (Hr Hwd Hnm) as [HE _]; rewrite (HE _ eq_refl)].
    intros ->. destruct (rename_free _ _ _ _ _ W D _ _ _ _ Hr) as (x & Hx & ->); [done..|].
    rewrite at_put in Hx. injection Hx as <-. by rewrite put_put_free. }
  unfold move_directory. wp_step. apply wp_disk; [by apply HI|]. intros r V Hr. destruct (Hren r V Hr) as [Hok Herr].
  destruct r as [[]|err]; [rewrite (Hok eq_refl); by apply sm_wp_ret|]. rewrite (Herr _ eq_refl). clear Hok Herr Hr V.
  destruct (_ || _); [|destruct (err =? ENOTDIR); [|by apply wp_clear_work; [..|auto]]].
  - wp_step. apply wp_disk; [by apply HI|]. intros r V Hr. cbn [disk_post] in Hr.
    change (RENAME_EXCHANGE =? RENAME_WHITEOUT) with false in Hr. change (RENAME_EXCHANGE =? RENAME_NOREPLACE) with false in Hr.
    change (RENAME_EXCHANGE =? RENAME_EXCHANGE) with true in Hr. destruct (Hr Hwd Hnm) as [HE Hok].
    destruct r as [[]|err'].
    { destruct (Hok eq_refl) as (W' & D' & x & y & HW' & HD' & _ & Hy & _). assert (D' = D) as -> by congruence. congruence. }
    rewrite (HE _ eq_refl). apply wp_clear_work; auto.
  - wp_step. apply wp_disk; [by apply HI|]. intros r V Hr. destruct (Hr Hnm) as (HE & _ & Hok).
    assert (V = put W wd e U) as ->.
    { destruct r as [[]|err']; [|by rewrite (HE _ eq_refl)].
      destruct (Hok eq_refl) as (D' & y & HD' & Hy & _). assert (D' = D) as -> by congruence. congruence. }
    wp_step. apply wp_disk; [by apply HI|]. intros r' V Hr'. destruct (Hren r' V Hr') as [Hok' Herr'].
    destruct r' as [[]|err']; [rewrite (Hok' eq_refl); by apply sm_wp_ret|]. rewrite (Herr' _ eq_refl).
    apply wp_clear_work; auto.
Qed.

Lemma wp_create_one (Q : FsResult unit → CopyState → Disk → Prop) :
  (∀ err s' V, leftover W U V → cs_nodes s' = cs_nodes s → Q (Err err) s' V) →
  (∀ s' i, new_id roots U i → cs_nodes s' = arena_alter (set_layer_idx 0) id (cs_nodes s) →
     cs_wd_counter s' = wrap_u64 (cs_wd_counter s + 1) → cs_can_mknod s' = cs_can_mknod s →
     Q (Ok tt) s' (put D nm (new_dir_ent i) U)) →
  sm_wp DISK (create_one_directory ls wfd id) s U Q.
Proof using All.
  intros HErr HOk. assert (leftover W U U) as Hlo by (by left). pose proof (HI U Hlo) as HIU.
  unfold create_one_directory, cs_path at 1, cs_node. do 3 wp_step. rewrite Hpath. cbn [sm_fuel]. do 3 wp_step.
  rewrite Hn. cbn [ok_or]. do 2 wp_step. rewrite Hl. cbn [ok_or]. do 2 wp_step. rewrite Hhead. cbn [ok_or].
  wp_step. apply wp_source; [by apply q_openat|done|]. intros [sfd|e]; [|by apply HErr].
  wp_step. apply wp_disk; [done|]. intros [st|e] V [-> _]; [|by apply HErr].
  wp_step. apply wp_next_name. set (wd := print_dec (cs_wd_counter s)) in *. set (s1 := set_cs_wd_counter _ s).
  assert (plain wd) as Hwd by (by apply plain_print).
  wp_step. apply wp_disk; [done|]. intros [[]|e] V Hr; destruct (Hr Hwd) as [HE Hok]; cbv beta iota;
    [|rewrite (HE _ eq_refl); by apply HErr].
  destruct (Hok eq_refl) as (W' & i & HW' & _ & Hi & ->). assert (W' = W) as -> by congruence.
  change {| e_id := i; e_type := S_IFDIR; e_rdev := 0 |} with (new_dir_ent i).
  assert (leftover W U (put W wd (new_dir_ent i) U)) as Hl1 by (right; eauto). pose proof (HI _ Hl1) as HI1.
  wp_step. apply wp_calm; [by apply calm_safe_openat|done|]. intros [dfd|e]; [|by apply HErr].
  do 2 (wp_step; apply wp_disk; [done|]; intros r V ->; clear r).
  wp_step. apply wp_calm; [by apply calm_copy_xattr|done|]. intros r. clear r.
  wp_step. eapply wp_open_parent; [done|done|by eapply walk_leftover|done| |by intros; apply HErr].
  intros g dst Hdst. cbv beta iota. wp_step. apply disk_move_directory; [done..| |by intros; apply HErr].
  wp_step. wp_step. rewrite Hpar. unfold cs_path. do 3 wp_step.
  rewrite Hname. set (s2 := cs_alter (set_layer_idx 0) id s1).
  assert (compute_path (cs_nodes s2) pid = Some pp) as ->.
  { rewrite <-Hppath. by apply compute_path_alter. }
  cbn [sm_fuel]. wp_step. wp_step. unfold cs_delete_whiteout. apply sm_wp_zoom.
  assert (at_ (put D nm (new_dir_ent i) U) D nm = Some (new_dir_ent i)) as Hat by apply at_put.
  assert (at_ (put D nm (new_dir_ent i) U) D (WH_PREFIX ++ nm) = None) as Hno.
  { rewrite at_put_ne; [done|]. intros [_ E]%pair_eq. symmetry in E. by apply wh_ne in E. }
  assert (whites (new_dir_ent i) = false) as Hw.
  { destruct (whites (new_dir_ent i)) eqn:Ew; [|done]. by apply whites_not_dir in Ew. }
  eapply (disk_delete_whiteout dir_of roots Inv True _ R _ _ _ D); [done| |done|done| |].
  - eapply walk_keeps; [|exact Hwalk]. by apply keeps_dirs_put.
  - intros V Hrm Hk. rewrite (removes_nothing D nm _ _ _ Hrm Hat Hw Hk Hno). by apply HI'.
  - intros r V Hrm _ Hk. rewrite (removes_nothing D nm _ _ _ Hrm Hat Hw Hk Hno). apply sm_wp_ret. by apply HOk.
Qed.
End one.

(** ** The missing directories of a path *)
Section dirs.
Context `{DevT} (dir_of : RawFd → option Z) (roots : gset Z) (Inv : Disk → Prop).
Abbreviation DISK := (DISK dir_of roots Inv True).
Context (ls : list OvlLayer) (wfd : RawFd) (u : OvlLayer) (tree : list Z) (R W : Z).
Context (Hhead : head ls = Some u) (Hlow : low u = false).
Context (Hwork : dir_of wfd = Some W) (Hupper : dir_of (root_fd (ds u)) = Some R).
Context (HR : R ∈ roots) (HW : W ∈ roots) (Htree : ∀ x, x ∈ tree → x ∈ roots).
Implicit Types (s : CopyState) (U V : Disk).

(** The node of a directory, at the path [pp] in the tree.  It is on the upper
    layer, or it is not, and then its parent is such a node, too, and the upper
    layer has nothing at its name. *)
Inductive site s U : list NodeId → bytes → Prop :=
| site_up id pp n D lows :
    arena_get (cs_nodes s) id = Some n → layer_idx n = 0%nat → compute_path (cs_nodes s) id = Some pp →
    in_tree U tree (comps pp) D W lows → walk U R (comps pp) = Some D → site s U [id] pp
| site_low id pid ids pp n l dd :
    site s U (pid :: ids) pp → id ∉ pid :: ids →
    arena_get (cs_nodes s) id = Some n → parent n = Some pid → layer_idx n ≠ 0%nat →
    ls !! layer_idx n = Some l → QuietSource (ds l) →
    plain (name n) → user_name (name n) → compute_path (cs_nodes s) id = Some (child_path pp (name n)) →
    see U tree (comps pp ++ [name n]) = SDir dd →
    (∀ pn D lows, arena_get (cs_nodes s) pid = Some pn → layer_idx pn = 0%nat →
       in_tree U tree (comps pp) D W lows → at_ U D (name n) = None ∧ at_ U D (WH_PREFIX ++ name n) = None) →
    site s U (id :: pid :: ids) (child_path pp (name n)).

(** Nothing is lost, and nothing looks different. *)
Definition grown U V : Prop := looks U tree V ∧ ∀ d x e, at_ U d x = Some e → at_ V d x = Some e.
(** Some nodes are marked as being on the upper layer. *)
Definition touched (ids : list NodeId) s s' : Prop :=
  ∃ js, (∀ j, j ∈ js → j ∈ ids) ∧ cs_nodes s' = foldr (arena_alter (set_layer_idx 0)) (cs_nodes s) js.
(** A directory that was made: it is empty, and in the one above it. *)
Definition fresh V (D : Z) (path : list bytes) : Prop :=
  (∀ x, at_ V D x = None) ∧
  ∃ path0 nm D0 lows0, path = path0 ++ [nm] ∧ in_tree V tree path0 D0 W lows0 ∧ walk V R path0 = Some D0 ∧
    at_ V D0 nm = Some (new_dir_ent D) ∧ at_ V D0 (WH_PREFIX ++ nm) = None.
(** The directories of the upper layer are where they were in the tree. *)
Definition same_dirs U V : Prop :=
  ∀ path D lows, in_tree U tree path D W lows → walk U R path = Some D →
    in_tree V tree path D W lows ∧ walk V R path = Some D.
(** The directory is on the upper layer now. *)
Record raised s U (ids : list NodeId) (pp : bytes) s' V : Prop := {
  ra_node : ∃ id n, head ids = Some id ∧ arena_get (cs_nodes s') id = Some n ∧ layer_idx n = 0%nat;
  ra_dir : ∃ D lows, in_tree V tree (comps pp) D W lows ∧ walk V R (comps pp) = Some D ∧
    (V = U ∧ s' = s ∨ fresh V D (comps pp));
  ra_grown : grown U V;
  ra_dirs : same_dirs U V;
  ra_new : ∀ d x e, at_ V d x = Some e → at_ U d x = Some e ∨ user_name x ∧ e_dir e = true;
  ra_work : ∀ x, at_ V W x = at_ U W x;
  ra_touched : touched ids s s';
  ra_count : cs_wd_counter s <= cs_wd_counter s' <= cs_wd_counter s + Z.of_nat (length ids)
}.

Lemma grown_refl U : grown U U.
Proof using Type. split; [apply looks_refl|done]. Qed.
Lemma grown_trans U1 U2 U3 : grown U1 U2 → grown U2 U3 → grown U1 U3.
Proof using Type. intros [L1 K1] [L2 K2]. split; [by eapply looks_trans|auto]. Qed.
Lemma same_dirs_refl U : same_dirs U U.
Proof using Type. by intros path D lows. Qed.
Lemma same_dirs_trans U1 U2 U3 : same_dirs U1 U2 → same_dirs U2 U3 → same_dirs U1 U3.
Proof using Type. intros H1 H2 path D lows Ht Hw. destruct (H1 _ _ _ Ht Hw). by apply H2. Qed.
Lemma touched_refl ids s : touched ids s s.
Proof using Type. exists []. split; [by intros j []%elem_of_nil|done]. Qed.
Lemma touched_get ids s s' id : touched ids s s' → id ∉ ids → arena_get (cs_nodes s') id = arena_get (cs_nodes s) id.
Proof using Type.
  intros (js & Hj & ->) Hid. assert (id ∉ js) as Hn by auto. clear Hj. induction js as [|j js IH]; [done|].
  apply not_elem_of_cons in Hn as [Hne Hn]. rewrite <-IH by done. unfold arena_get, arena_alter. cbn.
  by rewrite lookup_alter_ne.
Qed.
Lemma touched_path ids s s' id : touched ids s s' → compute_path (cs_nodes s') id = compute_path (cs_nodes s) id.
Proof using Type.
  intros (js & _ & ->). induction js as [|j js IH]; [done|]. cbn. by rewrite compute_path_alter.
Qed.

(** The nodes are what they were, but for the layer. *)
Lemma touched_node ids s s' id n : touched ids s s' → arena_get (cs_nodes s) id = Some n →
  ∃ k, arena_get (cs_nodes s') id = Some (set_layer_idx k n) ∧ (k = 0%nat ∨ k = layer_idx n).
Proof using Type.
  intros (js & _ & ->) Hn. induction js as [|j js (k & IH & Hk)].
  { exists (layer_idx n). cbn. rewrite Hn. split; [by destruct n|by right]. }
  unfold arena_get, arena_alter in *. cbn. rewrite lookup_alter. case_decide; [subst|by exists k].
  exists 0%nat. rewrite IH. split; [done|by left].
Qed.
Lemma touched_key ids s s' id : touched ids s s' → contains_key (cs_nodes s') id = contains_key (cs_nodes s) id.
Proof using Type.
  intros (js & _ & ->). induction js as [|j js IH]; [done|]. rewrite <-IH. unfold contains_key, arena_alter. cbn.
  rewrite lookup_alter. case_decide; [subst|done]. by destruct (arena_map _ !! id).
Qed.

Lemma site_path s U ids pp : site s U ids pp → ∃ id, head ids = Some id ∧ compute_path (cs_nodes s) id = Some pp.
Proof using Type. destruct 1; eauto. Qed.
Lemma site_tree s U ids pp : site s U ids pp → ∃ path D lows, in_tree U tree path D W lows.
Proof using Type. induction 1; eauto. Qed.
Lemma leftover_grown U V path D lows nm : in_tree U tree path D W lows → user_name nm → W ≠ D →
  leftover W U V → grown U V.
Proof using Type.
  intros Ht Hu HDW Hl. split.
  - intros cs Hcs. rewrite (leftover_same D W U nm tree path lows Ht Hu HDW V cs Hl Hcs). apply same_look_refl.
  - destruct Hl as [->|(wd & x & Hf & ->)]; [done|]. intros d y e He. apply at_put_Some. right. split; [congruence|done].
Qed.
Lemma tree_apart U path D lows : in_tree U tree path D W lows → W ≠ D.
Proof using Type.
  intros Ht <-. apply (it_work _ _ _ _ _ _ Ht _ _ (it_names _ _ _ _ _ _ Ht) (it_dir _ _ _ _ _ _ Ht)). left.
Qed.

(** The next directory, once its parent [D] is there. *)
Lemma new_dir_there U pp nm D lows dd i :
  in_tree U tree (comps pp) D W lows → walk U R (comps pp) = Some D → plain nm → user_name nm →
  at_ U D nm = None → at_ U D (WH_PREFIX ++ nm) = None → see U tree (comps pp ++ [nm]) = SDir dd → new_id roots U i →
  let V := put D nm (new_dir_ent i) U in
  in_tree V tree (comps (child_path pp nm)) i W dd ∧ walk V R (comps (child_path pp nm)) = Some i ∧
  fresh V i (comps (child_path pp nm)) ∧ grown U V ∧ same_dirs U V ∧ ∀ x, at_ V W x = at_ U W x.
Proof using HR HW Htree.
  intros Ht Hw Hnm Hu Hn Hwh Hsee Hi V.
  assert (D ≠ i) as HDi by (by apply (walk_not_new roots U i R (comps pp) D)).
  assert (i ≠ W) as HiW by (by intros ->; destruct Hi).
  assert (entry_in U D nm = None) as Hent by (by apply entry_absent).
  assert (child U lows nm = SDir dd) as Hdd.
  { rewrite see_snoc, (it_dir _ _ _ _ _ _ Ht) in Hsee. cbn in Hsee. by rewrite Hent in Hsee. }
  assert (same_but (own D nm) U V) as Hs by (apply same_but_put; split; [done|by left]).
  assert (at_ V D (WH_PREFIX ++ nm) = None) as Hwh'.
  { unfold V. rewrite at_put_ne; [done|]. intros [_ E]%pair_eq. symmetry in E. by apply wh_ne in E. }
  assert (∀ x, at_ V i x = None) as Hempty.
  { intros x. unfold V. rewrite at_put_ne by congruence. destruct (at_ U i x) as [y|] eqn:Ey; [|done].
    destruct Hi as (_ & _ & Hi). by destruct (Hi _ _ _ Ey). }
  assert (i ∉ opaques V) as Hclear by apply Hi. assert (at_ V D nm = Some (new_dir_ent i)) as Hat by apply at_put.
  assert (walk V R (comps pp) = Some D) as HwV by (eapply walk_keeps; [by apply keeps_dirs_put|done]).
  rewrite comps_child by done. split_and!.
  - by apply (new_dir_tree roots U V tree (comps pp) D W lows nm i dd).
  - rewrite walk_app, HwV. cbn [mbind option_bind walk]. by rewrite Hat.
  - split; [done|]. exists (comps pp), nm, D, lows. split_and!; try done.
    by apply (new_dir_above roots U V tree (comps pp) D W lows nm i dd).
  - split; [by apply (new_dir_looks roots U V tree (comps pp) D W lows nm i dd)|].
    intros d x e He. apply at_put_Some. right. split; [congruence|done].
  - intros path1 D1 lows1 H1 Hw1. split; [|eapply walk_keeps; [by apply keeps_dirs_put|done]].
    apply (new_dir_others roots U V tree (comps pp) D W lows nm i dd); try done.
    intros ->. rewrite walk_app, Hw in Hw1. cbn in Hw1. by rewrite Hn in Hw1.
  - intros x. apply at_put_ne. intros [= E _]. by apply (tree_apart _ _ _ _ Ht).
Qed.

(** *** The recursion *)

(** The names in the work directory are free from the counter on, which does
    not wrap around. *)
Definition room s U (k : nat) : Prop :=
  0 <= cs_wd_counter s ∧ cs_wd_counter s + Z.of_nat k < 2 ^ 64 ∧
  ∀ c, cs_wd_counter s <= c → at_ U W (print_dec c) = None.

Lemma wrap_room s U k : room s U (S k) → wrap_u64 (cs_wd_counter s + 1) = cs_wd_counter s + 1.
Proof using Type. intros (? & ? & _). apply wrap_u64_id. unfold is_u64. lia. Qed.
Lemma raised_room s U ids pp s' V k : room s U (length ids + k) → raised s U ids pp s' V → room s' V k.
Proof using Type.
  intros (H0 & H1 & H2) []. split_and!; [lia|lia|]. intros c Hc. rewrite ra_work0. apply H2. lia.
Qed.
Lemma site_raised s U id pp n D lows : arena_get (cs_nodes s) id = Some n → layer_idx n = 0%nat →
  in_tree U tree (comps pp) D W lows → walk U R (comps pp) = Some D → raised s U [id] pp s U.
Proof using Type.
  intros Hn Hz Ht Hw. split; [eauto|exists D, lows; eauto|apply grown_refl|apply same_dirs_refl|by left|done|apply touched_refl|lia].
Qed.

(** A step from the parent to the directory. *)
Lemma wp_create_next s0 U0 s U ids pid id n l pp dd (Q : FsResult unit → CopyState → Disk → Prop) :
  raised s0 U0 (pid :: ids) pp s U → room s U 1 → id ∉ pid :: ids →
  arena_get (cs_nodes s0) id = Some n → parent n = Some pid → layer_idx n ≠ 0%nat →
  ls !! layer_idx n = Some l → QuietSource (ds l) → plain (name n) → user_name (name n) →
  compute_path (cs_nodes s0) id = Some (child_path pp (name n)) → compute_path (cs_nodes s0) pid = Some pp →
  see U0 tree (comps pp ++ [name n]) = SDir dd →
  (∀ D lows, in_tree U tree (comps pp) D W lows → at_ U D (name n) = None ∧ at_ U D (WH_PREFIX ++ name n) = None) →
  (∀ V, grown U0 V → Inv V) →
  (∀ err s' V, grown U0 V → Q (Err err) s' V) →
  (∀ s' V, raised s0 U0 (id :: pid :: ids) (child_path pp (name n)) s' V → Q (Ok tt) s' V) →
  sm_wp DISK (create_one_directory ls wfd id) s U Q.
Proof using All.
  intros Hra Hroom Hid Hn Hpar Hz Hl Hsrc Hnm Hu Hpath Hppath Hsee Hnone HI HErr HOk.
  pose proof Hra as [_ (D & lows & Ht & Hw & _) Hg Hsd Hne Hwk Htou Hcnt]. pose proof (wrap_room _ _ _ Hroom) as Hwrap.
  pose proof Hroom as (Hc0 & Hc1 & Hfree). destruct (Hnone D lows Ht) as [Hat Hwh].
  assert (Forall user_name (comps pp ++ [name n])) as Hnames.
  { apply Forall_app. split; [apply (it_names _ _ _ _ _ _ Ht)|by constructor]. }
  destruct (looks_dir U0 tree U _ dd (proj1 Hg) Hnames Hsee) as [dd' Hsee'].
  assert (∀ i, new_id roots U i → let V := put D (name n) (new_dir_ent i) U in
    in_tree V tree (comps (child_path pp (name n))) i W dd' ∧ walk V R (comps (child_path pp (name n))) = Some i ∧
    fresh V i (comps (child_path pp (name n))) ∧ grown U V ∧ same_dirs U V ∧ ∀ x, at_ V W x = at_ U W x) as Hthere by (intros i; by eapply new_dir_there).
  eapply (wp_create_one dir_of roots Inv ls wfd R D W U pp (name n) u l s id pid n); try done.
  - by eapply tree_apart.
  - by rewrite (touched_get _ _ _ _ Htou Hid).
  - by rewrite (touched_path _ _ _ _ Htou).
  - by rewrite (touched_path _ _ _ _ Htou).
  - apply Hfree. lia.
  - intros V Hlo. apply HI. eapply grown_trans; [exact Hg|]. eapply leftover_grown; [exact Ht|exact Hu|by eapply tree_apart|done].
  - intros i Hi. apply HI. eapply grown_trans; [exact Hg|]. apply (Hthere i Hi).
  - intros err s' V Hlo _. apply HErr. eapply grown_trans; [exact Hg|].
    eapply leftover_grown; [exact Ht|exact Hu|by eapply tree_apart|done].
  - intros s' i Hi Hns Hcs _. destruct (Hthere i Hi) as (Ht' & Hw' & Hemp & Hg' & Hsd' & Hwk'). apply HOk. split.
    + exists id, (set_layer_idx 0 n). split; [done|]. split; [|done].
      assert (arena_get (cs_nodes s) id = Some n) as Hn' by (by rewrite (touched_get _ _ _ _ Htou Hid)).
      rewrite Hns. unfold arena_get, arena_alter in *. cbn. by rewrite lookup_alter_eq, Hn'.
    + exists i, dd'. eauto.
    + by eapply grown_trans.
    + by eapply same_dirs_trans.
    + intros d x y [[[= _ <-] <-]|[_ Hy]]%at_put_Some; [by right|by apply Hne].
    + intros x. by rewrite Hwk', Hwk.
    + destruct Htou as (js & Hj & Ens). exists (id :: js). split; [|by rewrite Hns, Ens].
      intros j [->|Hin]%elem_of_cons; [left|right; by apply Hj].
    + rewrite Hcs, Hwrap. cbn [length] in *. lia.
Qed.

Lemma wp_create_dirs s U ids pp : site s U ids pp → room s U (length ids) →
  ∀ fuel id (Q : FsResult unit → CopyState → Disk → Prop), head ids = Some id →
  (∀ V, grown U V → Inv V) →
  (∀ err s' V, grown U V → Q (Err err) s' V) → (∀ s' V, raised s U ids pp s' V → Q (Ok tt) s' V) →
  sm_wp DISK (create_node_directory_go ls wfd fuel id) s U Q.
Proof using All.
  induction 1 as [id pp n D lows Hn Hz Hp Ht Hw|id pid ids pp n l dd Hsite IH Hid Hn Hpar Hz Hl Hsrc Hnm Hu Hp Hsee Hnone];
    intros Hroom fuel id' Q [= <-] HI HErr HOk.
  - assert (sm_wp DISK (create_node_directory_go ls wfd fuel id) s U Q) as Hgo; [|done].
    destruct fuel; cbn [create_node_directory_go]; unfold cs_node; wp_step; wp_step; rewrite Hn; cbn [ok_or];
      do 2 wp_step; rewrite Hhead; cbn [ok_or]; rewrite Hz, Hlow; apply sm_wp_ret, HOk; by eapply site_raised.
  - assert (∀ s' V, raised s U (pid :: ids) pp s' V →
      (∀ D lows, in_tree V tree (comps pp) D W lows → at_ V D (name n) = None ∧ at_ V D (WH_PREFIX ++ name n) = None) →
      sm_wp DISK (create_one_directory ls wfd id) s' V Q) as Hone.
    { intros s' V Hra Hno. destruct (site_path _ _ _ _ Hsite) as (x & [= <-] & Hppath).
      eapply (wp_create_next s U s' V ids pid id n l pp dd); try done.
      eapply raised_room; [|done]. cbn [length] in *. by rewrite Nat.add_1_r. }
    assert (room s U (length (pid :: ids))) as Hroom'.
    { destruct Hroom as (? & ? & ?). split_and!; [done|cbn [length] in *; lia|done]. }
    assert (∃ pn, arena_get (cs_nodes s) pid = Some pn) as [pn Hpn] by (by inversion Hsite; eauto).
    assert (layer_idx pn = 0%nat → raised s U (pid :: ids) pp s U) as Hzero.
    { intros Hpz. inversion Hsite; subst; [by eapply site_raised|congruence]. }
    assert (layer_idx pn ≠ 0%nat → ∀ s' V, raised s U (pid :: ids) pp s' V → ∀ D lows,
      in_tree V tree (comps pp) D W lows → at_ V D (name n) = None ∧ at_ V D (WH_PREFIX ++ name n) = None) as Hnew.
    { intros Hpz s' V [(x & pn' & [= <-] & Hpn' & Hz') (D & lows & Ht & _ & Hor) _ _ _ _] D' lows' Ht'.
      destruct Hor as [[_ ->]|[He _]]; [congruence|]. pose proof (it_dir _ _ _ _ _ _ Ht) as E.
      rewrite (it_dir _ _ _ _ _ _ Ht') in E. injection E as -> _. by split. }
    apply Nat.eqb_neq in Hz as Hz'.
    destruct fuel as [|fuel]; cbn [create_node_directory_go]; unfold cs_node; wp_step; wp_step; rewrite Hn; cbn [ok_or];
      do 2 wp_step; rewrite Hhead; cbn [ok_or]; rewrite Hz'; cbn [andb]; wp_step; rewrite Hpar; do 2 wp_step;
      rewrite Hpn, Hlow, orb_false_r; change (default 0%nat (layer_idx <$> Some pn)) with (layer_idx pn);
      destruct (layer_idx pn =? 0)%nat eqn:Epz; cbn [negb];
      try (apply Nat.eqb_eq in Epz; apply sm_wp_ret, Hone; [by apply Hzero|intros D lows Ht; by eapply Hnone]).
    + exact I.
    + apply Nat.eqb_neq in Epz. eapply (IH Hroom' fuel pid); [done|done|done|].
      intros s' V Hra. apply Hone; [done|by eapply Hnew].
Qed.
End dirs.

(** An inode has the node it had. *)
Lemma lookup_touched `{HashOrder} s ids c ino : touched ids (get_copy s) c →
  lookup_node_id (put_copy c s) ino = lookup_node_id s ino.
Proof.
  intros Ht. unfold lookup_node_id. cbn [inodes put_copy set_nodes set_wd_counter set_CAN_MKNOD root_id nodes].
  destruct (_ =? 1); [done|]. destruct (fuse_to_ino (inodes s) ino) as [oi|]; [|done]. cbn.
  f_equal. apply list_filter_iff. intros i. by rewrite (touched_key _ _ _ _ Ht).
Qed.

(** ** The copy-up of a file at any depth *)

(** The directories [D] and below are at the path [pp] of the disk [V], which
    shows what [U] does. *)
Record settled `{DevT} (tree : list Z) (R W : Z) (pp : bytes) (U V : Disk) (D : Z) (lows : list Z) : Prop := {
  se_tree : in_tree V tree (comps pp) D W lows;
  se_walk : walk V R (comps pp) = Some D;
  se_grown : grown tree U V
}.

(** The node [id] is of a lower layer [l], which has the object [el] at its name
    [nm] in the directory [Dl], and [el] is what the tree shows; the directories
    above it, the nodes [ids], are of any layer, and the work directory has room
    for them, for the object and for [k] more. *)
Record copyable `{DevT} dir_of roots (ls : list OvlLayer) (wfd : RawFd) (s : CopyState) (U : Disk) (tree : list Z)
    (id : NodeId) (n : OvlNode) (ids : list NodeId) (R W Dl : Z) (pp nm : bytes) (el : Ent) (k : nat) : Prop := {
  cb_mount : ∃ u, head ls = Some u ∧ low u = false ∧ dir_of (root_fd (ds u)) = Some R ∧ dir_of wfd = Some W;
  cb_roots : R ∈ roots ∧ W ∈ roots ∧ ∀ x, x ∈ tree → x ∈ roots;
  cb_node : arena_get (cs_nodes s) id = Some n ∧ parent n = head ids ∧ (id ∉ ids) ∧
    compute_path (cs_nodes s) id = Some (child_path pp nm);
  cb_site : site ls tree R W s U ids pp ∧ room W s U (length ids + S k);
  cb_layer : ∃ l Rl, ls !! layer_idx n = Some l ∧ (∀ Inv, DiskSource dir_of roots Inv True (ds l)) ∧
      dir_of (root_fd (ds l)) = Some Rl ∧ walk U Rl (comps pp) = Some Dl ∧ at_ U Dl nm = Some el;
  cb_shown : see U tree (comps pp ++ [nm]) = SFile el;
  cb_object : file_ent el ∧ plain nm ∧ user_name nm
}.

Section deep.
Context `{DevT} (dir_of : RawFd → option Z) (roots : gset Z) (Inv : Disk → Prop) (copy_fuel : nat).
Context (ls : list OvlLayer) (wfd : RawFd) (s : CopyState) (U : Disk) (tree : list Z) (id : NodeId) (n : OvlNode)
  (ids : list NodeId) (R W Dl : Z) (pp nm : bytes) (el : Ent) (k : nat).
Context (Hcb : copyable dir_of roots ls wfd s U tree id n ids R W Dl pp nm el k).
Abbreviation DISK := (DISK dir_of roots Inv True).

(** What is to be kept in mind of the state: the nodes, and the names in the
    work directory. *)
Record copied_up (V0 : Disk) (D : Z) (lows : list Z) (e : Ent) (s' : CopyState) (V : Disk) : Prop := {
  cu_settled : settled tree R W pp U V0 D lows;
  cu_dirs : same_dirs tree R W U V0;
  cu_new : ∀ d x y, at_ V0 d x = Some y → at_ U d x = Some y ∨ user_name x ∧ e_dir y = true;
  cu_kind : same_kind el e;
  cu_placed : placed roots D V0 nm e V;
  cu_touched : touched (id :: ids) s s';
  cu_nodes : ∀ j, Some j = head ids ∨ j = id → ∃ x, arena_get (cs_nodes s') j = Some x ∧ layer_idx x = 0%nat;
  cu_room : room W s' V k
}.

Lemma cb_names : Forall user_name (comps pp ++ [nm]).
Proof using Hcb.
  destruct Hcb as [_ _ _ [Hsite _] _ Hsee (_ & _ & Hu)]. apply Forall_app. split; [|by constructor].
  clear -Hsite. induction Hsite as [? ? ? ? ? ? ? ? Ht|? ? ? ? ? ? ? ? IH ? ? ? ? ? ? Hp ?]; [apply Ht|].
  rewrite comps_child by done. apply Forall_app. split; [exact IH|by constructor].
Qed.
Lemma settled_child V0 D lows : settled tree R W pp U V0 D lows → child V0 (D :: lows) nm = SFile el.
Proof using Hcb.
  intros [Ht _ [Hl _]]. pose proof (looks_file _ _ _ _ _ Hl cb_names (cb_shown _ _ _ _ _ _ _ _ _ _ _ _ _ _ _ _ _ Hcb)) as HV.
  by rewrite see_snoc, (it_dir _ _ _ _ _ _ Ht) in HV.
Qed.

Lemma wp_copyup_deep (Q : FsResult unit → CopyState → Disk → Prop) :
  (∀ V, grown tree U V → Inv V) →
  (∀ V0 D lows e V, settled tree R W pp U V0 D lows → same_kind el e → placed roots D V0 nm e V → Inv V) →
  (∀ err s' V, grown tree U V → Q (Err err) s' V) →
  (∀ V0 D lows e s' V, copied_up V0 D lows e s' V → Q (Ok tt) s' V) →
  sm_wp DISK (copyup copy_fuel ls wfd id) s U Q.
Proof using All.
  intros HI HI' HErr HOk. pose proof settled_child as Hchild.
  pose proof Hcb as [(u & Hhead & Hlow & Hup & Hwork) (HR & HW & Htree) (Hn & Hpar & Hid & Hpath) [Hsite Hroom]
    (l & Rl & Hl & Hs & HRl & HDl & Hel) Hsee (Hf & Hnm & Hu)].
  destruct (site_path _ _ _ _ _ _ _ _ Hsite) as (pid & Hpid & _). rewrite Hpid in Hpar.
  assert (room W s U (length ids)) as Hroom'.
  { destruct Hroom as (? & ? & ?). split_and!; [done|lia|done]. }
  eapply (wp_copyup_start dir_of roots Inv copy_fuel ls wfd W U pp nm u l s id pid n el); try done.
  { intros V Hlo. apply HI. destruct (site_tree ls tree R W _ _ _ _ Hsite) as (path & D & lows & Ht).
    eapply leftover_grown; [exact Ht|exact Hu|by eapply tree_apart|done]. }
  { intros err. apply HErr, grown_refl. }
  intros st Hty Hrd. wp_step. unfold create_node_directory. wp_step. wp_step.
  eapply (wp_create_dirs dir_of roots Inv ls wfd u tree R W); [done..|].
  intros s' V Hra.
  assert (room W s' V (S k)) as Hroom1 by (by eapply raised_room).
  pose proof Hroom1 as (Hc0 & Hc1 & Hfree).
  pose proof Hra as [Hup0 (D & lows & Ht & Hw & _) Hg Hsd Hnw _ Htou _].
  assert (settled tree R W pp U V D lows) as Hset by done.
  assert (W ≠ D) as HDW by (by eapply tree_apart).
  eapply (wp_copyup_kind dir_of roots Inv copy_fuel ls wfd R D W V pp nm u l s' id el); try done.
  { apply Hfree. lia. }
  { intros V' Hlo. apply HI. eapply grown_trans; [exact Hg|]. by eapply leftover_grown. }
  { intros e V' Hk Hp. by eapply HI'. }
  intros [[]|err] s2 V2 [Hr _].
  2: { apply HErr. eapply grown_trans; [exact Hg|]. eapply leftover_grown; [exact Ht|exact Hu|done|apply Hr]. }
  destruct Hr as ((e & Hk & Hp) & Hns & Hcs). apply (HOk V D lows e).
  rewrite (wrap_room _ _ _ _ Hroom1) in Hcs. split; try done.
  - destruct Htou as (js & Hj & Ens). exists (id :: js). split; [|by rewrite Hns, Ens].
    intros j [->|Hin]%elem_of_cons; [left|right; by apply Hj].
  - assert (∀ j, layer_idx (set_layer_idx 0 j) = 0%nat) as Hz by done.
    intros j Hj. rewrite Hns. unfold arena_get, arena_alter in *. cbn. rewrite lookup_alter.
    destruct (decide (id = j)) as [->|Hne].
    + assert (arena_get (cs_nodes s') j = Some n) as E by (by rewrite (touched_get _ _ _ _ Htou Hid)).
      unfold arena_get in E. rewrite E. cbn. eauto.
    + destruct Hj as [Hj| ->]; [|done]. destruct Hup0 as (x & pn & Hx & Hpn & Hpl).
      assert (x = j) as -> by congruence. eauto.
  - assert (∀ x, at_ V2 W x = at_ V W x) as Hat.
    { intros x. destruct Hp as (_ & _ & _ & [->|[_ ->]]); [|rewrite at_del_ne by congruence]; apply at_put_ne; congruence. }
    split_and!; [lia|lia|]. intros c Hc. rewrite Hat. apply Hfree. lia.
Qed.
End deep.

(** ** The copy-up of a directory *)

(** The node [id] is of a lower layer, which has the directory [el] at its path,
    in the directory [Dl]. *)
Record low_dir `{DevT} dir_of roots (ls : list OvlLayer) (s : CopyState) (U : Disk) (id pid : NodeId) (n : OvlNode)
    (pp : bytes) (Dl : Z) (el : Ent) : Prop := {
  ld_node : arena_get (cs_nodes s) id = Some n ∧ parent n = Some pid ∧ layer_idx n ≠ 0%nat;
  ld_path : compute_path (cs_nodes s) pid = Some pp;
  ld_layer : ∃ l Rl, ls !! layer_idx n = Some l ∧ (∀ Inv, DiskSource dir_of roots Inv True (ds l)) ∧
    dir_of (root_fd (ds l)) = Some Rl ∧ walk U Rl (comps pp) = Some Dl ∧ at_ U Dl (name n) = Some el ∧ e_type el = S_IFDIR
}.

Section deep_dir.
Context `{DevT} (dir_of : RawFd → option Z) (roots : gset Z) (Inv : Disk → Prop) (copy_fuel : nat).
Context (ls : list OvlLayer) (wfd : RawFd) (u : OvlLayer) (tree : list Z) (R W : Z).
Context (Hhead : head ls = Some u) (Hlow : low u = false).
Context (Hwork : dir_of wfd = Some W) (Hupper : dir_of (root_fd (ds u)) = Some R).
Context (HR : R ∈ roots) (HW : W ∈ roots) (Htree : ∀ x, x ∈ tree → x ∈ roots).
Abbreviation DISK := (DISK dir_of roots Inv True).
Abbreviation site := (site ls tree R W).
Abbreviation raised := (raised tree R W).

(** After the directories above it. *)
Lemma site_next s U id pid ids q s' V n pp : site s U (id :: pid :: ids) q → q = child_path pp (name n) →
  arena_get (cs_nodes s) id = Some n → layer_idx n ≠ 0%nat → compute_path (cs_nodes s) pid = Some pp →
  raised s U (pid :: ids) pp s' V → site s' V [id; pid] q.
Proof using Type.
  intros Hsite Hq Hn0 Hz0 Hpp0 Hra.
  inversion Hsite as [|id' pid' ids' pp' n' l dd Hsite' Hid Hn Hpar Hz Hl Hs Hnm Hu Hp Hsee Hnone]; subst.
  destruct (site_path _ _ _ _ _ _ _ _ Hsite') as (x & [= <-] & Hpp). assert (pp' = pp) as -> by congruence.
  assert (n' = n) as -> by congruence.
  pose proof Hra as [(x & pn & [= <-] & Hpn & Hpz) (D & lows & Ht & Hw & Hor) Hg _ _ _ Htou _].
  assert (Forall user_name (comps pp ++ [name n])) as Hnames.
  { apply Forall_app. split; [apply (it_names _ _ _ _ _ _ Ht)|by constructor]. }
  destruct (looks_dir _ _ _ _ _ (proj1 Hg) Hnames Hsee) as [dd' Hsee'].
  eapply (site_low _ _ _ _ _ _ id pid [] pp n l dd'); try done.
  - eapply site_up; try done. by rewrite (touched_path _ _ _ _ Htou).
  - intros Hin%list_elem_of_singleton. apply Hid. rewrite Hin. left.
  - by rewrite (touched_get _ _ _ _ Htou).
  - by rewrite (touched_path _ _ _ _ Htou).
  - intros pn' D' lows' Hpn' Hz' Ht'. destruct Hor as [[-> ->]|[He _]]; [by eapply Hnone|].
    pose proof (it_dir _ _ _ _ _ _ Ht) as E. rewrite (it_dir _ _ _ _ _ _ Ht') in E. injection E as -> _. by split.
Qed.

Lemma wp_copyup_dir s U id pid ids n pp Dl el k (Q : FsResult unit → CopyState → Disk → Prop) :
  let q := child_path pp (name n) in
  site s U (id :: pid :: ids) q → room W s U (length (pid :: ids) + (2 + k)) → low_dir dir_of roots ls s U id pid n pp Dl el →
  (∀ V, grown tree U V → Inv V) →
  (∀ err s' V, grown tree U V → Q (Err err) s' V) →
  (∀ s' V D lows, settled tree R W q U V D lows → fresh tree R W V D (comps q) → touched (id :: pid :: ids) s s' →
     (∀ j, j = id ∨ j = pid → ∃ x, arena_get (cs_nodes s') j = Some x ∧ layer_idx x = 0%nat) → room W s' V k →
     Q (Ok tt) s' V) →
  sm_wp DISK (copyup copy_fuel ls wfd id) s U Q.
Proof using All.
  intros q Hsite Hroom [(Hn & Hpar & Hz) Hpp (l & Rl & Hl & Hs & HRl & HDl & Hel & Hty)] HI HErr HOk.
  pose proof (λ s' V, site_next s U id pid ids q s' V n pp Hsite eq_refl Hn Hz Hpp) as Hnext.
  inversion Hsite as [|id' pid' ids' pp' n' l' dd Hsite' Hid Hn' Hpar' _ _ _ Hnm Hu Hp _ _ E1 E2]; subst.
  destruct (site_path _ _ _ _ _ _ _ _ Hsite') as (x & [= <-] & Hpp'). assert (pp' = pp) as -> by congruence.
  assert (n' = n) as -> by congruence.
  assert (room W s U (length (pid :: ids))) as Hroom'.
  { destruct Hroom as (? & ? & ?). split_and!; [done|lia|done]. }
  eapply (wp_copyup_start dir_of roots Inv copy_fuel ls wfd W U pp (name n) u l s id pid n el); try done.
  { intros V Hlo. apply HI. destruct (site_tree ls tree R W _ _ _ _ Hsite') as (path & D & lows & Ht).
    eapply leftover_grown; [exact Ht|exact Hu|by eapply tree_apart|done]. }
  { intros err. apply HErr, grown_refl. }
  intros st Hst _. wp_step. unfold create_node_directory at 1. wp_step. wp_step.
  eapply (wp_create_dirs dir_of roots Inv ls wfd u tree R W); [done..|].
  intros s1 V1 Hra. pose proof (ra_grown _ _ _ _ _ _ _ _ _ Hra) as Hg1.
  assert (room W s1 V1 (2 + k)) as Hroom1 by (by eapply raised_room).
  unfold copyup_kind. rewrite Hst, Hty, Z.eqb_refl. wp_step. unfold create_node_directory. wp_step. wp_step.
  eapply (wp_create_dirs dir_of roots Inv ls wfd u tree R W); [done|done|done|done|done|done|done|by apply Hnext| |done|..].
  { destruct Hroom1 as (? & ? & ?). split_and!; [done|cbn [length]; lia|done]. }
  { intros V Hg. apply HI. by eapply grown_trans. }
  { intros err s' V Hg. apply HErr. by eapply grown_trans. }
  intros s2 V2 Hra2. apply sm_wp_ret.
  assert (room W s2 V2 k) as Hroom2 by (by eapply (raised_room _ _ _ _ _ [id; pid]); [exact Hroom1|]).
  pose proof Hra2 as [(x & m & [= <-] & Hm & Hmz) (D & lows & Ht & Hw & Hor) Hg2 _ _ _ (js & Hj & Ens) _].
  pose proof (ra_touched _ _ _ _ _ _ _ _ _ Hra) as Htou.
  apply (HOk s2 V2 D lows); [split; [done..|by eapply grown_trans]| | | |done].
  - destruct Hor as [[_ ->]|He]; [|done]. rewrite (touched_get _ _ _ _ Htou Hid) in Hm. congruence.
  - destruct Htou as (js' & Hj' & Ens'). exists (js ++ js'). split; [|by rewrite foldr_app, <-Ens'].
    intros j [Hin|Hin]%elem_of_app; [|right; by apply Hj'].
    apply Hj in Hin as [->|Hin]%elem_of_cons; [left|]. apply list_elem_of_singleton in Hin as ->. right. left.
  - intros j [->| ->]; [by exists m|]. destruct Hra as [(x & pn & [= <-] & Hpn & Hpz) _ _ _ _ _ _ _].
    destruct (touched_node _ _ _ _ _ (ra_touched _ _ _ _ _ _ _ _ _ Hra2) Hpn) as (i & Hi & Hor').
    exists (set_layer_idx i pn). split; [done|]. cbn. destruct Hor' as [->| ->]; [done|exact Hpz].
Qed.
End deep_dir.

(** C8. A copy-up of a file is not seen, whatever its calls answer. The object
    is no directory; the tree of the layers shows it at the path of the cached
    node, and the names that the counter gives next are free in the work
    directory. At every call, and at the end, every path of the overlay shows
    what it showed before, the object itself perhaps as another one of its type
    and device, and a directory perhaps as one merged from other directories;
    and no entry of any directory is lost, the name and its whiteout file aside.
    On success the upper layer has an object of the same type and device at the
    path, and the node is of the upper layer. The directories of this model have
    no contents: that a regular file is put there only with all its bytes is
    C9's. *)
Theorem copyup_is_unseen `{DevT} (dir_of : RawFd → option Z) (roots : gset Z) (copy_fuel : nat)
    (ls : list OvlLayer) (wfd : RawFd) (s : CopyState) (U : Disk) (tree : list Z) (id : NodeId) (n : OvlNode)
    (ids : list NodeId) (R W Dl : Z) (pp nm : bytes) (el : Ent)
    (Hcb : copyable dir_of roots ls wfd s U tree id n ids R W Dl pp nm el 0) :
  let safe V := (shows_same U tree V ∧
    ∀ d x e, x ≠ nm → x ≠ WH_PREFIX ++ nm → at_ U d x = Some e → at_ V d x = Some e) in
  sm_wp (DISK dir_of roots safe True) (copyup copy_fuel ls wfd id) s U
    (λ r s' V, safe V ∧
       (r = Ok tt → (∃ D e, walk V R (comps pp) = Some D ∧ at_ V D nm = Some e ∧ same_kind el e) ∧
          ∃ n, arena_get (cs_nodes s') id = Some n ∧ layer_idx n = 0%nat)).
Proof.
  intros safe.
  assert (∀ V, grown tree U V → safe V) as Hgs by (intros V [Hlk Hk]; split; [by apply looks_shows|auto]).
  assert (∀ V0 D lows e V, settled tree R W pp U V0 D lows → same_kind el e → placed roots D V0 nm e V → safe V) as Hpl.
  { intros V0 D lows e V Hset Hk Hp. pose proof Hset as [Ht _ Hg].
    pose proof Hcb as [_ _ _ _ _ _ (Hf & Hnm & Hu)]. split.
    - eapply looks_before; [apply Hg|]. eapply placed_seen; [exact Ht|done|by eapply tree_apart|by eapply settled_child|done..].
    - intros d x y Hx Hx' Hy. apply (proj2 Hg) in Hy. destruct Hp as (_ & _ & _ & [->|[_ ->]]).
      + apply at_put_Some. right. split; [congruence|done].
      + apply at_del_Some. split; [congruence|]. apply at_put_Some. right. split; [congruence|done]. }
  eapply wp_copyup_deep; [done|done|done|intros err s' V Hg; split; [by apply Hgs|done]|].
  intros V0 D lows e s' V [Hset _ _ Hk Hp _ Hz _]. split; [by eapply Hpl|]. intros _. split; [|apply Hz; by right].
  destruct (placed_keeps _ _ _ _ _ _ Hp) as [Hat Hkd]. exists D, e. split; [|done].
  eapply walk_keeps; [exact Hkd|apply Hset].
Qed.
