(* ===== verification/Removal.v ===== *)
(** * Removing a name (unlink and rmdir of src/src/overlay.rs)

    What [do_rm_inner] does to the directories, from the cached child to the
    removal of the hidden object, on every outcome, and what the upper layer is
    at every call in between. *)

From S2P Require Import Prelude Libc Mapping Xattr ConfigData Sys Openat2 Node Tree DataSource Whiteout.
From S2P Require Import Layer Copyup SafeCopy Overlay Merge Disk Effects Visible CopyDisk CopyDirs Ops.
Local Open Scope Z_scope.

Lemma upper_layer_first s u : upper_layer s = Some u → layers s !! 0%nat = Some u ∧ low u = false.
Proof.
  unfold upper_layer. destruct (layers s) as [|l ls]; [done|]. destruct (low l) eqn:E; naive_solver.
Qed.

(** ** The removal of the hidden object *)
Section removal.
Context `{F64, DevT, HashOrder} (dir_of : RawFd → option Z) (roots : gset Z) (Inv : Disk → Prop) (Dv : Prop).
Abbreviation DISK := (DISK dir_of roots Inv Dv).
Implicit Types (s : OverlayInner) (U : Disk).

Lemma wp_unlink_hidden {S} fd W p flags (s : S) U (Q : unit → S → Disk → Prop) :
  Inv U → dir_of fd = Some W → plain p → Q tt s U → Q tt s (del W p U) →
  sm_wp DISK (let! _ := sm_call (Unlinkat fd p flags) in sm_ret tt) s U Q.
Proof using.
  intros HI Hfd Hp HQ HQ'. wp_step. apply wp_disk; [done|]. intros [[]|e] U' Hr; wp_step;
    destruct (Hr Hp) as (HE & _ & Hok); [|by rewrite (HE _ eq_refl)].
  destruct (Hok eq_refl) as (W' & e & HW' & _ & _ & ->). by assert (W' = W) as -> by congruence.
Qed.

(** Dropping a hidden node removes at most its object in the work directory. *)
Lemma disk_drop_node {S} n W p (s : S) U (Q : unit → S → Disk → Prop) :
  hidden_path n = Some p → dir_of (hidden_dirfd n) = Some W → plain p →
  Inv U → Inv (del W p U) → Q tt s U → Q tt s (del W p U) →
  sm_wp DISK (drop_node n) s U Q.
Proof using.
  intros Hh Hfd Hp HI HI' HQ HQ'. unfold drop_node. rewrite Hh.
  assert (del W p (del W p U) = del W p U) as Edel.
  { unfold del. cbn. f_equal. by rewrite delete_delete_eq. }
  assert (∀ U1, U1 = U ∨ U1 = del W p U → sm_wp DISK
    (if do_rmdir n then let! _ := sm_call (Unlinkat (hidden_dirfd n) p AT_REMOVEDIR) in sm_ret tt
     else sm_ret tt) s U1 Q) as Hrm.
  { intros U1 HU. destruct (do_rmdir n).
    - eapply wp_unlink_hidden; [|done|done|..]; destruct HU as [->| ->]; rewrite ?Edel; done.
    - apply sm_wp_ret. by destruct HU as [->| ->]. }
  destruct (cstr_bytes p) as [c|e] eqn:Ec; [|by apply sm_wp_ret]. apply cstr_bytes_Ok in Ec as ->.
  wp_step. destruct (do_unlink n); [|apply sm_wp_ret; auto].
  eapply wp_unlink_hidden; [done..|apply Hrm; by left|apply Hrm; by right].
Qed.

(** ** From the node on the upper layer on *)

Lemma get_child_unloaded n nm : get_child (mark_unloaded n) nm = get_child n nm.
Proof using. unfold get_child, mark_unloaded. by destruct (dir_state n) eqn:E; cbn; rewrite ?E. Qed.

(** The state after the move: the node has its hiding place. *)
Lemma hide_mark_run s id newname n pid pn :
  nodes_get s id = Some n → parent n = Some pid → nodes_get s pid = Some pn → id ≠ pid →
  ∃ s' n', hide_mark id newname s = Ret (Ok tt, s') ∧ nodes_get s' pid = Some (mark_unloaded pn) ∧
    nodes_get s' id = Some n' ∧ hidden_path n' = Some newname ∧ hidden_dirfd n' = workdir_fd s.
Proof using.
  intros Hn Hp Hpn Hne. unfold nodes_get, arena_get in *.
  eexists _, _. split; [|split].
  - unfold hide_mark, node, nodes_get, arena_get, alter_node, sm_try, sm_bind, sm_get, sm_ret, sm_modify. cbn.
    rewrite Hn. cbn. rewrite Hp. cbn. reflexivity.
  - cbn. by rewrite lookup_alter_ne, lookup_alter_eq, lookup_alter_ne, Hpn by done.
  - cbn. rewrite lookup_alter_eq, lookup_alter_ne, lookup_alter_eq, Hn by done. cbn.
    split; [reflexivity|]. by destruct (is_dir _).
Qed.

(** A node that is on the upper layer needs no copy-up. *)
Lemma wp_node_is_up copy_fuel u s id n U (Q : FsResult unit → OverlayInner → Disk → Prop) :
  upper_layer s = Some u → nodes_get s id = Some n → layer_idx n = 0%nat → Q (Ok tt) s U →
  sm_wp DISK (get_node_up copy_fuel id) s U Q.
Proof using.
  intros Hu Hn Hl HQ. pose proof (upper_layer_first _ _ Hu) as [Hu0 Hlow].
  unfold get_node_up. wp_step. wp_step. rewrite Hu. unfold node, layer.
  wp_step. wp_step. rewrite Hn. cbn [ok_or]. wp_step. wp_step. rewrite Hu0. cbn [ok_or].
  rewrite Hl, Hlow. by apply sm_wp_ret.
Qed.
(** A node of a lower layer is copied up. *)
Lemma wp_node_copyup copy_fuel u s id n U (Q : FsResult unit → OverlayInner → Disk → Prop) :
  upper_layer s = Some u → nodes_get s id = Some n → layer_idx n ≠ 0%nat →
  sm_wp DISK (copyup copy_fuel (layers s) (workdir_fd s) id) (get_copy s) U (λ r c V, Q r (put_copy c s) V) →
  sm_wp DISK (get_node_up copy_fuel id) s U Q.
Proof using.
  intros Hup Hn Hz HQ. unfold get_node_up. wp_step. wp_step. rewrite Hup.
  pose proof (upper_layer_first _ _ Hup) as [Hl0 Hlow]. unfold node, layer.
  wp_step. wp_step. rewrite Hn. cbn [ok_or]. wp_step. wp_step. rewrite Hl0. cbn [ok_or].
  rewrite (proj2 (Nat.eqb_neq _ _) Hz). cbn [andb]. by apply sm_wp_zoom.
Qed.

(** A child and its directory, which are cached. *)
Record cached (u : OvlLayer) (parent_ino : Z) (pid id : NodeId) (pp nm : bytes) (R W : Z) s (n : OvlNode) : Prop := {
  ca_upper : upper_layer s = Some u;
  ca_fds : dir_of (root_fd (ds u)) = Some R ∧ dir_of (workdir_fd s) = Some W;
  ca_lookup : lookup_node_id s parent_ino = Some pid;
  ca_dir : ∃ pn, nodes_get s pid = Some pn ∧ get_child pn nm = Some id;
  ca_node : nodes_get s id = Some n ∧ name n = nm ∧ parent n = Some pid ∧ id ≠ pid;
  ca_path : compute_path (nodes s) id = Some (child_path pp nm);
  ca_ppath : compute_path (nodes s) pid = Some pp
}.

(** They are, too, after a copy-up. *)
Lemma cached_touched u parent_ino pid id pp nm R W s n ids c :
  cached u parent_ino pid id pp nm R W s n → touched ids (get_copy s) c →
  ∃ n', cached u parent_ino pid id pp nm R W (put_copy c s) n' ∧ needs_whiteout (put_copy c s) n' = needs_whiteout s n.
Proof using.
  intros [Hu Hfd Hlook (pn & Hpn & Hch) (Hn & Hnm & Hpar & Hne) Hp1 Hp2] Ht.
  destruct (touched_node _ _ _ _ _ Ht Hn) as (k & Hn' & _). destruct (touched_node _ _ _ _ _ Ht Hpn) as (k' & Hpn' & _).
  exists (set_layer_idx k n). split.
  - split; try done.
    + by rewrite (lookup_touched _ _ _ _ Ht).
    + by exists (set_layer_idx k' pn).
    + cbn [nodes put_copy set_nodes]. by rewrite (touched_path _ _ _ _ Ht).
    + cbn [nodes put_copy set_nodes]. by rewrite (touched_path _ _ _ _ Ht).
  - unfold needs_whiteout. cbn. rewrite Hpar. unfold nodes_get. cbn [nodes put_copy set_nodes].
    rewrite Hpn'. unfold nodes_get in Hpn. by rewrite Hpn.
Qed.

Section tail.
Context (copy_fuel : nat) (u : OvlLayer) (parent_ino pid id : Z) (pp nm : bytes) (R D W : Z) (nw : bool).
Context (HDW : W ≠ D) (Hnm : plain nm).

(** The child is cached in its directory, which is on the upper layer, and
    the work directory has room for the next name. *)
Record ready s U : Prop := {
  rd_cached : ∃ n, cached u parent_ino pid id pp nm R W s n ∧ needs_whiteout s n = nw;
  rd_up : ∃ pn, nodes_get s pid = Some pn ∧ layer_idx pn = 0%nat;
  rd_walk : walk U R (comps pp) = Some D;
  rd_count : 0 <= wd_counter s;
  rd_free : at_ U W (print_dec (wd_counter s)) = None;
  rd_link : no_link U D nm
}.

(** What is left of the name. *)
Definition in_place (d : Z) (x : bytes) : Prop := own D nm d x ∨ d = W.
Definition gone U U' : Prop :=
  same_but in_place U U' ∧
  if nw then whited U' D nm else at_ U' D nm = None ∧ at_ U' D (WH_PREFIX ++ nm) = at_ U D (WH_PREFIX ++ nm).

Lemma gone_del U U' x : gone U U' → gone U (del W x U').
Proof using All.
  intros [Hs Hg]. split; [eapply same_but_trans; [done|apply same_but_del; by right]|].
  destruct nw; [|by rewrite !at_del_ne by congruence].
  unfold whited in *. by rewrite !at_del_ne by congruence.
Qed.

Lemma wp_hide_node s U e (Q : FsResult unit → OverlayInner → Disk → Prop) :
  ready s U → at_ U D nm = Some e → whites e = false → Inv U →
  (∀ U', adds (own D nm) U U' → whited U' D nm → at_ U' D nm = at_ U D nm → Inv U') →
  (∀ err s' U', hide_failed D nm U U' → Q (Err err) s' U') →
  (∀ s' U' n' pn', gone U U' →
     nodes_get s' pid = Some pn' → get_child pn' nm = Some id →
     nodes_get s' id = Some n' → hidden_path n' = Some (print_dec (wd_counter s)) →
     dir_of (hidden_dirfd n') = Some W → Q (Ok tt) s' U') →
  sm_wp DISK (hide_node id true) s U Q.
Proof using All.
  intros [(n & [Hup [HR HW] Hlook (pn & Hpn & Hch) (Hn & Hname & Hpar & Hne) Hp1 Hp2] & Hneeds) _ Hwalk Hc Hf Hlink] He Hw HI HI' HErr HOk.
  unfold hide_node. do 2 wp_step. unfold upper. rewrite Hup. cbn [ok_or]. wp_step. wp_step.
  unfold next_wd_counter. do 4 wp_step. wp_step. wp_step. set (s1 := set_wd_counter _ s).
  assert (needs_whiteout s1 n = nw) as Hneeds1 by done.
  wp_step. eapply (wp_hide_move dir_of roots Inv Dv s1 _ _ pid n pp _ R D W e); rewrite ?Hname; try done;
    [by apply plain_print| |by intros; apply HErr].
  intros b U' (Hsb & Hat & Hnw). rewrite Hneeds1 in Hnw. rewrite Hname in Hsb, Hnw. cbv beta iota.
  destruct (hide_mark_run (set_CAN_MKNOD b s1) id (print_dec (wd_counter s)) n pid pn)
    as (s' & n' & Hrun & Hpn' & Hn' & Hh & Hfd); [done..|].
  unfold sm_wp. rewrite Hrun. cbn [wp]. eapply HOk; [|done|by rewrite get_child_unloaded|done|done|by rewrite Hfd].
  split; [|done]. eapply same_but_mono; [|done]. intros d x [?|[-> _]]; [by left|by right].
Qed.

Lemma wp_drop_child s U n pn p (Q : option Z → OverlayInner → Disk → Prop) : id ≠ pid →
  nodes_get s pid = Some pn → get_child pn nm = Some id → nodes_get s id = Some n →
  hidden_path n = Some p → dir_of (hidden_dirfd n) = Some W → plain p →
  Inv U → Inv (del W p U) → (∀ r s', Q r s' U) → (∀ r s', Q r s' (del W p U)) →
  sm_wp DISK (drop_child pid nm) s U Q.
Proof using All.
  intros Hne Hpn Hch Hn Hh Hfd Hp HI HI' HQ HQ'. unfold drop_child. wp_step. wp_step. rewrite Hpn.
  assert ((remove_child nm pn).1 = Some id) as ->.
  { revert Hch. unfold remove_child, get_child. by destruct (dir_state pn). }
  wp_step. unfold alter_node. wp_step. wp_step. wp_step. unfold nodes_get in *. cbn [nodes set_nodes].
  assert (arena_get (arena_alter (λ p, (remove_child nm p).2) pid (nodes s)) id = Some n) as Hn'.
  { unfold arena_get, arena_alter in *. cbn. by rewrite lookup_alter_ne. }
  rewrite Hn'. wp_step. cbv zeta. wp_step. wp_step. wp_step. wp_step. unfold do_remove. wp_step. wp_step.
  unfold arena_remove. cbn [nodes set_inodes set_nodes].
  assert (arena_map (arena_alter (λ p, (remove_child nm p).2) pid (nodes s)) !! id = Some n) as Hn2 by exact Hn'.
  rewrite Hn2. wp_step. wp_step.
  eapply disk_drop_node; [done..| |]; apply sm_wp_ret; [apply HQ|apply HQ'].
Qed.

(** The part of [do_rm_inner] after the node's copy-up. *)
Lemma wp_rm_tail s U e (Q : FsResult (option Z) → OverlayInner → Disk → Prop) :
  ready s U → at_ U D nm = Some e → whites e = false → Inv U →
  (∀ U', adds (own D nm) U U' → whited U' D nm → at_ U' D nm = at_ U D nm → Inv U') → (∀ U', gone U U' → Inv U') →
  (∀ err s' U', hide_failed D nm U U' → Q (Err err) s' U') →
  (∀ r s' U', gone U U' → Q (Ok r) s' U') →
  sm_wp DISK
    (let! r := do_lookup_file parent_ino None in
     try! pnode_id := sm_ret (ok_or ENOENT r) in
     try! _ := get_node_up copy_fuel pnode_id in
     try! _ := hide_node id true in
     let! inval := drop_child pnode_id nm in
     sm_ret (Ok inval)) s U Q.
Proof using All.
  intros Hr He Hw HI HI' HG HErr HOk. pose proof Hr as [(n & [Hup _ Hlook _ (_ & _ & _ & Hne) _ _] & _) (pn & Hpn & Hpl) _ Hc _ _].
  wp_step. unfold do_lookup_file. wp_step. wp_step. rewrite Hlook. apply sm_wp_ret.
  wp_step. wp_step. cbn [ok_or]. wp_step. eapply wp_node_is_up; [done..|]. wp_step.
  eapply wp_hide_node; [done..|by intros; apply HErr|].
  intros s' U' n' pn' Hg Hpn' Hch' Hn' Hh Hfd. wp_step.
  eapply wp_drop_child; [done..|by apply plain_print|by apply HG|by apply HG, gone_del| |].
  - intros r s2. apply sm_wp_ret. by apply HOk.
  - intros r s2. apply sm_wp_ret. by apply HOk, gone_del.
Qed.
End tail.
End removal.


(** ** From a disk that has the directory on the upper layer *)

Section outcomes.
Context `{F64, DevT, HashOrder} (dir_of : RawFd → option Z) (roots : gset Z) (Inv : Disk → Prop) (copy_fuel : nat).
Context (u : OvlLayer) (parent_ino pid id : Z) (pp nm : bytes) (R D W : Z) (nw : bool) (V0 : Disk) (el : Ent).
Context (HDW : W ≠ D) (Hnm : plain nm).
Abbreviation DISK := (DISK dir_of roots Inv True).

(** The name still has its object, or a copy of it. *)
Definition kept (V : Disk) : Prop :=
  same_but (in_place nm D W) V0 V ∧
  (at_ V D nm = at_ V0 D nm ∨ file_ent el ∧ ∃ e, same_kind el e ∧ at_ V D nm = Some e).

Lemma kept_refl : kept V0.
Proof using. split; [apply same_but_refl|by left]. Qed.
Lemma placed_at e V : placed roots D V0 nm e V → at_ V D nm = Some e ∧ same_but (in_place nm D W) V0 V ∧
  ∀ x, at_ V D (WH_PREFIX ++ nm) = Some x → at_ V0 D (WH_PREFIX ++ nm) = Some x.
Proof using.
  intros Hp. destruct (placed_keeps _ _ _ _ _ _ Hp) as [Hat _]. destruct Hp as (_ & _ & _ & HV).
  assert (same_but (own D nm) V0 V) as Hs.
  { destruct HV as [->|[_ ->]]; [apply same_but_put; split; [done|by left]|].
    eapply same_but_trans; [apply same_but_put; split; [done|by left]|]. apply same_but_del. split; [done|by right]. }
  split_and!; [done|eapply same_but_mono; [|exact Hs]; by left|].
  intros x. destruct HV as [->|[_ ->]]; [|by rewrite at_del]. rewrite at_put_ne; [done|].
  intros [_ E]%pair_eq. symmetry in E. by apply wh_ne in E.
Qed.
Lemma placed_kept e V : file_ent el → same_kind el e → placed roots D V0 nm e V → kept V.
Proof using. intros Hf Hk (Hat & Hs & _)%placed_at. split; [done|]. right. split; [done|]. by exists e. Qed.

(** What follows when the node is on the upper layer. *)
Context (HI : ∀ V, kept V → Inv V) (HI' : ∀ V, gone nm D W nw V0 V → Inv V).
Lemma rm_outcomes s1 V1 e (Q : FsResult (option Z) → OverlayInner → Disk → Prop) :
  ready dir_of u parent_ino pid id pp nm R D W nw s1 V1 →
  at_ V1 D nm = Some e → whites e = false → kept V1 → (nw = false → V1 = V0) → (at_ V0 D nm = Some e ∨ file_ent el ∧ same_kind el e) →
  (∀ err s' V, kept V → Q (Err err) s' V) → (∀ r s' V, gone nm D W nw V0 V → Q (Ok r) s' V) →
  sm_wp DISK
    (let! r := do_lookup_file parent_ino None in
     try! pnode_id := sm_ret (ok_or ENOENT r) in
     try! _ := get_node_up copy_fuel pnode_id in
     try! _ := hide_node id true in
     let! inval := drop_child pnode_id nm in
     sm_ret (Ok inval)) s1 V1 Q.
Proof using All.
  intros Hr He Hw Hk HV1 Hor HErr HOk.
  assert (∀ V, same_but (own D nm) V1 V → at_ V D nm = at_ V1 D nm → kept V) as Hkept.
  { intros V Hs Hat. split.
    - eapply same_but_trans; [apply Hk|]. eapply same_but_mono; [|done]. by left.
    - destruct Hor as [Ho|[Hfe Ho]]; [left; congruence|right; split; [done|]; exists e; split; [done|congruence]]. }
  assert (∀ V, gone nm D W nw V1 V → gone nm D W nw V0 V) as Hgone.
  { intros V [Hs Hg]. split; [eapply same_but_trans; [apply Hk|done]|]. destruct nw; [done|]. by rewrite <-(HV1 eq_refl). }
  apply (wp_rm_tail dir_of roots _ True copy_fuel u parent_ino pid id pp nm R D W nw HDW Hnm s1 V1 e);
    [done..|by apply HI| | | |].
  - intros V Ha _ Hat. apply HI, Hkept; [by apply adds_same_but|done].
  - intros V Hg. by apply HI', Hgone.
  - intros err s' V [Ha Hat]. apply HErr, Hkept; [by apply adds_same_but|done].
  - intros r s' V Hg. apply HOk. by apply Hgone.
Qed.
End outcomes.

(** ** What is seen of a removal *)
Section seen.
Context `{DevT} (D W : Z) (U : Disk) (nm : bytes) (el : Ent) (nw : bool).
Context (tree : list Z) (path : list bytes) (lows : list Z).
Context (Ht : in_tree U tree path D W lows) (Hu : user_name nm).

Lemma elsewhere V : same_but (in_place nm D W) U V → as_before_but (path ++ [nm]) U tree V.
Proof using Ht Hu.
  intros Hs cs Hcs Hb. eapply see_unchanged; [done..|by eapply local_work|exact Hs|done|by left].
Qed.
Lemma top_stays V : same_but (in_place nm D W) U V → see V tree path = SDir (D :: lows).
Proof using Ht Hu. intros Hs. eapply see_dir; [done..|by eapply local_work|exact Hs]. Qed.
Lemma gone_seen V : nw = true → gone nm D W nw U V → all_but (path ++ [nm]) U tree V.
Proof using Ht Hu.
  intros -> [Hs Hg]. apply all_but_name; [by apply elsewhere|].
  eapply see_whited; [done..|by eapply local_work|exact Hs|done].
Qed.
(** No whiteout: what is below the name is seen. *)
Lemma gone_under V : nw = false → at_ U D (WH_PREFIX ++ nm) = None → apart U lows D W → gone nm D W nw U V →
  shows_under path nm lows U tree V.
Proof using Ht Hu.
  intros -> Hwh Ha [Hs [Hg Hg']]. rewrite Hwh in Hg'. split.
  - intros cs Hcs Hb. rewrite (elsewhere V Hs) by done. apply same_look_refl.
  - intros k Hk. eapply see_under; [exact Ht|exact Hu|by eapply local_work|exact Hs|done|congruence|].
    eapply see_apart; [done|exact Hs|by constructor].
Qed.

(** The object is what the tree shows. *)
Context (Hshown : child U (D :: lows) nm = if e_dir el then SDir (dirs_below U (D :: lows) nm) else SFile el).
Context (Hwhite : whites el = false).

Lemma shown_no_file : at_ U D (WH_PREFIX ++ nm) = None.
Proof using Hu Hshown. eapply child_no_file; [done|]. rewrite Hshown. by destruct (e_dir el). Qed.
Lemma kept_seen V : kept nm D W U el V → as_before U tree V ∨ all_but (path ++ [nm]) U tree V.
Proof using All -nw.
  intros [Hs Hat]. pose proof (elsewhere V Hs) as Hb. pose proof (local_work _ _ _ _ _ _ nm Ht) as HK.
  pose proof shown_no_file as Hn.
  destruct (at_ V D (WH_PREFIX ++ nm)) as [x|] eqn:Ex.
  { right. apply all_but_name; [done|]. eapply see_whited; [done..|]. left. by rewrite Ex. }
  left. destruct Hat as [Hat|(Hf & e & Hk & Hat)].
  - intros cs Hcs. rewrite (see_unchanged U V tree path D W lows nm _ Ht Hu HK Hs); [apply same_seen_refl|done|].
    right. eapply child_kept; [done..|congruence].
  - assert (e_dir el = false) as Hd by (by apply file_ent_dir). rewrite Hd in Hshown.
    assert (e_dir e = false) as Hd'. { unfold e_dir in *. by rewrite (proj1 Hk). }
    apply (as_before_file (path ++ [nm]) _ _ _ el e); [done| | |done].
    + by rewrite see_snoc, (it_dir _ _ _ _ _ _ Ht).
    + eapply see_shown; [done..| |done|done]. by rewrite (same_kind_whites el).
Qed.
End seen.

(** ** The outcomes *)

Section whole.
Context `{F64, DevT, HashOrder} (dir_of : RawFd → option Z) (roots : gset Z).
Context (tree : list Z) (R W Dl : Z) (pp nm : bytes) (el : Ent) (nw : bool) (U : Disk).

(** Nothing else is lost, the work directory aside. *)
Definition spared (V : Disk) : Prop :=
  ∀ d x y, d ≠ W → x ≠ nm → x ≠ WH_PREFIX ++ nm → at_ U d x = Some y → at_ V d x = Some y.
(** [D] is the upper of the directories that are merged at the path [pp]. *)
Definition top (V : Disk) (D : Z) : Prop := ∃ lows, see V tree (comps pp) = SDir (D :: lows).

(** The object is where it was, or a copy of it is in the upper directory; it
    is seen as before, or a whiteout file hides it. *)
Definition object_kept (V : Disk) : Prop :=
  spared V ∧ (at_ V Dl nm = Some el ∨ ∃ D e, top V D ∧ at_ V D nm = Some e ∧ same_kind el e) ∧
  (shows_same U tree V ∨ shows_but (comps pp ++ [nm]) U tree V).
(** The name is gone.  Hidden in the upper directory, when the code makes a
    whiteout: nothing is seen at it and below it.  Else it is only gone from the
    upper directory, and what is seen at it and below is what the directories
    [lows] below the upper one show, as they did. *)
Definition name_gone (V : Disk) : Prop :=
  spared V ∧
  if nw then (∃ D, top V D ∧ whited V D nm) ∧ shows_but (comps pp ++ [nm]) U tree V
  else ∃ lows, see U tree (comps pp) = SDir (Dl :: lows) ∧ see V tree (comps pp) = SDir (Dl :: lows) ∧
    at_ V Dl nm = None ∧ shows_under (comps pp) nm lows U tree V.

Context (Hu : user_name nm) (Hnm : plain nm) (Hel : at_ U Dl nm = Some el) (HDl : Dl ≠ W).

Lemma grown_kept V : grown tree U V → object_kept V.
Proof using All.
  intros [Hl Hk]. split; [intros d x y _ _ _; apply Hk|]. split; [left; by apply Hk|left]. by apply looks_shows.
Qed.

Section settled.
Context (V0 : Disk) (D : Z) (lows : list Z) (Hset : settled tree R W pp U V0 D lows).
(** The tree shows [e0] at the name: the object, or a directory made for it. *)
Context (e0 : Ent) (Hshown : child V0 (D :: lows) nm = if e_dir e0 then SDir (dirs_below V0 (D :: lows) nm) else SFile e0).
Context (Hwhite : whites e0 = false) (He0 : file_ent e0 → e0 = el).
Context (Hlow : nw = false → V0 = U ∧ D = Dl ∧ apart U lows D W).

Lemma spared_in V : same_but (in_place nm D W) V0 V → spared V.
Proof using All.
  intros Hs d x y Hd Hx Hx' Hy. apply (proj2 (se_grown _ _ _ _ _ _ _ _ Hset)) in Hy. rewrite <-Hy.
  apply (same_but_at _ _ _ _ _ Hs). by intros [[_ [?|?]]|?].
Qed.
Lemma top_in V : same_but (in_place nm D W) V0 V → top V D.
Proof using All. intros Hs. exists lows. eapply top_stays; [apply Hset|done..]. Qed.
Lemma kept_lift V : kept nm D W V0 e0 V → object_kept V.
Proof using All.
  intros Hk. pose proof Hk as [Hs Hat]. pose proof Hset as [Ht _ [Hl Hg]].
  split; [by apply spared_in|]. split.
  - destruct Hat as [Hat|(Hf & e & Hke & Hat)]; [left|right; exists D, e; split; [by apply top_in|by rewrite <-(He0 Hf)]].
    destruct (decide (Dl = D)) as [E|Hne]; [rewrite E in *; rewrite Hat; by apply Hg|].
    rewrite (same_but_at _ _ _ _ _ Hs); [by apply Hg|]. by intros [[? _]|?].
  - destruct (kept_seen D W V0 nm e0 tree (comps pp) lows Ht Hu Hshown Hwhite V Hk) as [Hb|Hb].
    + left. by eapply looks_before.
    + right. by eapply looks_all_but.
Qed.
Lemma gone_lift V : gone nm D W nw V0 V → name_gone V.
Proof using All.
  intros Hg. pose proof Hg as [Hs Hnw]. pose proof Hset as [Ht _ [Hl _]].
  split; [by apply spared_in|]. destruct (sumbool_of_bool nw) as [E|E]; rewrite E in Hnw |- *.
  - split; [exists D; split; [by apply top_in|done]|]. eapply looks_all_but; [done|]. by eapply gone_seen.
  - pose proof (shown_no_file D V0 nm e0 lows Hu Hshown) as Hwh. pose proof (top_in V Hs) as Htop.
    destruct (Hlow E) as (E1 & E2 & Hap). rewrite E1, E2 in *. exists lows.
    split_and!; [apply Ht|by eapply top_stays|apply Hnw|]. by eapply gone_under.
Qed.
End settled.

(** ** The request *)

Context (copy_fuel : nat) (config : OverlayConfig) (s : OverlayInner) (n : OvlNode).
Context (u : OvlLayer) (parent_ino : Z) (pid id : NodeId).
Context (Hca : cached dir_of u parent_ino pid id pp nm R W s n) (Hnw : needs_whiteout s n = nw).
Abbreviation DISK := (DISK dir_of roots (λ V, object_kept V ∨ name_gone V) True).

(** After the lookup and, in the case of rmdir, the look for children. *)
Lemma wp_rm_start is_dir (Q : FsResult (option Z) → OverlayInner → Disk → Prop) :
  (is_dir = true → is_loaded n = true) → Q (Err ENOTEMPTY) s U →
  sm_wp DISK
    (try! _ := get_node_up copy_fuel id in
     let! r := do_lookup_file parent_ino None in
     try! pnode_id := sm_ret (ok_or ENOENT r) in
     try! _ := get_node_up copy_fuel pnode_id in
     try! _ := hide_node id true in
     let! inval := drop_child pnode_id nm in
     sm_ret (Ok inval)) s U Q →
  sm_wp DISK (do_rm_inner copy_fuel config parent_ino nm is_dir) s U Q.
Proof using Hca.
  intros Hdir HErr Hk. destruct Hca as [_ _ Hlook (pn & Hpn & Hch) (Hn & _) _ _].
  unfold do_rm_inner. wp_step. unfold do_lookup_file at 1. wp_step. wp_step. rewrite Hlook, Hpn. cbn [mbind option_bind].
  rewrite Hch. apply sm_wp_ret. wp_step. wp_step. cbn [ok_or]. wp_step. wp_step.
  assert (is_whiteout_or_missing s id = false) as ->.
  { unfold is_whiteout_or_missing, contains_key. unfold nodes_get, arena_get in Hn. rewrite Hn.
    by rewrite bool_decide_true by eauto. }
  wp_step. destruct is_dir; [|by apply sm_wp_ret].
  specialize (Hdir eq_refl). wp_step. unfold reload_dir. wp_step. wp_step. rewrite Hn, Hdir. apply sm_wp_ret.
  wp_step. wp_step. apply sm_wp_ret. by destruct (no_visible_child s id).
Qed.

(** What follows when the node is on the upper layer, and with it its directory. *)
Lemma rm_settled V0 D lows e0 s1 V1 e (Q : FsResult (option Z) → OverlayInner → Disk → Prop) :
  settled tree R W pp U V0 D lows →
  child V0 (D :: lows) nm = (if e_dir e0 then SDir (dirs_below V0 (D :: lows) nm) else SFile e0) →
  whites e0 = false → (file_ent e0 → e0 = el) → (nw = false → V0 = U ∧ D = Dl ∧ apart U lows D W) → (nw = false → V1 = V0) →
  (no_link V1 D nm → ready dir_of u parent_ino pid id pp nm R D W nw s1 V1) → at_ V1 D nm = Some e → whites e = false →
  kept nm D W V0 e0 V1 → (at_ V0 D nm = Some e ∨ file_ent e0 ∧ same_kind e0 e) →
  (∀ x, at_ V1 D (WH_PREFIX ++ nm) = Some x → at_ V0 D (WH_PREFIX ++ nm) = Some x) →
  (∀ err s' V, object_kept V → Q (Err err) s' V) → (∀ r s' V, name_gone V → Q (Ok r) s' V) →
  sm_wp DISK
    (let! r := do_lookup_file parent_ino None in
     try! pnode_id := sm_ret (ok_or ENOENT r) in
     try! _ := get_node_up copy_fuel pnode_id in
     try! _ := hide_node id true in
     let! inval := drop_child pnode_id nm in
     sm_ret (Ok inval)) s1 V1 Q.
Proof using All.
  intros Hset Hsh Hw He0 Hlow HV1 Hr Hat Hwe Hk Hor Hwh HErr HOk.
  assert (W ≠ D) as HDW by (eapply tree_apart; apply Hset).
  assert (∀ V, kept nm D W V0 e0 V → object_kept V) as Hkl by (intros V; by apply (kept_lift V0 D lows Hset e0)).
  assert (∀ V, gone nm D W nw V0 V → name_gone V) as Hgl by (intros V; by apply (gone_lift V0 D lows Hset e0)).
  eapply (rm_outcomes dir_of roots _ copy_fuel u parent_ino pid id pp nm R D W nw V0 e0 HDW Hnm) with (e := e); try done.
  - intros V HV. left. by apply Hkl.
  - intros V HV. right. by apply Hgl.
  - apply Hr. intros x Hx%Hwh. by rewrite (shown_no_file D V0 nm e0 lows Hu Hsh) in Hx.
  - intros err s' V HV. by apply HErr, Hkl.
  - intros r s' V HV. by apply HOk, Hgl.
Qed.

Lemma wp_rm_up lows pn is_dir (Q : FsResult (option Z) → OverlayInner → Disk → Prop) :
  layer_idx n = 0%nat → nodes_get s pid = Some pn → layer_idx pn = 0%nat →
  in_tree U tree (comps pp) Dl W lows → walk U R (comps pp) = Some Dl → whites el = false →
  child U (Dl :: lows) nm = (if e_dir el then SDir (dirs_below U (Dl :: lows) nm) else SFile el) →
  (nw = false → apart U lows Dl W) → 0 <= wd_counter s → at_ U W (print_dec (wd_counter s)) = None →
  (is_dir = true → is_loaded n = true) →
  (∀ err s' V, object_kept V → Q (Err err) s' V) → (∀ r s' V, name_gone V → Q (Ok r) s' V) →
  sm_wp DISK (do_rm_inner copy_fuel config parent_ino nm is_dir) s U Q.
Proof using All.
  intros Hz Hpn Hpz Ht Hw Hwe Hsh Hlow Hc Hf Hdir HErr HOk. pose proof Hca as [Hup _ _ _ (Hn & _) _ _].
  apply wp_rm_start; [done|by apply HErr, grown_kept, grown_refl|].
  wp_step. eapply wp_node_is_up; [done..|].
  apply (rm_settled U Dl lows el s U el); try done.
  - split; [done..|apply grown_refl].
  - intros E. by split_and!; [..|apply Hlow].
  - intros Hlink. split; [by exists n|by exists pn|done..].
  - apply kept_refl.
  - by left.
Qed.

Lemma wp_rm_low ids is_dir (Q : FsResult (option Z) → OverlayInner → Disk → Prop) :
  layer_idx n ≠ 0%nat → nw = true → whites el = false →
  copyable dir_of roots (layers s) (workdir_fd s) (get_copy s) U tree id n (pid :: ids) R W Dl pp nm el 1 →
  (is_dir = true → is_loaded n = true) →
  (∀ err s' V, object_kept V → Q (Err err) s' V) → (∀ r s' V, name_gone V → Q (Ok r) s' V) →
  sm_wp DISK (do_rm_inner copy_fuel config parent_ino nm is_dir) s U Q.
Proof using All.
  intros Hz Hnw' Hwe Hcb Hdir HErr HOk.
  pose proof (cb_object _ _ _ _ _ _ _ _ _ _ _ _ _ _ _ _ _ Hcb) as (Hf & _).
  assert (∀ V0 D lows, settled tree R W pp U V0 D lows →
    child V0 (D :: lows) nm = (if e_dir el then SDir (dirs_below V0 (D :: lows) nm) else SFile el)) as Hsh.
  { intros V0 D lows Hs. rewrite file_ent_dir by done. by eapply settled_child. }
  assert (nw = false → False) as Hnwf by congruence.
  apply wp_rm_start; [done|by apply HErr, grown_kept, grown_refl|].
  wp_step. eapply wp_node_copyup; [apply Hca|apply Hca|done|].
  eapply (wp_copyup_deep dir_of roots _ copy_fuel); [exact Hcb| | | |].
  - intros V HV. left. by apply grown_kept.
  - intros V0 D lows e V Hs Hk Hp. left.
    apply (kept_lift V0 D lows Hs el); [by apply Hsh|done|done|intros E; by destruct (Hnwf E)|]. by eapply placed_kept.
  - intros err s' V HV. by apply HErr, grown_kept.
  - intros V0 D lows e s' V [Hs _ _ Hk Hp Htou Hzero (Hc & _ & Hfree)].
    destruct (placed_at roots nm D W V0 e V Hp) as (Hat & Hsb & Hwh).
    destruct (cached_touched _ _ _ _ _ _ _ _ _ _ _ _ _ Hca Htou) as (n' & Hca' & Hnw2).
    apply (rm_settled V0 D lows el (put_copy s' s) V e); try done.
    + by apply Hsh.
    + intros Hlink. split; [exists n'; split; [done|congruence]|apply (Hzero pid); by left| |done| |done].
      * eapply walk_keeps; [by eapply placed_keeps|apply Hs].
      * apply Hfree. cbn. lia.
    + by rewrite (same_kind_whites el e).
    + by eapply placed_kept.
    + by right.
Qed.

Lemma wp_rm_low_dir ids is_dir (Q : FsResult (option Z) → OverlayInner → Disk → Prop) :
  layer_idx n ≠ 0%nat → nw = true → R ∈ roots → W ∈ roots → (∀ x, x ∈ tree → x ∈ roots) →
  site (layers s) tree R W (get_copy s) U (id :: pid :: ids) (child_path pp nm) →
  room W (get_copy s) U (length (pid :: ids) + 3) →
  low_dir dir_of roots (layers s) (get_copy s) U id pid n pp Dl el →
  (is_dir = true → is_loaded n = true) →
  (∀ err s' V, object_kept V → Q (Err err) s' V) → (∀ r s' V, name_gone V → Q (Ok r) s' V) →
  sm_wp DISK (do_rm_inner copy_fuel config parent_ino nm is_dir) s U Q.
Proof using All.
  intros Hz Hnw' HRr HWr Htree Hsite Hroom Hld Hdir HErr HOk.
  pose proof Hca as [Hup [HR HW] _ _ (Hn & Hname & _) _ _]. pose proof (upper_layer_first _ _ Hup) as [Hl0 Hlow].
  apply wp_rm_start; [done|by apply HErr, grown_kept, grown_refl|].
  wp_step. eapply wp_node_copyup; [apply Hca|apply Hca|done|]. rewrite <-Hname in Hsite.
  eapply (wp_copyup_dir dir_of roots _ copy_fuel (layers s) (workdir_fd s) u tree R W); try done;
    [by rewrite head_lookup|intros V HV; left; by apply grown_kept|intros err c V HV; by apply HErr, grown_kept|].
  rewrite Hname. intros c V i dd [Hti Hwi Hg] [_ (path0 & nm0 & D & lows & Epath & Ht & Hw & Hat & Hwh)] Htou Hzero (Hc & _ & Hfree).
  rewrite comps_child in Epath by done. apply app_inj_tail in Epath as [<- <-].
  destruct (cached_touched _ _ _ _ _ _ _ _ _ _ _ _ _ Hca Htou) as (n' & Hca' & Hnw2).
  assert (whites (new_dir_ent i) = false) as Hwe.
  { destruct (whites (new_dir_ent i)) eqn:E; [|done]. by apply whites_not_dir in E. }
  apply (rm_settled V D lows (new_dir_ent i) (put_copy c s) V (new_dir_ent i)); try done.
  - change (e_dir (new_dir_ent i)) with true. cbv iota. pose proof (it_dir _ _ _ _ _ _ Hti) as E. rewrite comps_child, see_snoc, (it_dir _ _ _ _ _ _ Ht) in E by done.
    rewrite E. by rewrite <-(child_dirs _ _ _ _ E).
  - intros Hf. by apply file_ent_dir in Hf.
  - congruence.
  - intros Hlink. split; [exists n'; split; [done|congruence]|apply (Hzero pid); by right|done|done| |done].
    apply Hfree. cbn. lia.
  - apply kept_refl.
  - by left.
Qed.
End whole.

(** What a removal needs: the child is cached, and its object [el], in the
    directory [Dl], is what the tree of the layers, with the roots [tree],
    shows.  It may be on the upper layer; then the next name in the work
    directory is free, and if no whiteout is called for, nothing is below the
    name.  Or it is a file or a directory of a lower layer that can be copied up,
    with the directories above it. *)
Inductive removable `{DevT, HashOrder} dir_of roots (s : OverlayInner) (U : Disk) (tree : list Z) (parent_ino : Z)
    (nm pp : bytes) (W Dl : Z) (n : OvlNode) (el : Ent) : Prop :=
| removable_up u pid id R lows pn :
    cached dir_of u parent_ino pid id pp nm R W s n → layer_idx n = 0%nat →
    nodes_get s pid = Some pn → layer_idx pn = 0%nat →
    in_tree U tree (comps pp) Dl W lows → walk U R (comps pp) = Some Dl → at_ U Dl nm = Some el →
    child U (Dl :: lows) nm = (if e_dir el then SDir (dirs_below U (Dl :: lows) nm) else SFile el) →
    (needs_whiteout s n = false → apart U lows Dl W) →
    0 <= wd_counter s → at_ U W (print_dec (wd_counter s)) = None →
    removable dir_of roots s U tree parent_ino nm pp W Dl n el
| removable_low u pid id R ids :
    cached dir_of u parent_ino pid id pp nm R W s n → layer_idx n ≠ 0%nat → needs_whiteout s n = true →
    copyable dir_of roots (layers s) (workdir_fd s) (get_copy s) U tree id n (pid :: ids) R W Dl pp nm el 1 →
    Dl ≠ W → removable dir_of roots s U tree parent_ino nm pp W Dl n el
| removable_low_dir u pid id R ids :
    cached dir_of u parent_ino pid id pp nm R W s n → layer_idx n ≠ 0%nat → needs_whiteout s n = true →
    R ∈ roots → W ∈ roots → (∀ x, x ∈ tree → x ∈ roots) →
    site (layers s) tree R W (get_copy s) U (id :: pid :: ids) (child_path pp nm) →
    room W (get_copy s) U (length (pid :: ids) + 3) →
    low_dir dir_of roots (layers s) (get_copy s) U id pid n pp Dl el →
    Dl ≠ W → removable dir_of roots s U tree parent_ino nm pp W Dl n el.

Lemma removable_object `{DevT, HashOrder} dir_of roots s U tree parent_ino nm pp W Dl n el :
  removable dir_of roots s U tree parent_ino nm pp W Dl n el → at_ U Dl nm = Some el ∧ Dl ≠ W ∧ whites el = false.
Proof.
  intros [u pid id R lows pn _ _ _ _ Ht _ Hel Hsh _ _ _|u pid id R ids _ _ _ Hcb Hne|u pid id R ids Hca _ _ _ _ _ _ _ Hld Hne].
  - split; [done|]. split; [intros ->; by eapply tree_apart|]. destruct (whites el) eqn:Ew; [|done].
    apply whites_not_dir in Ew as Hd. rewrite Hd in Hsh. apply child_file in Hsh as [? _]. congruence.
  - pose proof Hcb as [_ _ _ _ (l & Rl & _ & _ & _ & _ & Hel) Hsee _]. split; [done|]. split; [done|].
    rewrite see_snoc in Hsee. destruct (see U tree (comps pp)); [done..|]. by apply child_file in Hsee as [? _].
  - destruct Hld as [_ _ (l & Rl & _ & _ & _ & _ & Hel & Hty)]. destruct Hca as [_ _ _ _ (_ & Hname & _) _ _].
    rewrite Hname in Hel. split; [done|]. split; [done|]. destruct (whites el) eqn:Ew; [|done].
    apply whites_not_dir in Ew. unfold e_dir in Ew. by rewrite Hty, Z.eqb_refl in Ew.
Qed.

(** C7. A removal removes the name or nothing, and this is what is seen of it.
    When unlink or rmdir succeeds and the code has seen a lower layer under the
    node or its directory ([needs_whiteout]), a whiteout hides the name in the
    upper directory: the overlay shows nothing at it and below it. When the code
    has not, the name is only gone from the upper directory, and the overlay
    shows at it, and below it, what the directories below the upper one show
    there, as they did: nothing if they have nothing, and the old object of a
    lower layer if they have one. When the request fails, the object is where it
    was, or a copy of it is on the upper layer, and the overlay shows what it
    showed, or a whiteout file hides the object. It is one or the other at every
    call, so after a crash too. At every other path the overlay shows what it
    showed, the directories of a path aside, and no entry is lost but the name,
    its whiteout file and what is in the work directory. The object may be of
    the upper layer, with its directory, or a file or directory of a lower layer
    at any depth, which is copied up first with the directories above it. The
    child is cached and the tree of the layers shows it; a directory to be
    removed has been loaded; the names that are next in the work directory are
    free; what the lower directories lead to is neither the upper directory nor
    the work directory. *)
Theorem removal_is_seen `{F64, DevT, HashOrder} (dir_of : RawFd → option Z) (roots : gset Z)
    (copy_fuel : nat) (config : OverlayConfig) (s : OverlayFs) (U : Disk) (tree : list Z) (parent_ino : Z)
    (nm pp : bytes) (is_dir : bool) (W Dl : Z) (n : OvlNode) (el : Ent)
    (Hnm : plain nm) (Hu : user_name nm)
    (Hrm : removable dir_of roots (inner s) U tree parent_ino nm pp W Dl n el)
    (Hloaded : is_dir = true → is_loaded n = true) :
  let kept := object_kept tree W Dl pp nm el U in
  let gone := name_gone tree W Dl pp nm (needs_whiteout (inner s) n) U in
  sm_wp (DISK dir_of roots (λ V, kept V ∨ gone V) True) (do_rm copy_fuel config parent_ino nm is_dir) s U
    (λ r _ V, match r with Ok _ => gone V | Err _ => kept V end).
Proof.
  intros kept gone. destruct (removable_object _ _ _ _ _ _ _ _ _ _ _ _ Hrm) as (Hel & HDl & Hw).
  unfold do_rm. wp_step. apply sm_wp_zoom.
  assert (∀ r s' V, gone V → sm_wp (DISK dir_of roots (λ V, kept V ∨ gone V) True)
    (let! s := sm_get in
     match r with
     | Some fuse_ino => if notifier s then let! _ := sm_call (InvalInode fuse_ino) in sm_ret (Ok ROk) else sm_ret (Ok ROk)
     | None => sm_ret (Ok ROk)
     end) (set_inner s' s) V (λ (r : FsResult Reply) _ V, match r with Ok _ => gone V | Err _ => kept V end)) as Hend.
  { intros r s' V HV. assert (kept V ∨ gone V) as HI by (by right). wps; try done.
    apply wp_disk; [done|]. intros [[]|e] V' ->; by apply sm_wp_ret. }
  destruct Hrm as [u pid id R lows pn Hca Hz Hpn Hpz Ht Hwk _ Hsh Hlow Hc Hf|u pid id R ids Hca Hz Hnw Hcb _|
    u pid id R ids Hca Hz Hnw HR HW Htree Hsite Hroom Hld _].
  - eapply (wp_rm_up dir_of roots tree R W Dl pp nm el _ U Hu Hnm Hel HDl); [exact Hca|done..|].
    intros r s' V HV. by apply Hend.
  - eapply (wp_rm_low dir_of roots tree R W Dl pp nm el _ U Hu Hnm Hel HDl); [exact Hca|done..|].
    intros r s' V HV. by apply Hend.
  - eapply (wp_rm_low_dir dir_of roots tree R W Dl pp nm el _ U Hu Hnm Hel HDl); [exact Hca|done..|].
    intros r s' V HV. by apply Hend.
Qed.

(** ** Where a rename makes no whiteout

    A kernel without RENAME_WHITEOUT, at a name that has an object which is no
    whiteout: [mknod] says that it exists. *)
Section taken.
Context `{DevT}.
Definition taken_post (u : unit) (c : sys) : resp c → unit → Prop :=
  match c with
  | Renameat2 _ _ _ _ fl => λ r _, fl = RENAME_WHITEOUT → is_ok r = false
  | Mknodat _ _ _ _ => λ r _, r = Err EEXIST
  | Fstatat _ _ _ => λ r _, ∀ st, r = Ok st → is_chardev_whiteout st = false
  | _ => λ _ _, True
  end.
Definition TAKEN : policy :=
  {| ghost := unit; pol_pre := λ _ _, True; pol_post := taken_post; pol_diverge := True; pol_panic := False |}.

Definition refused {A} (r : FsResult A) : Prop := ∃ e, r = Err e.
Lemma refused_err {A} e : refused (Err e : FsResult A).
Proof using. by exists e. Qed.

Lemma taken_open {S A} d path fl mode (k : RawFd → SM S (FsResult A)) (s : S) (Q : FsResult A → S → unit → Prop) :
  (∀ e, Q (Err e) s tt) → (∀ fd, sm_wp TAKEN (k fd) s tt Q) →
  sm_wp TAKEN (sm_try (safe_openat d path fl mode) k) s tt Q.
Proof using.
  intros HErr Hk. wp_step. unfold safe_openat, syscall_openat2. do 3 wp_step; [|apply HErr].
  apply sm_wp_call; [done|]. intros [fd|e] [] _; [apply Hk|apply HErr].
Qed.
Lemma taken_parent {S A} d path (k : option RawFd * RawFd * bytes → SM S (FsResult A)) (s : S)
    (Q : FsResult A → S → unit → Prop) :
  (∀ e, Q (Err e) s tt) → (∀ x, sm_wp TAKEN (k x) s tt Q) →
  sm_wp TAKEN (sm_try (open_parent_safe_cstr d path) k) s tt Q.
Proof using.
  intros HErr Hk. wp_step. unfold open_parent_safe_cstr. wp_step. unfold open_parent_safe.
  destruct (rsplit_once SLASH path) as [[parent base]|].
  - apply taken_open; [done|]. intros fd. repeat wp_step; [apply Hk|apply HErr].
  - repeat wp_step; [apply Hk|apply HErr].
Qed.
Lemma taken_whiteout d pp nm (b : bool) :
  sm_wp TAKEN (create_whiteout d pp nm true) b tt (λ r _ _, refused r).
Proof using.
  assert (∀ pfd, sm_wp TAKEN
    (try! c_name := sm_ret (cstr_bytes nm) in
     let! r := sm_call (Mknodat pfd c_name (Z.lor S_IFCHR MODE_700) (makedev 0 0)) in
     match r with
     | Ok _ => sm_ret (Ok tt)
     | Err e =>
         if e =? EEXIST then
           let! r := sm_call (Fstatat pfd c_name AT_SYMLINK_NOFOLLOW) in
           match r with
           | Ok st => sm_ret (if is_chardev_whiteout st then Ok tt else Err EEXIST)
           | Err _ => sm_ret (Err EEXIST)
           end
         else if (e =? EPERM) || (e =? ENOTSUP) then sm_modify (λ _, false) ;;; create_wh_file pfd nm
         else sm_ret (Err e)
     end) b tt (λ r _ _, refused r)) as Hrest.
  { intros pfd. do 3 wp_step; [|apply refused_err]. wp_step. apply sm_wp_call; [done|]. intros r [] ->.
    rewrite Z.eqb_refl. wp_step. apply sm_wp_call; [done|]. intros [st|e] [] Hr; apply sm_wp_ret; [|apply refused_err].
    rewrite (Hr st eq_refl). apply refused_err. }
  unfold create_whiteout. wp_step. case_bool_decide; cbn [negb]; [by apply sm_wp_ret, Hrest|].
  apply taken_open; [intros; apply refused_err|]. intros fd. apply sm_wp_ret, Hrest.
Qed.

End taken.
