(* ===== verification/Creating.v ===== *)
(** * Creating an object (mknod, mkdir and symlink of src/src/overlay.rs)

    The object is made in the work directory and renamed in place, so at every
    call the upper layer is as it was or has the whole object; what each
    outcome leaves on the disk, under the policy [DISK]. *)

From S2P Require Import Prelude Libc Mapping Xattr ConfigData Sys Openat2 Node Tree DataSource Provenance Whiteout.
From S2P Require Import Layer Copyup SafeCopy Overlay SafeInner Merge Disk Effects Visible CopyDisk.
From S2P Require Import Ops OpsTree OpsFile Requests Flags.
Local Open Scope Z_scope.

(** The flags [create] opens with ask for a creation. *)
Lemma creat_kept wb flags :
  (Z.land (adjust_flags wb (Z.lor (Z.lor flags O_CREAT) O_NOFOLLOW)) O_CREAT =? 0) = false.
Proof.
  apply Z.eqb_neq. intros E. apply (f_equal (λ z, Z.testbit z 6)) in E.
  rewrite Z.land_spec, Z.bits_0 in E. change (Z.testbit O_CREAT 6) with true in E. rewrite andb_true_r in E.
  change (adjust_flags wb (Z.lor (Z.lor flags O_CREAT) O_NOFOLLOW)) with (opened_flags wb (Z.lor flags O_CREAT)) in E.
  rewrite opened_bit in E by lia. cbv zeta in E. rewrite Z.lor_spec in E.
  change (Z.testbit O_CREAT 6) with true in E. rewrite orb_true_r in E. cbn in E.
  destruct wb; [|done]. by destruct (_ =? O_WRONLY).
Qed.

(** A new node is registered, whatever the state. *)
Section registering.
Context `{F64, DevT, HashOrder} (dir_of : RawFd → option Z) (roots : gset Z) (Inv : Disk → Prop).
Abbreviation DISK := (DISK dir_of roots Inv True).
Lemma wp_do_register id ino dev mode s V (Q : option Z → OverlayInner → Disk → Prop) :
  (∀ r t, Q r (set_inodes t s) V) → sm_wp DISK (do_register id ino dev mode) s V Q.
Proof using.
  intros HQ. unfold do_register. wp_step. wp_step. wp_step. apply sm_wp_fuel; [done|].
  intros [r t] _. wps. apply HQ.
Qed.
Lemma wp_create_and_register id x st is_dir s V (Q : option (NodeId * Z) → OverlayInner → Disk → Prop) :
  (∀ r s', Q r s' V) → sm_wp DISK (create_and_register_child id x st is_dir) s V Q.
Proof using.
  intros HQ. unfold create_and_register_child, do_insert, do_inc_lookup, alter_node. wps; try apply HQ.
  apply wp_do_register. intros r t. wps; apply HQ.
Qed.
End registering.

Section creating.
Context `{F64, DevT, HashOrder} (dir_of : RawFd → option Z) (roots : gset Z) (Inv : Disk → Prop).
Context (copy_fuel : nat) (config : OverlayConfig).
Abbreviation DISK := (DISK dir_of roots Inv True).
Implicit Types (s : OverlayInner) (U V : Disk).

Context (u : OvlLayer) (wfd : RawFd) (R D W : Z) (U : Disk) (pid : NodeId) (pp nm : bytes).
Context (Hwork : dir_of wfd = Some W) (Hupper : dir_of (root_fd (ds u)) = Some R).
Context (HR : R ∈ roots) (HW : W ∈ roots).
Context (Hwalk : walk U R (comps pp) = Some D) (HDW : W ≠ D) (Hnm : plain nm).
Context (Hold : ∀ x, at_ U D nm = Some x → e_dir x = false).

(** Directories that were not there before. *)
Definition newd (d : Z) : Prop := new_id roots U d.

(** Nothing but the work directory and new directories has changed. *)
Definition unmade (V : Disk) : Prop := same_but (λ d _, d = W ∨ newd d) U V.
(** The name has a new object, of which [P] holds. *)
Definition made (P : Ent → Disk → Prop) (V : Disk) : Prop :=
  ∃ e, at_ V D nm = Some e ∧ newd (e_id e) ∧ P e V ∧
    same_but (λ d x, own D nm d x ∨ d = W ∨ newd d) U V ∧
    (at_ V D (WH_PREFIX ++ nm) = at_ U D (WH_PREFIX ++ nm) ∨ at_ V D (WH_PREFIX ++ nm) = None).
(** The object [e] is in the work directory under the name [wd]. *)
Definition built (wd : bytes) (e : Ent) (V : Disk) : Prop :=
  at_ U W wd = None ∧ newd (e_id e) ∧ at_ V W wd = Some e ∧ unmade V ∧ keeps_dirs U V.

Lemma W_old : ¬ newd W.
Proof using All. by intros (HnW & _). Qed.
Lemma D_old : ¬ newd D.
Proof using All. intros Hd. by apply (walk_not_new roots U D R (comps pp) D). Qed.
Lemma unmade_refl : unmade U.
Proof using All. apply same_but_refl. Qed.
Lemma unmade_at V x : unmade V → at_ V D x = at_ U D x.
Proof using All. intros Hs. apply (same_but_at _ _ _ _ _ Hs). intros [->|Hd]; [done|by apply D_old]. Qed.
Lemma unmade_work V x e : unmade V → unmade (put W x e V).
Proof using All. intros Hs. eapply same_but_trans; [done|]. apply same_but_put. by left. Qed.
Lemma unmade_del V x : unmade V → unmade (del W x V).
Proof using All. intros Hs. eapply same_but_trans; [done|]. apply same_but_del. by left. Qed.

Lemma built_new wd i t rdev : at_ U W wd = None → new_id roots U i →
  built wd {| e_id := i; e_type := t; e_rdev := rdev |} (put W wd {| e_id := i; e_type := t; e_rdev := rdev |} U).
Proof using All.
  intros Hfree Hi. split_and!; [done|done|apply at_put|by apply unmade_work, unmade_refl|].
  by apply keeps_dirs_put.
Qed.
Lemma built_walk wd e V : built wd e V → walk V R (comps pp) = Some D.
Proof using All. intros (_ & _ & _ & _ & Hk). by eapply walk_keeps. Qed.

Context (HI : ∀ V, unmade V → Inv V).

(** Clearing up after a failure. *)
Lemma wp_remove_work {A S} wd flags (a : A) (s : S) V (Q : A → S → Disk → Prop) :
  unmade V → plain wd → (∀ V', unmade V' → Q a s V') →
  sm_wp DISK (let! _ := sm_call (Unlinkat wfd wd flags) in sm_ret a) s V Q.
Proof using All.
  intros HV Hwd HQ. wp_step. apply wp_disk; [by apply HI|]. intros [[]|err] V' Hr; wp_step; apply HQ;
    destruct (Hr Hwd) as (HE & _ & Hok); [|by rewrite (HE _ eq_refl)].
  destruct (Hok eq_refl) as (W' & x & HW' & _ & _ & ->). assert (W' = W) as -> by congruence.
  by apply unmade_del.
Qed.

(** The rename into place, from a disk that has the object. *)
Lemma rename_into_place wd e dst V V' r :
  built wd e V → plain wd → dir_of dst = Some D →
  renames dir_of V wfd wd dst nm (λ _ U1 U', U' = U1) r V' →
  (r = Ok tt → V' = put D nm e (del W wd V)) ∧ (∀ err, r = Err err → V' = V).
Proof using All.
  intros (Hfree & Hi & Hat & HV & Hk) Hwd Hdst Hr. destruct (Hr Hwd Hnm) as [HE Hok]. split; [|apply HE].
  intros ->. destruct (Hok eq_refl) as (W' & D' & e' & HW' & HD' & He' & _ & ->).
  assert (W' = W) as -> by congruence. assert (D' = D) as -> by congruence.
  assert (e' = e) as -> by congruence. unfold moved. rewrite decide_False; [done|].
  rewrite unmade_at by done. destruct (at_ U D nm) as [x|] eqn:Ex; [|done]. intros [= Eid].
  destruct Hi as (_ & _ & Hi). by destruct (Hi _ _ _ Ex).
Qed.

Lemma placed_made P wd e V : built wd e V → (P e (put D nm e (del W wd V))) → made P (put D nm e (del W wd V)).
Proof using All.
  intros (Hfree & Hi & Hat & HV & Hk) HP. exists e. split_and!; [apply at_put|done|done| |].
  - eapply same_but_trans; [eapply same_but_mono; [|exact HV]; by right|].
    eapply same_but_trans; [|apply same_but_put; left; split; [done|by left]].
    apply same_but_del. right. by left.
  - left. rewrite at_put_ne, at_del_ne by (first [congruence|intros [_ E]%pair_eq; symmetry in E; by apply wh_ne in E]).
    by apply unmade_at.
Qed.

(** [place_file] moves the object in place, or leaves the upper layer alone. *)
Lemma disk_place_file wd e s V (Q : FsResult RawFd → OverlayInner → Disk → Prop) :
  workdir_fd s = wfd → built wd e V → plain wd →
  (∀ dst, dir_of dst = Some D → Q (Ok dst) s (put D nm e (del W wd V))) →
  (∀ err V', unmade V' → Q (Err err) s V') →
  sm_wp DISK (place_file (root_fd (ds u)) wd (child_path pp nm)) s V Q.
Proof using All.
  intros Hs Hb Hwd HOk HErr. pose proof Hb as (_ & _ & _ & HV & _).
  unfold place_file. wp_step. wp_step. rewrite Hs. wp_step.
  eapply wp_open_parent; [by apply HI|done|by eapply built_walk|done| |].
  2: { intros err. apply (wp_remove_work wd 0); [done|done|]. intros V'. apply HErr. }
  intros g dst Hdst. cbv beta iota. wp_step. apply wp_disk; [by apply HI|]. intros r V' Hr.
  destruct (rename_into_place wd e dst V V' r Hb Hwd Hdst Hr) as [Hok Herr]. destruct r as [[]|err].
  - rewrite (Hok eq_refl). apply sm_wp_ret. by apply HOk.
  - rewrite (Herr _ eq_refl). apply (wp_remove_work wd 0); [done|done|]. intros V2. apply HErr.
Qed.

(** ** After the rename *)

Context (Hsrc : DiskSource dir_of roots Inv True (ds u)).

Lemma wp_stat_and_register s V (Q : FsResult (Z * FileAttr) → OverlayInner → Disk → Prop) :
  upper_layer s = Some u → Inv V → walk V R (comps pp) = Some D → (∀ r s', Q r s' V) →
  sm_wp DISK (stat_and_register_child pid nm (child_path pp nm)) s V Q.
Proof using All.
  intros Hu HV HwV HQ. apply upper_layer_head in Hu as [Hu _]. rewrite head_lookup in Hu.
  unfold stat_and_register_child, layer_at. do 3 wp_step. apply sm_wp_index. exists u. split; [done|].
  wp_step. apply sm_wp_stateless. eapply (@ds_statat _ dir_of roots Inv True _ Hsrc); [done|done|done|done|].
  intros [st|err] [Ht _]; [|apply HQ]. wp_step. apply wp_create_and_register. intros r s'. wp_step; [|apply HQ].
  wp_step. wp_step. apply sm_wp_expect. destruct (stat_to_attr_ok st (Ht st eq_refl)) as [a Ha].
  exists a. split; [done|]. apply sm_wp_ret, HQ.
Qed.

(** What the object is, beyond its entry: [P] does not depend on the names of
    the directory. *)
Context (P : Ent → Disk → Prop) (HPw : ∀ e V, P e V → whites e = false).
Context (HP : ∀ e V V', P e V → newd (e_id e) → same_but (own D nm) V V' → P e V').
Context (HI' : ∀ V, made P V → Inv V).

Lemma made_removes V V' : made P V → removes (own D nm) V V' →
  (∀ e, at_ V D nm = Some e → whites e = false → at_ V' D nm = Some e) → made P V'.
Proof using All.
  intros (e & Hat & Hi & He & Hs & Hwh) (Hs' & _ & Hsub) Hkeep. exists e.
  split_and!; [by eapply Hkeep, HPw|done|by eapply HP| |].
  - eapply same_but_trans; [done|]. eapply same_but_mono; [|done]. by left.
  - destruct (at_ V' D (WH_PREFIX ++ nm)) as [x|] eqn:Ex; [|by right]. left.
    apply Hsub in Ex. rewrite Ex in Hwh. by destruct Hwh.
Qed.

(** From the object in place on, whatever happens. *)
Lemma wp_finish_entry dst s V (Q : FsResult FileAttr → OverlayInner → Disk → Prop) :
  upper_layer s = Some u → dir_of dst = Some D → made P V → walk V R (comps pp) = Some D →
  (∀ r s' V', made P V' → Q r s' V') →
  sm_wp DISK (finish_entry pid pp (root_fd (ds u)) dst nm (child_path pp nm)) s V Q.
Proof using All.
  intros Hu Hdst HV HwV HQ. unfold finish_entry. wp_step. unfold do_delete_whiteout. apply sm_wp_zoom.
  eapply (disk_delete_whiteout dir_of roots Inv True _ R _ _ _ D); [done|done|by intros d [= <-]|done| |].
  - intros V' Hr Hk. apply HI'. by eapply made_removes.
  - intros r V' Hr _ Hk. cbn [CAN_MKNOD]. wp_step.
    assert (made P V') as Hm by (by eapply made_removes).
    apply wp_stat_and_register; [done|by apply HI'|by eapply walk_keeps; [apply Hr|]|].
    intros r' s'. wps; by apply HQ.
Qed.

(** ** The requests *)

(** The parent is cached and on the upper layer, and is known to have no such
    name; the next work name is free. *)
Context (parent_ino : Z) (req : Request).
Record creatable s : Prop := {
  ct_upper : upper_layer s = Some u;
  ct_work : workdir_fd s = wfd;
  ct_lookup : lookup_node_id s parent_ino = Some pid;
  ct_dir : ∃ pn, nodes_get s pid = Some pn ∧ get_child pn nm = None ∧ layer_idx pn = 0%nat ∧
             (is_whiteout pn nm = true ∨ is_loaded pn = true);
  ct_path : compute_path (nodes s) pid = Some pp;
  ct_count : 0 <= wd_counter s;
  ct_free : at_ U W (print_dec (wd_counter s)) = None
}.
Context (s : OverlayInner) (Hct : creatable s).
Context (Q : FsResult FileAttr → OverlayInner → Disk → Prop).
Context (HErr : ∀ err s' V, unmade V → Q (Err err) s' V) (HQ : ∀ r s' V, made P V → Q r s' V).

Lemma calm_namemax s' : calm True get_fs_namemax s'.
Proof using All. unfold get_fs_namemax. calms. Qed.

Lemma wp_check_new_name {A} (k : unit → InnerM (FsResult A)) (Q' : FsResult A → OverlayInner → Disk → Prop) :
  (∀ err, Q' (Err err) s U) → sm_wp DISK (k tt) s U Q' →
  sm_wp DISK (sm_try (check_new_name parent_ino nm) k) s U Q'.
Proof using All.
  intros HE Hk. destruct Hct. destruct ct_dir0 as (pn & Hpn & Hch & _ & Hno).
  wp_step. unfold check_new_name. wp_step. apply wp_calm; [apply calm_namemax|apply HI, unmade_refl|].
  intros n. wp_step; [by apply sm_wp_ret|]. wp_step. unfold do_lookup_file. wp_step. wp_step.
  rewrite ct_lookup0, Hpn. cbn [mbind option_bind]. rewrite Hch. cbn [fmap option_fmap option_map default].
  destruct (is_whiteout pn nm) eqn:Ewh; [by wps|]. destruct Hno as [|Hno]; [congruence|]. rewrite Hno. by wps.
Qed.
Lemma disk_prepare {A} (k : NodeId * bytes * RawFd * bytes → InnerM (FsResult A))
    (Q' : FsResult A → OverlayInner → Disk → Prop) :
  (∀ err, Q' (Err err) s U) → sm_wp DISK (k (pid, pp, root_fd (ds u), child_path pp nm)) s U Q' →
  sm_wp DISK (sm_try (prepare_create_parent copy_fuel parent_ino nm) k) s U Q'.
Proof using All.
  intros HE Hk. destruct Hct. destruct ct_dir0 as (pn & Hpn & Hch & Hpl & Hno).
  apply upper_layer_head in ct_upper0 as Hul. destruct Hul as [Hu0 Hlow]. rewrite head_lookup in Hu0.
  wp_step. unfold prepare_create_parent, do_lookup_file. wp_step. wp_step. wp_step. rewrite ct_lookup0. apply sm_wp_ret.
  wp_step. wp_step. cbn [ok_or]. wp_step. unfold get_node_up. wp_step. wp_step. rewrite ct_upper0. unfold node, layer.
  wp_step. wp_step. rewrite Hpn. cbn [ok_or]. wp_step. wp_step. rewrite Hu0. cbn [ok_or].
  rewrite Hpl, Hlow. cbn [Nat.eqb andb negb]. apply sm_wp_ret. wp_step. eapply disk_node_path; [done|]. wp_step. unfold layer_at.
  wp_step. wp_step. apply sm_wp_index. exists u. split; [done|]. by apply sm_wp_ret.
Qed.
Lemma wp_inherit_acl fd s' V (Q' : unit → OverlayInner → Disk → Prop) :
  nodes_get s' pid = nodes_get s pid → layers s' = layers s → Inv V → Q' tt s' V →
  sm_wp DISK (inherit_acl config pid fd) s' V Q'.
Proof using All.
  intros Hn Hl HV HQ'. unfold inherit_acl. wp_step; [by apply sm_wp_ret|].
  wp_step. unfold node_path. wp_step. wp_step. apply sm_wp_fuel; [done|]. intros path _. wp_step. wp_step.
  destruct Hct. destruct ct_dir0 as (pn & Hpn & _ & Hpl & _).
  apply upper_layer_head in ct_upper0 as [Hu0 _]. rewrite head_lookup in Hu0.
  assert (node_and_layer s' pid = Ok (pn, u)) as ->.
  { unfold node_and_layer, node, layer. rewrite Hn, Hpn. cbn. by rewrite Hpl, Hl, Hu0. }
  wp_step. apply wp_source; [apply q_getxattr|done|].
  intros r. wps; try done. apply wp_disk; [done|]. intros r' V' [_ ->]. by wps.
Qed.

Lemma wp_next_wd_counter s' V (Q' : Z → OverlayInner → Disk → Prop) :
  Q' (wd_counter s') (set_wd_counter (wrap_u64 (wd_counter s' + 1)) s') V →
  sm_wp DISK next_wd_counter s' V Q'.
Proof using All. intros HQ'. unfold next_wd_counter. by wps. Qed.

Lemma placed_walk wd e V : built wd e V → walk (put D nm e (del W wd V)) R (comps pp) = Some D.
Proof using All.
  intros (Hfree & _ & _ & _ & Hk). eapply walk_keeps; [|exact Hwalk]. intros d x y Hy Hd.
  rewrite at_put_ne, at_del_ne; [by apply Hk| |]; intros [= <- <-]; [congruence|].
  by rewrite (Hold _ Hy) in Hd.
Qed.

Lemma wp_place_and_finish wd e s' V :
  upper_layer s' = Some u → workdir_fd s' = wfd → built wd e V → plain wd →
  P e (put D nm e (del W wd V)) →
  sm_wp DISK (try! dst_dirfd := place_file (root_fd (ds u)) wd (child_path pp nm) in
              finish_entry pid pp (root_fd (ds u)) dst_dirfd nm (child_path pp nm)) s' V Q.
Proof using All.
  intros Hu Hw Hb Hwd HPe. wp_step. eapply disk_place_file; [done..| |by intros; apply HErr].
  intros dst Hdst. apply wp_finish_entry; [done|done|by eapply placed_made|by eapply placed_walk|done].
Qed.

Lemma wp_mknod_inner mode rdev :
  (∀ i V, P {| e_id := i; e_type := node_type (Z.lor mode MODE_755); e_rdev := rdev |} V) →
  sm_wp DISK (mknod_inner copy_fuel config req parent_ino nm mode rdev) s U Q.
Proof using All.
  intros HPe. assert (∀ err s', Q (Err err) s' U) as HE by (intros; apply HErr, unmade_refl).
  pose proof Hct as [Hu Hw _ _ _ Hc Hf].
  unfold mknod_inner. apply wp_check_new_name; [done|]. apply disk_prepare; [done|].
  wp_step. apply wp_next_wd_counter. set (s1 := set_wd_counter _ s). cbv zeta. do 3 wp_step.
  change (workdir_fd s1) with (workdir_fd s). rewrite Hw.
  apply wp_disk; [apply HI, unmade_refl|]. intros [[]|err] V Hr; destruct (Hr (plain_print _ Hc)) as [HEr Hok];
    [|rewrite (HEr _ eq_refl); apply HE].
  destruct (Hok eq_refl) as (W' & i & HW' & _ & Hi & ->). assert (W' = W) as -> by congruence.
  pose proof (built_new _ i (node_type (Z.lor mode MODE_755)) rdev Hf Hi) as Hb.
  set (V := put W _ _ U) in *. pose proof Hb as (_ & _ & _ & HV & _).
  wp_step. wp_step. apply wp_disk; [by apply HI|]. intros r2 V2 ->.
  wp_step. apply wp_calm; [by apply calm_safe_openat|by apply HI|]. intros r3.
  wp_step. destruct r3 as [fd|err].
  - apply wp_inherit_acl; [done|done|by apply HI|]. eapply wp_place_and_finish; [done|done|exact Hb|by apply plain_print|apply HPe].
  - apply sm_wp_ret. eapply wp_place_and_finish; [done|done|exact Hb|by apply plain_print|apply HPe].
Qed.

Lemma wp_symlink_inner link :
  (∀ i V, P {| e_id := i; e_type := S_IFLNK; e_rdev := 0 |} V) →
  sm_wp DISK (symlink_inner copy_fuel config req parent_ino nm link) s U Q.
Proof using All.
  intros HPe. assert (∀ err s', Q (Err err) s' U) as HE by (intros; apply HErr, unmade_refl).
  pose proof Hct as [Hu Hw _ _ _ Hc Hf].
  unfold symlink_inner. apply wp_check_new_name; [done|]. apply disk_prepare; [done|].
  wp_step. apply wp_next_wd_counter. set (s1 := set_wd_counter _ s). cbv zeta. do 5 wp_step; [|apply HE].
  change (workdir_fd s1) with (workdir_fd s). rewrite Hw. wp_step.
  apply wp_disk; [apply HI, unmade_refl|]. intros [[]|err] V Hr; destruct (Hr (plain_print _ Hc)) as [HEr Hok];
    [|rewrite (HEr _ eq_refl); apply HE].
  destruct (Hok eq_refl) as (W' & i & HW' & _ & Hi & ->). assert (W' = W) as -> by congruence.
  pose proof (built_new _ i S_IFLNK 0 Hf Hi) as Hb. pose proof Hb as (_ & _ & _ & HV & _).
  wp_step. wp_step. apply wp_disk; [by apply HI|]. intros r2 V2 ->.
  eapply wp_place_and_finish; [done|done|exact Hb|by apply plain_print|apply HPe].
Qed.

(** *** mkdir *)

(** A file was removed to make room, and there is nothing at the name. *)
Definition uncovered (V : Disk) : Prop :=
  at_ V D nm = None ∧ is_Some (at_ U D nm) ∧ same_but (λ d x, own D nm d x ∨ d = W ∨ newd d) U V.
Context (HIu : ∀ V, uncovered V → Inv V) (HErru : ∀ err s' V, uncovered V → Q (Err err) s' V).

Lemma put_del_free wd e V : (W, wd) ≠ (D, nm) → put D nm e (del W wd (del D nm V)) = put D nm e (del W wd V).
Proof using All.
  intros Hne. unfold put, del. cbn. f_equal. rewrite (delete_delete (entries V)).
  by rewrite insert_delete_eq.
Qed.

(** [place_dir]: as [place_file], but a file in the way is removed first. *)
Lemma disk_place_dir wd e s' V (Q' : FsResult RawFd → OverlayInner → Disk → Prop) :
  workdir_fd s' = wfd → built wd e V → plain wd →
  (∀ dst, dir_of dst = Some D → Q' (Ok dst) s' (put D nm e (del W wd V))) →
  (∀ err V', unmade V' ∨ uncovered V' → Q' (Err err) s' V') →
  sm_wp DISK (place_dir (root_fd (ds u)) wd (child_path pp nm)) s' V Q'.
Proof using All.
  intros Hs Hb Hwd HOk HE. pose proof Hb as (Hfree & Hi & Hat & HV & Hk).
  assert ((W, wd) ≠ (D, nm)) as Hne by congruence.
  assert (∀ err V', unmade V' → sm_wp DISK
    (let! _ := sm_call (Unlinkat wfd wd AT_REMOVEDIR) in sm_ret (Err err)) s' V' Q') as Hrm.
  { intros err V' HV'. apply (wp_remove_work wd AT_REMOVEDIR (Err err)); [done|done|]. intros V2 HV2. apply HE. by left. }
  unfold place_dir. wp_step. wp_step. rewrite Hs. wp_step.
  eapply wp_open_parent; [by apply HI|done|by eapply built_walk|done| |by intros; apply Hrm].
  intros g dst Hdst. cbv beta iota. wp_step. apply wp_disk; [by apply HI|]. intros r V' Hr.
  destruct (rename_into_place wd e dst V V' r Hb Hwd Hdst Hr) as [Hok Herr]. destruct r as [[]|err].
  { rewrite (Hok eq_refl). apply sm_wp_ret. by apply HOk. }
  rewrite (Herr _ eq_refl). destruct (err =? ENOTDIR); [|by apply Hrm].
  wp_step. apply wp_disk; [by apply HI|]. intros r2 V2 Hu. destruct (Hu Hnm) as (HEu & _ & Hoku).
  wp_step.
  assert (V2 = V ∨ (V2 = del D nm V ∧ uncovered V2 ∧ uncovered (del W wd V2))) as HV2.
  { destruct r2 as [[]|err2]; [right|left; by eapply HEu].
    destruct (Hoku eq_refl) as (D' & x & HD' & Hx & _ & ->). assert (D' = D) as -> by congruence.
    assert (same_but (λ d x, own D nm d x ∨ d = W ∨ newd d) U (del D nm V)) as Hs2.
    { eapply same_but_trans; [eapply same_but_mono; [|exact HV]; by right|].
      apply same_but_del. left. split; [done|by left]. }
    assert (is_Some (at_ U D nm)) as Hsome by (exists x; by rewrite <-(unmade_at V)).
    split; [done|]. split; (split; [|split; [done|]]); [apply at_del|done|by rewrite at_del_ne, at_del|].
    eapply same_but_trans; [done|]. apply same_but_del. right. by left. }
  apply wp_disk; [destruct HV2 as [->|(_ & ? & _)]; [by apply HI|by apply HIu]|]. intros r3 V3 Hr3.
  destruct HV2 as [->|(-> & Hunc & Hunc2)].
  { destruct (rename_into_place wd e dst V V3 r3 Hb Hwd Hdst Hr3) as [Hok3 Herr3]. destruct r3 as [[]|err3].
    - rewrite (Hok3 eq_refl). apply sm_wp_ret. by apply HOk.
    - rewrite (Herr3 _ eq_refl). by apply Hrm. }
  destruct r3 as [[]|err3].
  - destruct (rename_free dir_of _ _ _ _ W D _ _ _ _ Hr3) as (e' & He' & ->); [done..|apply at_del|].
    rewrite at_del_ne in He' by congruence. assert (e' = e) as -> by congruence.
    rewrite put_del_free by done. apply sm_wp_ret. by apply HOk.
  - destruct (Hr3 Hwd Hnm) as [HE3 _]. rewrite (HE3 _ eq_refl). wp_step. apply wp_disk; [by apply HIu|].
    intros r4 V4 Hu4. destruct (Hu4 Hwd) as (HE4 & _ & Hok4). apply sm_wp_ret, HE. right.
    destruct r4 as [[]|err4]; [|by rewrite (HE4 _ eq_refl)].
    destruct (Hok4 eq_refl) as (W' & x & HW' & _ & _ & ->). by assert (W' = W) as -> by congruence.
Qed.

(** Only the opaque mark is in the new directory. *)
Definition only_mark (e : Ent) (V : Disk) : Prop := ∀ x, x ≠ OPAQUE_WHITEOUT → at_ V (e_id e) x = None.

Lemma built_opaques wd e V o : built wd e V → (∀ x, x ≠ e_id e → x ∈ o ↔ x ∈ opaques V) →
  built wd e (set_opaques o V).
Proof using All.
  intros (Hfree & Hi & Hat & HV & Hk) Ho. split_and!; try done. split; [|apply HV].
  intros d Hd. rewrite <-(proj1 HV d Hd). apply Ho. intros ->. apply Hd. intros _. by right.
Qed.
Lemma built_inside wd e V x y : built wd e V → built wd e (put (e_id e) x y V).
Proof using All.
  intros (Hfree & Hi & Hat & HV & Hk).
  assert (e_id e ≠ W) as Hne by (intros E; apply W_old; by rewrite <-E).
  split_and!; [done|done|by rewrite at_put_ne by congruence| |].
  - eapply same_but_trans; [done|]. apply same_but_put. by right.
  - intros d z w Hw Hd. rewrite at_put_ne; [by apply Hk|]. intros [= <- _].
    destruct Hi as (_ & _ & Hi). by destruct (Hi _ _ _ Hw).
Qed.

(** Marking the new directory, while it is in the work directory. *)
Lemma disk_set_fd_opaque wd e fd s' V (Q' : FsResult unit → OverlayInner → Disk → Prop) :
  built wd e V → dir_of fd = Some (e_id e) → (∀ x, at_ V (e_id e) x = None) →
  (∀ r V', built wd e V' → only_mark e V' → Q' r s' V') →
  sm_wp DISK (set_fd_opaque fd) s' V Q'.
Proof using All.
  intros Hb Hfd Hempty HQ'.
  assert (∀ V1, built wd e V1 → (∀ x, at_ V1 (e_id e) x = None) → Inv V1) as HIb.
  { intros V1 (_ & _ & _ & HV & _) _. by apply HI. }
  assert (∀ xattr_set V1, built wd e V1 → (∀ x, at_ V1 (e_id e) x = None) → sm_wp DISK
    (let! opq_result :=
       safe_openat fd OPAQUE_WHITEOUT (Z.lor O_CREAT (Z.lor O_WRONLY O_NONBLOCK)) MODE_700 in
     match opq_result with
     | Ok _ => sm_ret (Ok tt)
     | Err e => sm_ret (if xattr_set : bool then Ok tt else Err e)
     end) s' V1 Q') as Hopen.
  { intros xs V1 Hb1 He1. wp_step. unfold safe_openat, syscall_openat2. wp_step. wp_step.
    change (cstr_bytes OPAQUE_WHITEOUT) with (@Ok Z _ OPAQUE_WHITEOUT). cbv beta iota.
    apply wp_disk; [by apply HIb|]. intros r V2 [HE Hr]. rewrite land_valid_creat in Hr.
    assert (built wd e V2 ∧ only_mark e V2) as [Hb2 Hm2].
    { destruct r as [f|err]; [|rewrite (HE _ eq_refl); split; [done|intros x _; apply He1]].
      destruct (Hr _ eq_refl) as [_ Hcase].
      destruct (Hcase _ _ _ Hfd (parent_dir_plain V1 (e_id e) _ plain_opaque) plain_opaque)
        as [(x & Hx & _)|(_ & j & _ & ->)]; [by rewrite He1 in Hx|].
      split; [by apply built_inside|]. intros x Hx. by rewrite at_put_ne by congruence. }
    wps; by apply HQ'. }
  assert (∀ V1 nmx r V2, built wd e V1 → (∀ x, at_ V1 (e_id e) x = None) →
    disk_post dir_of roots V1 (Fsetxattr fd nmx (bs "y") 0) r V2 →
    built wd e V2 ∧ (∀ x, at_ V2 (e_id e) x = None)) as Hset.
  { intros V1 nmx r V2 Hb1 He1 [_ Hs]. destruct (opaque_name nmx); [|by subst].
    destruct Hs as (o & -> & Ho). specialize (Ho fd eq_refl). rewrite Hfd in Ho. split; [|done].
    apply built_opaques; [done|]. by intros x Hx; apply Ho. }
  unfold set_fd_opaque.
  match goal with |- context [sm_try _ ?k] => set (K := k) end.
  assert (∀ xs V1, built wd e V1 → (∀ x, at_ V1 (e_id e) x = None) → sm_wp DISK (K xs) s' V1 Q') as HK by exact Hopen.
  clearbody K. clear Hopen.
  wp_step. wp_step. apply wp_disk; [by apply HIb|]. intros r V1 Hr.
  destruct (Hset _ _ _ _ Hb Hempty Hr) as [Hb1 He1]. wps; try by apply HK.
  all: try (by apply HQ'; [done|intros x _; apply He1]).
  apply wp_disk; [by apply HIb|]. intros r2 V2 Hr2. destruct (Hset _ _ _ _ Hb1 He1 Hr2) as [Hb2 He2].
  wps; try by apply HK. all: by apply HQ'; [done|intros x _; apply He2].
Qed.

(** What is known of the new directory: the mark is there only if the parent
    is merged from lower layers ([last] above 0). *)
Definition new_dir (last : nat) (e : Ent) (V : Disk) : Prop :=
  e_type e = S_IFDIR ∧ only_mark e V ∧
  (last = 0%nat → (e_id e ∉ opaques V) ∧ at_ V (e_id e) OPAQUE_WHITEOUT = None).

Lemma new_dir_moved last wd e V : built wd e V → new_dir last e V → new_dir last e (put D nm e (del W wd V)).
Proof using All.
  intros (_ & Hi & _ & _ & _) (Ht & Hm & Hl).
  assert (∀ x, at_ (put D nm e (del W wd V)) (e_id e) x = at_ V (e_id e) x) as Hat.
  { intros x. rewrite at_put_ne, at_del_ne; [done|..]; intros [= E _]; [apply W_old|apply D_old]; by rewrite E. }
  split_and!; [done|intros x Hx; rewrite Hat; by apply Hm|]. intros Hz. rewrite Hat. by apply Hl.
Qed.

Lemma wp_mkdir_inner mode last :
  (∀ pn, nodes_get s pid = Some pn → last_layer_idx pn = last) →
  (∀ e V, new_dir last e V → P e V) →
  sm_wp DISK (mkdir_inner copy_fuel config req parent_ino nm mode) s U Q.
Proof using All.
  intros Hlast HPd. assert (∀ err s', Q (Err err) s' U) as HE by (intros; apply HErr, unmade_refl).
  pose proof Hct as [Hu Hw _ (pn & Hpn & _) _ Hc Hf]. specialize (Hlast pn Hpn).
  unfold mkdir_inner. apply wp_check_new_name; [done|]. apply disk_prepare; [done|].
  do 4 wp_step. unfold node at 1. rewrite Hpn. cbn [ok_or]. rewrite Hlast.
  wp_step. apply wp_next_wd_counter. set (s1 := set_wd_counter _ s). cbv zeta. wp_step. rewrite Hw.
  apply wp_disk; [apply HI, unmade_refl|]. intros [[]|err] V Hr; destruct (Hr (plain_print _ Hc)) as [HEr Hok];
    [|rewrite (HEr _ eq_refl); apply HE].
  destruct (Hok eq_refl) as (W' & i & HW' & _ & Hi & ->). assert (W' = W) as -> by congruence.
  set (wd := print_dec (wd_counter s)) in *. set (e := {| e_id := i; e_type := S_IFDIR; e_rdev := 0 |}).
  pose proof (built_new wd i S_IFDIR 0 Hf Hi) as Hb. fold e in Hb. set (V := put W wd e U) in *.
  assert (∀ V1 x, built wd e V1 → dir_of x = Some W → walk V1 W (comps wd) = Some i) as Hwd.
  { intros V1 x (_ & _ & Hat & _) _. rewrite comps_plain by (by apply plain_print). cbn. by rewrite Hat. }
  assert (∀ x, at_ V i x = None) as Hempty.
  { intros x. unfold V. rewrite at_put_ne.
    - destruct (at_ U i x) as [y|] eqn:Ey; [|done]. destruct Hi as (_ & _ & Hi). by destruct (Hi _ _ _ Ey).
    - intros [= E _]. apply W_old. by rewrite E. }
  wp_step. wp_step. apply wp_disk; [apply HI, Hb|]. intros r2 V2 ->.
  (* the last steps, from the directory that is built *)
  match goal with |- context [λ _ : unit, sm_bind (safe_openat ?d ?n ?f 0) ?k] =>
    assert (∀ V1, built wd e V1 → new_dir last e V1 → sm_wp DISK (sm_bind (safe_openat d n f 0) k) s1 V1 Q) as Hrest end.
  { intros V1 Hb1 Hn1. wp_step. apply wp_calm; [by apply calm_safe_openat|apply HI, Hb1|]. intros r3. wp_step.
    assert (sm_wp DISK
      (try! dst_dirfd := place_dir (root_fd (ds u)) wd (child_path pp nm) in
       finish_entry pid pp (root_fd (ds u)) dst_dirfd nm (child_path pp nm)) s1 V1 Q) as Hfin.
    { wp_step. eapply disk_place_dir; [done|exact Hb1|by apply plain_print| |].
      - intros dst Hdst. apply wp_finish_entry; [done|done| |by eapply placed_walk|done].
        apply placed_made; [done|]. by apply HPd, new_dir_moved.
      - intros err V' [HV|HV]; [by apply HErr|by apply HErru]. }
    destruct r3; [|by apply sm_wp_ret]. apply wp_inherit_acl; [done|done|apply HI, Hb1|done]. }
  wp_step.
  destruct (0 <? last)%nat eqn:El.
  - apply Nat.ltb_lt in El.
    assert (∀ V1, built wd e V1 → only_mark e V1 → new_dir last e V1) as Hnd.
    { intros V1 _ Hm. split_and!; [done|done|lia]. }
    assert (new_dir last e V) as HnV by (apply Hnd; [done|intros x _; apply Hempty]).
    wp_step. eapply (wp_open_dir dir_of roots Inv True _ W _ i); [apply HI, Hb|done|by eapply Hwd|reflexivity|by vm_compute|..].
    + intros fd Hfd. wp_step. eapply disk_set_fd_opaque; [exact Hb|done|done|].
      intros r3 V1 Hb1 Hm1. apply sm_wp_ret. by apply Hrest, Hnd.
    + intros err. apply sm_wp_ret. by apply Hrest.
  - apply sm_wp_ret. apply Hrest; [done|]. split_and!; [done|intros x _; apply Hempty|].
    intros _. split; [|apply Hempty]. by destruct Hi as (_ & Ho & _).
Qed.

(** *** create *)
Lemma wp_check_create {A} (k : bool → InnerM (FsResult A)) (Q' : FsResult A → OverlayInner → Disk → Prop) pn :
  nodes_get s pid = Some pn → (∀ err, Q' (Err err) s U) → sm_wp DISK (k (is_whiteout pn nm)) s U Q' →
  sm_wp DISK (sm_try (check_create parent_ino nm) k) s U Q'.
Proof using All -(HIu HErru).
  intros Hpn' HE Hk. destruct Hct. destruct ct_dir0 as (pn0 & Hpn & Hch & _ & Hno).
  assert (pn0 = pn) as -> by congruence.
  wp_step. unfold check_create. wp_step. apply wp_calm; [apply calm_namemax|apply HI, unmade_refl|].
  intros n. wp_step; [by apply sm_wp_ret|]. wp_step. unfold do_lookup_file. wp_step. wp_step.
  rewrite ct_lookup0, Hpn. cbn [mbind option_bind]. rewrite Hch. cbn [fmap option_fmap option_map default].
  assert (∀ r, r = is_whiteout pn nm → sm_wp DISK (let! s0 := sm_get in sm_ret (Ok (default false
    (pid0 ← lookup_node_id s0 parent_ino; p ← nodes_get s0 pid0; Some (is_whiteout p nm))) : FsResult bool)) s U
    (λ r0 s' g', match r0 with Ok a => sm_wp DISK (k a) s' g' Q' | Err e => Q' (Err e) s' g' end)) as Hend.
  { intros r ->. wp_step. wp_step. apply sm_wp_ret. rewrite ct_lookup0. cbn [mbind option_bind]. by rewrite Hpn. }
  destruct (is_whiteout pn nm) eqn:Ewh; [apply sm_wp_ret; by apply (Hend true)|].
  destruct Hno as [|Hno]; [congruence|]. rewrite Hno. apply sm_wp_ret. by apply (Hend false).
Qed.

Lemma disk_create_file is_wh open_flags mode s' (Q' : FsResult RawFd → OverlayInner → Disk → Prop) :
  upper_layer s' = Some u → workdir_fd s' = wfd → wd_counter s' = wd_counter s →
  (Z.land open_flags O_CREAT =? 0) = false →
  (is_wh = false → at_ U D nm = None) → (∀ i V, P {| e_id := i; e_type := S_IFREG; e_rdev := 0 |} V) →
  (∀ err s2 V, unmade V → Q' (Err err) s2 V) →
  (∀ r s2 V, made P V → workdir_fd s2 = wfd → layers s2 = layers s' → nodes s2 = nodes s' → Q' r s2 V) →
  sm_wp DISK (create_file is_wh (root_fd (ds u)) pp nm (child_path pp nm) open_flags mode) s' U Q'.
Proof using All -(HIu HErru).
  intros Hu Hw Hcnt Hfl Hnone HPe HE HOk. pose proof Hct as [_ _ _ _ _ Hc Hf].
  apply upper_layer_head in Hu as Hu'. destruct Hu' as [Hu0 _]. rewrite head_lookup in Hu0.
  unfold create_file, layer_at. do 3 wp_step. apply sm_wp_index. exists u. split; [done|].
  destruct is_wh; cbn [negb].
  - wp_step. apply wp_next_wd_counter. rewrite Hcnt. set (s2 := set_wd_counter _ s'). cbv zeta. do 3 wp_step.
    change (workdir_fd s2) with (workdir_fd s'). rewrite Hw. unfold safe_openat, syscall_openat2. do 2 wp_step.
    wp_step; [|apply HE, unmade_refl]. apply wp_disk; [apply HI, unmade_refl|]. intros r V [HEr Hr].
    rewrite land_valid_creat, Hfl in Hr. destruct r as [fd|err]; [|rewrite (HEr _ eq_refl); apply HE, unmade_refl].
    destruct (Hr _ eq_refl) as [_ Hcase].
    destruct (Hcase W W _ Hwork (parent_dir_plain _ _ _ (plain_print _ Hc)) (plain_print _ Hc))
      as [(x & Hx & _)|(_ & i & Hi & ->)]; [congruence|].
    pose proof (built_new _ i S_IFREG 0 Hf Hi) as Hb. cbv beta iota.
    wp_step. eapply disk_place_file; [done|exact Hb|by apply plain_print| |by intros; apply HE].
    intros dst Hdst. pose proof (placed_made P _ _ _ Hb (HPe i _)) as Hm. pose proof (placed_walk _ _ _ Hb) as HwV.
    set (V := put D nm _ _) in *. wp_step. unfold do_delete_whiteout. apply sm_wp_zoom.
    eapply (disk_delete_whiteout dir_of roots Inv True _ R _ _ _ D); [done|done|by intros d [= <-]|done| |].
    + intros V' Hrm Hk. apply HI'. by eapply made_removes.
    + intros r V' Hrm _ Hk. assert (made P V') as Hm' by (by eapply made_removes).
      apply sm_wp_stateless. eapply (@ds_openat _ dir_of roots Inv True _ Hsrc); [by apply HI'|].
      intros r' V2 [HEr' Hr']. rewrite land_valid_creat in Hr'.
      assert (Z.land (Z.lor (Z.land open_flags (Z.lnot O_CREAT)) O_RDWR) O_CREAT = 0) as Hz.
      { rewrite Z.land_lor_distr_l. change (Z.land O_RDWR O_CREAT) with 0. rewrite Z.lor_0_r.
        rewrite <-Z.land_assoc. change (Z.land (Z.lnot O_CREAT) O_CREAT) with 0. apply Z.land_0_r. }
      rewrite Hz in Hr'. destruct Hr' as [-> _]. by apply HOk.
  - apply sm_wp_stateless. eapply (@ds_openat _ dir_of roots Inv True _ Hsrc); [apply HI, unmade_refl|].
    intros r V [HEr Hr]. rewrite land_valid_creat, Hfl in Hr.
    destruct r as [fd|err]; [|rewrite (HEr _ eq_refl); apply HE, unmade_refl].
    destruct (Hr _ eq_refl) as [_ Hcase].
    destruct (Hcase R D nm Hupper (parent_dir_child _ _ _ _ _ Hnm Hwalk) Hnm) as [(x & Hx & _)|(Hat & i & Hi & ->)];
      [rewrite Hnone in Hx; done|].
    apply HOk; [|done..]. eexists. split_and!; [apply at_put|exact Hi|apply HPe| |].
    + apply same_but_put. left. split; [done|by left].
    + left. rewrite at_put_ne; [done|]. intros [_ E]%pair_eq. symmetry in E. by apply wh_ne in E.
Qed.

Lemma wp_create_inner mode flags (Q' : FsResult (RawFd * Z * FileAttr) → OverlayInner → Disk → Prop) pn :
  nodes_get s pid = Some pn → (is_whiteout pn nm = false → at_ U D nm = None) →
  (∀ i V, P {| e_id := i; e_type := S_IFREG; e_rdev := 0 |} V) →
  (∀ err s2 V, unmade V → Q' (Err err) s2 V) → (∀ r s2 V, made P V → Q' r s2 V) →
  sm_wp DISK (create_inner copy_fuel config req parent_ino nm mode flags) s U Q'.
Proof using All -(HIu HErru).
  intros Hpn Hnone HPe HE HOk. pose proof Hct as [Hu Hw _ _ _ _ _].
  apply upper_layer_head in Hu as Hu'. destruct Hu' as [Hu0 _]. rewrite head_lookup in Hu0.
  unfold create_inner. eapply wp_check_create; [done|by intros; apply HE, unmade_refl|].
  apply disk_prepare; [by intros; apply HE, unmade_refl|]. cbv zeta.
  wp_step. apply disk_create_file; [done|done|done|apply creat_kept|done|done|done|].
  intros [fd|err] s2 V Hm Hw2 Hl2 Hn2; [|by apply HOk]. pose proof (HI' V Hm) as HV.
  do 3 wp_step. wp_step. apply wp_disk; [done|]. intros r V' ->.
  wp_step. apply wp_inherit_acl; [unfold nodes_get; by rewrite Hn2|done|done|].
  wp_step. unfold layer_at. wp_step. wp_step. apply sm_wp_index. exists u. split; [by rewrite Hl2|].
  wp_step. apply sm_wp_stateless. eapply (@ds_fstat_ok _ dir_of roots Inv True _ Hsrc); [done|].
  intros [st|err] Hst; [|by apply HOk]. wp_step. apply wp_create_and_register. intros r3 s3.
  wp_step; [|by apply HOk]. wp_step. wp_step. apply sm_wp_expect. destruct (stat_to_attr_ok st (Hst st eq_refl)) as [a Ha].
  exists a. split; [done|]. by apply sm_wp_ret, HOk.
Qed.
End creating.

(** ** The requests *)

(** The parent, the name, the type and the device of the object a request is to
    create; mknod(2) makes no directories. *)
Definition new_entry (rq : FuseRequest) : option (Z * bytes * Z * Z) :=
  match rq with
  | RqMknod _ parent nm mode rdev =>
      let type := node_type (Z.lor mode MODE_755) in
      if type =? S_IFDIR then None else Some (parent, nm, type, rdev)
  | RqSymlink _ parent nm _ => Some (parent, nm, S_IFLNK, 0)
  | RqCreate _ parent nm _ _ => Some (parent, nm, S_IFREG, 0)
  | RqMkdir _ parent nm _ => Some (parent, nm, S_IFDIR, 0)
  | _ => None
  end.

(** The object is of the type and device asked for; of a directory, see
    [new_dir]. *)
Definition as_asked (last : nat) (type rdev : Z) (e : Ent) (V : Disk) : Prop :=
  e_type e = type ∧ (type ≠ S_IFDIR → e_rdev e = rdev) ∧ (type = S_IFDIR → new_dir last e V).

(** The directory of the new name is cached and on the upper layer; there the
    name has no directory, the tree of the layers shows nothing at it, and the
    next name in the work directory is free. *)
Record creatable_in `{DevT, HashOrder} dir_of roots (s : OverlayInner) (U : Disk) (tree : list Z) (parent_ino : Z)
    (nm pp : bytes) (D W : Z) (lows : list Z) (last : nat) : Prop := {
  ci_dir : ∃ u pid pn R, creatable u (workdir_fd s) W U pid pp nm parent_ino s ∧
    nodes_get s pid = Some pn ∧ last_layer_idx pn = last ∧ (is_whiteout pn nm = false → at_ U D nm = None) ∧
    (∀ Inv, DiskSource dir_of roots Inv True (ds u)) ∧
    dir_of (root_fd (ds u)) = Some R ∧ R ∈ roots ∧ walk U R (comps pp) = Some D;
  ci_work : dir_of (workdir_fd s) = Some W ∧ W ∈ roots ∧ W ≠ D;
  ci_tree : in_tree U tree (comps pp) D W lows ∧ (∀ x, x ∈ tree → x ∈ roots) ∧ child U (D :: lows) nm = SNone;
  ci_name : plain nm ∧ user_name nm ∧ ∀ x, at_ U D nm = Some x → e_dir x = false
}.

Lemma as_asked_own last type rdev roots D nm U R pp e V V' :
  R ∈ roots → walk U R (comps pp) = Some D →
  as_asked last type rdev e V → newd roots U (e_id e) → same_but (own D nm) V V' → as_asked last type rdev e V'.
Proof.
  intros HR Hw (Ht & Hr & Hd) Hnew Hs. split_and!; [done..|]. intros E. destruct (Hd E) as (H1 & H2 & H3).
  assert (e_id e ≠ D) as Hne by (intros <-; by eapply walk_not_new).
  assert (∀ x, at_ V' (e_id e) x = at_ V (e_id e) x) as Hat.
  { intros x. apply (same_but_at _ _ _ _ _ Hs). by intros [? _]. }
  split_and!; [done|intros x Hx; rewrite Hat; by apply H2|]. intros Hl. destruct (H3 Hl) as [Ho Hx].
  rewrite Hat. split; [|done]. rewrite (proj1 Hs); [done|]. intros Hall. by destruct (Hall []) as [? _].
Qed.

Lemma as_asked_whites `{DevT} last type rdev e V :
  whites {| e_id := 0; e_type := type; e_rdev := rdev |} = false → as_asked last type rdev e V → whites e = false.
Proof.
  intros Hw (Ht & Hr & _). destruct (whites e) eqn:E; [|done].
  assert (type ≠ S_IFDIR) as Hn.
  { intros ->. apply whites_not_dir in E. unfold e_dir in E. by rewrite Ht, Z.eqb_refl in E. }
  rewrite <-E, <-Hw. unfold whites. by rewrite <-Ht, <-(Hr Hn).
Qed.

(** The outcomes of the four requests are among those of the theorem. *)
Ltac answers :=
  try case_match; intros;
  first [ done | by auto | congruence
        | split; [by lazymatch goal with Hd : new_dir _ _ _ |- _ => apply Hd end|done] ].

Section requests.
Context `{F64, DevT, HashOrder} (dir_of : RawFd → option Z) (roots : gset Z) (copy_fuel : nat) (config : OverlayConfig).
Context (Httl : is_Some (f64_duration (cfg_timeout config))).

Lemma disk_timeout Inv s U (Q : Z → OverlayFs → Disk → Prop) :
  (∀ a, Q a s U) → sm_wp (DISK dir_of roots Inv True) (timeout config) s U Q.
Proof using Httl. destruct Httl as [a Ha]. intros HQ. apply sm_wp_expect. by exists a. Qed.
Lemma wp_reply_entry Inv m s U (Q : FsResult Reply → OverlayFs → Disk → Prop) :
  sm_wp (DISK dir_of roots Inv True) m (inner s) U
    (λ r i V, match r with Ok _ => ∀ a, Q (Ok a) (set_inner i s) V | Err e => Q (Err e) (set_inner i s) V end) →
  sm_wp (DISK dir_of roots Inv True) (reply_entry config m) s U Q.
Proof using Httl.
  intros Hm. unfold reply_entry. wp_step. apply sm_wp_zoom. eapply sm_wp_mono; [exact Hm|].
  intros [a|e] i V HQ; [|done]. wp_step. apply disk_timeout. intros ttl. by apply sm_wp_ret.
Qed.

(** The end of [create], with the file. *)
Lemma wp_create (Inv : Disk → Prop) req parent nm mode flags s U (Q : FsResult Reply → OverlayFs → Disk → Prop) :
  sm_wp (DISK dir_of roots Inv True) (create_inner copy_fuel config req parent nm mode flags) (inner s) U
    (λ r i V, Inv V ∧ match r with Ok _ => ∀ a s', Q (Ok a) s' V | Err e => Q (Err e) (set_inner i s) V end) →
  sm_wp (DISK dir_of roots Inv True) (create copy_fuel config req parent nm mode flags) s U Q.
Proof using Httl.
  intros Hm. unfold create. wp_step. apply sm_wp_zoom. eapply sm_wp_mono; [exact Hm|].
  intros [[[fd ino] attr]|e] i V [HI HQ]; [|done].
  assert (∀ s', sm_wp (DISK dir_of roots Inv True) (let! fh := alloc_fh fd in
    let! ttl := timeout config in
    sm_ret (Ok (RCreated ttl attr fh (f64_positive (cfg_timeout config))))) s' V Q) as Hplain.
  { intros s'. unfold alloc_fh, new_fh. wps. apply disk_timeout. intros ttl. by apply sm_wp_ret. }
  wp_step. wp_step. wp_step; [|apply Hplain]. wp_step. apply wp_disk; [done|].
  intros [b|e] V' ->; [|wp_step; apply Hplain]. unfold new_fh. wps. apply disk_timeout. intros ttl. by apply sm_wp_ret.
Qed.

(** What is seen of a creation. *)
Section seen.
Context (D W : Z) (U : Disk) (nm : bytes) (tree : list Z) (path : list bytes) (lows : list Z).
Context (Ht : in_tree U tree path D W lows) (Hu : user_name nm) (Hroots : ∀ x, x ∈ tree → x ∈ roots).
Context (HDW : W ≠ D) (HD : ¬ newd roots U D) (Hnone : child U (D :: lows) nm = SNone).

Lemma other_paths V : same_but (λ d x, own D nm d x ∨ d = W ∨ newd roots U d) U V →
  as_before_but (path ++ [nm]) U tree V.
Proof using Ht Hu Hroots.
  intros Hs cs Hcs Hb. eapply see_unchanged; [done..|by eapply local_new|exact Hs|done|by left].
Qed.
Lemma unmade_seen V : unmade roots W U V → as_before U tree V.
Proof using All.
  intros Hs cs Hcs. assert (∀ x, at_ V D x = at_ U D x) as Hat.
  { intros x. apply (same_but_at _ _ _ _ _ Hs). by intros [?|?]. }
  assert (same_but (λ d x, own D nm d x ∨ d = W ∨ newd roots U d) U V) as Hs'.
  { eapply same_but_mono; [|done]. intros d x Hd. by right. }
  rewrite (see_unchanged U V tree path D W lows nm _ Ht Hu (local_new _ _ _ _ _ _ _ _ Ht Hroots) Hs');
    [apply same_seen_refl|done|]. right. eapply child_kept; [done..|by eapply local_new|exact Hs'|done|done].
Qed.
Lemma made_seen P V : (∀ e, P e V → whites e = false) → made roots D W U nm P V →
  as_before_but (path ++ [nm]) U tree V ∧
  made roots D W U nm (λ e V, P e V ∧
    (at_ U D (WH_PREFIX ++ nm) = None → see V tree (path ++ [nm]) = new_seen V lows nm e)) V.
Proof using Ht Hu Hroots.
  intros HPw (e & Hat & Hnew & HP & Hs & Hwh). split; [by apply other_paths|]. exists e. split_and!; try done.
  intros Hno. eapply see_new; [done..|by eapply local_new|exact Hs|done|by apply HPw|]. by destruct Hwh as [->|].
Qed.
End seen.

(** The effect of the four requests, by what the upper layer had when the
    directory was on it. *)
Lemma creation_up (s : OverlayFs) (U : Disk) (tree : list Z) (rq : FuseRequest) (parent_ino : Z) (nm pp : bytes)
    (type rdev D W : Z) (lows : list Z) (last : nat)
    (Hrq : new_entry rq = Some (parent_ino, nm, type, rdev))
    (Hwh : whites {| e_id := 0; e_type := type; e_rdev := rdev |} = false)
    (Hct : creatable_in dir_of roots (inner s) U tree parent_ino nm pp D W lows last) :
  let p := comps pp ++ [nm] in
  let whole := made roots D W U nm (λ e V, as_asked last type rdev e V ∧
                 (at_ U D (WH_PREFIX ++ nm) = None → see V tree p = new_seen V lows nm e)) in
  let none V := (unmade roots W U V ∧ as_before U tree V) ∨ (type = S_IFDIR ∧ uncovered roots D W U nm V) in
  sm_wp (DISK dir_of roots (λ V, as_before_but p U tree V ∧ (whole V ∨ none V)) True) (serve copy_fuel config rq) s U
    (λ r _ V, as_before_but p U tree V ∧ match r with Ok _ => whole V | Err _ => whole V ∨ none V end).
Proof using Httl.
  intros p whole none.
  destruct Hct as [(u & pid & pn & R & Hc & Hpn & Hlast & Hcov & Hs & HRd & HR & Hwalk) (HWd & HW & HDW)
    (Ht & Hroots & Hnone) (Hnm & Huser & Hold)].
  assert (∀ e V, as_asked last type rdev e V → whites e = false) as HPw by (intros; by eapply as_asked_whites).
  assert (∀ e V V', as_asked last type rdev e V → newd roots U (e_id e) → same_but (own D nm) V V' →
    as_asked last type rdev e V') as HP by (intros; by eapply (as_asked_own last type rdev roots D nm U R pp)).
  assert (¬ newd roots U D) as HD by (intros Hd; by apply (walk_not_new roots U D R (comps pp) D)).
  assert (∀ V, made roots D W U nm (as_asked last type rdev) V → as_before_but p U tree V ∧ whole V) as Hmade.
  { intros V. apply (made_seen D W U nm tree (comps pp) lows); [done..|intros e; apply HPw]. }
  assert (∀ V, unmade roots W U V → as_before_but p U tree V ∧ none V) as Hun.
  { intros V HV. assert (as_before U tree V) as Hb by (by apply (unmade_seen D W U nm tree (comps pp) lows)).
    split; [|by left]. apply (other_paths D W U nm tree (comps pp) lows); [done..|].
    eapply same_but_mono; [|done]. intros d x Hd. by right. }
  assert (∀ V, type = S_IFDIR → uncovered roots D W U nm V → as_before_but p U tree V ∧ none V) as Hunc.
  { intros V Htype HV. split; [|by right]. by apply (other_paths D W U nm tree (comps pp) lows); [..|apply HV]. }
  assert (∀ V, as_before_but p U tree V ∧ none V → as_before_but p U tree V ∧ (whole V ∨ none V)) as Hr by naive_solver.
  assert (∀ V, as_before_but p U tree V ∧ whole V → as_before_but p U tree V ∧ (whole V ∨ none V)) as Hl by naive_solver.
  assert (∀ V, unmade roots W U V → as_before_but p U tree V ∧ (whole V ∨ none V)) as HI by auto.
  clearbody p whole none.
  destruct rq; cbn [new_entry] in Hrq; cbv zeta in Hrq; try discriminate; cbn [serve].
  - destruct (_ =? S_IFDIR) eqn:Et; [done|]. injection Hrq as <- <- <- <-. apply Z.eqb_neq in Et.
    apply wp_reply_entry. eapply (wp_mknod_inner dir_of roots _ copy_fuel config u (workdir_fd (inner s)) R D W U pid
      pp _ HWd HRd HR HW Hwalk HDW Hnm Hold HI _ (as_asked last _ _) HPw HP); intros;
      answers.
  - injection Hrq as <- <- <- <-.
    apply wp_reply_entry. eapply (wp_mkdir_inner dir_of roots _ copy_fuel config u (workdir_fd (inner s)) R D W U pid
      pp _ HWd HRd HR HW Hwalk HDW Hnm Hold HI _ (as_asked last _ _) HPw HP) with (last := last); intros;
      answers.
  - injection Hrq as <- <- <- <-.
    apply wp_reply_entry. eapply (wp_symlink_inner dir_of roots _ copy_fuel config u (workdir_fd (inner s)) R D W U pid
      pp _ HWd HRd HR HW Hwalk HDW Hnm Hold HI _ (as_asked last _ _) HPw HP); intros;
      answers.
  - injection Hrq as <- <- <- <-.
    apply wp_create. eapply (wp_create_inner dir_of roots _ copy_fuel config u (workdir_fd (inner s)) R D W U pid
      pp _ HWd HRd HR HW Hwalk HDW Hnm Hold HI _ (as_asked last _ _) HPw HP) with (Q := λ _ _ _, True) (pn := pn); intros;
      try (split; [first [by left|by right; auto]|]); answers.
Qed.
End requests.
