(* ===== verification/CreatingDirs.v ===== *)
(** * Creating an object below a directory of a lower layer

    The requests that create an object first bring its directory to the upper
    layer.  After that they run as from a state where it has been there, which
    is the case of Creating.v; so their effect is that of the copy-up of the
    directory, which is not seen, and then that of the creation. *)

From S2P Require Import Prelude Libc Mapping Xattr ConfigData Sys Openat2 Node Tree DataSource Provenance Whiteout.
From S2P Require Import Layer Copyup SafeCopy Overlay SafeInner Merge Disk Effects Visible CopyDisk CopyDirs.
From S2P Require Import Ops OpsTree OpsFile Requests Removal Creating.
Local Open Scope Z_scope.

Section low.
Context `{F64, DevT, HashOrder} (dir_of : RawFd → option Z) (roots : gset Z) (Inv : Disk → Prop).
Context (copy_fuel : nat) (config : OverlayConfig).
Abbreviation DISK := (DISK dir_of roots Inv True).
Implicit Types (s : OverlayInner) (U V : Disk).

(** ** The steps before the directory *)

(** The check asks for the longest name that is allowed, and gives [x] if that
    is long enough. *)
Definition passes {X} (chk : InnerM (FsResult X)) (x : X) s : Prop :=
  ∃ fd k (long : FsResult statvfs → bool) wide, chk s = Call (Fstatvfs fd) k ∧
    (∀ r, k r = Ret (if long r then Err ENAMETOOLONG else Ok x, s)) ∧ long wide = false.

Lemma passes_wp {X} (chk : InnerM (FsResult X)) x s U (Q : FsResult X → OverlayInner → Disk → Prop) :
  passes chk x s → Inv U → (∀ e, Q (Err e) s U) → Q (Ok x) s U → sm_wp DISK chk s U Q.
Proof using.
  intros (fd & k & long & wide & E & Hk & _) HI HE HQ. unfold sm_wp. rewrite E. cbn. split; [done|].
  intros r V ->. rewrite Hk. by destruct (long r); cbn.
Qed.
Lemma passes_inv {X} (chk : InnerM (FsResult X)) x s U (Q : FsResult X → OverlayInner → Disk → Prop) :
  passes chk x s → sm_wp DISK chk s U Q → Q (Ok x) s U.
Proof using.
  intros (fd & k & long & wide & E & Hk & Hw). unfold sm_wp. rewrite E. cbn. intros [_ Hr].
  specialize (Hr wide U eq_refl). by rewrite Hk, Hw in Hr.
Qed.

(** The directory is known to have no such name. *)
Definition no_name (parent_ino : Z) (nm : bytes) s (pid : NodeId) (pn : OvlNode) : Prop :=
  upper_layer s ≠ None ∧ lookup_node_id s parent_ino = Some pid ∧ nodes_get s pid = Some pn ∧
  get_child pn nm = None ∧ (is_whiteout pn nm = true ∨ is_loaded pn = true).

Lemma no_name_lookup parent_ino nm s pid pn : no_name parent_ino nm s pid pn →
  do_lookup_file parent_ino (Some nm) s = Ret (None, s).
Proof using.
  intros (_ & Hl & Hn & Hc & Hw). unfold do_lookup_file, sm_bind, sm_get. cbn [bind]. rewrite Hl, Hn.
  cbn [mbind option_bind]. rewrite Hc. cbn [fmap option_fmap option_map default].
  destruct (is_whiteout pn nm); [done|]. destruct Hw as [|Hw]; [done|]. by rewrite Hw.
Qed.
Lemma no_name_checks parent_ino nm s pid pn : no_name parent_ino nm s pid pn →
  passes (check_new_name parent_ino nm) tt s ∧ passes (check_create parent_ino nm) (is_whiteout pn nm) s.
Proof using.
  intros Hn. pose proof (no_name_lookup _ _ _ _ _ Hn) as Hl. destruct Hn as (Hu & Hp & Hpn & _).
  assert (∃ u ls, layers s = u :: ls) as (u & ls & Hls).
  { unfold upper_layer in Hu. destruct (layers s); [done|eauto]. }
  set (long (r : FsResult statvfs) := (match r with
                  | Ok svfs => if 4 <? f_namemax svfs then f_namemax svfs - 4 else f_namemax svfs
                  | Err _ => 251
                  end <? Z.of_nat (length nm))).
  assert (∃ wide, long wide = false) as [wide Hwide].
  { exists (Ok {| f_bsize := 0; f_frsize := 0; f_blocks := 0; f_bfree := 0; f_bavail := 0; f_files := 0; f_ffree := 0;
      f_namemax := Z.of_nat (length nm) + 4 |}). unfold long. cbn. apply Z.ltb_ge. case_match; lia. }
  split; eexists _, _, long, wide; (split; [|split; [|exact Hwide]]).
  1, 3: unfold check_new_name, check_create, get_fs_namemax, sm_bind, sm_get, sm_call; cbn [bind]; rewrite Hls; reflexivity.
  all: intros r; cbn [bind sm_ret]; unfold long; destruct (_ <? Z.of_nat (length nm)); [done|];
    cbv beta; rewrite Hl; cbn [bind]; try done.
  rewrite Hp. cbn [mbind option_bind]. by rewrite Hpn.
Qed.

(** ** The directory *)
Context (tree : list Z) (R W : Z) (u : OvlLayer) (parent_ino : Z) (pid ppid : NodeId) (ids : list NodeId) (pn : OvlNode).
Context (pp0 nm : bytes) (U : Disk) (s : OverlayInner).
Let pp : bytes := child_path pp0 (name pn).

(** The parent [pid], at [pp], and the directories above it, [ppid] and [ids],
    are of any layer; it is known to have no such name. *)
Record parent_low : Prop := {
  pl_upper : upper_layer s = Some u;
  pl_fds : dir_of (root_fd (ds u)) = Some R ∧ dir_of (workdir_fd s) = Some W;
  pl_roots : R ∈ roots ∧ W ∈ roots ∧ ∀ x, x ∈ tree → x ∈ roots;
  pl_no_name : no_name parent_ino nm s pid pn;
  pl_dir : ∃ Dl el, low_dir dir_of roots (layers s) (get_copy s) U pid ppid pn pp0 Dl el;
  pl_site : site (layers s) tree R W (get_copy s) U (pid :: ppid :: ids) pp;
  pl_room : room W (get_copy s) U (length (ppid :: ids) + 3)
}.
(** The state and the disk when the parent is on the upper layer, where its
    directory is new. *)
Record arrived (s1 : OverlayInner) (V : Disk) (D : Z) (lows : list Z) : Prop := {
  ar_settled : settled tree R W pp U V D lows;
  ar_empty : ∀ x, at_ V D x = None;
  ar_no_name : no_name parent_ino nm s1 pid (set_layer_idx 0 pn);
  ar_creatable : creatable u (workdir_fd s) W V pid pp nm parent_ino s1;
  ar_rest : ∃ c, s1 = put_copy c s
}.
Context (Hpl : parent_low) (HI : ∀ V, grown tree U V → Inv V).

Lemma wp_prepare_low {A} (k : NodeId * bytes * RawFd * bytes → InnerM (FsResult A))
    (Q : FsResult A → OverlayInner → Disk → Prop) :
  (∀ err c V, grown tree U V → Q (Err err) (put_copy c s) V) →
  (∀ s1 V D lows, arrived s1 V D lows → sm_wp DISK (k (pid, pp, root_fd (ds u), child_path pp nm)) s1 V Q) →
  sm_wp DISK (sm_try (prepare_create_parent copy_fuel parent_ino nm) k) s U Q.
Proof using All.
  intros HErr Hk. pose proof Hpl as [Hup [HR HW] (HRr & HWr & Htree) (_ & Hlook & Hpn & Hch & Hno) (Dl & el & Hdir) Hsite Hroom].
  pose proof (upper_layer_first _ _ Hup) as [Hl0 Hlow]. pose proof Hdir as [(_ & _ & Hz) _ _].
  wp_step. unfold prepare_create_parent, do_lookup_file. wp_step. wp_step. wp_step. rewrite Hlook. apply sm_wp_ret.
  wp_step. wp_step. cbn [ok_or]. wp_step. unfold get_node_up. wp_step. wp_step. rewrite Hup. unfold node, layer.
  wp_step. wp_step. rewrite Hpn. cbn [ok_or]. wp_step. wp_step. rewrite Hl0. cbn [ok_or].
  rewrite (proj2 (Nat.eqb_neq _ _) Hz). cbn [andb]. apply sm_wp_zoom.
  eapply (wp_copyup_dir dir_of roots Inv copy_fuel (layers s) (workdir_fd s) u tree R W); try done;
    [by rewrite head_lookup|]. fold pp.
  intros c V D lows Hset [Hemp _] Htou Hzero Hrm. destruct (Hzero pid) as (x & Hx & Hxz); [by left|]. destruct (touched_node _ _ _ _ _ Htou Hpn) as (j & Hj & _).
  assert (x = set_layer_idx j pn) as -> by (unfold nodes_get in *; congruence). cbn in Hxz. subst j.
  assert (compute_path (nodes (put_copy c s)) pid = Some pp) as Hp.
  { cbn [nodes put_copy set_nodes]. rewrite (touched_path _ _ _ _ Htou).
    destruct (site_path _ _ _ _ _ _ _ _ Hsite) as (y & [= <-] & Hp). done. }
  wp_step. eapply disk_node_path; [exact Hp|]. wp_step. unfold layer_at.
  wp_step. wp_step. apply sm_wp_index. exists u. split; [done|]. apply sm_wp_ret.
  apply (Hk (put_copy c s) V D lows). destruct Hrm as (Hc & _ & Hf). split; [done|done| | |by exists c].
  - split_and!; [change (upper_layer s ≠ None); by rewrite Hup|by rewrite (lookup_touched _ _ _ _ Htou)|exact Hj|done|done].
  - split; [done|done|by rewrite (lookup_touched _ _ _ _ Htou)| |done|done|apply Hf; cbn; lia].
    exists (set_layer_idx 0 pn). split; [exact Hj|done].
Qed.

(** From there the rest of a request runs as in a state where the directory has
    been on the upper layer. *)
Lemma creatable_prepare wfd V s1 : creatable u wfd W V pid pp nm parent_ino s1 →
  prepare_create_parent copy_fuel parent_ino nm s1 = Ret (Ok (pid, pp, root_fd (ds u), child_path pp nm), s1).
Proof using Type.
  intros [Hu _ Hlook (n & Hn & _ & Hz & _) Hp _ _]. apply upper_layer_first in Hu as Hl. destruct Hl as [Hl0 Hlow].
  unfold prepare_create_parent, do_lookup_file, get_node_up, node_path, layer_at, sm_try, sm_bind, sm_get, sm_gets, sm_ret.
  cbn [bind]. rewrite Hlook. cbn [bind ok_or]. rewrite Hu. unfold node, layer. rewrite Hn. cbn [bind ok_or].
  rewrite Hl0. cbn [bind ok_or]. rewrite Hz, Hlow. cbn [Nat.eqb negb andb bind].
  rewrite Hp. cbn [sm_fuel sm_ret bind]. unfold sm_index. rewrite Hl0. done.
Qed.
Lemma arrived_skips {X A} (chk : InnerM (FsResult X)) x (k : X → NodeId * bytes * RawFd * bytes → InnerM (FsResult A))
    s1 V D lows (Q : FsResult A → OverlayInner → Disk → Prop) :
  arrived s1 V D lows → passes chk x s1 →
  sm_wp DISK (sm_try chk (λ a, sm_try (prepare_create_parent copy_fuel parent_ino nm) (k a))) s1 V Q →
  sm_wp DISK (k x (pid, pp, root_fd (ds u), child_path pp nm)) s1 V Q.
Proof using Type.
  intros Har (fd & kc & long & wide & E & Hk & Hw). unfold sm_wp, sm_try, sm_bind. rewrite E. cbn [bind wp]. intros [_ Hr].
  specialize (Hr wide V eq_refl). rewrite Hk, Hw in Hr. cbn [bind] in Hr.
  by rewrite (creatable_prepare _ _ _ (ar_creatable _ _ _ _ Har)) in Hr.
Qed.

Lemma inner_low {X A} (chk : InnerM (FsResult X)) x (k : X → NodeId * bytes * RawFd * bytes → InnerM (FsResult A))
    (Q : FsResult A → OverlayInner → Disk → Prop) :
  let m := sm_try chk (λ a, sm_try (prepare_create_parent copy_fuel parent_ino nm) (k a)) in
  (∀ s1 n, n = pn ∨ n = set_layer_idx 0 pn → no_name parent_ino nm s1 pid n → passes chk x s1) →
  (∀ err c V, grown tree U V → Q (Err err) (put_copy c s) V) →
  (∀ s1 V D lows, arrived s1 V D lows → sm_wp DISK m s1 V Q) → sm_wp DISK m s U Q.
Proof using All.
  intros m Hchk HErr Hm. pose proof (grown_refl tree U) as Hg.
  assert (passes chk x s) as Hp by (apply (Hchk s pn); [by left|apply Hpl]).
  assert (∀ e, Q (Err e) s U) as HE.
  { intros e. assert (put_copy (get_copy s) s = s) as <- by (by destruct s). by apply HErr. }
  unfold m. wp_step. eapply passes_wp; [exact Hp|by apply HI|exact HE|]. cbv beta iota.
  apply wp_prepare_low; [done|]. intros s1 V D lows Har. eapply (arrived_skips chk); [exact Har| |by eapply Hm].
  eapply Hchk; [by right|apply Har].
Qed.

(** The converse of the rules for sequences. *)
Lemma wp_bind_inv {A B} (p : prog A) (f : A → prog B) V (Q : B → Disk → Prop) :
  wp DISK (bind p f) V Q → wp DISK p V (λ a V', wp DISK (f a) V' Q).
Proof using Type.
  revert V. induction p as [a| | |c k IH]; intros V; [done..|]. cbn. intros [Hpre Hr]. split; [done|].
  intros r V' Hpost. by apply IH, Hr.
Qed.
Lemma on_inner_inv {A B} (m : InnerM (FsResult A)) (K : A → HM B) fs V (Q : FsResult B → OverlayFs → Disk → Prop) :
  sm_wp DISK (sm_try (on_inner m) K) fs V Q →
  sm_wp DISK m (inner fs) V (λ r i V', sm_wp DISK (match r with Ok a => K a | Err e => sm_ret (Err e) end) (set_inner i fs) V' Q).
Proof using Type.
  intros Hw. apply wp_bind_inv, wp_bind_inv in Hw. eapply wp_mono; [exact Hw|]. by intros [r i] V'.
Qed.

(** The whole request. *)
Lemma outer_low {X A B} (chk : InnerM (FsResult X)) x (k : X → NodeId * bytes * RawFd * bytes → InnerM (FsResult A))
    (K : A → HM B) fs (Q : FsResult B → OverlayFs → Disk → Prop) :
  let m := sm_try (on_inner (sm_try chk (λ a, sm_try (prepare_create_parent copy_fuel parent_ino nm) (k a)))) K in
  (∀ s1 n, n = pn ∨ n = set_layer_idx 0 pn → no_name parent_ino nm s1 pid n → passes chk x s1) →
  inner fs = s →
  (∀ err c V, grown tree U V → Q (Err err) (set_inner (put_copy c s) fs) V) →
  (∀ s1 V D lows, arrived s1 V D lows → sm_wp DISK m (set_inner s1 fs) V Q) → sm_wp DISK m fs U Q.
Proof using All.
  intros m Hchk Hs HErr Hm. unfold m. wp_step. apply sm_wp_zoom. rewrite Hs.
  apply (inner_low chk x); [done|done|]. intros s1 V D lows Har.
  eapply sm_wp_mono; [exact (on_inner_inv _ K _ _ _ (Hm s1 V D lows Har))|]. by intros [a|e] t V'.
Qed.

Lemma serve_low rq type rdev fs (Q : FsResult Reply → OverlayFs → Disk → Prop) :
  new_entry rq = Some (parent_ino, nm, type, rdev) → inner fs = s →
  (∀ err c V, grown tree U V → Q (Err err) (set_inner (put_copy c s) fs) V) →
  (∀ s1 V D lows, arrived s1 V D lows → sm_wp DISK (serve copy_fuel config rq) (set_inner s1 fs) V Q) →
  sm_wp DISK (serve copy_fuel config rq) fs U Q.
Proof using All.
  intros Hrq Hs HErr Hm.
  assert (∀ s1 n, n = pn ∨ n = set_layer_idx 0 pn → no_name parent_ino nm s1 pid n →
    passes (check_new_name parent_ino nm) tt s1 ∧ passes (check_create parent_ino nm) (is_whiteout pn nm) s1) as Hchk.
  { intros s1 n [->| ->] Hn; by apply no_name_checks in Hn. }
  destruct rq; cbn [new_entry] in Hrq; cbv zeta in Hrq; try discriminate; cbn [serve] in *.
  - destruct (_ =? S_IFDIR); [done|]. injection Hrq as -> -> _ _.
    apply (outer_low (check_new_name parent_ino nm) tt); [intros; by eapply Hchk|done..].
  - injection Hrq as -> -> _ _. apply (outer_low (check_new_name parent_ino nm) tt); [intros; by eapply Hchk|done..].
  - injection Hrq as -> -> _ _. apply (outer_low (check_new_name parent_ino nm) tt); [intros; by eapply Hchk|done..].
  - injection Hrq as -> -> _ _.
    apply (outer_low (check_create parent_ino nm) (is_whiteout pn nm)); [intros; by eapply Hchk|done..].
Qed.
End low.

(** ** What is seen of a creation *)
Section seen.
Context `{F64, DevT, HashOrder} (dir_of : RawFd → option Z) (roots : gset Z) (copy_fuel : nat) (config : OverlayConfig).
Context (Httl : is_Some (f64_duration (cfg_timeout config))).
Context (tree : list Z) (W : Z) (parent_ino : Z) (nm pp : bytes) (type rdev : Z) (last : nat) (U : Disk) (s : OverlayFs).
Let p : list bytes := comps pp ++ [nm].

(** Every other path shows what it showed, and nothing is lost but the name, its
    whiteout file and what is in the work directory. *)
Definition others_same (V : Disk) : Prop :=
  (∀ cs, Forall user_name cs → ¬ p `prefix_of` cs → same_look (see U tree cs) (see V tree cs)) ∧ spared W nm U V.
(** The whole object is in the upper directory, and is seen unless a whiteout
    file was there and is left. *)
Definition created (V : Disk) : Prop :=
  ∃ D lows e, see V tree (comps pp) = SDir (D :: lows) ∧ at_ V D nm = Some e ∧ as_asked last type rdev e V ∧
    (∀ d x y, at_ U d x = Some y → e_id y ≠ e_id e) ∧
    (at_ U D (WH_PREFIX ++ nm) = None → see V tree p = new_seen V lows nm e).
(** Nothing is seen of the request; or a whiteout was removed for a directory. *)
Definition not_created (V : Disk) : Prop :=
  shows_same U tree V ∨ type = S_IFDIR ∧ ∃ D, top tree pp V D ∧ at_ V D nm = None ∧ is_Some (at_ U D nm).

(** What a creation needs: the directory is cached and is known not to have the
    name, at which the tree of the layers shows nothing.  It is on the upper
    layer, where the next name in the work directory is free and the name is no
    directory; or it is of a lower layer and can be copied up. *)
Inductive creatable_at : Prop :=
| creatable_here D lows :
    creatable_in dir_of roots (inner s) U tree parent_ino nm pp D W lows last → creatable_at
| creatable_below R u pid ppid ids pn pp0 :
    parent_low dir_of roots tree R W u parent_ino pid ppid ids pn pp0 nm U (inner s) →
    pp = child_path pp0 (name pn) → last_layer_idx pn = last →
    (∀ Inv, DiskSource dir_of roots Inv True (ds u)) → see U tree p = SNone → plain nm → user_name nm → creatable_at.

(** From a disk that has the directory on the upper layer. *)
Section settled.
Context (R : Z) (V0 : Disk) (D : Z) (lows : list Z) (Hset : settled tree R W pp U V0 D lows).
Context (Hu : user_name nm) (HR : R ∈ roots) (HW : W ∈ roots) (Hroots : ∀ x, x ∈ tree → x ∈ roots).
Context (Hwh : at_ U D (WH_PREFIX ++ nm) = None → at_ V0 D (WH_PREFIX ++ nm) = None).
Context (Hnm : is_Some (at_ V0 D nm) → is_Some (at_ U D nm)).
Let changed (d : Z) (x : bytes) : Prop := own D nm d x ∨ d = W ∨ newd roots V0 d.

Lemma others_in V : same_but changed V0 V → others_same V.
Proof using All.
  intros Hs. pose proof Hset as [Ht _ [Hl Hk]]. pose proof (local_new roots _ _ _ _ _ _ nm Ht Hroots) as HK. split.
  - intros cs Hcs Hb. rewrite (see_unchanged V0 V tree (comps pp) D W lows nm _ Ht Hu HK Hs); [by apply Hl|done|by left].
  - intros d x y Hd Hx Hx' Hy%Hk. rewrite (same_but_at _ _ _ _ _ Hs); [done|].
    intros [[_ [?|?]]|[?|(_ & _ & Hn)]]; [done..|]. by destruct (Hn _ _ _ Hy).
Qed.
Lemma see_top V : same_but changed V0 V → see V tree (comps pp) = SDir (D :: lows).
Proof using All.
  intros Hs. pose proof Hset as [Ht _ _]. pose proof (local_new roots _ _ _ _ _ _ nm Ht Hroots) as HK.
  by apply (see_dir V0 V tree (comps pp) D W lows nm _ Ht Hu HK Hs).
Qed.
Lemma made_created V :
  made roots D W V0 nm (λ e V, as_asked last type rdev e V ∧
    (at_ V0 D (WH_PREFIX ++ nm) = None → see V tree p = new_seen V lows nm e)) V → others_same V ∧ created V.
Proof using All.
  intros (e & Hat & (_ & _ & Hnew) & [Ha Hsee] & Hs & _). split; [by apply others_in|].
  exists D, lows, e. split_and!; [by apply see_top|done|done| |auto].
  intros d x y Hy%(proj2 (se_grown _ _ _ _ _ _ _ _ Hset)). by eapply Hnew.
Qed.
Lemma none_not_created V :
  (unmade roots W V0 V ∧ as_before V0 tree V) ∨ (type = S_IFDIR ∧ uncovered roots D W V0 nm V) →
  others_same V ∧ not_created V.
Proof using All.
  intros [[Hs Hb]|[Ht (Hat & Hsome & Hs)]].
  - split; [apply others_in; eapply same_but_mono; [|exact Hs]; intros d x Hd; by right|]. left.
    eapply looks_before; [apply Hset|done].
  - split; [by apply others_in|]. right. split; [done|]. exists D. split; [exists lows; by apply see_top|auto].
Qed.
(** The request from there. *)
Lemma wp_creation_in rq fs : new_entry rq = Some (parent_ino, nm, type, rdev) →
  whites {| e_id := 0; e_type := type; e_rdev := rdev |} = false →
  creatable_in dir_of roots (inner fs) V0 tree parent_ino nm pp D W lows last →
  sm_wp (DISK dir_of roots (λ V, others_same V ∧ (created V ∨ not_created V)) True) (serve copy_fuel config rq) fs V0
    (λ r _ V, others_same V ∧ match r with Ok _ => created V | Err _ => created V ∨ not_created V end).
Proof using All.
  intros Hrq Hwhite Hct. pose proof made_created as Hm. pose proof none_not_created as Hn.
  pose proof (creation_up dir_of roots copy_fuel config Httl fs V0 tree rq _ _ _ _ _ _ _ _ _ Hrq Hwhite Hct) as Hc.
  cbv zeta in Hc. eapply sm_wp_mono; [eapply wp_weaken; [|exact Hc]|].
  - intros V [_ [HV|HV]]; [destruct (Hm V HV)|destruct (Hn V HV)]; auto.
  - intros r fs' V [_ HV]. destruct r as [r|err]; [by apply Hm|].
    destruct HV as [HV|HV]; [destruct (Hm V HV)|destruct (Hn V HV)]; auto.
Qed.
End settled.

(** C9. What is seen of a creation. A mknod, symlink, create or mkdir that
    succeeds has put a new object of the type and device asked for, whole, at
    the name in the upper directory. The overlay shows it there if the upper
    directory had no whiteout file for the name; if it had one, the code ignores
    whether its removal fails, and the object may be hidden. A new directory is
    empty but for an opaque mark, which it can have only if the code has seen a
    lower layer under its parent; without the mark it shows, merged with it,
    what lower layers have at the name. At every call, and after an error, the
    overlay shows what it showed or this; or, for mkdir only, a whiteout that
    was at the name has been removed and the directory is not there: then what
    the whiteout hid may be seen. Every path that is not at or below the name
    shows what it showed, a directory perhaps as one merged from other
    directories, and nothing is lost but the name, its whiteout file and what is
    in the work directory. Before the request the tree of the layers shows
    nothing at the name, the cached directory is known not to have it, the name
    is no directory in the upper one, the next names in the work directory are
    free, the device asked for is not the one of whiteouts, and the configured
    timeout is a duration. The directory may be of a lower layer, at any depth:
    then it and those above it are made first. *)
Theorem creation_is_seen (rq : FuseRequest)
    (Hrq : new_entry rq = Some (parent_ino, nm, type, rdev))
    (Hwhite : whites {| e_id := 0; e_type := type; e_rdev := rdev |} = false)
    (Hct : creatable_at) :
  sm_wp (DISK dir_of roots (λ V, others_same V ∧ (created V ∨ not_created V)) True) (serve copy_fuel config rq) s U
    (λ r _ V, others_same V ∧ match r with Ok _ => created V | Err _ => created V ∨ not_created V end).
Proof using Httl.
  assert (∀ V, grown tree U V → others_same V ∧ not_created V) as Hg.
  { intros V [Hl Hk]. split; [split; [intros cs Hcs _; by apply Hl|intros d x y _ _ _; apply Hk]|left; by apply looks_shows]. }
  destruct Hct as [D lows Hct'|R u pid ppid ids pn pp0 Hpl Hpp Hlast Hs Hsee Hn Hu].
  - pose proof Hct' as [(u & pid & pn & R & _ & _ & _ & _ & _ & _ & HR & Hw) (_ & HW & _) (Ht & Hroots & _) (_ & Hu & _)].
    eapply (wp_creation_in R U D lows); try done. split; [done|done|apply grown_refl].
  - pose proof Hpl as [_ [HRd HWd] (HR & HW & Hroots) _ _ _ _].
    eapply (serve_low dir_of roots _ copy_fuel config tree R W u parent_ino pid ppid ids pn pp0 nm U (inner s) Hpl);
      [|exact Hrq|done| |].
    + intros V HV. destruct (Hg V HV). auto.
    + intros err c V HV. destruct (Hg V HV). auto.
    + intros s1 V D lows [Hset Hemp Hno Hc [c ->]]. rewrite <-Hpp in Hset, Hc.
      eapply (wp_creation_in R V D lows Hset); [done|done|done|done|by rewrite Hemp|by rewrite Hemp; intros []|exact Hrq|done|].

      destruct Hno as (_ & _ & Hpn & _). pose proof Hset as [Ht Hw [Hl _]].
      split.
      * exists u, pid, (set_layer_idx 0 pn), R. split_and!; done.
      * split_and!; [done|done|by eapply tree_apart].
      * split_and!; [done|done|]. assert (Forall user_name (comps pp ++ [nm])) as Hnames.
        { apply Forall_app. split; [apply (it_names _ _ _ _ _ _ Ht)|by constructor]. }
        specialize (Hl _ Hnames). fold p in Hl. rewrite Hsee in Hl. unfold p in Hl. rewrite see_snoc, (it_dir _ _ _ _ _ _ Ht) in Hl. done.
      * split_and!; [done|done|]. intros x Hx. by rewrite Hemp in Hx.
Qed.
End seen.
