(* ===== verification/TwoNames.v ===== *)
(** * The two names of link and rename

    Both requests first bring a file to the upper layer, and then work on two
    names: that of the file and a new one.  What is known of the disk and of the
    nodes when the copy-up is done. *)

From S2P Require Import Prelude Libc Mapping Xattr ConfigData Sys Openat2 Node Tree DataSource Whiteout.
From S2P Require Import Layer Copyup SafeCopy Overlay Merge Disk Effects Visible CopyDisk CopyDirs Removal.
Local Open Scope Z_scope.

Section names.
Context `{F64, DevT, HashOrder} (dir_of : RawFd → option Z) (roots : gset Z) (copy_fuel : nat).
Context (tree : list Z) (R W : Z) (u : OvlLayer) (s : OverlayInner) (U : Disk).
Context (id spid : NodeId) (pp nm : bytes) (el : Ent).
Implicit Types (c : CopyState) (V : Disk).

(** The file [el], of the node [id], is what the tree shows at the name [nm] of
    the directory [spid], at [pp]: both are on the upper layer, or the file is of
    a lower one and can be copied up. *)
Inductive source : Prop :=
| source_up D lows n pn :
    nodes_get s id = Some n → layer_idx n = 0%nat → compute_path (nodes s) id = Some (child_path pp nm) →
    nodes_get s spid = Some pn → layer_idx pn = 0%nat → compute_path (nodes s) spid = Some pp →
    in_tree U tree (comps pp) D W lows → walk U R (comps pp) = Some D →
    at_ U D nm = Some el → child U (D :: lows) nm = SFile el → source
| source_low Dl ids k n :
    nodes_get s id = Some n → layer_idx n ≠ 0%nat →
    copyable dir_of roots (layers s) (workdir_fd s) (get_copy s) U tree id n (spid :: ids) R W Dl pp nm el k → source.

(** Nothing looks different, and no other name is lost. *)
Definition steady V : Prop :=
  shows_same U tree V ∧ ∀ d x y, x ≠ nm → at_ U d x = Some y → at_ V d x = Some y.

(** The file is on the upper layer, and so is its directory [D]. *)
Record lifted c V (D : Z) (lows : list Z) (e : Ent) : Prop := {
  li_tree : in_tree V tree (comps pp) D W lows;
  li_walk : walk V R (comps pp) = Some D;
  li_file : at_ V D nm = Some e ∧ child V (D :: lows) nm = SFile e;
  li_kind : el = e ∨ same_kind el e;
  li_steady : steady V;
  li_new : ∀ d x y, at_ V d x = Some y →
    at_ U d x = Some y ∨ d = D ∧ x = nm ∨ user_name x ∧ e_dir y = true;
  li_own : ∀ d x y, at_ V d x = Some y → (d, x) ≠ (D, nm) → e_id y = e_id e → e = el ∧ at_ U d x = Some y;
  li_dirs : same_dirs tree R W U V;
  li_touched : ∃ ids, touched ids (get_copy s) c;
  li_node : ∃ n, arena_get (cs_nodes c) id = Some n ∧ layer_idx n = 0%nat;
  li_parent : ∃ n, arena_get (cs_nodes c) spid = Some n ∧ layer_idx n = 0%nat;
  li_path : compute_path (nodes s) id = Some (child_path pp nm);
  li_ppath : compute_path (nodes s) spid = Some pp
}.

Lemma steady_refl : steady U.
Proof using Type. split; [apply looks_shows, looks_refl|done]. Qed.
Lemma grown_steady V : grown tree U V → steady V.
Proof using Type. intros [Hl Hk]. split; [by apply looks_shows|intros d x y _; apply Hk]. Qed.
Lemma steady_after V0 V : grown tree U V0 → as_before V0 tree V →
  (∀ d x y, x ≠ nm → at_ V0 d x = Some y → at_ V d x = Some y) → steady V.
Proof using Type.
  intros [Hl Hk] Hb Ho. split; [by eapply looks_before|]. intros d x y Hx Hy. by apply Ho, Hk.
Qed.

Context (Hnm : plain nm) (Hu : user_name nm).

(** The copy, in its place. *)
Lemma placed_put V0 D lows e V : child V0 (D :: lows) nm = SFile el →
  placed roots D V0 nm e V → V = put D nm e V0 ∧ at_ V0 D (WH_PREFIX ++ nm) = None.
Proof using Hu.
  intros Hc (_ & _ & _ & HV).
  assert (at_ V0 D (WH_PREFIX ++ nm) = None) as Hn by (eapply child_no_file; [done|]; by rewrite Hc).
  split; [|done]. destruct HV as [->|[(x & Hx & _) _]]; [done|congruence].
Qed.
Section placed.
Context (V0 : Disk) (D : Z) (lows : list Z) (e : Ent) (V : Disk).
Context (Hset : settled tree R W pp U V0 D lows) (Hch : child V0 (D :: lows) nm = SFile el).
Context (Hf : file_ent el) (Hk : same_kind el e) (Hp : placed roots D V0 nm e V).

Lemma placed_steady : steady V.
Proof using Hnm Hu Hset Hch Hf Hk Hp.
  pose proof Hset as [Ht _ Hg]. apply (steady_after V0); [done| |].
  - by eapply (placed_seen roots D W V0 nm el tree (comps pp) lows Ht Hu (tree_apart _ _ _ _ _ _ Ht) Hch Hf e).
  - intros d x y Hx Hy. destruct (placed_put _ _ _ _ _ Hch Hp) as [-> _]. rewrite at_put_ne; [done|congruence].
Qed.
Lemma placed_file : at_ V D nm = Some e ∧ child V (D :: lows) nm = SFile e.
Proof using Hnm Hu Hset Hch Hf Hk Hp.
  destruct (placed_put _ _ _ _ _ Hch Hp) as [EV Hwh]. pose proof Hp as (_ & Hd & _).
  assert (at_ V D nm = Some e) as Hat by (by rewrite EV, at_put). split; [done|].
  cbn. rewrite (entry_shown V D nm e); [by rewrite Hd|done|done|..].
  - rewrite (same_kind_whites el e) by done. by eapply child_file.
  - rewrite EV, at_put_ne; [done|]. intros [_ E]%pair_eq. symmetry in E. by apply wh_ne in E.
Qed.
Lemma placed_dirs : same_dirs tree R W V0 V.
Proof using Hnm Hu Hset Hch Hf Hk Hp.
  pose proof Hset as [Ht _ _]. destruct (placed_put _ _ _ _ _ Hch Hp) as [EV _].
  intros path1 D1 lows1 Ht1 Hw1. split; [|eapply walk_keeps; [by eapply placed_keeps|done]].
  apply (tree_stays V0 V tree (comps pp) D W lows nm (own D nm) Ht Hu); [apply own_local|..|done].
  - rewrite EV. apply same_but_put. split; [done|by left].
  - intros dd. by rewrite Hch.
  - intros dd. by rewrite (proj2 placed_file).
Qed.
End placed.

(** The copy-up of the file, which nothing is seen of. *)
Lemma wp_lift (Inv : Disk → Prop) (Q : FsResult unit → OverlayInner → Disk → Prop) :
  upper_layer s = Some u → source → (∀ V, steady V → Inv V) →
  (∀ err c V, steady V → Q (Err err) (put_copy c s) V) →
  (∀ c V D lows e, lifted c V D lows e → Q (Ok tt) (put_copy c s) V) →
  sm_wp (DISK dir_of roots Inv True) (get_node_up copy_fuel id) s U Q.
Proof using Hnm Hu.
  intros Hup Hsrc HI HErr HOk.
  destruct Hsrc as [D lows n pn Hn Hz Hp Hpn Hpz Hpp Ht Hw He Hch|Dl ids k n Hn Hz Hcb].
  - eapply wp_node_is_up; [done..|]. assert (put_copy (get_copy s) s = s) as E by (by destruct s). rewrite <-E.
    apply (HOk (get_copy s) U D lows el). split; try done; [by left|apply steady_refl|by left| | |].
    + exists []. apply touched_refl.
    + by exists n.
    + by exists pn.
  - pose proof Hcb as [_ _ (_ & _ & _ & Hp) [Hsite _] _ _ (Hf & _)].
    destruct (site_path _ _ _ _ _ _ _ _ Hsite) as (x & [= <-] & Hpp).
    eapply wp_node_copyup; [done..|]. eapply (wp_copyup_deep dir_of roots Inv copy_fuel); [exact Hcb| | | |].
    + intros V HV. by apply HI, grown_steady.
    + intros V0 D lows e V Hs Hk HV. apply HI. eapply placed_steady; [done|by eapply settled_child|done..].
    + intros err s' V HV. by apply HErr, grown_steady.
    + intros V0 D lows e c V [Hs Hdirs Hnew Hk HV Htou Hzero _].
      pose proof (settled_child _ _ _ _ _ _ _ _ _ _ _ _ _ _ _ _ _ Hcb _ _ _ Hs) as Hch.
      pose proof (placed_put _ _ _ _ _ Hch HV) as [EV _]. pose proof Hs as [Ht Hw _].
      assert (same_dirs tree R W V0 V) as Hd2 by (by eapply placed_dirs).
      apply (HOk c V D lows e). split.
      * by destruct (Hd2 _ _ _ Ht Hw).
      * by destruct (Hd2 _ _ _ Ht Hw).
      * by eapply placed_file.
      * by right.
      * by eapply placed_steady.
      * intros d y z. rewrite EV. intros [[[= <- <-] _]|[_ Hz']]%at_put_Some; [by right; left|].
        destruct (Hnew _ _ _ Hz') as [?|?]; [by left|by right; right].
      * intros d y z. rewrite EV. intros [[E _]|[_ Hz']]%at_put_Some Hne Eid; [congruence|].
        destruct HV as ((_ & _ & Hid) & _). by destruct (Hid _ _ _ Hz').
      * by eapply same_dirs_trans.
      * by eexists.
      * apply Hzero. by right.
      * apply Hzero. by left.
      * done.
      * done.
Qed.

(** ** The directory of the new name *)

Context (dpid : NodeId) (pp' nm' : bytes).

(** It is on the upper layer, or the one of the file. *)
Inductive target : Prop :=
| target_up n D lows :
    nodes_get s dpid = Some n → layer_idx n = 0%nat → compute_path (nodes s) dpid = Some pp' →
    in_tree U tree (comps pp') D W lows → walk U R (comps pp') = Some D → target
| target_same : dpid = spid → pp' = pp → target.

Record landed c V (D : Z) (lows : list Z) : Prop := {
  la_tree : in_tree V tree (comps pp') D W lows;
  la_walk : walk V R (comps pp') = Some D;
  la_node : ∃ n, arena_get (cs_nodes c) dpid = Some n ∧ layer_idx n = 0%nat;
  la_path : compute_path (nodes s) dpid = Some pp';
  la_old : (user_name nm' → is_Some (at_ V D (WH_PREFIX ++ nm')) → is_Some (at_ U D (WH_PREFIX ++ nm'))) ∧
    (user_name nm' → comps pp ++ [nm] ≠ comps pp' ++ [nm'] → whited V D nm' → whited U D nm')
}.

Lemma lifted_lands c V D lows e : lifted c V D lows e → target → ∃ D' lows', landed c V D' lows'.
Proof using Hu.
  intros [Ht Hw _ _ _ Hnew _ Hdirs (ids & Htou) _ Hpar _ Hpp] Htg.
  assert (∀ D' lows', in_tree V tree (comps pp') D' W lows' →
    (user_name nm' → is_Some (at_ V D' (WH_PREFIX ++ nm')) → is_Some (at_ U D' (WH_PREFIX ++ nm'))) ∧
    (user_name nm' → comps pp ++ [nm] ≠ comps pp' ++ [nm'] → whited V D' nm' → whited U D' nm')) as Hold.
  { intros D' lows' Ht'.
    assert (user_name nm' → is_Some (at_ V D' (WH_PREFIX ++ nm')) → is_Some (at_ U D' (WH_PREFIX ++ nm'))) as Hwh.
    { intros Hu' [y Hy]. destruct (Hnew _ _ _ Hy) as [?|[[_ E]|[E _]]]; [by eexists| |].
      - rewrite <-E in Hu. by apply (user_name_wh _ nm') in Hu.
      - by apply (user_name_wh _ nm') in E. }
    split; [exact Hwh|]. intros Hu' Hne [Hy|(y & Hy & Hyw)]; [left; by apply Hwh|right].
    destruct (Hnew _ _ _ Hy) as [?|[[-> ->]|[_ E]]]; [by exists y| |by rewrite (whites_not_dir _ Hyw) in E].
    destruct Hne. f_equal. symmetry.
    apply (it_only _ _ _ _ _ _ Ht _ _ (it_names _ _ _ _ _ _ Ht') (it_dir _ _ _ _ _ _ Ht')). left. }
  destruct Htg as [n D' lows' Hn Hz Hp Ht' Hw'|Ed Ep].
  - destruct (Hdirs _ _ _ Ht' Hw') as [Ht2 Hw2]. exists D', lows'. split; [done|done| |done|by eapply Hold].
    destruct (touched_node _ _ _ _ _ Htou Hn) as (k & Hk & Hor). exists (set_layer_idx k n). split; [done|].
    cbn. by destruct Hor as [->| ->].
  - exists D, lows. split; [by rewrite Ep|by rewrite Ep|by rewrite Ed|by rewrite Ed, Ep|]. apply (Hold D lows). by rewrite Ep.
Qed.
End names.

(** ** Changes of the new name *)
Section second.
Context `{DevT} (tree : list Z) (R W : Z) (s : OverlayInner) (U : Disk) (id spid dpid : NodeId) (pp nm pp' nm' : bytes) (el : Ent).
Let p : list bytes := comps pp ++ [nm].
Let p' : list bytes := comps pp' ++ [nm'].
Implicit Types (V : Disk).
Context (Hu : user_name nm) (Hu' : user_name nm') (Hne : p ≠ p').
Context (c : CopyState) (V1 : Disk) (D D' : Z) (lows lows' : list Z) (e : Ent).
Context (Hli : lifted tree R W s U id spid pp nm el c V1 D lows e).
Context (Hla : landed tree R W s U pp nm dpid pp' nm' c V1 D' lows').
Context (Hdir : ∀ dd, see V1 tree p' ≠ SDir dd).

(** The name of the file is none of those that are changed. *)
Lemma file_apart : ¬ own D' nm' D nm.
Proof using Hu Hne Hli Hla.
  intros [-> [E|E]]; [|by apply (user_name_wh nm nm')].
  apply Hne. unfold p, p'. rewrite E. f_equal. apply (it_only _ _ _ _ _ _ (la_tree _ _ _ _ _ _ _ _ _ _ _ _ _ _ Hla)
    _ (D' :: lows)); [apply Hli|apply Hli|left].
Qed.
Lemma not_below : ¬ p' `prefix_of` p.
Proof using Hu Hu' Hne Hli Hla Hdir.
  intros [k E]. pose proof (it_dir _ _ _ _ _ _ (li_tree _ _ _ _ _ _ _ _ _ _ _ _ _ _ _ Hli)) as Hd.
  destruct k as [|x k _] using rev_ind; [by rewrite app_nil_r in E|].
  unfold p in E. rewrite app_assoc in E. apply app_inj_tail in E as [E _]. rewrite E in Hd.
  destruct k as [|y k]; [rewrite app_nil_r in Hd; by eapply Hdir|]. by rewrite see_below in Hd.
Qed.

Lemma as_in V : same_but (own D' nm') V1 V → as_before_but p' V1 tree V.
Proof using Hu' Hla.
  intros Hs cs Hcs Hb. apply (see_unchanged V1 V tree (comps pp') D' W lows' nm' (own D' nm')); try done.
  - apply Hla.
  - apply own_local.
  - by left.
Qed.
Lemma file_in V : same_but (own D' nm') V1 V → at_ V D nm = Some e ∧ see V tree p = SFile e.
Proof using Hu Hu' Hne Hli Hla Hdir.
  intros Hs. destruct (li_file _ _ _ _ _ _ _ _ _ _ _ _ _ _ _ Hli) as [He Hch]. split.
  - rewrite <-He. apply (same_but_at _ _ _ _ _ Hs), file_apart.
  - rewrite (as_in V Hs p).
    + unfold p. by rewrite see_snoc, (it_dir _ _ _ _ _ _ (li_tree _ _ _ _ _ _ _ _ _ _ _ _ _ _ _ Hli)).
    + apply Forall_app. split; [apply Hli|by constructor].
    + apply not_below.
Qed.

End second.
