(* ===== verification/Linking.v ===== *)
(** * Giving a file another name (link of src/src/overlay.rs)

    The file is copied up if need be, a whiteout of the new name is removed, and
    then the name is made; what each outcome leaves on the disk, and what is seen
    of it at every call. *)

From S2P Require Import Prelude Libc Mapping Xattr ConfigData Sys Openat2 Node Tree DataSource Provenance Whiteout.
From S2P Require Import Layer Copyup SafeCopy Overlay SafeInner Merge Disk Effects Visible CopyDisk CopyDirs.
From S2P Require Import Ops OpsTree OpsFile Requests Removal Creating CreatingDirs TwoNames.
Local Open Scope Z_scope.

(** ** The outcomes *)
Section outcomes.
Context `{F64, DevT, HashOrder}.
Context (tree : list Z) (R W : Z) (s : OverlayInner) (U : Disk) (id spid dpid : NodeId) (pp nm pp' nm' : bytes) (el : Ent).
Let p : list bytes := comps pp ++ [nm].
Let p' : list bytes := comps pp' ++ [nm'].
Implicit Types (V : Disk).

(** The other paths show what they showed, perhaps a copy of it. *)
Definition others_shown V : Prop :=
  ∀ cs, Forall user_name cs → ¬ p' `prefix_of` cs → same_shown (see U tree cs) (see V tree cs).
(** The other names are there. *)
Definition others_kept V : Prop :=
  ∀ d x y, x ≠ nm → x ≠ nm' → x ≠ WH_PREFIX ++ nm' → at_ U d x = Some y → at_ V d x = Some y.
(** Both names have the same object [e]; the new one is seen unless a whiteout
    file was there and is left. *)
Definition linked V : Prop :=
  ∃ D D' e, walk V R (comps pp) = Some D ∧ walk V R (comps pp') = Some D' ∧
    at_ V D nm = Some e ∧ at_ V D' nm' = Some e ∧ (el = e ∨ same_kind el e) ∧ see V tree p = SFile e ∧
    (see V tree p' = SFile e ∨ is_Some (at_ U D' (WH_PREFIX ++ nm'))).
(** Nothing is seen of the request; or the whiteout of the new name is gone, and
    what it hid may be seen. *)
Definition not_linked V : Prop :=
  shows_same U tree V ∨ ∃ D', walk V R (comps pp') = Some D' ∧ whited U D' nm'.
Definition link_before V : Prop := others_shown V ∧ others_kept V ∧ not_linked V.
Definition link_after V : Prop := others_shown V ∧ others_kept V ∧ linked V.

Lemma steady_before V : steady tree U nm V → link_before V.
Proof using Type.
  intros [Hs Hk]. split_and!; [intros cs Hcs _; by apply Hs|intros d x y Hx _ _; by apply Hk|by left].
Qed.

Context (Hu : user_name nm) (Hu' : user_name nm') (Hne : p ≠ p').
Context (c : CopyState) (V1 : Disk) (D D' : Z) (lows lows' : list Z) (e : Ent).
Context (Hli : lifted tree R W s U id spid pp nm el c V1 D lows e).
Context (Hla : landed tree R W s U pp nm dpid pp' nm' c V1 D' lows').
Context (Hdir : ∀ dd, see V1 tree p' ≠ SDir dd).

Lemma link_others_in V : same_but (own D' nm') V1 V → others_shown V ∧ others_kept V.
Proof using Hu' Hli Hla.
  intros Hs. destruct (li_steady _ _ _ _ _ _ _ _ _ _ _ _ _ _ _ Hli) as [Hsh Hk]. split.
  - intros cs Hcs Hb. assert (see V tree cs = see V1 tree cs) as -> by (by eapply as_in). by apply Hsh.
  - intros d x y Hx Hx' Hx2 Hy%(Hk _ _ _ Hx). rewrite <-Hy. apply (same_but_at _ _ _ _ _ Hs). by intros [_ [?|?]].
Qed.
(** The whiteouts of the new name are removed, or some of them. *)
Section cleared.
Context (V2 : Disk) (Hrm : removes (own D' nm') V1 V2).
Context (Hkeep : ∀ y, at_ V1 D' nm' = Some y → whites y = false → at_ V2 D' nm' = Some y).

Lemma cleared_before : link_before V2.
Proof using Hu Hu' Hne Hli Hla Hrm Hkeep.
  pose proof Hrm as (Hs & Hd & Hold). destruct (link_others_in V2 Hs) as [Ho Hk]. split; [done|]. split; [done|].
  assert (walk V2 R (comps pp') = Some D') as Hw by (eapply walk_keeps; [done|apply Hla]).
  destruct (la_old _ _ _ _ _ _ _ _ _ _ _ _ _ _ Hla) as [_ Hwh].
  destruct (decide (is_Some (at_ V1 D' (WH_PREFIX ++ nm')))) as [Hf|Hf].
  { right. exists D'. split; [done|]. apply Hwh; [done|done|by left]. }
  destruct (at_ V1 D' nm') as [y|] eqn:Ey; [destruct (whites y) eqn:Ew|].
  { right. exists D'. split; [done|]. apply Hwh; [done|done|]. right. by exists y. }
  2: rename Ey into Ew.
  all: left; intros cs Hcs; rewrite (see_unchanged V1 V2 tree (comps pp') D' W lows' nm' (own D' nm'));
    [by apply (li_steady _ _ _ _ _ _ _ _ _ _ _ _ _ _ _ Hli)|apply Hla|done|apply own_local|done|done|right].
  all: apply (child_kept V1 V2 tree (comps pp') D' W lows' nm' (own D' nm')); [apply Hla|done|apply own_local|done|..].
  - rewrite Ey. by apply Hkeep.
  - apply eq_None_not_Some in Hf as Hf'. rewrite Hf'. apply eq_None_not_Some. intros [x Hx]. apply Hf. eexists. by apply Hold.
  - rewrite Ew. apply eq_None_not_Some. intros [x Hx%Hold]. congruence.
  - apply eq_None_not_Some in Hf as Hf'. rewrite Hf'. apply eq_None_not_Some. intros [x Hx]. apply Hf. eexists. by apply Hold.
Qed.

(** And then the name is made. *)
Lemma linked_after : at_ V2 D' nm' = None → link_after (put D' nm' e V2).
Proof using Hu Hu' Hne Hli Hla Hdir Hrm.
  intros Hfree. set (V3 := put D' nm' e V2). pose proof Hrm as (Hs & Hd & Hold).
  assert (same_but (own D' nm') V1 V3) as Hs3.
  { eapply same_but_trans; [done|]. apply same_but_put. split; [done|by left]. }
  assert (keeps_dirs V1 V3) as Hd3 by (eapply keeps_dirs_trans; [done|by apply keeps_dirs_put]).
  destruct (link_others_in V3 Hs3) as [Ho Hk]. split; [done|]. split; [done|].
  destruct (file_in tree R W s U id spid dpid pp nm pp' nm' el Hu Hu' Hne c V1 D D' lows lows' e Hli Hla Hdir V3 Hs3) as [He Hp]. destruct (li_file _ _ _ _ _ _ _ _ _ _ _ _ _ _ _ Hli) as [_ Hch].
  exists D, D', e. split_and!; [eapply walk_keeps; [done|apply Hli]|eapply walk_keeps; [done|apply Hla]|done|apply at_put| |done|].
  { apply Hli. }
  destruct (at_ V2 D' (WH_PREFIX ++ nm')) as [y|] eqn:Ey.
  - right. apply (la_old _ _ _ _ _ _ _ _ _ _ _ _ _ _ Hla); [done|]. exists y. by apply Hold.
  - left. apply child_file in Hch as [Hwe Hde].
    apply (see_shown V1 V3 tree (comps pp') D' W lows' nm' (own D' nm')); try done.
    + apply Hla.
    + apply own_local.
    + apply at_put.
    + unfold V3. rewrite at_put_ne; [done|]. intros [_ E]%pair_eq. symmetry in E. by apply wh_ne in E.
Qed.
End cleared.
End outcomes.

(** ** The request *)
Section request.
Context `{F64, DevT, HashOrder} (dir_of : RawFd → option Z) (roots : gset Z) (copy_fuel : nat).
Context (tree : list Z) (R W : Z) (U : Disk) (pp nm pp' nm' : bytes) (el : Ent).
Let before := link_before tree R U nm pp' nm'.
Let after := link_after tree R U pp nm pp' nm' el.
Abbreviation DISK := (DISK dir_of roots (λ V, before V ∨ after V) True).

(** What a link needs: the file and the directory of the new name are cached,
    and the directory is known not to have the name, at which the tree of the
    layers shows nothing.  The directory is on the upper layer, or the one of the
    file, which may be of a lower layer. *)
Record linkable (s : OverlayInner) (ino newparent : Z) (id spid dpid : NodeId) : Prop := {
  lk_upper : ∃ u, upper_layer s = Some u ∧ dir_of (root_fd (ds u)) = Some R ∧ ∀ Inv, DiskSource dir_of roots Inv True (ds u);
  lk_file : lookup_node_id s ino = Some id;
  lk_name : ∃ dpn, no_name newparent nm' s dpid dpn;
  lk_source : source dir_of roots tree R W s U id spid pp nm el;
  lk_target : target tree R W s U spid pp dpid pp';
  lk_names : plain nm ∧ user_name nm ∧ plain nm' ∧ user_name nm' ∧ comps pp ++ [nm] ≠ comps pp' ++ [nm'];
  lk_none : see U tree (comps pp' ++ [nm']) = SNone
}.

(** The steps from the copy-up on. *)
Section linking.
Context (s : OverlayInner) (id spid dpid : NodeId) (u : OvlLayer) (c : CopyState) (V1 : Disk) (D D' : Z) (lows lows' : list Z) (e : Ent).
Context (Hup : upper_layer s = Some u) (HRd : dir_of (root_fd (ds u)) = Some R).
Context (Hnm : plain nm) (Hu : user_name nm) (Hnm' : plain nm') (Hu' : user_name nm').
Context (Hne : comps pp ++ [nm] ≠ comps pp' ++ [nm']).
Context (Hli : lifted tree R W s U id spid pp nm el c V1 D lows e).
Context (Hla : landed tree R W s U pp nm dpid pp' nm' c V1 D' lows').
Context (Hdir : ∀ dd, see V1 tree (comps pp' ++ [nm']) ≠ SDir dd).
Context (Q : FsResult FileAttr → OverlayInner → Disk → Prop).
Context (HErr : ∀ err s' V, before V ∨ after V → Q (Err err) s' V) (HOk : ∀ a s' V, after V → Q (Ok a) s' V).
Let s1 := put_copy c s.

(** After the removal of the whiteout. *)
Lemma wp_linkat V2 : removes (own D' nm') V1 V2 →
  (∀ y, at_ V1 D' nm' = Some y → whites y = false → at_ V2 D' nm' = Some y) →
  (∀ Inv, DiskSource dir_of roots Inv True (ds u)) →
  sm_wp DISK
    (try! (src_guard, src_dirfd, c_old) := open_parent_safe_cstr (root_fd (ds u)) (child_path pp nm) in
     try! (dst_guard, dst_dirfd, c_new_link) := open_parent_safe_cstr (root_fd (ds u)) (child_path pp' nm') in
     try! _ := sm_call (Linkat src_dirfd c_old dst_dirfd c_new_link 0) in
     try! st := stateless (statat (ds u) (child_path pp' nm') AT_SYMLINK_NOFOLLOW STATX_BASIC_STATS) in
     let! r := create_and_register_child dpid nm' st false in
     match r with
     | Some (child_id, fuse_ino) =>
         let! attr := sm_expect (stat_to_attr st) in
         sm_ret (Ok (set_attr_ino fuse_ino attr))
     | None => sm_ret (Err ENOMEM)
     end) s1 V2 Q.
Proof using All.
  intros Hrm Hkeep Hsrc. pose proof Hrm as (Hs & Hd & _).
  assert (before V2) as HB by (by eapply cleared_before).
  assert (walk V2 R (comps pp) = Some D) as Hw by (eapply walk_keeps; [done|apply Hli]).
  assert (walk V2 R (comps pp') = Some D') as Hw' by (eapply walk_keeps; [done|apply Hla]).
  wp_step. eapply wp_open_parent; [by left|done|done|done| |by intros; apply HErr; left]. intros g fd Hfd. cbv beta iota.
  wp_step. eapply wp_open_parent; [by left|done|done|done| |by intros; apply HErr; left]. intros g' fd' Hfd'. cbv beta iota.
  wp_step. apply wp_disk; [by left|]. intros r V3 Hr. destruct (Hr Hnm Hnm') as [HE Hok]. destruct r as [[]|err].
  2: { rewrite (HE _ eq_refl). apply HErr. by left. }
  destruct (Hok eq_refl) as (E1 & E2 & x & HE1 & HE2 & Hx & _ & Hfree & ->).
  assert (E1 = D) as -> by congruence. assert (E2 = D') as -> by congruence.
  assert (x = e) as ->.
  { destruct (file_in tree R W s U id spid dpid pp nm pp' nm' el Hu Hu' Hne c V1 D D' lows lows' e Hli Hla Hdir V2 Hs). congruence. }
  assert (after (put D' nm' e V2)) as HA by (by eapply linked_after).
  set (V3 := put D' nm' e V2) in *. assert (walk V3 R (comps pp') = Some D') as Hw3.
  { eapply walk_keeps; [|exact Hw']. by apply keeps_dirs_put. }
  wp_step. apply sm_wp_stateless. eapply (@ds_statat _ dir_of roots _ True _ (Hsrc _)); [by right|done|done|done|].
  intros [st|err] [Ht _]; [|by apply HErr; right]. wp_step. apply wp_create_and_register. intros r s'.
  wp_step; [|by apply HErr; right]. wp_step. wp_step. apply sm_wp_expect. destruct (stat_to_attr_ok st (Ht st eq_refl)) as [a Ha].
  exists a. split; [done|]. by apply sm_wp_ret, HOk.
Qed.

(** After the lookups. *)
Lemma wp_link_names :
  (∀ Inv, DiskSource dir_of roots Inv True (ds u)) →
  sm_wp DISK
    (try! _ := get_node_up copy_fuel dpid in
     let! src_path := node_path id in
     let! dparent_path := node_path dpid in
     let! l0 := layer_at 0 in
     let upper_fd := root_fd (ds l0) in
     let new_path := child_path dparent_path nm' in
     let! _ := do_delete_whiteout upper_fd None dparent_path nm' in
     try! (src_guard, src_dirfd, c_old) := open_parent_safe_cstr upper_fd src_path in
     try! (dst_guard, dst_dirfd, c_new_link) := open_parent_safe_cstr upper_fd new_path in
     try! _ := sm_call (Linkat src_dirfd c_old dst_dirfd c_new_link 0) in
     try! st := stateless (statat (ds l0) new_path AT_SYMLINK_NOFOLLOW STATX_BASIC_STATS) in
     let! r := create_and_register_child dpid nm' st false in
     match r with
     | Some (child_id, fuse_ino) =>
         let! attr := sm_expect (stat_to_attr st) in
         sm_ret (Ok (set_attr_ino fuse_ino attr))
     | None => sm_ret (Err ENOMEM)
     end) s1 V1 Q.
Proof using All.
  intros Hsrc. destruct (la_node _ _ _ _ _ _ _ _ _ _ _ _ _ _ Hla) as (n & Hn & Hz).
  destruct (li_touched _ _ _ _ _ _ _ _ _ _ _ _ _ _ _ Hli) as (ids & Htou).
  assert (∀ j path, compute_path (nodes s) j = Some path → compute_path (nodes s1) j = Some path) as Hpath.
  { intros j path Hp. cbn [nodes s1 put_copy set_nodes]. by rewrite (touched_path _ _ _ _ Htou). }
  apply upper_layer_first in Hup as Hl0. destruct Hl0 as [Hl0 _].
  wp_step. eapply wp_node_is_up; [exact Hup|exact Hn|exact Hz|]. cbv beta iota.
  wp_step. eapply disk_node_path; [apply Hpath, Hli|]. wp_step. eapply disk_node_path; [apply Hpath, Hla|].
  wp_step. unfold layer_at. wp_step. wp_step. apply sm_wp_index. exists u. split; [exact Hl0|]. cbv zeta.
  wp_step. unfold do_delete_whiteout. apply sm_wp_zoom.
  eapply (disk_delete_whiteout dir_of roots _ True _ R _ _ _ D'); [done|apply Hla|done|done| |].
  - intros V2 Hr Hk. left. by eapply cleared_before.
  - intros r V2 Hr _ Hk. by apply wp_linkat.
Qed.
End linking.

Context (s : OverlayFs) (ino newparent : Z) (id spid dpid : NodeId).
Context (Hlk : linkable (inner s) ino newparent id spid dpid).

Lemma wp_link_inner (Q : FsResult FileAttr → OverlayInner → Disk → Prop) :
  (∀ err s' V, before V ∨ after V → Q (Err err) s' V) → (∀ a s' V, after V → Q (Ok a) s' V) →
  sm_wp DISK (link_inner copy_fuel ino newparent nm') (inner s) U Q.
Proof using All.
  intros HErr HOk. destruct Hlk as [(u & Hup & HRd & Hsrc) Hfile (dpn & Hno) Hso Hta (Hnm & Hu & Hnm' & Hu' & Hne) Hsee].
  assert (∀ V, steady tree U nm V → before V) as Hst by (intros V; apply steady_before).
  unfold link_inner. wp_step. apply wp_calm; [unfold get_fs_namemax; calms|left; apply Hst, steady_refl|].
  intros namemax. wp_step; [apply sm_wp_ret, HErr; left; apply Hst, steady_refl|].
  wp_step. unfold do_lookup_file at 1. wp_step. wp_step. rewrite Hfile. apply sm_wp_ret.
  wp_step. wp_step. cbn [ok_or]. wp_step.
  eapply (wp_lift dir_of roots copy_fuel tree R W u (inner s) U id spid pp nm el Hnm Hu); [done|done|..].
  { intros V HV. left. by apply Hst. }
  { intros err c V HV. apply HErr. left. by apply Hst. }
  intros c V D lows e Hli. edestruct (lifted_lands tree R W) with (nm' := nm') as (D' & lows' & Hla); [exact Hu|exact Hli|exact Hta|].
  destruct (li_touched _ _ _ _ _ _ _ _ _ _ _ _ _ _ _ Hli) as (ids & Htou).
  pose proof Hno as (_ & Hlook & Hdpn & Hch & Hld).
  destruct (touched_node _ _ _ _ _ Htou Hdpn) as (k & Hk & _).
  assert (lookup_node_id (put_copy c (inner s)) newparent = Some dpid) as Hlook' by (by rewrite (lookup_touched _ _ _ _ Htou)).
  assert (no_name newparent nm' (put_copy c (inner s)) dpid (set_layer_idx k dpn)) as Hno2.
  { split_and!; [|done|exact Hk|done|done]. change (upper_layer (inner s) ≠ None). by rewrite Hup. }
  assert (∀ dd, see V tree (comps pp' ++ [nm']) ≠ SDir dd) as HnV.
  { destruct (li_steady _ _ _ _ _ _ _ _ _ _ _ _ _ _ _ Hli) as [Hsh _].
    specialize (Hsh (comps pp' ++ [nm'])). rewrite Hsee in Hsh. intros dd. rewrite Hsh; [done|].
    apply Forall_app. split; [apply Hla|by constructor]. }
  cbv beta iota. wp_step. unfold do_lookup_file at 1. wp_step. wp_step. rewrite Hlook'. apply sm_wp_ret.
  wp_step. wp_step. cbn [ok_or]. wp_step. unfold sm_wp at 1. rewrite (no_name_lookup _ _ _ _ _ Hno2). cbn [wp].
  wp_step. wp_step. by eapply wp_link_names.
Qed.

Context (config : OverlayConfig) (Httl : is_Some (f64_duration (cfg_timeout config))).

(** C11. What is seen of a link. When link succeeds, the new name is on the
    upper layer and has the object of the file, or of its copy: the overlay
    shows it at both paths, unless the upper directory had a whiteout file for
    the new name, which may be left. At every call, and after an error, either
    this is so, since the steps after the link can fail too, or the overlay
    shows what it did; or a whiteout of the new name has been removed and the
    link is not made: then what it hid may be seen. All other paths show what
    they did, and no other name is lost. The file is cached, and may be of a
    lower layer at any depth: then it and the directories above it are copied up
    first. The directory of the new name is cached and known not to have it, and
    the tree of the layers shows nothing at it; the directory is on the upper
    layer, or the one of the file. The configured timeout is a duration. *)
Theorem link_is_seen :
  sm_wp DISK (serve copy_fuel config (RqLink ino newparent nm')) s U
    (λ r _ V, match r with Ok _ => after V | Err _ => before V ∨ after V end).
Proof using All.
  cbn [serve]. unfold link. apply wp_reply_entry; [done|]. apply wp_link_inner; auto.
Qed.
End request.
