(* ===== verification/Branch.v ===== *)
(** * The branch of a node

    The nodes from one node up to the root, which its path is made of: a change
    of the tree that spares them leaves the path alone.  So does a lookup in the
    layers ([do_lazy_lookup] of src/src/overlay.rs), which adds one node. *)

From S2P Require Import Prelude Libc Sys Node Tree DataSource Whiteout Layer Copyup SafeCopy Overlay Disk Effects.
From S2P Require Import Creating.
Local Open Scope Z_scope.

(** The nodes below the root that [id] is reached through, itself included, and
    their names from the top. *)
Inductive branch (a : NodeArena) : NodeId → list NodeId → list bytes → Prop :=
| branch_root id n : arena_get a id = Some n → parent n = None → branch a id [] []
| branch_child id n pid ids parts :
    arena_get a id = Some n → parent n = Some pid → branch a pid ids parts →
    branch a id (id :: ids) (parts ++ [name n]).

Section branch.
Implicit Types (a : NodeArena).

Lemma branch_det a id ids ids' parts parts' : branch a id ids parts → branch a id ids' parts' → ids = ids' ∧ parts = parts'.
Proof.
  intros H. revert ids' parts'. induction H as [|id n pid ids parts Hn Hp H IH]; inversion 1; simplify_eq; [done|].
  by destruct (IH _ _ ltac:(eassumption)) as [-> ->].
Qed.
Lemma branch_get a id ids parts j : branch a id ids parts → j ∈ ids → is_Some (arena_get a j).
Proof. induction 1; [by intros []%elem_of_nil|]. intros [->|]%elem_of_cons; eauto. Qed.
Lemma branch_below a id ids parts j : branch a id ids parts → j ∈ ids →
  ∃ ids' parts', branch a j ids' parts' ∧ (length ids' ≤ length ids)%nat.
Proof.
  induction 1 as [|id n pid ids parts Hn Hp H IH]; [by intros []%elem_of_nil|]. intros [->|Hj]%elem_of_cons.
  - eexists _, _. split; [by econstructor|done].
  - destruct (IH Hj) as (i & p & Hb & Hl). exists i, p. split; [done|]. cbn. lia.
Qed.
Lemma branch_nodup a id ids parts : branch a id ids parts → NoDup ids.
Proof.
  induction 1 as [|id n pid ids parts Hn Hp H IH]; constructor; [|done]. intros Hin.
  destruct (branch_below _ _ _ _ _ H Hin) as (i & p & Hb & Hl).
  assert (branch a id (id :: ids) (parts ++ [name n])) as Hb' by (by econstructor).
  destruct (branch_det _ _ _ _ _ _ Hb Hb') as [-> _]. cbn in Hl. lia.
Qed.
(** A child is not on the branch of its parent. *)
Lemma branch_apart a id n pid ids parts : arena_get a id = Some n → parent n = Some pid → branch a pid ids parts → id ∉ ids.
Proof.
  intros Hn Hp H. assert (branch a id (id :: ids) (parts ++ [name n])) as Hb by (by econstructor).
  apply branch_nodup in Hb. by apply NoDup_cons in Hb as [? _].
Qed.

(** The path is that of the branch. *)
Definition branch_path (parts : list bytes) : bytes := if decide (parts = []) then bs "." else join SLASH parts.
Lemma branch_compute a id ids parts : branch a id ids parts → compute_path a id = Some (branch_path parts).
Proof.
  intros H. assert (∀ fuel, (length ids ≤ fuel)%nat → path_parts fuel a id = Some parts) as Hpp.
  { clear -H. induction H as [id n Hn Hp|id n pid ids parts Hn Hp H IH]; intros fuel Hf.
    - destruct fuel; cbn; by rewrite Hn, Hp.
    - destruct fuel as [|fuel]; cbn in *; [lia|]. rewrite Hn, Hp, IH by lia. done. }
  assert (length ids ≤ size (arena_map a))%nat as Hl.
  { pose proof (branch_nodup _ _ _ _ H) as Hd. rewrite <-size_dom, <-(size_list_to_set (C := gset NodeId) ids) by done.
    apply subseteq_size. intros j Hj%elem_of_list_to_set. apply elem_of_dom. by eapply branch_get. }
  unfold compute_path, branch_path. specialize (Hpp _ Hl). destruct H as [id n Hn Hp|id n pid ids parts Hn Hp H].
  - by rewrite Hn, Hp.
  - rewrite Hn, Hp, Hpp. cbn. rewrite decide_False; [done|]. by destruct parts.
Qed.
Lemma branch_keeps a a' id ids parts :
  (∀ j n, arena_get a j = Some n → j ∈ ids ∨ parent n = None → ∃ n', arena_get a' j = Some n' ∧ name n' = name n ∧ parent n' = parent n) →
  branch a id ids parts → branch a' id ids parts.
Proof.
  intros Hk H. induction H as [id n Hn Hp|id n pid ids parts Hn Hp H IH].
  - destruct (Hk _ _ Hn) as (n' & Hn' & _ & Hp'); [by right|]. eapply branch_root; [done|congruence].
  - destruct (Hk _ _ Hn) as (n' & Hn' & Hnm & Hp'); [left; left|]. rewrite <-Hnm. eapply branch_child; [exact Hn'|by rewrite Hp'; exact Hp|].
    apply IH. intros j m Hj Hor. apply Hk; [done|]. destruct Hor; [left; by right|by right].
Qed.
End branch.

(** ** The branch of a directory, and a child of it *)
Section held.
Context `{F64, DevT, HashOrder}.
Context (pid id : NodeId) (nm : bytes) (ids : list NodeId) (parts : list bytes).
Implicit Types (s : OverlayInner).

(** The directory [pid] is reached through [ids], and has no child at [nm] but
    [id]. *)
Record held s : Prop := {
  hd_branch : branch (nodes s) pid ids parts;
  hd_child : ∃ n, nodes_get s id = Some n ∧ parent n = Some pid;
  hd_dir : ∃ n, nodes_get s pid = Some n ∧ ∀ j, get_child n nm = Some j → j = id
}.

Lemma nodes_alter s f j i : nodes_get (set_nodes (arena_alter f j (nodes s)) s) i =
  if decide (j = i) then f <$> nodes_get s i else nodes_get s i.
Proof using. unfold nodes_get, arena_get, arena_alter. cbn. rewrite lookup_alter. by case_decide; subst. Qed.
Lemma lookup_node_alter s f j ino : lookup_node_id (set_nodes (arena_alter f j (nodes s)) s) ino = lookup_node_id s ino.
Proof using.
  unfold lookup_node_id. cbn [inodes root_id nodes set_nodes]. destruct (_ =? 1); [done|].
  destruct (fuse_to_ino (inodes s) ino) as [oi|]; [|done]. cbn. f_equal. apply list_filter_iff. intros i.
  unfold contains_key, arena_alter. cbn. rewrite lookup_alter. case_decide; [subst|done]. by destruct (arena_map _ !! i).
Qed.

Lemma held_branch s j : held s → j ∈ ids → j ≠ id.
Proof using.
  intros [Hb (n & Hn & Hp) _] Hj ->. by eapply branch_apart.
Qed.
Lemma branch_alter a f j : branch a pid ids parts → (∀ n, name (f n) = name n ∧ parent (f n) = parent n) →
  branch (arena_alter f j a) pid ids parts.
Proof using.
  intros Hb Hf. eapply branch_keeps; [|done]. intros i n Hn _. unfold arena_get, arena_alter in *. cbn.
  rewrite lookup_alter. case_decide; [subst; rewrite Hn; eexists; split; [done|apply Hf]|by exists n].
Qed.
Lemma next_alter f j (a : NodeArena) : arena_map a !! next_id a = None →
  arena_map (arena_alter f j a) !! next_id (arena_alter f j a) = None.
Proof using. intros Hn. unfold arena_alter. cbn. rewrite lookup_alter. case_decide; [subst|done]. by rewrite Hn. Qed.
Lemma held_alter s f j : held s → (∀ n, name (f n) = name n ∧ parent (f n) = parent n) →
  (j = pid → ∀ n i, get_child (f n) nm = Some i → get_child n nm = Some i ∨ i = id) →
  held (set_nodes (arena_alter f j (nodes s)) s).
Proof using.
  intros [Hb (n & Hn & Hp) (pn & Hpn & Hc)] Hf Hch. split.
  - by apply branch_alter.
  - rewrite nodes_alter. case_decide; [|by exists n]. rewrite Hn. exists (f n). split; [done|]. by rewrite (proj2 (Hf n)).
  - rewrite nodes_alter. case_decide as E; [|by exists pn]. rewrite Hpn. exists (f pn). split; [done|].
    intros i [Hi|Hi]%Hch; [by apply Hc|done|done].
Qed.
(** A new node. *)
Lemma held_insert s n : held s → arena_map (nodes s) !! next_id (nodes s) = None →
  held (set_nodes (arena_insert n (nodes s)).2 s).
Proof using.
  intros [Hb (m & Hm & Hp) (pn & Hpn & Hc)] Hnew.
  assert (∀ i x, nodes_get s i = Some x → nodes_get (set_nodes (arena_insert n (nodes s)).2 s) i = Some x) as Hk.
  { intros i x Hx. unfold nodes_get, arena_get, arena_insert in *. cbn. rewrite lookup_insert_ne; [done|].
    intros E. rewrite E in Hnew. congruence. }
  split; [|exists m; auto|exists pn; auto]. eapply branch_keeps; [|done]. intros i x Hx _. exists x. split; [by apply Hk|done].
Qed.
(** Another node is removed. *)
Lemma held_remove s j n : held s → nodes_get s j = Some n → parent n ≠ None → j ∉ ids → j ≠ id →
  held (set_nodes (arena_remove j (nodes s)).2 s).
Proof using.
  intros [Hb (m & Hm & Hp) (pn & Hpn & Hc)] Hn Hpar Hj Hne.
  assert (∀ i x, nodes_get s i = Some x → i ≠ j → nodes_get (set_nodes (arena_remove j (nodes s)).2 s) i = Some x) as Hk.
  { intros i x Hx Hi. unfold nodes_get, arena_get, arena_remove in *. cbn. by rewrite lookup_delete_ne. }
  split; [|exists m; auto|].
  - eapply branch_keeps; [|done]. intros i x Hx Hor. exists x. split; [|done]. apply Hk; [done|].
    intros ->. unfold nodes_get in Hn. assert (x = n) as -> by congruence. by destruct Hor.
  - exists pn. split; [|done]. apply Hk; [done|]. intros <-. destruct Hb as [x y Hx Hxp|]; [|by destruct Hj; left].
    unfold nodes_get in Hn. congruence.
Qed.
(** The child goes elsewhere. *)
Lemma held_leaves s f : held s → branch (arena_alter f id (nodes s)) pid ids parts.
Proof using.
  intros Hh. pose proof Hh as [Hb (m & Hm & Hp) _]. eapply branch_keeps; [|done]. intros i x Hx Hor. exists x.
  split; [|done]. unfold arena_get, arena_alter in *. cbn. rewrite lookup_alter_ne; [done|]. intros <-.
  destruct Hor as [Hin|Hnp]; [by destruct (held_branch s _ Hh Hin)|]. unfold nodes_get, arena_get in Hm. congruence.
Qed.
End held.

(** ** A lookup in the layers *)

Lemma calm_directory_opaque ds path `{!QuietSource ds} : calm False (is_directory_opaque ds path) tt.
Proof.
  unfold is_directory_opaque. calms; try apply q_getxattr. apply q_file_exists.
Qed.

Section lookup.
Context `{F64, DevT, HashOrder} (dir_of : RawFd → option Z) (roots : gset Z) (Inv : Disk → Prop) (V : Disk) (HI : Inv V).
Abbreviation DISK := (DISK dir_of roots Inv True).
Context (pid id : NodeId) (nm : bytes) (ids : list NodeId) (parts : list bytes).
Abbreviation held := (held pid id nm ids parts).
Implicit Types (s : OverlayInner).

(** Every layer is only read by its reads. *)
Definition quiet_layers s : Prop := ∀ i l, layers s !! i = Some l → QuietSource (ds l).

Lemma get_child_whiteout x n : get_child (insert_whiteout x n) nm = get_child n nm.
Proof using. unfold get_child, insert_whiteout. by destruct (dir_state n) eqn:E; cbn; rewrite ?E. Qed.

Context (dpid : NodeId) (nm' : bytes).
(** What a loop that ends leaves: a found node is one that was made for it. *)
Definition looked s (r : option (option OvlNode)) s' : Prop :=
  held s' ∧ ∀ n, r = Some (Some n) → s' = s ∧ parent n = Some dpid ∧ hidden_path n = None ∧ name n = nm'.

Lemma wp_is_wh_file s k l path (Q : bool → OverlayInner → Disk → Prop) :
  layers s !! k = Some l → QuietSource (ds l) → (∀ b, Q b s V) → sm_wp DISK (is_wh_file k path nm') s V Q.
Proof using HI.
  intros Hl Hq HQ. unfold is_wh_file, layer_at. do 3 wp_step. apply sm_wp_index. exists l. split; [done|].
  wp_step. apply wp_source; [apply q_file_exists|done|]. intros r. by apply sm_wp_ret.
Qed.
Lemma held_whiteout s x : held s → held (set_nodes (arena_alter (insert_whiteout x) dpid (nodes s)) s).
Proof using.
  intros Hh. apply held_alter; [done| |].
  - intros n. unfold insert_whiteout. by destruct (dir_state n).
  - intros _ n i. rewrite get_child_whiteout. by left.
Qed.
Lemma wp_lazy_layers idxs : ∀ s path last found stop (Q : option (option OvlNode) → OverlayInner → Disk → Prop),
  held s → quiet_layers s → (∀ i, i ∈ idxs → (i < length (layers s))%nat) →
  (∀ n, found = Some n → parent n = Some dpid ∧ hidden_path n = None ∧ name n = nm') →
  (∀ r s', looked s r s' → Q r s' V) →
  sm_wp DISK (lazy_layers dpid path nm' last found stop idxs) s V Q.
Proof using HI.
  induction idxs as [|k idxs IH]; intros s path last found stop Q Hh Hq Hlt Hf HQ; cbn [lazy_layers].
  { apply sm_wp_ret, HQ. split; [done|]. intros n [= ->]. split; [done|by apply Hf]. }
  destruct stop. { apply sm_wp_ret, HQ. split; [done|]. intros n [= ->]. split; [done|by apply Hf]. }
  destruct (lookup_lt_is_Some_2 (layers s) k) as [l Hl]; [by apply Hlt; left|]. pose proof (Hq _ _ Hl) as Hql.
  assert (∀ i, i ∈ idxs → (i < length (layers s))%nat) as Hlt' by (intros; by apply Hlt; right).
  assert (∀ r, (∀ n, r = Some (Some n) → False) → Q r s V) as Hnone.
  { intros r Hr. apply HQ. split; [done|]. intros n E. by destruct (Hr n). }
  assert (∀ x r, (∀ n, r = Some (Some n) → False) →
    Q r (set_nodes (arena_alter (insert_whiteout x) dpid (nodes s)) s) V) as Hwh.
  { intros x r Hr. apply HQ. split; [by apply held_whiteout|]. intros n E. by destruct (Hr n). }
  unfold layer_at. do 3 wp_step. apply sm_wp_index. exists l. split; [done|].
  wp_step. apply wp_source; [apply q_statat|done|]. intros [st|e].
  - destruct found as [n|].
    { apply IH; [done..| |done]. intros m [= <-]. by apply (Hf n). }
    wp_step. eapply wp_is_wh_file; [done..|]. intros [|]; [wps; by apply Hwh|].
    destruct (wh_prefix_name nm'); [wps; by apply Hwh|]. destruct (is_chardev_whiteout st); [wps; by apply Hwh|].
    cbv zeta. wp_step. wp_step.
    + wp_step. apply wp_source; [by apply calm_directory_opaque|done|]. intros r. wp_step.
      apply IH; [done..| |done]. by intros m [= <-].
    + wp_step. apply IH; [done..| |done]. by intros m [= <-].
  - wp_step; [|by apply Hnone]. destruct found as [n|]; [by apply IH|].
    wp_step. eapply wp_is_wh_file; [done..|]. intros [|]; [wps; by apply Hwh|]. by apply IH.
Qed.

(** The lookup adds a node for what it finds. *)
Lemma wp_lazy_lookup s (Q : option NodeId → OverlayInner → Disk → Prop) :
  held s → quiet_layers s → arena_map (nodes s) !! next_id (nodes s) = None → dpid ≠ pid ∨ nm ≠ nm' →
  (∀ r s', held s' → (∀ j, r = Some j → (j ∉ ids) ∧ j ≠ id ∧
     ∃ n, nodes_get s' j = Some n ∧ parent n = Some dpid ∧ hidden_path n = None) → Q r s' V) →
  sm_wp DISK (do_lazy_lookup dpid nm') s V Q.
Proof using HI.
  intros Hh Hq Hnew Hne HQ. assert (∀ s', held s' → Q None s' V) as Hnone by (intros; by apply HQ).
  unfold do_lazy_lookup. wp_step. unfold node_path. do 2 wp_step. apply sm_wp_fuel; [done|]. intros path _.
  do 2 wp_step. destruct (nodes_get s dpid) as [p|] eqn:Ep; [|by apply sm_wp_ret, Hnone].
  wp_step. apply wp_lazy_layers; [done|done|by intros i [? ?]%elem_of_seq|done|].
  intros [[child|]|] s' [Hh' Hc]; [|by apply sm_wp_ret, Hnone..].
  destruct (Hc _ eq_refl) as (-> & Hpar & Hhid & Hname).
  assert (∀ j, nodes_get s j = None → (j ∉ ids) ∧ j ≠ id ∧ True) as Hfresh.
  { intros j Hj. pose proof Hh as [Hb (m & Hm & _) _]. split_and!; [|congruence|done].
    intros Hin. destruct (branch_get _ _ _ _ _ Hb Hin) as [x Hx]. unfold nodes_get in Hj. congruence. }
  destruct (Hfresh _ Hnew) as (Hnid & Hnne & _).
  pose proof (held_insert pid id nm ids parts s child Hh Hnew) as Hh1.
  wp_step. unfold do_insert. do 2 wp_step. change (arena_insert child (nodes s)) with
    (next_id (nodes s), (arena_insert child (nodes s)).2). cbv beta iota. do 3 wp_step.
  set (s1 := set_nodes _ s) in *. assert (nodes_get s1 (next_id (nodes s)) = Some child) as Hch by apply lookup_insert_eq.
  assert (∀ t, held (set_inodes t s1)) as Ht by (by intros t; destruct Hh1).
  assert (∀ t, sm_wp DISK
    (let! s0 := sm_get in
     match nodes_get s0 dpid with
     | Some _ => alter_node (λ p0, (insert_child (name child) (next_id (nodes s)) p0).2) dpid ;;;
                 sm_ret (Some (next_id (nodes s)))
     | None => sm_ret None
     end) (set_inodes t s1) V Q) as Hend.
  { intros t. do 2 wp_step. destruct (nodes_get (set_inodes t s1) dpid); [|by apply sm_wp_ret, Hnone].
    wp_step. unfold alter_node. do 2 wp_step. apply HQ.
    - apply held_alter; [done| |].
      + intros n. unfold insert_child. by destruct (dir_state n).
      + intros -> n i. rewrite Hname. unfold get_child, insert_child. destruct (dir_state n) as [|ch wh ld] eqn:E; cbn; rewrite ?E; [by left|].
        rewrite lookup_insert_ne; [by left|]. by destruct Hne.
    - intros j [= <-]. split; [done|]. split; [done|]. rewrite nodes_alter. change (nodes_get (set_inodes t s1)) with (nodes_get s1).
      case_decide as E; rewrite Hch; [|by exists child]. eexists. split; [done|].
      unfold insert_child. by destruct (dir_state child). }
  wp_step. wp_step; [|by apply sm_wp_ret, (Hend (inodes s1))]. wp_step. apply wp_do_register. intros r t. apply sm_wp_ret, Hend.
Qed.
End lookup.
