(* ===== verification/Renaming.v ===== *)
(** * Renaming a file (rename of src/src/overlay.rs)

    The file is copied up if need be, renamed on the upper layer, and a whiteout
    is made at its old name if lower layers may have something there; what each
    outcome leaves on the disk, and what is seen of it at every call. *)

From S2P Require Import Prelude Libc Mapping Xattr ConfigData Sys Openat2 Node Tree DataSource Provenance Whiteout.
From S2P Require Import Layer Copyup SafeCopy Overlay SafeInner Merge Disk Effects Visible CopyDisk CopyDirs.
From S2P Require Import Ops OpsTree OpsFile Requests Removal Creating CreatingDirs TwoNames Linking Branch.
Local Open Scope Z_scope.

(** ** The nodes *)
Section nodes.
Context `{F64, DevT, HashOrder} (dir_of : RawFd → option Z) (roots : gset Z) (Inv : Disk → Prop) (V : Disk) (HI : Inv V).
Abbreviation DISK := (DISK dir_of roots Inv True).
Context (pid id : NodeId) (nm : bytes) (ids : list NodeId) (parts : list bytes) (newparent : Z) (dpid : NodeId) (nm' : bytes).
Abbreviation held := (held pid id nm ids parts).
Implicit Types (s : OverlayInner).

(** A node that may be dropped: it is a child of the new directory, is not on
    the branch, and has nothing hidden. *)
Definition spare s (j : NodeId) : Prop :=
  (j ∉ ids) ∧ j ≠ id ∧ ∃ n, nodes_get s j = Some n ∧ parent n = Some dpid ∧ hidden_path n = None.
(** The new directory has no node at the name, or such a one. *)
Definition replaceable s : Prop :=
  lookup_node_id s newparent = Some dpid ∧
  ∃ dpn, nodes_get s dpid = Some dpn ∧ ∀ j, get_child dpn nm' = Some j → spare s j.

(** Unloading a directory. *)
Lemma held_unloaded j s : held s → replaceable s → arena_map (nodes s) !! next_id (nodes s) = None →
  let s' := set_nodes (arena_alter mark_unloaded j (nodes s)) s in
  held s' ∧ replaceable s' ∧ arena_map (nodes s') !! next_id (nodes s') = None.
Proof using.
  intros Hh (Hl & dpn & Hdpn & Hc) Hn s'.
  assert (∀ n, name (mark_unloaded n) = name n ∧ parent (mark_unloaded n) = parent n ∧ hidden_path (mark_unloaded n) = hidden_path n) as Hf.
  { intros n. unfold mark_unloaded. by destruct (dir_state n). }
  split_and!; [| |by apply next_alter].
  - apply held_alter; [done|intros n; destruct (Hf n) as (? & ? & _); done|]. intros _ n i. rewrite get_child_unloaded. by left.
  - split; [unfold s'; by rewrite lookup_node_alter|].
    assert (∀ i n, nodes_get s i = Some n → ∃ n', nodes_get s' i = Some n' ∧ get_child n' nm' = get_child n nm' ∧
      parent n' = parent n ∧ hidden_path n' = hidden_path n) as Hk.
    { intros i n Hin. unfold s'. rewrite nodes_alter, Hin. case_decide; [|by exists n]. exists (mark_unloaded n).
      split; [done|]. destruct (Hf n) as (_ & ? & ?). split_and!; [apply get_child_unloaded|done|done]. }
    destruct (Hk _ _ Hdpn) as (dpn' & Hdpn' & Hch & _). exists dpn'. split; [done|]. rewrite Hch. intros i Hi.
    destruct (Hc _ Hi) as (Hi1 & Hi2 & m & Hm & Hmp & Hmh). split; [done|]. split; [done|].
    destruct (Hk _ _ Hm) as (m' & Hm' & _ & Ep & Eh). exists m'. split_and!; [done|congruence|congruence].
Qed.

Context (Hne : dpid ≠ pid ∨ nm ≠ nm').

Lemma wp_lookup_target s (Q : option NodeId → OverlayInner → Disk → Prop) :
  held s → quiet_layers s → arena_map (nodes s) !! next_id (nodes s) = None → replaceable s →
  (∀ r s', held s' → (∀ j, r = Some j → spare s' j) → Q r s' V) →
  sm_wp DISK (do_lookup_file newparent (Some nm')) s V Q.
Proof using HI Hne.
  intros Hh Hq Hnew (Hlook & dpn & Hdpn & Hch) HQ. assert (Q None s V) as Hnone by (by apply HQ).
  unfold do_lookup_file. do 2 wp_step. rewrite Hlook, Hdpn. cbn [mbind option_bind].
  destruct (get_child dpn nm') as [j|] eqn:Ej; [apply sm_wp_ret, HQ; [done|]; intros i [= <-]; by apply Hch|].
  cbn [fmap option_fmap option_map default]. destruct (is_whiteout dpn nm'); [by apply sm_wp_ret|]. cbv zeta.
  destruct (is_loaded dpn); [by apply sm_wp_ret|]. cbn [negb].
  eapply (wp_lazy_lookup dir_of roots Inv V HI pid id nm ids parts dpid nm'); [done..|].
  intros r s' Hh' Hr. by apply HQ.
Qed.

Lemma wp_rename_replace s (Q : unit → OverlayInner → Disk → Prop) :
  held s → quiet_layers s → arena_map (nodes s) !! next_id (nodes s) = None → replaceable s →
  (∀ s', branch (nodes s') pid ids parts → Q tt s' V) →
  sm_wp DISK (rename_replace pid nm newparent dpid nm') s V Q.
Proof using HI Hne.
  intros Hh Hq Hnew Hre HQ. unfold rename_replace. wp_step. apply wp_lookup_target; [done..|].
  intros r s1 Hh1 Hr.
  assert (∀ s2, held s2 → sm_wp DISK
    (let! removed := take_child pid nm in
     match removed with
     | Some child_id =>
         alter_node (renamed nm' (Some dpid)) child_id ;;; put_child dpid nm' child_id
     | None => sm_ret tt
     end) s2 V Q) as Hend.
  { intros s2 Hh2. pose proof Hh2 as [_ _ (pn & Hpn & Hc)]. wp_step. unfold take_child. do 2 wp_step. rewrite Hpn.
    unfold alter_node. do 3 wp_step.
    assert (held (set_nodes (arena_alter (λ p, (remove_child nm p).2) pid (nodes s2)) s2)) as Hh3.
    { apply held_alter; [done| |].
      - intros n. unfold remove_child. by destruct (dir_state n).
      - intros _ n i. unfold remove_child, get_child. destruct (dir_state n) as [|ch wh ld] eqn:E; cbn; rewrite ?E; [by left|].
        by rewrite lookup_delete_eq. }
    assert ((remove_child nm pn).1 = get_child pn nm) as -> by (unfold remove_child, get_child; by destruct (dir_state pn)).
    destruct (get_child pn nm) as [j|] eqn:Ej; [|apply sm_wp_ret, HQ, Hh3]. rewrite (Hc _ eq_refl).
    do 2 wp_step. unfold put_child, alter_node. wp_step. apply HQ. cbn [nodes set_nodes].
    apply branch_alter; [|intros n; unfold insert_child; by destruct (dir_state n)]. exact (held_leaves pid id nm ids parts _ _ Hh3). }
  wp_step. wp_step. wp_step. destruct r as [j|]; [|by apply sm_wp_ret, Hend].
  destruct (Hr _ eq_refl) as (Hj & Hjne & n & Hn & Hpar & Hhid).
  unfold is_whiteout_or_missing, contains_key. unfold nodes_get, arena_get in Hn. rewrite Hn, bool_decide_true by eauto. cbn [negb].
  change (arena_map (nodes s1) !! j) with (nodes_get s1 j) in Hn. rewrite Hn. do 2 wp_step. unfold alter_node. do 2 wp_step.
  set (s2 := set_inodes _ s1). set (s3 := set_nodes _ s2).
  assert (held s3) as Hh3.
  { apply (held_alter pid id nm ids parts s2); [by destruct Hh1| |].
    - intros m. unfold remove_child. by destruct (dir_state m).
    - intros E m i. rewrite E in Hne. unfold remove_child, get_child. destruct (dir_state m) as [|ch wh ld] eqn:E'; cbn; rewrite ?E'; [by left|].
      rewrite lookup_delete_ne; [by left|]. by destruct Hne. }
  assert (∃ m, nodes_get s3 j = Some m ∧ parent m = Some dpid ∧ hidden_path m = None) as (m & Hm & Hmp & Hmh).
  { unfold s3. rewrite nodes_alter. change (nodes_get s2 j) with (nodes_get s1 j). rewrite Hn. case_decide; [|by exists n].
    eexists. split; [done|]. unfold remove_child. by destruct (dir_state n). }
  unfold do_remove. do 2 wp_step. change (arena_remove j (nodes s3)) with (arena_map (nodes s3) !! j, (arena_remove j (nodes s3)).2).
  cbv beta iota. wp_step. wp_step. change (arena_map (nodes s3) !! j) with (nodes_get s3 j). rewrite Hm.
  unfold drop_node. rewrite Hmh. apply sm_wp_ret, Hend. eapply held_remove; [exact Hh3|exact Hm|congruence|done|done].
Qed.
End nodes.

(** ** The outcomes *)
Section outcomes.
Context `{F64, DevT, HashOrder}.
Context (tree : list Z) (R W : Z) (s : OverlayInner) (U : Disk) (id spid dpid : NodeId) (pp nm pp' nm' : bytes) (el : Ent).
Let p : list bytes := comps pp ++ [nm].
Let p' : list bytes := comps pp' ++ [nm'].
Implicit Types (V : Disk).

(** The file, or its copy, has the new name in place of what was there, and is
    seen unless a whiteout file of the new name is left; the old name is hidden
    by a whiteout, or it is gone from the upper layer, and what lower layers have
    at it is seen.  The other paths show what they did, and no other name is
    lost. *)
Definition name_moved V : Prop :=
  (∀ cs, Forall user_name cs → ¬ p `prefix_of` cs → ¬ p' `prefix_of` cs → same_shown (see U tree cs) (see V tree cs)) ∧
  (∀ d x y, x ≠ nm → x ≠ nm' → at_ U d x = Some y → at_ V d x = Some y) ∧
  ∃ D D' lows e, see V tree (comps pp) = SDir (D :: lows) ∧ walk V R (comps pp') = Some D' ∧
    at_ V D' nm' = Some e ∧ (el = e ∨ same_kind el e) ∧
    (see V tree p' = SFile e ∨ is_Some (at_ U D' (WH_PREFIX ++ nm'))) ∧
    (whited V D nm ∧ see V tree p = SNone ∨ at_ V D nm = None ∧ see V tree p = child V lows nm).
(** The old name is hidden. *)
Definition name_hidden V : Prop :=
  ∃ D lows, see V tree (comps pp) = SDir (D :: lows) ∧ whited V D nm ∧ see V tree p = SNone.

Context (Hu : user_name nm) (Hu' : user_name nm') (Hne : p ≠ p').
Context (c : CopyState) (V1 : Disk) (D D' : Z) (lows lows' : list Z) (e : Ent).
Context (Hli : lifted tree R W s U id spid pp nm el c V1 D lows e).
Context (Hla : landed tree R W s U pp nm dpid pp' nm' c V1 D' lows').
Context (Hdir : ∀ dd, see V1 tree p' ≠ SDir dd).

(** Between the two changes. *)
Let V2 : Disk := put D' nm' e V1.

Lemma in_second : same_but (own D' nm') V1 V2.
Proof using Type. apply same_but_put. split; [done|by left]. Qed.
Lemma second_child : child V2 (D' :: lows') nm' = SFile e ∨
  child V2 (D' :: lows') nm' = SNone ∧ is_Some (at_ U D' (WH_PREFIX ++ nm')).
Proof using Hu' Hli Hla.
  pose proof (li_file _ _ _ _ _ _ _ _ _ _ _ _ _ _ _ Hli) as [_ [Hwe Hde]%child_file]. cbn [child].
  assert (at_ V2 D' (WH_PREFIX ++ nm') = at_ V1 D' (WH_PREFIX ++ nm')) as Hwh.
  { unfold V2. rewrite at_put_ne; [done|]. intros [_ E]%pair_eq. symmetry in E. by apply wh_ne in E. }
  destruct (at_ V1 D' (WH_PREFIX ++ nm')) as [y|] eqn:Ey.
  - right. rewrite entry_whited; [|done|left; by rewrite Hwh]. split; [done|].
    apply (la_old _ _ _ _ _ _ _ _ _ _ _ _ _ _ Hla); [done|by rewrite Ey].
  - left. rewrite (entry_shown V2 D' nm' e) by (done || apply at_put). by rewrite Hde.
Qed.
Lemma second_tree : in_tree V2 tree (comps pp) D W lows.
Proof using Hu' Hli Hla Hdir.
  apply (tree_stays V1 V2 tree (comps pp') D' W lows' nm' (own D' nm')); [apply Hla|done|apply own_local|apply in_second| | |apply Hli].
  - intros dd E. apply (Hdir dd). unfold p'. by rewrite see_snoc, (it_dir _ _ _ _ _ _ (la_tree _ _ _ _ _ _ _ _ _ _ _ _ _ _ Hla)).
  - intros dd E. destruct second_child as [E'|[E' _]]; congruence.
Qed.
Lemma new_apart : ¬ p `prefix_of` p'.
Proof using Hu Hne Hli Hla.
  intros [k E]. pose proof (it_dir _ _ _ _ _ _ (la_tree _ _ _ _ _ _ _ _ _ _ _ _ _ _ Hla)) as Hd.
  assert (see V1 tree p = SFile e) as Hp.
  { unfold p. rewrite see_snoc, (it_dir _ _ _ _ _ _ (li_tree _ _ _ _ _ _ _ _ _ _ _ _ _ _ _ Hli)). apply Hli. }
  destruct k as [|x k _] using rev_ind; [by rewrite app_nil_r in E|].
  unfold p' in E. rewrite app_assoc in E. apply app_inj_tail in E as [E _]. rewrite E in Hd.
  destruct k as [|y k]; [rewrite app_nil_r in Hd; congruence|]. rewrite see_below in Hd by (done || congruence). done.
Qed.

(** The state after the rename, and that after the whiteout. *)
Lemma moved_after V : same_but (own D nm) V2 V → keeps_dirs V1 V → (∀ y, at_ V2 D (WH_PREFIX ++ nm) = Some y → at_ V D (WH_PREFIX ++ nm) = Some y) →
  whited V D nm ∨ at_ V D nm = None → name_moved V ∧ (whited V D nm → name_hidden V).
Proof using Hu Hu' Hne Hli Hla Hdir.
  intros Hs Hd Hwh Hn. pose proof second_tree as Ht2.
  assert (as_before_but p V2 tree V) as Hb.
  { intros cs Hcs Hb. apply (see_unchanged V2 V tree (comps pp) D W lows nm (own D nm)); try done; [apply own_local|by left]. }
  assert (see V tree (comps pp) = SDir (D :: lows)) as HpV.
  { apply (see_dir V2 V tree (comps pp) D W lows nm (own D nm)); try done. apply own_local. }
  assert (whited V D nm → see V tree p = SNone) as Hhid.
  { intros Hw. unfold p. rewrite see_snoc, HpV. cbn. by rewrite entry_whited. }
  split; [|by intros Hw; exists D, lows; auto].
  destruct (li_steady _ _ _ _ _ _ _ _ _ _ _ _ _ _ _ Hli) as [Hsh Hk]. split_and!.
  - intros cs Hcs Hp Hp'. rewrite (Hb cs) by done.
    assert (see V2 tree cs = see V1 tree cs) as -> by (eapply as_in; try done; apply in_second). by apply Hsh.
  - intros d x y Hx Hx' Hy%(Hk _ _ _ Hx).
    assert (at_ V2 d x = Some y) as Hy2 by (unfold V2; rewrite at_put_ne; [done|congruence]).
    destruct (decide (d = D ∧ x = WH_PREFIX ++ nm)) as [[-> ->]|Hno]; [by apply Hwh|]. rewrite <-Hy2.
    apply (same_but_at _ _ _ _ _ Hs). intros [-> [?|?]]; [done|]. by apply Hno.
  - exists D, D', lows, e. split_and!; [done|eapply walk_keeps; [done|apply Hla]| |apply Hli| |].
    + rewrite (same_but_at _ _ _ _ _ Hs); [apply at_put|]. intros [E [E'|E']]; [|by apply (user_name_wh nm' nm)].
      apply Hne. unfold p, p'. rewrite E'. f_equal. symmetry. apply (it_only _ _ _ _ _ _ (li_tree _ _ _ _ _ _ _ _ _ _ _ _ _ _ _ Hli)
        _ (D' :: lows')); [apply Hla|apply Hla|rewrite E; left].
    + assert (see V tree p' = child V2 (D' :: lows') nm') as ->.
      { rewrite (Hb p'); [|apply Forall_app; split; [apply Hla|by constructor]|by apply new_apart].
        apply (see_name V1 V2 tree (comps pp') D' W lows' nm' (own D' nm')); [apply Hla|done|apply own_local|apply in_second]. }
      destruct second_child as [?|[_ ?]]; [by left|by right].
    + destruct Hn as [Hw|Hn]; [left; auto|]. destruct (at_ V D (WH_PREFIX ++ nm)) as [y|] eqn:Ey.
      * assert (whited V D nm) as Hw by (left; by rewrite Ey). left. auto.
      * right. split; [done|]. unfold p. rewrite see_snoc, HpV. cbn [child]. by rewrite entry_absent.
Qed.

Lemma moved_put : at_ V1 D' nm' = None ∨ (∃ y, at_ V1 D' nm' = Some y ∧ e_id y ≠ e_id e) →
  moved V1 D nm D' nm' e = del D nm V2.
Proof using Hu Hu' Hne Hli Hla.
  intros Hfree. assert ((D, nm) ≠ (D', nm')) as Hap.
  { intros [= E E']. eapply (file_apart tree R W s U id spid dpid pp nm pp' nm'); try done. by split; [|left]. }
  unfold moved. rewrite decide_False.
  - unfold V2, put, del. cbn. f_equal. by rewrite delete_insert_ne by congruence.
  - destruct Hfree as [->|(y & -> & Hy)]; [done|]. cbn. congruence.
Qed.
End outcomes.

(** ** Calls that succeed *)

(** The calls of [create_whiteout], where they are not refused. *)
Definition succeeds (c : sys) : resp c → Prop :=
  match c return resp c → Prop with
  | Mknodat _ _ _ _ => λ r, r = Ok tt
  | Openat2 _ _ _ _ _ => λ r, ∃ fd, r = Ok fd
  | _ => λ _, True
  end.

Section faults.
Context `{DevT} (dir_of : RawFd → option Z) (roots : gset Z) (Inv : Disk → Prop) (sure : bool).
(** If [sure], these calls succeed. *)
Definition DISK_where : policy := {|
  ghost := Disk; pol_pre U _ := Inv U; pol_post U c r U' := disk_post dir_of roots U c r U' ∧ (sure = true → succeeds c r); pol_diverge := True; pol_panic := False
|}.
Lemma wp_where {S A} (m : SM S A) s U (Q : A → S → Disk → Prop) :
  sm_wp (DISK dir_of roots Inv True) m s U Q → sm_wp DISK_where m s U Q.
Proof using.
  unfold sm_wp. generalize (λ x : A * S, Q x.1 x.2). intros Q'. revert U.
  induction (m s) as [a| | |c k IH]; intros U; cbn; [done..|]. intros [Hpre Hk]. split; [done|].
  intros r U' [Hr _]. apply IH, Hk, Hr.
Qed.
Lemma wp_both {S A} (m : SM S A) s U (Q1 Q2 : A → S → Disk → Prop) :
  sm_wp DISK_where m s U Q1 → sm_wp DISK_where m s U Q2 → sm_wp DISK_where m s U (λ a s' V, Q1 a s' V ∧ Q2 a s' V).
Proof using.
  unfold sm_wp. revert U. induction (m s) as [a| | |c k IH]; intros U; cbn; [by destruct a as [? ?]|done|done|].
  intros [Hpre Hk1] [_ Hk2]. split; [done|]. intros r U' Hr. apply IH; [by apply Hk1|by apply Hk2].
Qed.

Context (Hsure : sure = true).
Lemma wp_open_ok {S A} d path flags mode (k : RawFd → SM S (FsResult A)) (s : S) U (Q : FsResult A → S → Disk → Prop) :
  Inv U → NUL ∉ path → (∀ fd U', (Z.land flags O_CREAT = 0 → U' = U) → sm_wp DISK_where (k fd) s U' Q) →
  sm_wp DISK_where (sm_try (safe_openat d path flags mode) k) s U Q.
Proof using Hsure.
  intros HI Hn Hk. wp_step. unfold safe_openat, syscall_openat2. wp_step. wp_step. unfold cstr_bytes.
  rewrite bool_decide_false by done. cbv beta iota. apply sm_wp_call; [done|]. intros r U' [[_ Hr] Hp].
  destruct (Hp Hsure) as [fd ->]. apply Hk. intros Hf. rewrite land_valid_creat, Hf in Hr. by destruct Hr.
Qed.
Lemma wp_whiteout_made dirfd pp nm can_mknod (b : bool) U : Inv U → NUL ∉ pp → NUL ∉ nm →
  sm_wp DISK_where (create_whiteout dirfd pp nm can_mknod) b U (λ r _ _, r = Ok tt).
Proof using Hsure.
  intros HI Hp Hn. unfold create_whiteout.
  assert (∀ pfd, sm_wp DISK_where (create_wh_file pfd nm) b U (λ r _ _, r = Ok tt)) as Hfile.
  { intros pfd. unfold create_wh_file. apply wp_open_ok; [done| |].
    - intros Hin. apply elem_of_app in Hin as [Hin|Hin]; [|done]. revert Hin. apply (bool_decide_unpack _). exact I.
    - intros fd U' _. by apply sm_wp_ret. }
  assert (∀ o, sm_wp DISK_where
    (let pfd := default dirfd o in
     if can_mknod then
       try! c_name := sm_ret (cstr_bytes nm) in
       let! r := sm_call (Mknodat pfd c_name (Z.lor S_IFCHR MODE_700) (makedev 0 0)) in
       match r with
       | Ok _ => sm_ret (Ok tt)
       | Err e =>
           if e =? EEXIST then
             let! r := sm_call (Fstatat pfd c_name AT_SYMLINK_NOFOLLOW) in
             match r with
             | Ok st => sm_ret (if is_chardev_whiteout st then Ok tt else Err EEXIST)
             | Err _ => sm_ret (Err EEXIST)
             end
           else if (e =? EPERM) || (e =? ENOTSUP) then
             sm_modify (λ _, false) ;;; create_wh_file pfd nm
           else sm_ret (Err e)
       end
     else create_wh_file pfd nm) b U (λ r _ _, r = Ok tt)) as Hrest.
  { intros o. cbv zeta. destruct can_mknod; [|done]. wp_step. wp_step. unfold cstr_bytes.
    rewrite bool_decide_false by done. cbv beta iota. wp_step. apply sm_wp_call; [done|]. intros r U' [_ Hr].
    specialize (Hr Hsure). cbn in Hr. subst r. by apply sm_wp_ret. }
  wp_step. case_bool_decide; cbn [negb]; [by apply sm_wp_ret, (Hrest None)|].
  apply wp_open_ok; [done|done|]. intros fd U' HU. rewrite HU by reflexivity. apply sm_wp_ret, (Hrest (Some fd)).
Qed.
End faults.

(** ** The request *)
Section request.
Context `{F64, DevT, HashOrder} (dir_of : RawFd → option Z) (roots : gset Z) (sure : bool).
Context (copy_fuel : nat) (config : OverlayConfig).
Context (tree : list Z) (R W : Z) (U : Disk) (pp nm pp' nm' : bytes) (el : Ent) (flags : Z).
Let before := steady tree U nm.
Let after := name_moved tree R U pp nm pp' nm' el.
Let hides := name_hidden tree pp nm.
Abbreviation DISK := (DISK_where dir_of roots (λ V, before V ∨ after V) sure).

(** What a rename needs: the file is cached in its directory, and the new
    directory is known not to have the new name, or has a file there, which is
    then replaced.  The tree shows no directory at the new name, and nothing that
    has the new name is a hard link to the file.  The new directory is on the
    upper layer, or the one of the file, which may be of a lower layer. *)
Record renamable (s : OverlayInner) (parent_ino newparent : Z) (id spid dpid : NodeId) (last : nat) : Prop := {
  rn_upper : ∃ u, upper_layer s = Some u ∧ dir_of (root_fd (ds u)) = Some R;
  rn_quiet : quiet_layers s;
  rn_dir : lookup_node_id s parent_ino = Some spid ∧ ∃ pn, nodes_get s spid = Some pn ∧ get_child pn nm = Some id;
  rn_file : ∃ n, nodes_get s id = Some n ∧ parent n = Some spid ∧ is_dir n = false ∧ last_layer_idx n = last;
  rn_new : ∃ ids parts dpn, branch (nodes s) spid ids parts ∧ lookup_node_id s newparent = Some dpid ∧
    nodes_get s dpid = Some dpn ∧ (get_child dpn nm' = None → is_whiteout dpn nm' = true ∨ is_loaded dpn = true) ∧
    ∀ j, get_child dpn nm' = Some j → spare id ids dpid s j ∧ is_dir <$> nodes_get s j = Some false;
  rn_next : arena_map (nodes s) !! next_id (nodes s) = None;
  rn_source : source dir_of roots tree R W s U id spid pp nm el;
  rn_target : target tree R W s U spid pp dpid pp';
  rn_names : plain nm ∧ user_name nm ∧ plain nm' ∧ user_name nm' ∧ comps pp ++ [nm] ≠ comps pp' ++ [nm'];
  rn_strings : (NUL ∉ pp) ∧ NUL ∉ nm;
  rn_seen : ∀ dd, see U tree (comps pp' ++ [nm']) ≠ SDir dd;
  rn_ids : ∀ d y, at_ U d nm' = Some y → e_id y ≠ e_id el;
  rn_flags : flags = 0 ∨ flags = RENAME_NOREPLACE
}.

Section renaming.
Context (s : OverlayInner) (parent_ino newparent : Z) (id spid dpid : NodeId) (last : nat).
Context (Hrn : renamable s parent_ino newparent id spid dpid last).

(** The nodes after the copy-up. *)
Lemma held_copied c hs : touched hs (get_copy s) c →
  (∃ ids parts, held spid id nm ids parts (put_copy c s) ∧ replaceable id ids newparent dpid nm' (put_copy c s)) ∧
  arena_map (nodes (put_copy c s)) !! next_id (nodes (put_copy c s)) = None ∧
  (∃ pn, nodes_get (put_copy c s) spid = Some pn ∧ get_child pn nm = Some id) ∧
  ∃ n, nodes_get (put_copy c s) id = Some n ∧ is_dir n = false ∧ last_layer_idx n = last.
Proof using Hrn.
  intros Htou. destruct Hrn as [_ _ (Hl & pn & Hpn & Hch) (n & Hn & Hpar & Hd & Hlast) (ids & parts & dpn & Hb & Hl' & Hdpn & _ & Hj)
    Hnext _ _ _ _ _ _ _].
  destruct (touched_node _ _ _ _ _ Htou Hpn) as (k1 & Hpn' & _). destruct (touched_node _ _ _ _ _ Htou Hn) as (k2 & Hn' & _).
  destruct (touched_node _ _ _ _ _ Htou Hdpn) as (k3 & Hdpn' & _).
  assert (branch (cs_nodes c) spid ids parts ∧ arena_map (cs_nodes c) !! next_id (cs_nodes c) = None) as [Hb' Hx].
  { destruct Htou as (js & _ & ->). induction js as [|j js [IH1 IH2]]; [done|]. cbn [foldr]. split.
    - by apply branch_alter.
    - by apply next_alter. }
  split_and!.
  - exists ids, parts. split; [split; [done|by exists (set_layer_idx k2 n)|exists (set_layer_idx k1 pn); split; [done|]]|].
    { intros j Ej. change (get_child pn nm = Some j) in Ej. congruence. }
    split; [by rewrite (lookup_touched _ _ _ _ Htou)|]. exists (set_layer_idx k3 dpn). split; [done|].
    intros j Ej. change (get_child dpn nm' = Some j) in Ej. destruct (Hj _ Ej) as [(H1' & H2' & m & Hm & Hmp & Hmh) _].
    destruct (touched_node _ _ _ _ _ Htou Hm) as (k4 & Hm' & _). split; [done|]. split; [done|]. by exists (set_layer_idx k4 m).
  - done.
  - by exists (set_layer_idx k1 pn).
  - by exists (set_layer_idx k2 n).
Qed.

Lemma disk_rename_resolve (Q : FsResult (NodeId * NodeId * NodeId) → OverlayInner → Disk → Prop) :
  (∀ err s' V, before V → Q (Err err) s' V) →
  (∀ c V D lows e, lifted tree R W s U id spid pp nm el c V D lows e → Q (Ok (id, spid, dpid)) (put_copy c s) V) →
  sm_wp DISK (rename_resolve copy_fuel config parent_ino nm newparent nm') s U Q.
Proof using All.
  intros HErr HOk.
  pose proof Hrn as [(u & Hup & HRd) _ (Hl & pn & Hpn & Hch) (n & Hn & _ & Hd & _) (ids & parts & dpn & _ & Hl' & Hdpn & _)
    _ Hso Hta (Hnm & Hu & Hnm' & Hu' & Hne) _ _ _ _].
  assert (before U) as HbU by apply steady_refl.
  unfold rename_resolve. wp_step. apply wp_where, wp_calm; [unfold get_fs_namemax; calms|by left|].
  intros namemax. wp_step; [by apply sm_wp_ret, HErr|].
  wp_step. unfold do_lookup_file at 1. do 2 wp_step. rewrite Hl, Hpn. cbn [mbind option_bind]. rewrite Hch. apply sm_wp_ret.
  do 2 wp_step. cbn [ok_or]. do 2 wp_step.
  assert (is_whiteout_or_missing s id = false) as ->.
  { unfold is_whiteout_or_missing, contains_key. unfold nodes_get, arena_get in Hn. rewrite Hn. by rewrite bool_decide_true by eauto. }
  rewrite Hn. cbn [fmap option_fmap option_map default Datatypes.id]. rewrite Hd. wp_step. apply sm_wp_ret. wp_step.
  apply wp_where. eapply (wp_lift dir_of roots copy_fuel tree R W u s U id spid pp nm el Hnm Hu); [done|done|..].
  { intros V HV. by left. }
  { intros err c V HV. by apply HErr. }
  intros c V D lows e Hli. edestruct (lifted_lands tree R W) with (nm' := nm') as (D' & lows' & Hla); [exact Hu|exact Hli|exact Hta|].
  destruct (li_touched _ _ _ _ _ _ _ _ _ _ _ _ _ _ _ Hli) as (js & Htou).
  destruct (li_parent _ _ _ _ _ _ _ _ _ _ _ _ _ _ _ Hli) as (pn' & Hpn' & Hpz).
  destruct (la_node _ _ _ _ _ _ _ _ _ _ _ _ _ _ Hla) as (dn' & Hdn' & Hdz).
  cbv beta iota. wp_step. unfold do_lookup_file at 1. do 2 wp_step. rewrite (lookup_touched _ _ _ _ Htou), Hl. apply sm_wp_ret.
  do 2 wp_step. cbn [ok_or]. wp_step. apply wp_where. eapply wp_node_is_up; [exact Hup|exact Hpn'|exact Hpz|]. cbv beta iota.
  wp_step. unfold do_lookup_file at 1. do 2 wp_step. rewrite (lookup_touched _ _ _ _ Htou), Hl'. apply sm_wp_ret.
  do 2 wp_step. cbn [ok_or]. wp_step. apply wp_where. eapply wp_node_is_up; [exact Hup|exact Hdn'|exact Hdz|]. cbv beta iota.
  apply sm_wp_ret. by eapply HOk.
Qed.

(** The new name is free, or has a file. *)
Lemma wp_check_dst c hs V (Q : FsResult unit → OverlayInner → Disk → Prop) : touched hs (get_copy s) c →
  (∀ err, Q (Err err) (put_copy c s) V) → Q (Ok tt) (put_copy c s) V →
  sm_wp DISK (rename_check_dst config newparent nm' flags) (put_copy c s) V Q.
Proof using All.
  intros Htou HErr HOk. pose proof (rn_flags _ _ _ _ _ _ _ Hrn) as Hfl.
  destruct (rn_new _ _ _ _ _ _ _ Hrn) as (ids & parts & dpn & _ & Hl & Hdpn & Hnone & Hsome).
  destruct (touched_node _ _ _ _ _ Htou Hdpn) as (k & Hdpn' & _).
  unfold rename_check_dst. wp_step. unfold do_lookup_file. do 2 wp_step. rewrite (lookup_touched _ _ _ _ Htou), Hl.
  change (nodes_get (put_copy c s) dpid) with (arena_get (cs_nodes c) dpid). rewrite Hdpn'. cbn [mbind option_bind].
  change (get_child (set_layer_idx k dpn) nm') with (get_child dpn nm').
  destruct (get_child dpn nm') as [j|] eqn:Ej.
  - destruct (Hsome _ eq_refl) as [(_ & _ & m & Hm & _) Hd]. destruct (touched_node _ _ _ _ _ Htou Hm) as (k' & Hm' & _).
    rewrite Hm in Hd. injection Hd as Hd. apply sm_wp_ret. do 2 wp_step.
    unfold is_whiteout_or_missing, contains_key. change (arena_map (nodes (put_copy c s)) !! j) with (arena_get (cs_nodes c) j).
    rewrite Hm', bool_decide_true by eauto. cbn [negb]. change (nodes_get (put_copy c s) j) with (arena_get (cs_nodes c) j).
    rewrite Hm'. cbn [fmap option_fmap option_map default Datatypes.id]. change (is_dir (set_layer_idx k' m)) with (is_dir m). rewrite Hd.
    rewrite andb_false_r. destruct Hfl as [->| ->]; apply sm_wp_ret; [apply HOk|apply HErr].
  - cbn [fmap option_fmap option_map default Datatypes.id]. change (is_whiteout (set_layer_idx k dpn) nm') with (is_whiteout dpn nm').
    change (is_loaded (set_layer_idx k dpn)) with (is_loaded dpn).
    destruct (is_whiteout dpn nm') eqn:Ew; [apply sm_wp_ret; do 2 wp_step; by apply sm_wp_ret|].
    destruct (Hnone eq_refl) as [|Hld]; [done|]. rewrite Hld. apply sm_wp_ret. do 2 wp_step. by apply sm_wp_ret.
Qed.

(** From the copy-up on. *)
Section lifted.
Context (u : OvlLayer) (c : CopyState) (V1 : Disk) (D D' : Z) (lows lows' : list Z) (e : Ent).
Context (Hup : upper_layer s = Some u) (HRd : dir_of (root_fd (ds u)) = Some R).
Context (Hli : lifted tree R W s U id spid pp nm el c V1 D lows e).
Context (Hla : landed tree R W s U pp nm dpid pp' nm' c V1 D' lows').
Let s1 : OverlayInner := put_copy c s.
Let V3 : Disk := del D nm (put D' nm' e V1).

Lemma still_no_dir dd : see V1 tree (comps pp' ++ [nm']) ≠ SDir dd.
Proof using Hrn Hli Hla.
  pose proof Hrn as [_ _ _ _ _ _ _ _ (_ & _ & _ & Hu' & _) _ Hseen _ _].
  destruct (li_steady _ _ _ _ _ _ _ _ _ _ _ _ _ _ _ Hli) as [Hsh _]. intros E.
  specialize (Hsh (comps pp' ++ [nm'])). rewrite E in Hsh.
  destruct (see U tree (comps pp' ++ [nm'])) as [| |ds0] eqn:E0; [..|by apply (Hseen ds0)].
  all: discriminate Hsh; apply Forall_app; split; [apply Hla|by constructor].
Qed.
Lemma no_hard_link : at_ V1 D' nm' = None ∨ ∃ y, at_ V1 D' nm' = Some y ∧ e_id y ≠ e_id e.
Proof using Hrn Hli Hla.
  pose proof Hrn as [_ _ _ _ _ _ _ _ (_ & Hu & _ & Hu' & Hne) _ _ Hids _].
  destruct (at_ V1 D' nm') as [y|] eqn:Ey; [right|by left]. exists y. split; [done|]. intros E.
  assert ((D', nm') ≠ (D, nm)) as Hap.
  { intros [= E1 E2]. eapply (file_apart tree R W s U id spid dpid pp nm pp' nm'); try done. by split; [|left]. }
  destruct (li_own _ _ _ _ _ _ _ _ _ _ _ _ _ _ _ Hli _ _ _ Ey Hap E) as [-> Hy]. by apply (Hids _ _ Hy).
Qed.
Lemma third_dirs : (∀ y, at_ V1 D' nm' = Some y → e_dir y = false) → keeps_dirs V1 V3.
Proof using Hli.
  intros Hf. destruct (li_file _ _ _ _ _ _ _ _ _ _ _ _ _ _ _ Hli) as [He [_ Hde]%child_file]. intros d x y Hy Hd.
  assert ((d, x) ≠ (D, nm)) as Hx by (intros [= -> ->]; congruence).
  unfold V3. rewrite at_del_ne by done. rewrite at_put_ne; [done|]. intros [= <- <-]. by rewrite (Hf _ Hy) in Hd.
Qed.
Lemma third_same : same_but (own D nm) (put D' nm' e V1) V3.
Proof using Type. apply same_but_del. split; [done|by left]. Qed.
Lemma third_no_file : at_ V3 D (WH_PREFIX ++ nm) = None.
Proof using Hrn Hli.
  pose proof Hrn as [_ _ _ _ _ _ _ _ (_ & Hu & _ & Hu' & Hne) _ _ _ _].
  destruct (li_file _ _ _ _ _ _ _ _ _ _ _ _ _ _ _ Hli) as [_ Hch]. unfold V3.
  rewrite at_del_ne by (intros [_ E]%pair_eq; symmetry in E; by apply wh_ne in E).
  rewrite at_put_ne by (intros [_ E]%pair_eq; by apply (user_name_wh nm' nm)).
  eapply child_no_file; [done|by rewrite Hch].
Qed.
(** With the whiteout or without it. *)
Lemma third_after V : (∀ y, at_ V1 D' nm' = Some y → e_dir y = false) → adds (own D nm) V3 V →
  whited V D nm ∨ at_ V D nm = None → after V ∧ (whited V D nm → hides V).
Proof using Hrn Hli Hla.
  intros Hf Ha Hn. pose proof Hrn as [_ _ _ _ _ _ _ _ (_ & Hu & _ & Hu' & Hne) _ _ _ _].
  eapply moved_after; [exact Hu|exact Hu'|exact Hne|exact Hli|exact Hla|exact still_no_dir| | | |done].
  - eapply same_but_trans; [apply third_same|by apply adds_same_but].
  - eapply keeps_dirs_trans; [by apply third_dirs|by eapply adds_keeps_dirs].
  - intros y Hy. pose proof third_no_file as Hno. unfold V3 in Hno. rewrite at_del_ne in Hno; [congruence|].
    intros [_ E]%pair_eq. symmetry in E. by apply wh_ne in E.
Qed.

Lemma wp_rename_disk (Q : FsResult unit → OverlayInner → Disk → Prop) :
  (∀ err, Q (Err err) s1 V1) → ((∀ y, at_ V1 D' nm' = Some y → e_dir y = false) → Q (Ok tt) s1 V3) →
  sm_wp DISK (rename_disk (root_fd (ds u)) (child_path pp nm) (child_path pp' nm') flags) s1 V1 Q.
Proof using Hrn Hli Hla HRd.
  intros HErr HOk. pose proof Hrn as [_ _ _ _ _ _ _ _ (Hnm & Hu & Hnm' & Hu' & Hne) _ _ _ Hfl].
  assert (before V1) as HB by apply Hli.
  assert (walk V1 R (comps pp) = Some D ∧ walk V1 R (comps pp') = Some D') as [Hw Hw'] by (split; [apply Hli|apply Hla]).
  destruct (li_file _ _ _ _ _ _ _ _ _ _ _ _ _ _ _ Hli) as [He [_ Hde]%child_file].
  unfold rename_disk. wp_step. apply wp_where. eapply wp_open_parent; [by left|done|done|done| |by intros; apply HErr].
  intros g fd Hfd. cbv beta iota. wp_step. apply wp_where. eapply wp_open_parent; [by left|done|done|done| |by intros; apply HErr].
  intros g' fd' Hfd'. cbv beta iota.
  assert (∀ r V, renames dir_of V1 fd nm fd' nm' (λ _ W1 W2, W2 = W1) r V → Q r s1 V) as Hr.
  { intros r V Hr. destruct (Hr Hnm Hnm') as [HE Hok]. destruct r as [[]|err]; [|by rewrite (HE _ eq_refl)].
    destruct (Hok eq_refl) as (E1 & E2 & x & HE1 & HE2 & Hx & Hd & ->).
    assert (E1 = D) as -> by congruence. assert (E2 = D') as -> by congruence. assert (x = e) as -> by congruence.
    assert (moved V1 D nm D' nm' e = V3) as ->.
    { eapply moved_put; [exact Hu|exact Hu'|exact Hne|exact Hli|exact Hla|exact no_hard_link]. }
    apply HOk. intros y Hy. by rewrite (Hd _ Hy). }
  destruct Hfl as [->| ->].
  - change (negb (0 =? 0)) with false. cbv iota. apply wp_where, wp_disk; [by left|]. exact Hr.
  - change (negb (RENAME_NOREPLACE =? 0)) with true. cbv iota. apply wp_where, wp_disk; [by left|]. intros r V [HV _]. by apply Hr.
Qed.

(** The whiteout at the old name; its failure is ignored. *)
Lemma wp_hide_old s4 (Q : unit → OverlayInner → Disk → Prop) :
  (∀ y, at_ V1 D' nm' = Some y → e_dir y = false) → compute_path (nodes s4) spid = Some pp →
  (∀ s' V, after V → (sure = true → hides V) → Q tt s' V) →
  sm_wp DISK
    (let! sparent_path := node_path spid in
     let! s := sm_get in
     let! _ := do_create_whiteout (root_fd (ds u)) sparent_path nm (can_mknod s) in
     sm_ret tt) s4 V3 Q.
Proof using Hrn Hli Hla HRd.
  intros Hf Hp HQ. pose proof Hrn as [_ _ _ _ _ _ _ _ (Hnm & _) [Hnul Hnul'] _ _ _].
  pose proof (third_after V3 Hf) as H3. destruct H3 as [HA3 _]; [by left|right; by apply at_del|].
  wp_step. apply wp_where. eapply disk_node_path; [exact Hp|]. do 2 wp_step. wp_step.
  match goal with |- sm_wp _ ?m _ _ _ => set (make := m) end.
  assert (sm_wp DISK make s4 V3 (λ r _ V, match r with Ok _ => adds (own D nm) V3 V ∧ whited V D nm | Err _ => V = V3 end)) as Hm.
  { apply wp_where. eapply wp_do_create_whiteout; [by right|exact HRd|eapply walk_keeps; [by apply third_dirs|apply Hli]|exact Hnm| | |].
    - intros x Hx. by rewrite third_no_file in Hx.
    - intros b V Ha Hw _. by split.
    - done. }
  assert (sm_wp DISK make s4 V3 (λ r _ _, sure = true → r = Ok tt)) as Hs.
  { assert (sure = true ∨ sure = false) as [E|E] by (by destruct sure; [left|right]).
    - apply sm_wp_zoom. eapply sm_wp_mono; [apply (wp_whiteout_made dir_of roots _ sure E); [by right|done|done]|]. done.
    - eapply sm_wp_mono; [exact Hm|]. intros r s' V _. by rewrite E. }
  eapply sm_wp_mono; [by apply (wp_both _ _ _ _ _ _ _ _ _ Hm Hs)|]. intros [[]|err] s' V [Hr Hok]; apply sm_wp_ret.
  - destruct Hr as [Ha Hw]. destruct (third_after V Hf Ha (or_introl Hw)) as [HA Hh]. apply HQ; [done|]. intros _. by apply Hh.
  - subst V. apply HQ; [done|]. intros E. by specialize (Hok E).
Qed.

(** The nodes are moved, and then the old name is hidden. *)
Lemma wp_rename_rest (Q : FsResult unit → OverlayInner → Disk → Prop) :
  (∀ y, at_ V1 D' nm' = Some y → e_dir y = false) →
  (∀ s' V, after V → (sure = true → (0 < last)%nat → hides V) → Q (Ok tt) s' V) →
  sm_wp DISK
    (let! s := sm_get in
     let src_last_layer := default 0%nat (last_layer_idx <$> nodes_get s id) in
     alter_node mark_unloaded spid ;;;
     (if negb (dpid =? spid) then alter_node mark_unloaded dpid else sm_ret tt) ;;;
     try! _ :=
       (if negb (Z.land flags RENAME_EXCHANGE =? 0) then rename_exchange spid nm dpid nm'
        else rename_replace spid nm newparent dpid nm' ;;; sm_ret (Ok tt)) in
     (if (Z.land flags RENAME_EXCHANGE =? 0) && (0 <? src_last_layer)%nat then
        let! sparent_path := node_path spid in
        let! s := sm_get in
        let! _ := do_create_whiteout (root_fd (ds u)) sparent_path nm (can_mknod s) in
        sm_ret tt
      else sm_ret tt) ;;;
     sm_ret (Ok tt)) s1 V3 Q.
Proof using Hrn Hli Hla HRd.
  intros Hf HQ. pose proof Hrn as [_ Hq _ _ _ _ _ _ (Hnm & Hu & Hnm' & Hu' & Hne) [Hnul Hnul'] _ _ Hfl].
  destruct (li_touched _ _ _ _ _ _ _ _ _ _ _ _ _ _ _ Hli) as (js & Htou).
  destruct (held_copied c js Htou) as ((ids & parts & Hh & Hre) & Hnext & _ & (n & Hn & _ & Hlast)).
  assert (dpid ≠ spid ∨ nm ≠ nm') as Hap.
  { destruct (decide (dpid = spid)) as [E|]; [right|by left]. intros E'. apply Hne. rewrite E'. do 2 f_equal.
    pose proof (li_ppath _ _ _ _ _ _ _ _ _ _ _ _ _ _ _ Hli) as E1. pose proof (la_path _ _ _ _ _ _ _ _ _ _ _ _ _ _ Hla) as E2. congruence. }
  assert (branch_path parts = pp) as Epp.
  { pose proof (branch_compute _ _ _ _ (hd_branch _ _ _ _ _ _ Hh)) as E. cbn [nodes put_copy set_nodes] in E.
    rewrite (touched_path _ _ _ _ Htou) in E. pose proof (li_ppath _ _ _ _ _ _ _ _ _ _ _ _ _ _ _ Hli) as E'. cbn in E. congruence. }
  assert (∀ V, adds (own D nm) V3 V → whited V D nm ∨ at_ V D nm = None → after V ∧ (whited V D nm → hides V)) as Haft.
  { intros V Ha Hw. by apply third_after. }
  assert (at_ V3 D nm = None) as Hgone by apply at_del.
  assert (after V3) as HA3 by (apply Haft; [by left|by right]).
  change (nodes_get s1 id = Some n) in Hn. do 2 wp_step. rewrite Hn. cbn [fmap option_fmap option_map default Datatypes.id].
  rewrite Hlast. wp_step. unfold alter_node at 1. do 2 wp_step.
  destruct (held_unloaded spid id nm ids parts newparent dpid nm' spid s1 Hh Hre Hnext) as (Hh2 & Hre2 & Hnext2).
  set (s2 := set_nodes _ s1) in *.
  (* from the lookup on *)
  assert (∀ s3, held spid id nm ids parts s3 → replaceable id ids newparent dpid nm' s3 →
    arena_map (nodes s3) !! next_id (nodes s3) = None → quiet_layers s3 → sm_wp DISK
    (try! _ :=
       (if negb (Z.land flags RENAME_EXCHANGE =? 0) then rename_exchange spid nm dpid nm'
        else rename_replace spid nm newparent dpid nm' ;;; sm_ret (Ok tt)) in
     (if (Z.land flags RENAME_EXCHANGE =? 0) && (0 <? last)%nat then
        let! sparent_path := node_path spid in
        let! s := sm_get in
        let! _ := do_create_whiteout (root_fd (ds u)) sparent_path nm (can_mknod s) in
        sm_ret tt
      else sm_ret tt) ;;;
     sm_ret (Ok tt)) s3 V3 Q) as Hend.
  { intros s3 Hh3 Hre3 Hnext3 Hq3.
    assert ((Z.land flags RENAME_EXCHANGE =? 0) = true) as -> by (by destruct Hfl as [->| ->]). cbn [negb andb].
    do 2 wp_step. apply wp_where.
    eapply (wp_rename_replace dir_of roots _ V3 (or_intror HA3) spid id nm ids parts newparent dpid nm' Hap); [done..|].
    intros s4 Hb. apply sm_wp_ret. wp_step.
    destruct (0 <? last)%nat eqn:El; [|apply sm_wp_ret; apply sm_wp_ret, HQ; [done|]; intros _ Hl; by apply Nat.ltb_ge in El; lia].
    apply wp_hide_old; [done|rewrite <-Epp; by eapply branch_compute|]. intros s' V HA Hhid. apply sm_wp_ret, HQ; [done|]. intros E _. by apply Hhid. }
  wp_step; [|by apply sm_wp_ret, Hend].
  unfold alter_node. wp_step.
  destruct (held_unloaded spid id nm ids parts newparent dpid nm' dpid s2 Hh2 Hre2 Hnext2) as (Hh3 & Hre3 & Hnext3). by apply Hend.
Qed.
End lifted.

Lemma wp_rename_inner (Q : FsResult unit → OverlayInner → Disk → Prop) :
  (∀ err s' V, before V → Q (Err err) s' V) →
  (∀ s' V, after V → (sure = true → (0 < last)%nat → hides V) → Q (Ok tt) s' V) →
  sm_wp DISK (rename_inner copy_fuel config parent_ino nm newparent nm' flags) s U Q.
Proof using Hrn.
  intros HErr HOk. pose proof Hrn as [(u & Hup & HRd) _ _ _ _ _ _ Hta (Hnm & Hu & Hnm' & Hu' & Hne) _ _ _ _].
  unfold rename_inner. wp_step. apply disk_rename_resolve; [exact HErr|]. intros c V1 D lows e Hli. cbv beta iota.
  edestruct (lifted_lands tree R W) with (nm' := nm') as (D' & lows' & Hla); [exact Hu|exact Hli|exact Hta|].
  destruct (li_touched _ _ _ _ _ _ _ _ _ _ _ _ _ _ _ Hli) as (js & Htou).
  assert (before V1) as HB by apply Hli.
  assert (∀ j path, compute_path (nodes s) j = Some path → compute_path (nodes (put_copy c s)) j = Some path) as Hpath.
  { intros j path Hp. cbn [nodes put_copy set_nodes]. by rewrite (touched_path _ _ _ _ Htou). }
  apply upper_layer_first in Hup as Hl0. destruct Hl0 as [Hl0 _].
  wp_step. unfold layer_at. do 2 wp_step. apply sm_wp_index. exists u. split; [exact Hl0|]. cbv zeta.
  wp_step. apply wp_where. eapply disk_node_path; [apply Hpath, Hli|].
  wp_step. apply wp_where. eapply disk_node_path; [apply Hpath, Hla|].
  wp_step. eapply wp_check_dst; [exact Htou|intros err; by apply HErr|]. cbv beta iota. do 2 wp_step.
  destruct (held_copied c js Htou) as (_ & _ & _ & (n & Hn & Hd & _)).
  wp_step. rewrite Hn. cbn [fmap option_fmap option_map default Datatypes.id]. rewrite Hd. apply sm_wp_ret.
  wp_step. eapply wp_rename_disk; [exact HRd|exact Hli|exact Hla|intros err; by apply HErr|]. intros Hf. cbv beta iota.
  by eapply wp_rename_rest.
Qed.
End renaming.

(** C10. A rename moves the file or nothing. It is a file, with the flags 0 or
    RENAME_NOREPLACE. When rename succeeds, the file, or its copy, is on the
    upper layer under the new name, in place of a cached file that may have been
    there, and the overlay shows it, unless the upper directory had a whiteout
    file for the new name, which may be left. The old name is gone from the
    upper directory. It is hidden by a whiteout if the node's last layer is not
    the upper one and the calls that make the whiteout are not refused; in the
    other cases the overlay may show there what lower layers have. When rename
    fails, the overlay shows what it did. At every call, so also after a crash,
    it is one or the other; between the two steps the old name is not hidden.
    All paths but the two show what they did, and no other name is lost. The
    file is cached, and may be of a lower layer at any depth: then it and the
    directories above it are copied up first. The new directory is on the upper
    layer or the one of the file, and is loaded or has the new name or a
    whiteout of it in its cache; the tree of the layers has no directory at the
    new name, and nothing with that name is a hard link of the file. *)
Theorem rename_is_seen (s : OverlayFs) (parent_ino newparent : Z) (id spid dpid : NodeId) (last : nat)
    (Hrn : renamable (inner s) parent_ino newparent id spid dpid last) :
  sm_wp DISK (serve copy_fuel config (RqRename parent_ino nm newparent nm' flags)) s U
    (λ r _ V, match r with
              | Ok _ => after V ∧ (sure = true → (0 < last)%nat → hides V)
              | Err _ => before V
              end).
Proof.
  cbn [serve]. unfold rename. wp_step. apply sm_wp_zoom. eapply wp_rename_inner; [exact Hrn|auto|].
  intros s' V HA Hh. by apply sm_wp_ret.
Qed.
End request.
