(* ===== verification/DiskKernel.v ===== *)
(** * A kernel over a disk

    An executable kernel for the concrete runs: the layers and the work
    directory are directories of one [Disk], the descriptor of a directory is
    its identity, and a new object gets the next number.  [disk_kernel_ok]: it
    behaves as the policy [DISK] says, so what is proved under [DISK] holds of
    its runs. *)

From S2P Require Import Prelude Libc Sys Xattr Openat2 Node DataSource Whiteout Layer Copyup.
From S2P Require Import Provenance Overlay Merge Disk.
Local Open Scope Z_scope.

Definition EISDIR : Z := 21.
Definition ELOOP : Z := 40.

(** The disk, the next identity, and what the file system of the upper layer
    supports: device nodes, and RENAME_WHITEOUT. *)
Record KState := { k_disk : Disk; k_next : Z; k_mknod : bool; k_whiteout : bool }.
Definition set_disk (U : Disk) (w : KState) : KState :=
  {| k_disk := U; k_next := k_next w; k_mknod := k_mknod w; k_whiteout := k_whiteout w |}.

Definition FILE_FD : Z := 2 ^ 20.
(** Small descriptors are directories. *)
Definition k_dir_of (fd : RawFd) : option Z := if fd <? FILE_FD then Some fd else None.

#[export] Instance plain_dec nm : Decision (plain nm).
Proof. unfold plain. apply _. Defined.

#[export] Instance Ent_eq_dec : EqDecision Ent.
Proof. solve_decision. Defined.
#[export] Instance Disk_eq_dec : EqDecision Disk.
Proof. solve_decision. Defined.

Section kernel.
Context `{DevT}.
Implicit Types (w : KState).

(** The stat of an object; everything is on device 0. *)
Definition k_stat (e : Ent) : stat :=
  set_st_ino (e_id e) (set_st_rdev (e_rdev e) (set_st_mode (Z.lor (e_type e) MODE_755) zeroed_stat)).
Definition dir_ent (d : Z) : Ent := {| e_id := d; e_type := S_IFDIR; e_rdev := 0 |}.

(** The object of a descriptor. *)
Definition k_fstat (U : Disk) (fd : RawFd) : FsResult stat :=
  match k_dir_of fd with
  | Some d => Ok (k_stat (dir_ent d))
  | None =>
      match filter (λ x, e_id x.2 = fd - FILE_FD) (map_to_list (entries U)) with
      | x :: _ => Ok (k_stat x.2)
      | [] => Err EBADF
      end
  end.

Definition k_stat_at (U : Disk) (d : RawFd) (nm : bytes) : FsResult stat :=
  if decide (plain nm) then
    match k_dir_of d with
    | Some D => match at_ U D nm with Some e => Ok (k_stat e) | None => Err ENOENT end
    | None => Err ENOTDIR
    end
  else k_fstat U d.

(** The directory of a descriptor, of those that were given out. *)
Definition k_dir w (d : RawFd) : option Z :=
  match k_dir_of d with Some D => if D <? k_next w then Some D else None | None => None end.

Definition k_new (d : RawFd) (nm : bytes) (type rdev : Z) w : FsResult unit * KState :=
  match k_dir w d with
  | Some D =>
      if decide (plain nm) then
        match at_ (k_disk w) D nm with
        | Some _ => (Err EEXIST, w)
        | None =>
            (Ok tt, {| k_disk := put D nm {| e_id := k_next w; e_type := type; e_rdev := rdev |} (k_disk w);
                       k_next := k_next w + 1; k_mknod := k_mknod w; k_whiteout := k_whiteout w |})
        end
      else (Err EINVAL, w)
  | None => (Err ENOTDIR, w)
  end.

Definition k_empty (U : Disk) (d : Z) : bool :=
  bool_decide (Forall (λ x : Z * bytes * Ent, x.1.1 ≠ d) (map_to_list (entries U))).

(** May [e] replace what is there? *)
Definition k_replace (U : Disk) (e : Ent) (dst : option Ent) : FsResult unit :=
  match dst with
  | None => Ok tt
  | Some x =>
      if e_dir e then
        if negb (e_dir x) then Err ENOTDIR
        else if k_empty U (e_id x) then Ok tt else Err ENOTEMPTY
      else if e_dir x then Err EISDIR else Ok tt
  end.

Definition k_rename (d : RawFd) (on : bytes) (d' : RawFd) (nn : bytes)
    (after : Z → Disk → KState → KState) w : FsResult unit * KState :=
  match k_dir w d, k_dir w d' with
  | Some D, Some D' =>
      if decide (plain on ∧ plain nn) then
        match at_ (k_disk w) D on with
        | None => (Err ENOENT, w)
        | Some e =>
            match k_replace (k_disk w) e (at_ (k_disk w) D' nn) with
            | Ok _ => (Ok tt, after D (moved (k_disk w) D on D' nn e) w)
            | Err err => (Err err, w)
            end
        end
      else (Err EINVAL, w)
  | _, _ => (Err ENOTDIR, w)
  end.
Definition k_after_rename (_ : Z) (U1 : Disk) w : KState := set_disk U1 w.
Definition k_after_whiteout (on : bytes) (D : Z) (U1 : Disk) w : KState :=
  if decide (U1 = k_disk w) then w
  else {| k_disk := put D on {| e_id := k_next w; e_type := S_IFCHR; e_rdev := makedev 0 0 |} U1;
          k_next := k_next w + 1; k_mknod := k_mknod w; k_whiteout := k_whiteout w |}.

Definition k_exchange (d : RawFd) (on : bytes) (d' : RawFd) (nn : bytes) w : FsResult unit * KState :=
  match k_dir w d, k_dir w d' with
  | Some D, Some D' =>
      if decide (plain on ∧ plain nn) then
        match at_ (k_disk w) D on, at_ (k_disk w) D' nn with
        | Some e, Some e' => (Ok tt, set_disk (put D' nn e (put D on e' (k_disk w))) w)
        | _, _ => (Err ENOENT, w)
        end
      else (Err EINVAL, w)
  | _, _ => (Err ENOTDIR, w)
  end.
Definition k_noreplace (d : RawFd) (on : bytes) (d' : RawFd) (nn : bytes) w : FsResult unit * KState :=
  match k_dir w d' with
  | Some D' => if is_Some_b (at_ (k_disk w) D' nn) then (Err EEXIST, w) else k_rename d on d' nn k_after_rename w
  | None => (Err ENOTDIR, w)
  end.

Definition k_unlink (d : RawFd) (nm : bytes) (flags : Z) w : FsResult unit * KState :=
  match k_dir w d with
  | Some D =>
      if decide (plain nm) then
        match at_ (k_disk w) D nm with
        | None => (Err ENOENT, w)
        | Some e =>
            let rmdir := negb (Z.land flags AT_REMOVEDIR =? 0) in
            if e_dir e && negb rmdir then (Err EISDIR, w)
            else if negb (e_dir e) && rmdir then (Err ENOTDIR, w)
            else if rmdir && negb (k_empty (k_disk w) (e_id e)) then (Err ENOTEMPTY, w)
            else (Ok tt, set_disk (del D nm (k_disk w)) w)
        end
      else (Err EINVAL, w)
  | None => (Err ENOTDIR, w)
  end.

Definition k_open (d : RawFd) (path : bytes) (flags : Z) w : FsResult RawFd * KState :=
  match k_dir_of d with
  | None => (Err ENOTDIR, w)
  | Some R =>
      match walk (k_disk w) R (comps path) with
      | Some D =>
          if Z.land flags O_CREAT =? 0 then (if D <? FILE_FD then (Ok D, w) else (Err EBADF, w)) else (Err EISDIR, w)
      | None =>
          match parent_dir (k_disk w) R path with
          | None => (Err ENOENT, w)
          | Some (D, nm) =>
              match at_ (k_disk w) D nm with
              | Some e =>
                  if e_dir e then (Err EISDIR, w)
                  else if negb (Z.land flags O_DIRECTORY =? 0) then (Err ENOTDIR, w)
                  else if e_type e =? S_IFLNK then (Err ELOOP, w)
                  else (Ok (FILE_FD + Z.max 0 (e_id e)), w)
              | None =>
                  if Z.land flags O_CREAT =? 0 then (Err ENOENT, w)
                  else
                    match k_new D nm S_IFREG 0 w with
                    | (Ok _, w') => (Ok (FILE_FD + Z.max 0 (k_next w)), w')
                    | (Err e, w') => (Err e, w')
                    end
              end
          end
      end
  end.

Definition k_list (U : Disk) (fd : RawFd) : FsResult (list RawDirEntry) :=
  match k_dir_of fd with
  | Some D =>
      Ok ((λ x : Z * bytes * Ent, {| rde_name := x.1.2; rde_ino := e_id x.2; rde_dtype := Z.shiftr (e_type x.2) 12 |}) <$>
          filter (λ x, x.1.1 = D) (map_to_list (entries U)))
  | None => Err ENOTDIR
  end.

(** The attributes are the opaque marks; a path is ["/proc/self/fd/N/name"]. *)
Definition k_getxattr (U : Disk) (path nm : bytes) : FsResult bytes :=
  match strip_prefix (bs "/proc/self/fd/") path ≫= split_once SLASH with
  | None => Err ENOENT
  | Some (n, b) =>
      match parse_u32 n with
      | None => Err ENOENT
      | Some d =>
          match at_ U d b with
          | Some e => if bool_decide (e_id e ∈ opaques U) && bool_decide (nm = PRIVILEGED_OPAQUE_XATTR)
                      then Ok (bs "y") else Err ENODATA
          | None => Err ENODATA
          end
      end
  end.

Definition k_setxattr (fd : RawFd) (nm : bytes) w : FsResult unit * KState :=
  if opaque_name nm then
    match k_dir w fd with
    | Some D => (Ok tt, set_disk (set_opaques ({[D]} ∪ opaques (k_disk w)) (k_disk w)) w)
    | None => (Err ENOTSUP, w)
    end
  else (Ok tt, w).

Definition disk_kernel (c : sys) w : resp c * KState :=
  match c return resp c * KState with
  | Fstat fd => (k_fstat (k_disk w) fd, w)
  | Fstatat d nm _ | Statx d nm _ _ => (k_stat_at (k_disk w) d nm, w)
  | Fstatvfs _ => (Err ENOSYS, w)
  | Mkdirat d nm _ => k_new d nm S_IFDIR 0 w
  | Mknodat d nm mode dev =>
      if (node_type mode =? S_IFCHR) && negb (k_mknod w) then (Err EPERM, w) else k_new d nm (node_type mode) dev w
  | Symlinkat _ d nm => k_new d nm S_IFLNK 0 w
  | Unlinkat d nm flags => k_unlink d nm flags w
  | Linkat d on d' nn _ => (Err EPERM, w)
  | Renameat d on d' nn => k_rename d on d' nn k_after_rename w
  | Renameat2 d on d' nn flags =>
      if flags =? RENAME_WHITEOUT
      then if k_whiteout w then k_rename d on d' nn (k_after_whiteout on) w else (Err EINVAL, w)
      else if flags =? RENAME_NOREPLACE then k_noreplace d on d' nn w
      else if flags =? RENAME_EXCHANGE then k_exchange d on d' nn w
      else (Err EINVAL, w)
  | Openat2 d path flags _ _ => k_open d path flags w
  | OpenPath _ _ _ => (Err ENOENT, w)
  | Faccessat d nm _ _ =>
      (match k_stat_at (k_disk w) d nm with Ok _ => Ok tt | Err e => Err e end, w)
  | ReadDir fd | ReadDirDup fd => (k_list (k_disk w) fd, w)
  | Lgetxattr path nm _ => (k_getxattr (k_disk w) path nm, w)
  | Fgetxattr _ _ _ => (Err ENODATA, w)
  | Fsetxattr fd nm _ _ => k_setxattr fd nm w
  | Lsetxattr _ _ _ _ => (Err ENOTSUP, w)
  | Lremovexattr _ _ => (Err ENODATA, w)
  | Llistxattr _ _ | Flistxattr _ _ => (Ok [], w)
  | NameToHandleAt _ _ _ => (Err ENOTSUP, w)
  | Readlinkat _ _ | Realpath _ => (Ok (bs "t"), w)
  | Read _ _ | Pread _ _ _ => (Ok [], w)
  | Write _ data => (Ok (Z.of_nat (length data)), w)
  | Pwrite _ data _ => (Ok (Z.of_nat (length data)), w)
  | Sendfile _ _ _ | Lseek _ _ _ | CopyFileRange _ _ _ _ _ => (Ok 0, w)
  | IoctlLong _ _ _ => (Ok 0, w)
  | OpenBacking _ => (Err EPERM, w)
  | _ => (Ok tt, w)
  end.

(** ** It is one of the kernels of the policy *)

Definition pure_type (t : Z) : Prop := file_type t = t.
Definition ids_below (roots : gset Z) (U : Disk) (next : Z) : Prop :=
  (∀ d nm e, at_ U d nm = Some e → d < next ∧ e_id e < next ∧ pure_type (e_type e)) ∧
  (∀ d, d ∈ opaques U → d < next) ∧ ∀ d, d ∈ roots → d < next.
Definition k_ok roots w : Prop := ids_below roots (k_disk w) (k_next w).

Section ok.
Context (roots : gset Z).

Lemma k_new_id w : k_ok roots w → new_id roots (k_disk w) (k_next w).
Proof using.
  intros (He & Ho & Hr). split_and!.
  - intros Hin%Hr. lia.
  - intros Hin%Ho. lia.
  - intros d nm e (Hd & Hi & _)%He. lia.
Qed.

Lemma ids_put U n d nm e n' : ids_below roots U n → n <= n' → d < n' → e_id e < n' → pure_type (e_type e) →
  ids_below roots (put d nm e U) n'.
Proof using.
  intros (He & Ho & Hr) Hn Hd Hi Ht. split_and!.
  - intros d' nm' e' [([= -> ->] & ->)|(_ & H')]%at_put_Some; [done|]. destruct (He _ _ _ H') as (? & ? & ?). split_and!; [lia|lia|done].
  - intros x Hx. specialize (Ho x Hx). lia.
  - intros x Hx. specialize (Hr x Hx). lia.
Qed.
Lemma ids_del U n d nm : ids_below roots U n → ids_below roots (del d nm U) n.
Proof using.
  intros (He & Ho & Hr). split_and!; [|done..]. intros d' nm' e' (_ & H')%at_del_Some. by eapply He.
Qed.

Lemma k_dir_Some w d D : k_dir w d = Some D → k_dir_of d = Some D ∧ D < k_next w.
Proof using. unfold k_dir. destruct (k_dir_of d) as [x|]; [|done]. destruct (x <? k_next w) eqn:E; [|done]. intros [= <-]. zbool. done. Qed.

(** An answer of the kernel, and the next state, are as a relation says. *)
Definition as_said {A} (R : Disk → FsResult A → Disk → Prop) w (x : FsResult A * KState) : Prop :=
  R (k_disk w) x.1 (k_disk x.2) ∧ k_ok roots x.2.

Lemma k_new_ok d nm t rdev w : k_ok roots w → pure_type t →
  as_said (λ U, creates k_dir_of roots U d nm t rdev) w (k_new d nm t rdev w).
Proof using.
  intros Hok Ht. unfold as_said, k_new. destruct (k_dir w d) as [D|] eqn:ED; [|by split; [intros _; split|]].
  apply k_dir_Some in ED as [ED HD].
  destruct (decide (plain nm)); [|by split; [intros _; split|]].
  destruct (at_ (k_disk w) D nm) eqn:Eat; [by split; [intros _; split|]|]. split.
  - intros _. split; [done|]. intros _. exists D, (k_next w). split_and!; [done|done|by apply k_new_id|done].
  - eapply ids_put; [exact Hok|cbn; lia..|done].
Qed.

Lemma k_rename_ok d on d' nn after after' w : k_ok roots w →
  (∀ D D' e, at_ (k_disk w) D on = Some e → D < k_next w → D' < k_next w →
     let U1 := moved (k_disk w) D on D' nn e in
     after (k_disk w) D U1 (k_disk (after' D U1 w)) ∧ k_ok roots (after' D U1 w)) →
  as_said (λ U, renames k_dir_of U d on d' nn (after U)) w (k_rename d on d' nn after' w).
Proof using.
  intros Hok Ha. unfold as_said, k_rename.
  destruct (k_dir w d) as [D|] eqn:ED; [|by split; [intros _ _; split|]].
  destruct (k_dir w d') as [D'|] eqn:ED'; [|by split; [intros _ _; split|]].
  apply k_dir_Some in ED as [ED HD]. apply k_dir_Some in ED' as [ED' HD'].
  destruct (decide _) as [[Hon Hnn]|]; [|by split; [intros _ _; split|]].
  destruct (at_ (k_disk w) D on) as [e|] eqn:Ee; [|by split; [intros _ _; split|]].
  destruct (k_replace _ _ _) as [[]|err] eqn:Er; [|by split; [intros _ _; split|]].
  destruct (Ha D D' e Ee HD HD') as [H1 H2]. split; [|exact H2]. intros _ _. split; [done|]. intros _.
  exists D, D', e. split_and!; [done..| |done]. intros x Hx. unfold k_replace in Er. rewrite Hx in Er.
  destruct (e_dir e), (e_dir x); done.
Qed.
Lemma ids_moved U n D on D' nn e : ids_below roots U n → at_ U D on = Some e → D' < n →
  ids_below roots (moved U D on D' nn e) n.
Proof using.
  intros Hok He HD'. unfold moved. case_decide; [done|]. destruct (proj1 Hok _ _ _ He) as (? & ? & ?).
  eapply ids_put; [by apply ids_del|lia|done..].
Qed.

Lemma k_plain_rename_ok d on d' nn w : k_ok roots w →
  as_said (λ U, renames k_dir_of U d on d' nn (λ _ U1 U', U' = U1)) w (k_rename d on d' nn k_after_rename w).
Proof using.
  intros Hok. apply (k_rename_ok _ _ _ _ (λ _ _ U1 U', U' = U1)); [done|].
  intros D D' e He HD HD'. split; [done|]. by apply ids_moved.
Qed.
Lemma k_noreplace_ok d on d' nn w : k_ok roots w →
  as_said (λ U r U', renames k_dir_of U d on d' nn (λ _ U1 U', U' = U1) r U' ∧
    (plain on → plain nn → r = Ok tt → ∀ D', k_dir_of d' = Some D' → at_ U D' nn = None)) w (k_noreplace d on d' nn w).
Proof using.
  intros Hok. unfold as_said, k_noreplace.
  destruct (k_dir w d') as [D'|] eqn:ED'; [|split; [split; [by intros _ _; split|done]|done]].
  apply k_dir_Some in ED' as [ED' HD'].
  destruct (at_ (k_disk w) D' nn) as [e|] eqn:Ee; cbn [is_Some_b]; [split; [split; [by intros _ _; split|done]|done]|].
  destruct (k_plain_rename_ok d on d' nn w Hok) as [Hr Hk]. split; [|exact Hk]. split; [exact Hr|].
  intros _ _ _ x Hx. by assert (x = D') as -> by congruence.
Qed.
Lemma k_exchange_ok d on d' nn w : k_ok roots w →
  as_said (λ U r U', plain on → plain nn → errs U r U' ∧
    (r = Ok tt → ∃ D D' e e', k_dir_of d = Some D ∧ k_dir_of d' = Some D' ∧ at_ U D on = Some e ∧
       at_ U D' nn = Some e' ∧ U' = put D' nn e (put D on e' U))) w (k_exchange d on d' nn w).
Proof using.
  intros Hok. unfold as_said, k_exchange.
  destruct (k_dir w d) as [D|] eqn:ED; [|by split; [intros _ _; split|]].
  destruct (k_dir w d') as [D'|] eqn:ED'; [|by split; [intros _ _; split|]].
  apply k_dir_Some in ED as [ED HD]. apply k_dir_Some in ED' as [ED' HD'].
  destruct (decide _) as [[Hon Hnn]|]; [|by split; [intros _ _; split|]].
  destruct (at_ (k_disk w) D on) as [e|] eqn:Ee; [|by split; [intros _ _; split|]].
  destruct (at_ (k_disk w) D' nn) as [e'|] eqn:Ee'; [|by split; [intros _ _; split|]].
  split; [intros _ _; split; [done|]; intros _; by exists D, D', e, e'|].
  destruct (proj1 Hok _ _ _ Ee) as (? & ? & ?). destruct (proj1 Hok _ _ _ Ee') as (? & ? & ?).
  by repeat (eapply ids_put; [|done..]).
Qed.

Lemma k_unlink_ok d nm flags w : k_ok roots w →
  as_said (λ U r U', plain nm → errs U r U' ∧
      (r = Err ENOENT → ∀ D, k_dir_of d = Some D → at_ U D nm = None) ∧
      (r = Ok tt → ∃ D e, k_dir_of d = Some D ∧ at_ U D nm = Some e ∧
         e_dir e = negb (Z.land flags AT_REMOVEDIR =? 0) ∧ U' = del D nm U)) w (k_unlink d nm flags w).
Proof using.
  intros Hok. unfold as_said, k_unlink.
  destruct (k_dir w d) as [D|] eqn:ED; [|by split; [intros _; split|]]. apply k_dir_Some in ED as [ED HD].
  destruct (decide (plain nm)); [|by split].
  destruct (at_ (k_disk w) D nm) as [e|] eqn:Ee.
  2: { split; [|done]. intros _. split_and!; [done| |done]. intros _ D2 HD2. by assert (D2 = D) as -> by congruence. }
  cbv zeta. destruct (negb (Z.land flags AT_REMOVEDIR =? 0)) eqn:Efl, (e_dir e) eqn:Edir; cbn [andb negb];
    try (by split; [intros _; split_and!|]).
  - destruct (k_empty _ _); cbn [negb]; (split; [|by try apply ids_del]); [|done]. intros _. split_and!; [done..|]. intros _. by exists D, e.
  - split; [|by apply ids_del]. intros _. split_and!; [done..|]. intros _. by exists D, e.
Qed.

Lemma file_fd_none i : k_dir_of (FILE_FD + Z.max 0 i) = None.
Proof using. unfold k_dir_of. destruct (_ <? _) eqn:E; [|done]. zbool. lia. Qed.

Lemma k_open_ok d path flags w : k_ok roots w →
  as_said (λ U, opens k_dir_of roots U d path flags) w (k_open d path flags w).
Proof using.
  intros Hok. unfold as_said, k_open, opens.
  destruct (k_dir_of d) as [R|] eqn:ER; [|split; [|done]; split; [done|]; by destruct (_ =? 0)].
  destruct (walk (k_disk w) R (comps path)) as [D|] eqn:Ew.
  { destruct (Z.land flags O_CREAT =? 0) eqn:Ec; [|by split].
    destruct (D <? FILE_FD) eqn:ED; [|by split]. split; [|done]. split; [done|]. split; [done|].
    intros _ fd R' [= <-] [= <-]. split; [intros E HE; cbn in HE; assert (E = D) as -> by congruence|].
    - unfold k_dir_of. by rewrite ED.
    - intros e Hp He Hdir _. exfalso. rewrite comps_plain in Ew by done. cbn in Ew.
      cbn in He. by rewrite He, Hdir in Ew. }
  destruct (parent_dir (k_disk w) R path) as [[D nm]|] eqn:Ep; [|split; [|done]; split; [done|]; by destruct (_ =? 0)].
  destruct (at_ (k_disk w) D nm) as [e|] eqn:Ee.
  - destruct (e_dir e); [split; [|done]; split; [done|]; by destruct (Z.land flags O_CREAT =? 0)|].
    destruct (negb _); [split; [|done]; split; [done|]; by destruct (Z.land flags O_CREAT =? 0)|].
    destruct (e_type e =? S_IFLNK); [split; [|done]; split; [done|]; by destruct (Z.land flags O_CREAT =? 0)|].
    split; [|done]. split; [done|]. destruct (Z.land flags O_CREAT =? 0).
    + split; [done|]. intros _ fd R' [= <-] [= <-]. cbn. split; [congruence|]. intros; apply file_fd_none.
    + intros fd [= <-]. split; [apply file_fd_none|]. intros R' D' nm' [= <-] Hp' _. cbn in Hp'.
      rewrite Ep in Hp'. injection Hp' as <- <-. left. by exists e.
  - destruct (Z.land flags O_CREAT =? 0) eqn:Ec; [by split; [split|]|].
    pose proof (k_new_ok D nm S_IFREG 0 w Hok eq_refl) as [Hc Hok'].
    destruct (k_new D nm S_IFREG 0 w) as [[[]|err] w'] eqn:Enew; cbn [fst snd] in *.
    + split; [|done]. split; [done|]. intros fd [= <-]. split; [apply file_fd_none|].
      intros R' D' nm' [= <-] Hp' Hpl. rewrite Ep in Hp'. injection Hp' as <- <-. right. split; [done|].
      destruct (Hc Hpl) as [_ Hc']. destruct (Hc' eq_refl) as (D2 & i & HD2 & _ & Hi & HU).
      assert (D2 = D) as -> by (unfold k_dir_of in HD2; destruct (_ <? _); congruence). by exists i.
    + split; [|done]. assert (k_disk w' = k_disk w) as E.
      { revert Enew. unfold k_new. repeat case_match; naive_solver. }
      split; [by intros ? _|done].
Qed.

Lemma k_stat_type e : pure_type (e_type e) → file_type (st_mode (k_stat e)) = e_type e.
Proof using.
  intros Ht. cbn. unfold file_type. rewrite Z.land_lor_distr_l.
  change (Z.land MODE_755 S_IFMT) with 0. rewrite Z.lor_0_r. exact Ht.
Qed.
Lemma k_fstat_ok U fd : stat_ok (k_fstat U fd).
Proof using.
  unfold k_fstat. intros st. destruct (k_dir_of fd); [intros [= <-]; by repeat split|].
  destruct (filter _ _); [done|]. intros [= <-]. by repeat split.
Qed.
Lemma k_stat_at_ok U d nm flags n : ids_below roots U n → stats k_dir_of U d nm flags (k_stat_at U d nm).
Proof using.
  intros Hok. unfold k_stat_at. split.
  - destruct (decide _); [|apply k_fstat_ok]. intros st. repeat case_match; try done. intros [= <-]. by repeat split.
  - intros Hp _. rewrite decide_True by done. destruct (k_dir_of d) as [D|] eqn:ED; [|done].
    destruct (at_ U D nm) as [e|] eqn:Ee.
    + intros D' HD'. assert (D' = D) as -> by congruence. exists e. split; [done|]. split; [|done].
      apply k_stat_type. by destruct (proj1 Hok _ _ _ Ee) as (_ & _ & ?).
    + intros _ D' HD'. by assert (D' = D) as -> by congruence.
Qed.
Lemma set_opaques_id U : U = set_opaques (opaques U) U.
Proof using. by destruct U. Qed.
Lemma k_setxattr_ok fd nm value w : k_ok roots w →
  as_said (λ U, sets_attr k_dir_of U (Some fd) nm value) w (k_setxattr fd nm w).
Proof using.
  intros Hok. unfold as_said, k_setxattr, sets_attr. destruct (opaque_name nm); [|by split; [split|]].
  destruct (k_dir w fd) as [D|] eqn:ED.
  - apply k_dir_Some in ED as [ED HD]. split.
    + split; [done|]. eexists. split; [done|]. intros f [= <-]. rewrite ED. split; [|set_solver].
      intros x Hx. cbn. set_solver.
    + destruct Hok as (H1 & H2 & H3). split_and!; [done| |done]. intros x. cbn. rewrite elem_of_union, elem_of_singleton.
      intros [->|?]; [done|by apply H2].
  - split; [|done]. split; [done|]. exists (opaques (k_disk w)). split; [apply set_opaques_id|].
    intros f [= <-]. destruct (k_dir_of fd); [|done]. by split.
Qed.

Lemma disk_kernel_ok c w : k_ok roots w →
  disk_post k_dir_of roots (k_disk w) c (disk_kernel c w).1 (k_disk (disk_kernel c w).2) ∧
  k_ok roots (disk_kernel c w).2.
Proof using.
  intros Hok. destruct c; cbn [disk_kernel disk_post fst snd]; try (by split).
  - split; [|done]. split; [done|apply k_fstat_ok].
  - split; [|done]. split; [done|]. by eapply k_stat_at_ok.
  - split; [|done]. split; [done|]. by eapply k_stat_at_ok.
  - by apply k_new_ok.
  - destruct (_ && _); [by split; [intros _; split|]|]. apply k_new_ok; [done|].
    unfold pure_type, node_type. destruct (file_type mode =? 0); [done|].
    unfold file_type. rewrite <-Z.land_assoc. done.
  - by apply k_unlink_ok.
  - by apply k_new_ok.
  - by apply k_plain_rename_ok.
  - destruct (flags =? RENAME_WHITEOUT).
    + destruct (k_whiteout w); [|by split; [intros _ _; split|]].
      apply (k_rename_ok _ _ _ _ (λ U, whiteout_left roots U oldpath)); [done|].
      intros D D' e He HD HD'. unfold k_after_whiteout, whiteout_left.
      case_decide as EU; [split; [|done]; by left|]. split.
      * right. split; [done|]. exists (k_next w). split; [by apply k_new_id|done].
      * eapply ids_put; [by apply ids_moved|cbn; lia..|done].
    + destruct (flags =? RENAME_NOREPLACE); [by apply k_noreplace_ok|].
      destruct (flags =? RENAME_EXCHANGE); [by apply k_exchange_ok|]. by split.
  - by apply k_open_ok.
  - by apply k_setxattr_ok.
  - split; [|done]. split; [done|]. destruct (opaque_name name); [|done].
    exists (opaques (k_disk w)). split; [apply set_opaques_id|]. by intros.
  - split; [|done]. split; [done|]. destruct (opaque_name name); [|done].
    exists (opaques (k_disk w)). split; [apply set_opaques_id|]. by intros.
Qed.

(** What is proved of a program under [DISK] holds of its run. *)
Lemma disk_run {A} Inv Dv (p : prog A) w Q : k_ok roots w →
  wp (DISK k_dir_of roots Inv Dv) p (k_disk w) Q →
  match run disk_kernel p w with
  | Some (a, w') => Q a (k_disk w') ∧ k_ok roots w'
  | None => Dv
  end.
Proof using.
  intros Hok Hwp.
  pose proof (wp_run (DISK k_dir_of roots Inv Dv) disk_kernel (λ U w, U = k_disk w ∧ k_ok roots w)
    p (k_disk w) w Q) as Hr.
  assert (match run disk_kernel p w with
    | Some (a, w') => ∃ g', Q a g' ∧ g' = k_disk w' ∧ k_ok roots w'
    | None => Dv ∨ False
    end) as Hres.
  { apply Hr; [|done|done]. intros U c w1 [-> Hok1] _. destruct (disk_kernel_ok c w1 Hok1) as [H1 H2].
    eexists. split; [exact H1|done]. }
  destruct (run _ _ _) as [[a w']|]; [|by destruct Hres]. by destruct Hres as (g' & HQ & -> & ?).
Qed.
End ok.
End kernel.
