(* ===== verification/DiskRuns.v ===== *)
(** * Mounts on a concrete disk

    The kernel of DiskKernel.v below the mount of Session.v: the properties of
    the disk at concrete states, and runs of whole sessions in which what was
    removed comes back, or cannot be removed. *)

From S2P Require Import Prelude Libc Mapping Xattr ConfigData Config Sys Openat2 Node DataSource.
From S2P Require Import Whiteout Layer Copyup Overlay Merge Ops OpsTree OpsFile Requests Session.
From S2P Require Import Disk Effects Visible CopyDisk CopyDirs Removal Creating CreatingDirs TwoNames Linking.
From S2P Require Import Branch Renaming DiskKernel.
Local Open Scope Z_scope.

#[local] Existing Instances F64_Z DevT_halves HashOrder_elements.

(** The upper layer is the directory 3, the lower one 4, the work directory 5. *)
Definition demo_roots : gset Z := {[3; 4; 5]}.
Lemma demo_roots_in : 3 ∈ demo_roots ∧ 5 ∈ demo_roots ∧ ∀ x, x ∈ [3; 4] → x ∈ demo_roots.
Proof. split_and!; set_solver. Qed.
Definition reg (i : Z) : Ent := {| e_id := i; e_type := S_IFREG; e_rdev := 0 |}.
Definition kernel_state (U : Disk) (whiteout : bool) : KState :=
  {| k_disk := U; k_next := 1000; k_mknod := true; k_whiteout := whiteout |}.
(** A file [f] in the lower layer; a directory [d] with a file [x]. *)
Definition lower_f : Disk := {| entries := {[ (4, bs "f") := reg 101 ]}; opaques := ∅ |}.
Definition lower_d : Disk := {| entries := {[ (4, bs "d") := dir_ent 102; (102, bs "x") := reg 103 ]}; opaques := ∅ |}.

Definition on_disk (w : KState) (rqs : list FuseRequest) : option (list (FsResult Reply) * OverlayFs * KState) :=
  run disk_kernel (session 8 demo_config rqs demo_fs) w.
(** The mount with the nodes and the inodes some requests have left. *)
Definition fs_after (U : Disk) (rqs : list FuseRequest) : OverlayFs :=
  let s := match on_disk (kernel_state U true) rqs with Some ((_, s), _) => inner s | None => inner demo_fs end in
  set_inner (set_inodes (inodes s) (set_nodes (nodes s) (inner demo_fs))) demo_fs.

(** ** The hypotheses of the properties can hold *)

Definition user : Request := {| req_uid := 1; req_gid := 1 |}.
(** *** A file two levels down *)

Lemma child_dir U ds c ds' : child U ds c = SDir ds' →
  ∃ d e, d ∈ ds ∧ at_ U d c = Some e ∧ e_dir e = true.
Proof.
  induction ds as [|d ds IH]; [done|]. cbn. destruct (entry_in U d c) as [[e|]|] eqn:Ee; [|done|].
  - apply entry_inv in Ee as (He & _). destruct (e_dir e) eqn:Ed; [|done]. intros _. exists d, e. split; [left|done].
  - intros (x & e & Hx & He)%IH. exists x, e. split; [by right|done].
Qed.
Lemma lower_d_dirs d c e : at_ lower_d d c = Some e → e_dir e = true → d = 4 ∧ c = bs "d".
Proof.
  unfold at_, lower_d. cbn [entries]. intros [[[= <- <-] <-]|[_ [_ <-]%lookup_singleton_Some]]%lookup_insert_Some; done.
Qed.
Lemma lower_d_tree cs ds : see lower_d [3; 4] cs = SDir ds → cs = [] ∧ ds = [3; 4] ∨ cs = [bs "d"] ∧ ds = [102].
Proof.
  destruct cs as [|c cs]; [intros [= <-]; by left|]. cbn [see]. intros Hs. right.
  destruct (child lower_d [3; 4] c) as [| |ds1] eqn:E; [by destruct cs..|].
  destruct (child_dir _ _ _ _ E) as (d & e & _ & He & Hd). destruct (lower_d_dirs _ _ _ He Hd) as [-> ->].
  vm_compute in E. injection E as <-. destruct cs as [|c cs]; [by injection Hs as <-|]. cbn [see] in Hs.
  destruct (child lower_d [102] c) as [| |ds2] eqn:E; [by destruct cs..|].
  destruct (child_dir _ _ _ _ E) as (x & e' & Hx%list_elem_of_singleton & He' & Hd').
  destruct (lower_d_dirs _ _ _ He' Hd') as [-> _]. done.
Qed.
Lemma lower_d_root : in_tree lower_d [3; 4] [] 3 5 [4].
Proof.
  split; [done| |by apply (bool_decide_unpack _)| |done].
  - intros cs ds _ [[-> _]|[_ ->]]%lower_d_tree; [done|]. intros ?%list_elem_of_singleton. done.
  - intros cs ds _ [[_ ->]|[_ ->]]%lower_d_tree; by apply (bool_decide_unpack _).
Qed.

(** [d] and the file [x] in it have been looked up; they are nodes 2 and 3. *)
Definition found_x_fs : OverlayFs := fs_after lower_d [RqLookup 1 (bs "d"); RqLookup 102 (bs "x"); RqOpendir 102].
Definition found_x : CopyState := get_copy (inner found_x_fs).
Lemma found_x_nodes : cs_nodes found_x = nodes (inner found_x_fs).
Proof. unfold found_x, get_copy. by cbn [cs_nodes]. Qed.
Lemma lower_d_others d x : d ≠ 4 → d ≠ 102 → at_ lower_d d x = None.
Proof. intros H1 H2. unfold at_, lower_d. cbn [entries]. by rewrite lookup_insert_ne, lookup_singleton_ne by congruence. Qed.
Lemma lower_d_site (s : CopyState) (r n : OvlNode) :
  arena_get (cs_nodes s) 1 = Some r → layer_idx r = 0%nat → compute_path (cs_nodes s) 1 = Some (bs ".") →
  arena_get (cs_nodes s) 2 = Some n → name n = bs "d" → parent n = Some 1 → layer_idx n = 1%nat →
  compute_path (cs_nodes s) 2 = Some (child_path (bs ".") (bs "d")) →
  site demo_layers [3; 4] 3 5 s lower_d [2; 1] (child_path (bs ".") (name n)).
Proof.
  intros Hr Hz Hp Hn Hname Hpar Hl Hpath.
  apply (site_low _ _ _ _ _ _ 2 1 [] (bs ".") n (from_datasource (demo_source 4) true) [102]); rewrite ?Hname, ?Hl.
  - eapply (site_up _ _ _ _ _ _ 1 (bs ".") r 3 [4]); [exact Hr|exact Hz|exact Hp|exact lower_d_root|reflexivity].
  - by apply (bool_decide_unpack _).
  - exact Hn.
  - exact Hpar.
  - done.
  - reflexivity.
  - apply direct_quiet.
  - by apply (bool_decide_unpack _).
  - by apply (bool_decide_unpack _).
  - exact Hpath.
  - reflexivity.
  - intros pn D lows _ _ Ht. pose proof (it_dir _ _ _ _ _ _ Ht) as [= <- <-]. by rewrite !lower_d_others.
Qed.
Lemma found_x_site : site demo_layers [3; 4] 3 5 found_x lower_d [2; 1] (bs "d").
Proof.
  assert (∃ n, arena_get (cs_nodes found_x) 2 = Some n ∧ name n = bs "d" ∧ parent n = Some 1 ∧ layer_idx n = 1%nat)
    as (n & Hn & Hname & Hpar & Hl) by (eexists; split; [vm_compute; reflexivity|by vm_compute]).
  change (bs "d") with (child_path (bs ".") (bs "d")). rewrite <-Hname.
  eapply (lower_d_site _ _ n); [vm_compute; reflexivity|reflexivity|vm_compute; reflexivity|exact Hn|exact Hname|
    exact Hpar|exact Hl|vm_compute; reflexivity].
Qed.
Lemma found_x_room : room 5 found_x lower_d 4.
Proof. split_and!; [by vm_compute|by vm_compute|]. intros c _. by apply lower_d_others. Qed.
Lemma found_x_copyable k : (k <= 1)%nat → ∃ n, layer_idx n = 1%nat ∧ name n = bs "x" ∧ last_layer_idx n = 1%nat ∧
  copyable k_dir_of demo_roots demo_layers 5 found_x lower_d [3; 4] 3 n [2; 1] 3 5 102 (bs "d") (bs "x") (reg 103) k.
Proof.
  intros Hk.
  assert (∃ n, arena_get (cs_nodes found_x) 3 = Some n ∧ parent n = Some 2 ∧ layer_idx n = 1%nat ∧ name n = bs "x" ∧
    last_layer_idx n = 1%nat ∧ compute_path (cs_nodes found_x) 3 = Some (child_path (bs "d") (bs "x")))
    as (n & Hn & Hpar & Hl & Hname & Hlast & Hpath) by (eexists; split; [vm_compute; reflexivity|by vm_compute]).
  exists n. split_and!; [done..|]. pose proof found_x_site as Hsite. pose proof found_x_room as Hroom.
  generalize dependent found_x. intros s Hn Hpath Hsite Hroom. split.
  - by exists (from_datasource (demo_source 3) false).
  - exact demo_roots_in.
  - split_and!; [exact Hn|exact Hpar|by apply (bool_decide_unpack _)|exact Hpath].
  - split; [exact Hsite|]. destruct Hroom as (? & ? & ?). split_and!; [done|cbn [length] in *; lia|done].
  - rewrite Hl. exists (from_datasource (demo_source 4) true), 4. split; [reflexivity|]. split; [intros Inv; apply direct_disk|].
    split_and!; reflexivity.
  - reflexivity.
  - split; [left|]. split; [by apply (bool_decide_unpack _)|done].
Qed.
Lemma copyup_is_unseen_witness :
  let safe V := (shows_same lower_d [3; 4] V ∧
    ∀ d y e, y ≠ bs "x" → y ≠ WH_PREFIX ++ bs "x" → at_ lower_d d y = Some e → at_ V d y = Some e) in
  sm_wp (DISK k_dir_of demo_roots safe True) (copyup 8 demo_layers 5 3) found_x lower_d
    (λ r s' V, safe V ∧
       (r = Ok tt → (∃ D e, walk V 3 (comps (bs "d")) = Some D ∧ at_ V D (bs "x") = Some e ∧ same_kind (reg 103) e) ∧
          ∃ n, arena_get (cs_nodes s') 3 = Some n ∧ layer_idx n = 0%nat)).
Proof.
  destruct (found_x_copyable 0 ltac:(lia)) as (n & _ & _ & _ & Hcb).
  exact (copyup_is_unseen k_dir_of demo_roots 8 demo_layers 5 found_x lower_d [3; 4] 3 n [2; 1] 3 5 102 (bs "d") (bs "x")
    (reg 103) Hcb).
Defined.

(** The file can be removed, too: the directory [d] is inode 102. *)
Lemma found_x_removable : ∃ n, needs_whiteout (inner found_x_fs) n = true ∧
  removable k_dir_of demo_roots (inner found_x_fs) lower_d [3; 4] 102 (bs "x") (bs "d") 5 102 n (reg 103).
Proof.
  destruct (found_x_copyable 1 ltac:(lia)) as (n & Hl & Hname & Hlast & Hcb).
  pose proof Hcb as [_ _ (Hn & Hpar & _ & Hpath) _ _ _ _].
  assert (needs_whiteout (inner found_x_fs) n = true) as Hnw by (unfold needs_whiteout; by rewrite Hlast).
  exists n. split; [exact Hnw|].
  eapply (removable_low _ _ _ _ _ _ _ _ _ _ _ _ (from_datasource (demo_source 3) false) 2 3 3 [1]);
    [|by rewrite Hl|exact Hnw|exact Hcb|done].
  rewrite found_x_nodes in Hn, Hpath.
  split; [reflexivity|split; [reflexivity|vm_compute; reflexivity]|vm_compute; reflexivity| | |exact Hpath|vm_compute; reflexivity].
  - eexists. split; vm_compute; reflexivity.
  - split_and!; [exact Hn|exact Hname|exact Hpar|done].
Qed.
Lemma removal_is_seen_witness : ∃ n, needs_whiteout (inner found_x_fs) n = true ∧
  let kept := object_kept [3; 4] 5 102 (bs "d") (bs "x") (reg 103) lower_d in
  let gone := name_gone [3; 4] 5 102 (bs "d") (bs "x") (needs_whiteout (inner found_x_fs) n) lower_d in
  sm_wp (DISK k_dir_of demo_roots (λ V, kept V ∨ gone V) True) (do_rm 8 demo_config 102 (bs "x") false)
    found_x_fs lower_d (λ r _ V, match r with Ok _ => gone V | Err _ => kept V end).
Proof.
  destruct found_x_removable as (n & Hnw & Hrm). exists n. split; [exact Hnw|].
  refine (removal_is_seen k_dir_of demo_roots 8 demo_config found_x_fs lower_d [3; 4] 102 (bs "x") (bs "d") false
    5 102 n (reg 103) _ eq_refl Hrm _); [by apply (bool_decide_unpack _)|done].
Defined.


(** And it can be given a second name in [d], which has been listed. *)
Lemma found_x_linkable :
  linkable k_dir_of demo_roots [3; 4] 3 5 lower_d (bs "d") (bs "x") (bs "d") (bs "y") (reg 103)
    (inner found_x_fs) 103 102 3 2 2.
Proof.
  assert (∃ dpn, nodes_get (inner found_x_fs) 2 = Some dpn ∧ get_child dpn (bs "y") = None ∧ is_loaded dpn = true)
    as (dpn & Hd & Hch & Hld) by (eexists; split; [vm_compute; reflexivity|by vm_compute]).
  destruct (found_x_copyable 0 ltac:(lia)) as (n & Hl & _ & _ & Hcb). pose proof Hcb as [_ _ (Hn & _) _ _ _ _].
  rewrite found_x_nodes in Hn. split.
  - exists (from_datasource (demo_source 3) false). split; [reflexivity|]. split; [reflexivity|]. intros Inv. apply direct_disk.
  - vm_compute. reflexivity.
  - exists dpn. split_and!; [discriminate|vm_compute; reflexivity|exact Hd|exact Hch|right; exact Hld].
  - eapply source_low; [exact Hn|rewrite Hl; discriminate|exact Hcb].
  - apply target_same; reflexivity.
  - split_and!; apply (bool_decide_unpack _); exact I.
  - reflexivity.
Qed.
Lemma link_is_seen_witness :
  let before := link_before [3; 4] 3 lower_d (bs "x") (bs "d") (bs "y") in
  let after := link_after [3; 4] 3 lower_d (bs "d") (bs "x") (bs "d") (bs "y") (reg 103) in
  sm_wp (DISK k_dir_of demo_roots (λ V, before V ∨ after V) True) (serve 8 demo_config (RqLink 103 102 (bs "y"))) found_x_fs lower_d
    (λ r _ V, match r with Ok _ => after V | Err _ => before V ∨ after V end).
Proof.
  exact (link_is_seen k_dir_of demo_roots 8 [3; 4] 3 5 lower_d (bs "d") (bs "x") (bs "d") (bs "y") (reg 103) found_x_fs
    103 102 3 2 2 found_x_linkable demo_config ltac:(by eexists)).
Defined.

(** And it can be renamed there. *)
Lemma lower_d_names d x y : at_ lower_d d x = Some y → x = bs "d" ∨ x = bs "x".
Proof.
  unfold at_, lower_d. cbn [entries].
  intros [[[= _ <-] _]|[_ [[= _ <-] _]%lookup_singleton_Some]]%lookup_insert_Some; [by left|by right].
Qed.
Lemma found_x_nodes_facts : ∃ n dpn,
  (nodes_get (inner found_x_fs) 3 = Some n ∧ parent n = Some 2 ∧ is_dir n = false ∧ last_layer_idx n = 1%nat) ∧
  (nodes_get (inner found_x_fs) 2 = Some dpn ∧ parent dpn = Some 1 ∧ name dpn = bs "d") ∧
  get_child dpn (bs "y") = None ∧ get_child dpn (bs "x") = Some 3 ∧ is_loaded dpn = true.
Proof.
  eexists _, _. split; [split; [vm_compute; reflexivity|split_and!; by vm_compute]|].
  split; [split; [vm_compute; reflexivity|split; by vm_compute]|]. split_and!; by vm_compute.
Qed.
Lemma found_x_root : ∃ r, nodes_get (inner found_x_fs) 1 = Some r ∧ parent r = None.
Proof. eexists. split; [vm_compute; reflexivity|by vm_compute]. Qed.
Lemma demo_quiet i l : layers (inner found_x_fs) !! i = Some l → QuietSource (ds l).
Proof.
  change (layers (inner found_x_fs)) with demo_layers.
  destruct i as [|[|i]]; cbn; [intros [= <-]; apply direct_quiet|intros [= <-]; apply direct_quiet|by destruct i].
Qed.
Lemma found_x_renamable :
  renamable k_dir_of demo_roots [3; 4] 3 5 lower_d (bs "d") (bs "x") (bs "d") (bs "y") (reg 103) 0
    (inner found_x_fs) 102 102 3 2 2 1.
Proof.
  destruct found_x_nodes_facts as (n & dpn & (Hn & Hpar & Hd & Hlast) & (Hdpn & Hdp & Hdn) & Hy & Hx & Hld).
  destruct found_x_root as (r & Hr & Hrp). destruct found_x_linkable as [_ _ _ Hso Hta Hnames _].
  split.
  - exists (from_datasource (demo_source 3) false). split; reflexivity.
  - exact demo_quiet.
  - split; [vm_compute; reflexivity|]. exists dpn. split; [exact Hdpn|exact Hx].
  - exists n. split_and!; assumption.
  - exists [2], [name dpn], dpn. split; [|split; [vm_compute; reflexivity|split; [exact Hdpn|split]]].
    + eapply (branch_child _ 2 dpn 1 [] []); [exact Hdpn|exact Hdp|eapply branch_root; [exact Hr|exact Hrp]].
    + intros _. right. exact Hld.
    + intros j Hj. rewrite Hy in Hj. discriminate Hj.
  - vm_compute. reflexivity.
  - exact Hso.
  - exact Hta.
  - exact Hnames.
  - split; apply (bool_decide_unpack _); exact I.
  - intros dd E. vm_compute in E. discriminate E.
  - intros d y Hat. destruct (lower_d_names _ _ _ Hat) as [E|E]; discriminate E.
  - left. reflexivity.
Qed.
Lemma rename_is_seen_witness :
  let before := steady [3; 4] lower_d (bs "x") in
  let after := name_moved [3; 4] 3 lower_d (bs "d") (bs "x") (bs "d") (bs "y") (reg 103) in
  let hides := name_hidden [3; 4] (bs "d") (bs "x") in
  sm_wp (DISK_where k_dir_of demo_roots (λ V, before V ∨ after V) true)
    (serve 8 demo_config (RqRename 102 (bs "x") 102 (bs "y") 0)) found_x_fs lower_d
    (λ r _ V, match r with
              | Ok _ => after V ∧ (true = true → (0 < 1)%nat → hides V)
              | Err _ => before V
              end).
Proof.
  exact (rename_is_seen k_dir_of demo_roots true 8 demo_config [3; 4] 3 5 lower_d (bs "d") (bs "x") (bs "d") (bs "y")
    (reg 103) 0 found_x_fs 102 102 3 2 2 1 found_x_renamable).
Defined.

(** A file can be made in [d], which has been listed and is node 2. *)
Definition listed_d : OverlayFs := fs_after lower_d [RqLookup 1 (bs "d"); RqOpendir 102].
Lemma listed_d_parent : ∃ n, last_layer_idx n = 1%nat ∧ name n = bs "d" ∧
  parent_low k_dir_of demo_roots [3; 4] 3 5 (from_datasource (demo_source 3) false) 102 2 1 [] n (bs ".") (bs "g")
    lower_d (inner listed_d).
Proof.
  assert (∃ n, nodes_get (inner listed_d) 2 = Some n ∧ name n = bs "d" ∧ parent n = Some 1 ∧ layer_idx n = 1%nat ∧
    last_layer_idx n = 1%nat ∧ get_child n (bs "g") = None ∧ is_loaded n = true)
    as (n & Hn & Hname & Hpar & Hl & Hlast & Hch & Hld) by (eexists; split; [vm_compute; reflexivity|by vm_compute]).
  exists n. split_and!; [done..|]. split.
  - reflexivity.
  - split; [reflexivity|vm_compute; reflexivity].
  - exact demo_roots_in.
  - split_and!; [by discriminate|vm_compute; reflexivity|exact Hn|exact Hch|by right].
  - exists 4, (dir_ent 102). split; [split_and!; [exact Hn|exact Hpar|by rewrite Hl]|vm_compute; reflexivity|].
    rewrite Hl, Hname. exists (from_datasource (demo_source 4) true), 4.
    split; [reflexivity|]. split; [intros Inv; apply direct_disk|]. split_and!; reflexivity.
  - eapply (lower_d_site _ _ n); [vm_compute; reflexivity|reflexivity|vm_compute; reflexivity|exact Hn|exact Hname|
      exact Hpar|exact Hl|vm_compute; reflexivity].
  - split_and!; [by vm_compute|by vm_compute|]. intros c _. by apply lower_d_others.
Qed.
Lemma creation_is_seen_witness :
  sm_wp (DISK k_dir_of demo_roots (λ V, others_same [3; 4] 5 (bs "g") (bs "d") lower_d V ∧
           (created [3; 4] (bs "g") (bs "d") S_IFREG 0 1 lower_d V ∨ not_created [3; 4] (bs "g") (bs "d") S_IFREG lower_d V))
         True)
    (serve 8 demo_config (RqCreate user 102 (bs "g") 420 O_RDWR)) listed_d lower_d
    (λ r _ V, others_same [3; 4] 5 (bs "g") (bs "d") lower_d V ∧
       match r with
       | Ok _ => created [3; 4] (bs "g") (bs "d") S_IFREG 0 1 lower_d V
       | Err _ => created [3; 4] (bs "g") (bs "d") S_IFREG 0 1 lower_d V ∨
                  not_created [3; 4] (bs "g") (bs "d") S_IFREG lower_d V
       end).
Proof.
  destruct listed_d_parent as (n & Hlast & Hname & Hpl).
  apply (creation_is_seen k_dir_of demo_roots 8 demo_config ltac:(by eexists) [3; 4] 5 102 (bs "g") (bs "d") S_IFREG 0 1
    lower_d listed_d (RqCreate user 102 (bs "g") 420 O_RDWR) eq_refl eq_refl).
  eapply creatable_below with (R := 3) (u := from_datasource (demo_source 3) false) (pid := 2) (ppid := 1) (ids := [])
    (pn := n) (pp0 := bs ".");
    [exact Hpl|by rewrite Hname|exact Hlast|intros Inv; apply direct_disk|reflexivity|by apply (bool_decide_unpack _)|
     by apply (bool_decide_unpack _)].
Defined.

(** ** Runs *)

(** The errno of a reply, if it is one. *)
Definition errno_of (r : FsResult Reply) : option Z :=
  match r with Ok _ => None | Err e => Some e end.
(** The errnos of a session on the disk, and what it leaves there. *)
Definition errnos (w : KState) (rqs : list FuseRequest) : option (list (option Z) * KState) :=
  (λ x : list (FsResult Reply) * OverlayFs * KState, (errno_of <$> x.1.1, x.2)) <$> on_disk w rqs.
(** The same, and those of a new mount of what is left. *)
Definition remounted_on (w : KState) (rqs rqs' : list FuseRequest) : option (list (option Z) * list (option Z)) :=
  '(es, w) ← errnos w rqs;
  '(es', _) ← errnos w rqs';
  Some (es, es').
Definition remounted (U : Disk) := remounted_on (kernel_state U true).

(** Names that were removed come back.  A lower file [f] is unlinked, created
    again and unlinked again: the second removal leaves no whiteout, because
    neither the new node nor the root is marked as merged, and [f] is found in
    the lower layer.  The same happens when the new file is renamed away.  A
    directory that is made where a lower one was removed, or renamed to its name,
    is not opaque, and the next mount merges the old contents in.  And a mknod of
    the device 0:0 where a name was removed takes its own device for a whiteout
    and removes it. *)
Theorem recreated_names_resurface :
  fst <$> errnos (kernel_state lower_f true)
    [RqLookup 1 (bs "f"); RqUnlink 1 (bs "f"); RqLookup 1 (bs "f");
     RqMknod user 1 (bs "f") S_IFREG 0; RqUnlink 1 (bs "f"); RqLookup 1 (bs "f")]
  = Some [None; None; Some ENOENT; None; None; None] ∧
  fst <$> errnos (kernel_state lower_d true)
    [RqLookup 1 (bs "d"); RqLookup 102 (bs "x"); RqUnlink 102 (bs "x"); RqLookup 102 (bs "x");
     RqMknod user 102 (bs "x") S_IFREG 0; RqRename 102 (bs "x") 102 (bs "y") 0; RqLookup 102 (bs "x")]
  = Some [None; None; None; Some ENOENT; None; None; None] ∧
  remounted lower_d
    [RqLookup 1 (bs "d"); RqLookup 102 (bs "x"); RqUnlink 102 (bs "x"); RqRmdir 1 (bs "d");
     RqLookup 1 (bs "d"); RqMkdir user 1 (bs "d") 493]
    [RqLookup 1 (bs "d"); RqLookup 102 (bs "x")]
  = Some ([None; None; None; None; Some ENOENT; None], [None; None]) ∧
  remounted lower_d
    [RqLookup 1 (bs "d"); RqLookup 102 (bs "x"); RqUnlink 102 (bs "x"); RqRmdir 1 (bs "d");
     RqLookup 1 (bs "d"); RqMkdir user 1 (bs "e") 493; RqRename 1 (bs "e") 1 (bs "d") 0]
    [RqLookup 1 (bs "d"); RqLookup 102 (bs "x")]
  = Some ([None; None; None; None; Some ENOENT; None; None], [None; None]) ∧
  remounted lower_f
    [RqLookup 1 (bs "f"); RqUnlink 1 (bs "f"); RqMknod user 1 (bs "f") S_IFCHR (makedev 0 0)]
    [RqLookup 1 (bs "f")]
  = Some ([None; None; Some ENOENT], [None]).
Proof. split_and!; vm_compute; reflexivity. Qed.

(** Removals where whiteouts are hard to make.  Where the file system of the
    upper layer has no RENAME_WHITEOUT, a file that has something below it cannot
    be removed: the whiteout that is to hide it is made at the name the file
    still has, and mknod answers EEXIST.  Where mknod makes no device either, the
    removal leaves the file [.wh.f]; a file [g] that is then renamed to [f] does
    not take it away, as a directory would, and is hidden by it at the next
    mount. *)
Theorem removal_needs_rename_whiteout :
  (λ '(es, w), (es, at_ (k_disk w) 3 (bs "f"))) <$> errnos (kernel_state lower_f false)
    [RqLookup 1 (bs "f"); RqUnlink 1 (bs "f"); RqLookup 1 (bs "f")]
  = Some ([None; Some EEXIST; None], Some (reg 1000)) ∧
  remounted_on {| k_disk := lower_f; k_next := 1000; k_mknod := false; k_whiteout := false |}
    [RqLookup 1 (bs "f"); RqUnlink 1 (bs "f"); RqMknod user 1 (bs "g") S_IFREG 0;
     RqRename 1 (bs "g") 1 (bs "f") 0; RqLookup 1 (bs "f")]
    [RqLookup 1 (bs "f")]
  = Some ([None; None; None; None; None], [Some ENOENT]).
Proof. split; vm_compute; reflexivity. Qed.

(** A work directory an earlier mount has left something in, under its first
    name. *)
Definition stale (e : Ent) : Disk := put 5 (bs "1") e lower_f.

(** Names in the work directory are taken for free.  The counter starts at 1
    on every mount, the work directory is not emptied, and the copy of a regular
    file is opened without O_EXCL and O_TRUNC: a file an earlier mount left
    there is overwritten in part and put in place of [f].  A directory left
    there, as rmdir leaves one, makes the copy-up fail; and where a new object
    is to be made, it fails with EEXIST. *)
Theorem stale_work_file_is_published :
  (λ '(es, w), (es, at_ (k_disk w) 3 (bs "f"))) <$> errnos (kernel_state (stale (reg 200)) true)
    [RqLookup 1 (bs "f"); RqSetattr 101 (Some 420) None None None None None None]
  = Some ([None; None], Some (reg 200)) ∧
  (λ '(es, w), (es, at_ (k_disk w) 3 (bs "f"))) <$> errnos (kernel_state (stale (dir_ent 200)) true)
    [RqLookup 1 (bs "f"); RqSetattr 101 (Some 420) None None None None None None]
  = Some ([None; Some EISDIR], None) ∧
  fst <$> errnos (kernel_state (stale (reg 200)) true) [RqMkdir user 1 (bs "g") 493] = Some [Some EEXIST].
Proof. split_and!; vm_compute; reflexivity. Qed.

(** Two lower files cannot be exchanged: rename copies up the file and the two
    directories, but not the file it is exchanged with, so the upper layer has
    nothing at the second name.  Once that has been copied up for another reason,
    the exchange works. *)
Definition lower_fg : Disk := put 4 (bs "g") (reg 104) lower_f.
Lemma exchange_needs_upper_target :
  fst <$> errnos (kernel_state lower_fg true)
    [RqLookup 1 (bs "f"); RqLookup 1 (bs "g"); RqRename 1 (bs "f") 1 (bs "g") RENAME_EXCHANGE]
  = Some [None; None; Some ENOENT] ∧
  (λ '(es, w), (es, e_id <$> at_ (k_disk w) 3 (bs "f"), e_id <$> at_ (k_disk w) 3 (bs "g"))) <$>
    errnos (kernel_state lower_fg true)
      [RqLookup 1 (bs "f"); RqLookup 1 (bs "g"); RqSetattr 104 (Some 420) None None None None None None;
       RqRename 1 (bs "f") 1 (bs "g") RENAME_EXCHANGE]
  = Some ([None; None; None; None], Some 1000, Some 1001).
Proof. split; vm_compute; reflexivity. Qed.
